(* ===== verification/_CoqProject ===== *)
-Q . S2P
Prelude.v
RustStd.v
Io.v
Config.v
ConfigSet.v
Http.v
Frame.v
Huffman.v
Hpack.v
Flow.v
Stream.v
H2Headers.v
Wp.v
Connection.v
ConnInv.v
ConnReach.v
Scheduler.v
Responses.v
Termination.v
Limits.v
ThreadPool.v
Text.v
Paths.v
Conditional.v
Rules.v
RuleFile.v
RuleProps.v
Fs.v
ConfigCache.v
Metrics.v
Handler.v
HandlerProps.v
HandlerEffects.v
FastCgi.v
FastCgiRelay.v
FastCgiProps.v
FastCgiStream.v
FastCgiRequests.v
FastCgiEffects.v
Permits.v
Upstreams.v
Proxy.v
ProxyRelay.v
WebSocket.v
HealthChecker.v
UpstreamProps.v
WebSocketProps.v
ProxyWorld.v
UpgradeProps.v
ProxyRequestProps.v
ProxyEntries.v
ProxyResponses.v
ProxyStreams.v
ProxyEffects.v
Listener.v
ListenerProps.v
BackendProps.v
Server.v
ServerProps.v
ServerSafety.v
ServerEnds.v
Documents.v
Tls.v
Accept.v
AcceptProps.v
Listen.v
ListenProps.v
CommandLine.v
CommandProps.v
CommandText.v
ServerEffects.v
ListenEffects.v
