(* ===== verification/Prelude.v ===== *)
(** * VeySRS: a verification development

    VeySRS is a static and reverse-proxying web server in Rust (src/src).  A
    listener accepts connections and hands each to a worker of a thread pool;
    a worker speaks HTTP/1.1 or HTTP/2 with the peer and asks a request handler,
    a reverse proxy or a FastCGI client for the answers; rule files
    ([.veysrule]) in the document tree configure all of them and may be
    reloaded while the server runs.  This library models the code above its
    sockets, from the command line to the answers, as executable Rocq
    definitions and proves what makes it correct.

    ** Files, and the code they model

    Shared:
    - [Prelude]: this header, the [Result] type and its [let?], the
      state-and-error monad of methods with [&mut self], tactics, generic
      lemmas.
    - [RustStd], [Text]: the parts of Rust's standard library the code uses, on
      strings as UTF-8 bytes (searching, splitting, trimming, number parsing and
      printing, characters, addresses, [std::path]).
    - [Io]: [Read] and [Write] as scripts of what the environment will do.
    - [Wp]: weakest preconditions for the monad, with the hint database [wp].

    Configuration (src/config/veysrule.rs):
    - [Config], [ConfigSet]: [ServerConfig], its defaults and field updates.
    - [Rules]: networks, [DirectoryConfig] and its [merge], the tokenizer, one
      definition per arm of [parse_native_directive].
    - [RuleFile]: the keys of a root file, [parse_veysrule_content].
    - [RuleProps]: what a parsed file can set, its errors, and its panic.
    - [ConfigCache]: [ConfigManager], its loads, the rules of a path, preloading,
      validation and reload.

    Request handling (src/router/handler.rs, src/server/limits.rs,
    src/server/metrics.rs, src/server/logging.rs):
    - [Paths]: percent decoding, normalisation, escapes, MIME types.
    - [Conditional]: dates, entity tags, byte ranges.
    - [Fs]: the two no-follow walks over an arbitrary file system.
    - [Limits]: the per-address limiter.  [Metrics]: counters and log lines.
    - [Handler]: [RequestHandler] with every branch of [handle_request_inner];
      [HandlerProps], [HandlerEffects]: its theorems.

    HTTP/1.1 (src/server/http.rs): [Http], the parser and the response writer.

    HTTP/2 (src/server/http2/): [Frame], [Huffman], [Hpack], [Flow], [Stream],
    one per file there; [H2Headers] and [Connection] for connection.rs, with one
    definition per arm of [process_frame]; [ConnInv] (the invariant of a
    connection), [ConnReach] (every reachable state has it), [Scheduler] (sending
    bodies), [Responses] (header blocks both ways), [Termination] (the main loop
    ends).

    FastCGI (src/server/fastcgi.rs): [FastCgi] (routes, records, parameters, the
    head of a response, the reader an HTTP/2 stream polls), [FastCgiRelay] (the
    entries of HTTP/1.1 and the relay of a response); [FastCgiProps],
    [FastCgiStream], [FastCgiRequests], [FastCgiEffects]: their theorems.

    Reverse proxy (src/server/proxy.rs):
    - [Permits]: the lock-free counters, also the one of [ConnectionGuard].
    - [Upstreams]: round robin, health, the pool of idle connections, dialling;
      [UpstreamProps]: its theorems.
    - [HealthChecker]: the thread that probes the candidates, and its end.
    - [Proxy]: routes, the request written upstream, response heads;
      [ProxyRelay]: the relay of a response and the entries for whole, streamed
      and HTTP/2 requests; [WebSocket]: the handshake, the tunnel and [handle].
    - [ProxyWorld] (what is left on the wires), [ProxyRequestProps],
      [ProxyEntries], [ProxyResponses], [ProxyStreams], [UpgradeProps],
      [WebSocketProps]: the theorems; [ProxyEffects]: the proxy on concrete
      inputs.

    Listener (src/server/listener.rs, src/server/tls.rs):
    - [Listener]: [serve_stream], one connection from its first byte to its end;
      [ListenerProps]: its theorems, against the interface of the parts.
    - [Server]: the parts put together, for HTTP/1.1 and as the backend of the
      HTTP/2 driver; [ServerProps]: they keep the interface.
    - [BackendProps]: what an HTTP/2 connection does to its backend, whatever that
      is; [ServerSafety], [ServerEnds], [Documents]: the theorems about the whole
      server.
    - [Accept]: admission, reload and start as whole steps; [AcceptProps].
    - [Listen]: [Server::listen] from its start to its return, with the workers,
      the checker and the signals, action by action, and the job of a
      connection; [ListenProps]: its theorems, among them that a passage of the
      loop on its own is [Accept.accept].
    - [Tls]: certificates and the choice among them, the loop of the handshake.

    Command line (src/main.rs): [CommandLine] (options, configuration and
    checks), [CommandProps], [CommandText] (what is printed, the file of the
    process's number, the end of the program).  [ServerEffects] runs the listener
    and the command line on a small server, [ListenEffects] the accept loop with
    four workers.

    Workers (src/server/threadpool.rs): [ThreadPool], an interleaving of the
    atomic actions of the threads.

    ** State and effects

    A method with [&mut self] is a computation [ST S E A]: from a state to the
    state it leaves and a result; changes made before an early return stay.  The
    state of a connection is [Connection.World]: the driver's fields [Conn], the
    byte stream and what lies behind the handlers.  The request handler works on
    [Handler.RequestHandler.State]: limiter, rule cache, counters and log.  The
    pool's threads step over a shared state, and so do the threads of the two
    counters in [Permits] and the health checker beside all others.  An answer
    to a request is a value; a file it sends from is represented by its content.

    A relay works on the two connections it joins: [FastCgiRelay.Relay],
    [ProxyRelay.Proxying] with the state all proxied requests share,
    [Upstreams.Upstreams].  A connection being served is [Listener.Serving]:
    its stream and the state of the parts, [Server.Process].  What the accept
    loop publishes and counts is [Accept.Listening]; [Listen.System] adds the
    main thread's place in [listen], the two flags, the pool of
    [ThreadPool], the guards that are alive and the thread of
    [HealthChecker], and [Listen.event] is one action of one thread on it.

    Unsigned integers are [Z] in their range, with the wrap-around or the
    saturation of the operation the code uses written out; where plain
    arithmetic could overflow the release build's wrapped value is taken.  [f64]
    is [SpecFloat]'s binary64.  A function that can panic yields an [option]
    whose [None] is the panic.

    ** Interfaces

    - [Connection.Backend]: what the HTTP/2 driver asks of the handlers, the
      proxy and the FastCGI client; its theorems hold for every instance, and
      [Server.server_backend] is the one made of the modelled parts.
    - [Fs.FileSystem]: the results of the system calls on files.  They are
      arbitrary functions; [Fs.list_fs] is an instance given by a list of
      files, with which the witnesses run.  Files do not change during one call
      of the handler; the race of a reload with a load is modelled by splitting
      the load.
    - [RustStd.UnicodeCase]: the Unicode case tables; [ascii_case] is an instance.
    - [Listener.Services]: what a connection asks of the handler, the proxy,
      FastCGI and the HTTP/2 driver; [ListenerProps.ServicesLaws]: what it
      relies on.  [Server.server_services] is the instance made of the modelled
      parts, and [ServerProps.server_laws] proves its laws.
    - [BackendProps.BackendKeeps] and [ListenerProps.ServicesKeep]: a relation
      every part keeps is kept by a whole connection; [ServerSafety] has the
      instances for the server.
    - [Upstreams.network]: what dialling an authority finds, as a function of the
      attempts made before.  The script's server of FastCGI is an [Io] likewise.
    - The gzip encoder, SHA-1, base64 and the functions of the rustls crates are
      parameters of the definitions that call them.

    ** What is proved

    - Connections: every accepted stream is accounted for once and their number
      is bounded, the memory a peer can take is bounded, the send windows are
      consistent and never overspent, bodies are sent whole and in order, the
      main loop ends, header blocks may be fragmented at will in both
      directions, and a request has the content its header list describes.
    - Codecs: frames, HPACK integers, strings and header lists, Huffman codes
      and chunked bodies read back as what was written; their decoders accept
      exactly the documented inputs; the dynamic table and the windows refine
      their specifications.
    - HTTP/1.1: exactly which heads are accepted, within which limits, and what is
      read from them; that parsing is incremental, and that a response head
      cannot be split.
    - Request handling: only files beneath the root, without symbolic links, and
      only if the merged rules admit the request, pages of a 404 included; no
      header of an answer can be split by data; validators and ranges; one log
      line and one count per request; when a request panics.
    - Rules: whatever a rule file says, the configuration it yields is well
      formed; errors are isolated; merging; over any history of lookups the
      cached rules are those of the files, in development while files change
      under their time stamps, otherwise until the next reload; the walk over
      the tree is complete.
    - Documents: a file the rules let out is delivered, over HTTP/1.1 with its
      announced length and over HTTP/2 as the bytes queued for the stream, whole
      or in the part asked for.
    - Limiter, pool and shutdown: however the threads interleave, the connection
      counts are exact, each accepted connection is served once and in order
      under the configuration it was accepted with, and a signal to stop ends
      the server with every accepted connection served.
    - FastCGI: a script's server gets the parameters and the body of the request
      and nothing else, the path it is given was checked to lie beneath the
      document root, and the client gets the head as checked and the bytes of
      the records, however they are cut.
    - Reverse proxy: only candidates of the route are dialled, an upstream gets
      the rewritten request and the announced body and nothing after it, its
      server reads what was forwarded and nothing else, the client gets the head
      as rewritten and the body, nothing passes before a handshake is accepted
      and the tunnel then delivers all the upstream says, and what the client
      says while the upstream stays; the permits are exact under every
      interleaving; the pool is bounded; the health checker goes round all
      candidates and stops when told to.
    - Listener: how bytes are cut into reads does not change what a connection
      is answered; serving it ends; whatever a client says in either protocol,
      static files go out only as the rules admit the very request they answer,
      only configured upstreams are dialled and each request counted is logged;
      the global counter is the number of connections being served, and the
      limiter's counts are those of each address as long as its limit is not
      reloaded and no table entry is dropped for age; a reload publishes a checked configuration or
      changes nothing, and on unchanged files it is the one of the start.
    - Behaviour that is not what the code means to do is stated as theorems
      too: [Responses.refused_stream_not_decoded],
      [Limits.connection_limit_bypassed], [RuleProps.rule_file_total],
      [ConfigCache.reload_race_keeps_old_rules], [HandlerEffects.handler_panics],
      [HandlerEffects.head_body_of_refusals],
      [HandlerEffects.gzip_etag_never_fresh],
      [UpstreamProps.failed_upstream_never_returns],
      [ProxyRequestProps.h2_path_splits_request], and the examples of
      [FastCgiEffects], [ProxyEffects], [ServerEffects] and [ListenEffects].

    ** Fuel

    Loops that are not structural take fuel, and a theorem says how much is
    enough: [Termination.handle_connection_returns] for the loops of a
    connection, [Fs.open_beneath_fuel] for the descent into index directories
    (the depth of the tree), [ConfigCache.tree_walk_complete] for the walk over
    the document tree (its weight), [FastCgiRequests] for the loops over records,
    [ProxyStreams.proxy_loops_end] for those of the proxy,
    [WebSocketProps.tunnel_delivers] for the tunnel,
    [ListenerProps.serving_ends] for the requests of a connection,
    [ServerEnds.every_connection_ends] for connections of either protocol and
    [Tls.handshake_completes] for the handshake.  [ListenProps.shutdown_graceful]
    bounds the actions after a signal to stop.

    ** Not modelled

    - System calls on sockets, their options and time-outs, and name resolution:
      a connection is the script of its results.
    - What rustls does in a handshake and to the bytes of a session: functions
      the model is given.
    - The writing of log lines and of messages on standard error, and the [Debug]
      text of merged rules, whose maps have no fixed order.
    - In [Listen] a job is what the threads see of it, whether it panics; what it
      does is [Listen.connection_job], and that it ends is
      [ServerEnds.every_connection_ends].
    - Where a response over HTTP/2 holds its upstream permit until its body ends,
      the number of permits held is an input ([Server.permits_held]): those of
      the other threads are in it anyway. *)

From stdpp Require Export base list numbers gmap strings.
From Stdlib Require Export ZArith Lia Bool.

Declare Scope veys_scope.
Delimit Scope veys_scope with veys.
#[global] Open Scope veys_scope.
#[global] Open Scope Z_scope.

(** ** Rust's [Result] *)

Inductive result (A E : Type) : Type :=
| Ok (a : A)
| Err (e : E).
Arguments Ok {A E} a.
Arguments Err {A E} e.

(** The [?] operator: stop at the first error. *)
Definition rbind {A B E} (r : result A E) (k : A -> result B E) : result B E :=
  match r with Ok a => k a | Err e => Err e end.

Notation "'let?' x ':=' r 'in' k" := (rbind r (fun x => k))
  (at level 10, x pattern, r at level 100, k at level 200,
   format "'let?'  x  ':='  r  'in' '//' k") : veys_scope.

(** [Option::ok_or]. *)
Definition ok_or {A E} (o : option A) (e : E) : result A E :=
  match o with Some a => Ok a | None => Err e end.

(** [Iterator::try_fold]. *)
Fixpoint fold_result {A B E} (f : A -> B -> result A E) (l : list B) (a : A) : result A E :=
  match l with
  | [] => Ok a
  | b :: l => let? a := f a b in fold_result f l a
  end.

(** ** Methods with [&mut self] that return a [Result]

    A computation maps a state to the state it leaves behind and a result; the
    changes made before an early return stay. *)
Definition ST (S E A : Type) : Type := S -> S * result A E.

Definition st_ret {S E A} (a : A) : ST S E A := fun s => (s, Ok a).
Definition st_err {S E A} (e : E) : ST S E A := fun s => (s, Err e).
Definition st_get {S E} : ST S E S := fun s => (s, Ok s).
Definition st_mod {S E} (f : S -> S) : ST S E unit := fun s => (f s, Ok tt).
Definition st_res {S E A} (r : result A E) : ST S E A := fun s => (s, r).
Definition st_bind {S E A B} (m : ST S E A) (k : A -> ST S E B) : ST S E B :=
  fun s => match m s with (s', Ok a) => k a s' | (s', Err e) => (s', Err e) end.

Notation "'let!' x ':=' m 'in' k" := (st_bind m (fun x => k))
  (at level 10, x pattern, m at level 100, k at level 200,
   format "'let!'  x  ':='  m  'in' '//' k") : veys_scope.

#[global] Instance result_eq_dec {A E} `{EqDecision A, EqDecision E} :
  EqDecision (result A E).
Proof. solve_decision. Defined.

(** ** Machine integers

    A [w]-bit unsigned integer is a [Z]; [as_uN] is Rust's [as uN] cast, which
    keeps the low [N] bits, and [as_i32] the two's complement cast. *)

Definition as_u8 (z : Z) : Z := z mod 2 ^ 8.
Definition as_u16 (z : Z) : Z := z mod 2 ^ 16.
Definition as_u32 (z : Z) : Z := z mod 2 ^ 32.
Definition as_u64 (z : Z) : Z := z mod 2 ^ 64.
Definition as_i32 (z : Z) : Z :=
  let m := z mod 2 ^ 32 in if m <? 2 ^ 31 then m else m - 2 ^ 32.

Definition U64_MAX : Z := 18446744073709551615.
Definition USIZE_MAX : Z := U64_MAX.
Definition I32_MIN : Z := -2147483648.
Definition I32_MAX : Z := 2147483647.

Definition checked_add_u64 (a b : Z) : option Z :=
  if a + b <=? U64_MAX then Some (a + b) else None.
Definition saturating_add_usize (a b : Z) : Z := Z.min (a + b) USIZE_MAX.
Definition saturating_sub_usize (a b : Z) : Z := Z.max (a - b) 0.
Definition saturating_mul_usize (a b : Z) : Z := Z.min (a * b) USIZE_MAX.

(** Length of a slice, as the [usize] the code computes with. *)
Definition len {A} (l : list A) : Z := Z.of_nat (length l).

(** ** Bytes *)

Abbreviation bytes := (list Z).

Definition is_byte (b : Z) : Prop := 0 <= b < 256.
Abbreviation bytes_ok := (Forall is_byte).

#[global] Instance is_byte_dec b : Decision (is_byte b).
Proof. unfold is_byte. apply _. Defined.

(** [buf[i]] behind a bounds check made by the code. *)
Definition byte_at (buf : bytes) (i : nat) : Z := nth i buf 0.

(** Big-endian assembly of two and four bytes, as the source spells it. *)
Definition be16 (b0 b1 : Z) : Z := Z.lor (Z.shiftl b0 8) b1.
Definition be24 (b0 b1 b2 : Z) : Z :=
  Z.lor (Z.lor (Z.shiftl b0 16) (Z.shiftl b1 8)) b2.
Definition be32 (b0 b1 b2 b3 : Z) : Z :=
  Z.lor (Z.lor (Z.lor (Z.shiftl b0 24) (Z.shiftl b1 16)) (Z.shiftl b2 8)) b3.

(** [u16::to_be_bytes] and [u32::to_be_bytes]. *)
Definition u16_to_be_bytes (v : Z) : bytes := [v / 2 ^ 8 mod 256; v mod 256].
Definition u32_to_be_bytes (v : Z) : bytes :=
  [v / 2 ^ 24 mod 256; v / 2 ^ 16 mod 256; v / 2 ^ 8 mod 256; v mod 256].

(** [buf[a..b]]. *)
Definition slice (l : bytes) (a b : Z) : bytes :=
  take (Z.to_nat (b - a)) (drop (Z.to_nat a) l).

(** ** Tactics *)

(** Linear arithmetic with [/] and [mod]. *)
Ltac zlia := Z.div_mod_to_equations; lia.

(** Turn boolean comparisons in the context and the goal into propositions. *)
Ltac zbool :=
  repeat match goal with
  | H : _ && _ = true |- _ => apply andb_true_iff in H; destruct H
  | H : _ || _ = false |- _ => apply orb_false_iff in H; destruct H
  | H : negb _ = true |- _ => apply negb_true_iff in H
  | H : negb _ = false |- _ => apply negb_false_iff in H
  | H : (_ <? _) = true |- _ => apply Z.ltb_lt in H
  | H : (_ <? _) = false |- _ => apply Z.ltb_ge in H
  | H : (_ <=? _) = true |- _ => apply Z.leb_le in H
  | H : (_ <=? _) = false |- _ => apply Z.leb_gt in H
  | H : (_ =? _) = true |- _ => apply Z.eqb_eq in H
  | H : (_ =? _) = false |- _ => apply Z.eqb_neq in H
  | H : bool_decide _ = true |- _ => apply bool_decide_eq_true in H
  | H : bool_decide _ = false |- _ => apply bool_decide_eq_false in H
  | H : (_ =? _)%nat = true |- _ => apply Nat.eqb_eq in H
  | H : (_ =? _)%nat = false |- _ => apply Nat.eqb_neq in H
  | H : (_ <? _)%nat = true |- _ => apply Nat.ltb_lt in H
  | H : (_ <? _)%nat = false |- _ => apply Nat.ltb_ge in H
  | H : (_ >? _) = true |- _ => rewrite Z.gtb_lt in H
  | H : (_ >? _) = false |- _ => rewrite Z.gtb_ltb in H
  end.

(** Split on the tests of the outermost [if]/[match] of a hypothesis. *)
Ltac split_if H :=
  match type of H with
  | context [if ?b then _ else _] => let E := fresh "E" in destruct b eqn:E
  end.

(** ** Generic lemmas *)

Create HintDb veys.
Create Rewrite HintDb veys_len.

Lemma existsb_false_Forall {A} (f : A -> bool) l : existsb f l = false <-> Forall (fun x => f x = false) l.
Proof.
  induction l as [|x l IH]; cbn; [done|]. rewrite orb_false_iff, Forall_cons, IH. done.
Qed.

Lemma existsb_true_elem {A} (f : A -> bool) l : existsb f l = true <-> exists x, x ∈ l /\ f x = true.
Proof. rewrite existsb_exists. by setoid_rewrite list_elem_of_In. Qed.

Lemma rbind_ok {A B E} (r : result A E) (k : A -> result B E) b :
  rbind r k = Ok b -> exists a, r = Ok a /\ k a = Ok b.
Proof. destruct r; naive_solver. Qed.

Lemma fold_result_inv {A B E} (P : A -> Prop) (f : A -> B -> result A E) l a a' :
  (forall a b a', P a -> f a b = Ok a' -> P a') -> P a -> fold_result f l a = Ok a' -> P a'.
Proof.
  intros Hf. revert a. induction l as [|b l IH]; intros a Ha; cbn [fold_result]; [by intros [= <-]|].
  intros (a1 & H1 & H2)%rbind_ok. eapply IH; [by eapply Hf|done].
Qed.

Lemma st_bind_inv {S E A B} (m : ST S E A) (k : A -> ST S E B) s s' r :
  st_bind m k s = (s', r) ->
  (exists a s1, m s = (s1, Ok a) /\ k a s1 = (s', r)) \/
  (exists e, m s = (s', Err e) /\ r = Err e).
Proof.
  unfold st_bind. destruct (m s) as [s1 [a|e]]; [by eauto|]. intros [= <- <-]. eauto.
Qed.

Lemma len_nonneg {A} (l : list A) : 0 <= len l.
Proof. unfold len. lia. Qed.

Lemma len_app {A} (l k : list A) : len (l ++ k) = len l + len k.
Proof. unfold len. rewrite length_app. lia. Qed.

Lemma len_cons {A} (x : A) l : len (x :: l) = 1 + len l.
Proof. unfold len. cbn [length]. lia. Qed.

Lemma len_nil {A} : len (@nil A) = 0.
Proof. reflexivity. Qed.

#[export] Hint Rewrite @len_app @len_cons @len_nil : veys_len.
#[export] Hint Resolve len_nonneg : veys.

Lemma lor_add a b n :
  0 <= n -> 0 <= b < 2 ^ n -> Z.lor (Z.shiftl a n) b = a * 2 ^ n + b.
Proof.
  intros Hn Hb. rewrite <- Z.shiftl_mul_pow2 by lia.
  rewrite <- Z.lxor_lor, <- Z.add_nocarry_lxor.
  1: done.
  all: apply Z.bits_inj'; intros i Hi; rewrite Z.land_spec, Z.bits_0, Z.shiftl_spec by lia.
  all: destruct (Z.lt_ge_cases i n);
    [rewrite Z.testbit_neg_r by lia; done|].
  all: rewrite <- (Z.mod_small b (2 ^ n)) by lia;
    rewrite Z.mod_pow2_bits_high by lia; apply andb_false_r.
Qed.

Lemma be16_eq b0 b1 : is_byte b1 -> be16 b0 b1 = b0 * 2 ^ 8 + b1.
Proof. intros H. apply lor_add; unfold is_byte in H; lia. Qed.

Lemma be24_eq b0 b1 b2 : is_byte b1 -> is_byte b2 ->
  be24 b0 b1 b2 = b0 * 2 ^ 16 + b1 * 2 ^ 8 + b2.
Proof.
  unfold be24, is_byte. intros H1 H2.
  rewrite <- Z.lor_assoc, (lor_add b1), (lor_add b0); lia.
Qed.

Lemma be32_eq b0 b1 b2 b3 : is_byte b1 -> is_byte b2 -> is_byte b3 ->
  be32 b0 b1 b2 b3 = b0 * 2 ^ 24 + b1 * 2 ^ 16 + b2 * 2 ^ 8 + b3.
Proof.
  unfold be32, is_byte. intros H1 H2 H3.
  rewrite <- !Z.lor_assoc, (lor_add b2), (lor_add b1), (lor_add b0); lia.
Qed.

Lemma be16_to_be_bytes v : 0 <= v < 2 ^ 16 ->
  be16 (v / 2 ^ 8 mod 256) (v mod 256) = v.
Proof. intros H. rewrite be16_eq; unfold is_byte; zlia. Qed.

Lemma be32_to_be_bytes v : 0 <= v < 2 ^ 32 ->
  be32 (v / 2 ^ 24 mod 256) (v / 2 ^ 16 mod 256) (v / 2 ^ 8 mod 256) (v mod 256) = v.
Proof. intros H. rewrite be32_eq; unfold is_byte; zlia. Qed.

Lemma land_255 v : Z.land v 255 = v mod 256.
Proof. exact (Z.land_ones v 8 ltac:(lia)). Qed.

Lemma land_31bits v : Z.land v 2147483647 = v mod 2 ^ 31.
Proof. exact (Z.land_ones v 31 ltac:(lia)). Qed.

Lemma as_u32_id v : 0 <= v < 2 ^ 32 -> as_u32 v = v.
Proof. apply Z.mod_small. Qed.

Lemma as_i32_id v : 0 <= v <= I32_MAX -> as_i32 v = v.
Proof.
  unfold as_i32, I32_MAX. intros H. rewrite Z.mod_small by lia.
  destruct (Z.ltb_spec v (2 ^ 31)); lia.
Qed.

Lemma is_byte_mod v : is_byte (v mod 256).
Proof. unfold is_byte. zlia. Qed.

Lemma u32_to_be_bytes_ok v : bytes_ok (u32_to_be_bytes v).
Proof. repeat constructor; zlia. Qed.

Lemma u16_to_be_bytes_ok v : bytes_ok (u16_to_be_bytes v).
Proof. repeat constructor; zlia. Qed.

#[export] Hint Resolve is_byte_mod u32_to_be_bytes_ok u16_to_be_bytes_ok : veys.

Lemma eqb_neq_false a b : a <> b -> (a =? b) = false.
Proof. apply Z.eqb_neq. Qed.

(** Testing the top bit of a [k+1]-bit number. *)
Lemma land_top_bit v k :
  0 <= k -> 0 <= v < 2 ^ (k + 1) -> (Z.land v (2 ^ k) =? 0) = (v <? 2 ^ k).
Proof.
  intros Hk H. rewrite Z.pow_add_r in H by lia.
  destruct (Z.ltb_spec v (2 ^ k)).
  - apply Z.eqb_eq, Z.bits_inj'. intros i Hi. rewrite Z.land_spec, Z.bits_0.
    destruct (Z.eq_dec i k) as [->|].
    + rewrite <- (Z.mod_small v (2 ^ k)) by lia. by rewrite Z.mod_pow2_bits_high by lia.
    + rewrite (Z.pow2_bits_false k i) by lia. apply andb_false_r.
  - apply Z.eqb_neq. intros E. apply (f_equal (fun z => Z.testbit z k)) in E.
    rewrite Z.land_spec, Z.bits_0, Z.pow2_bits_true, andb_true_r in E by lia.
    apply Z.testbit_false in E; [|lia].
    rewrite <- (Z.div_unique v (2 ^ k) 1 (v - 2 ^ k)) in E by lia. done.
Qed.

Lemma land_127 v : Z.land v 127 = v mod 128.
Proof. exact (Z.land_ones v 7 ltac:(lia)). Qed.

Lemma lor_128 v : 0 <= v < 128 -> Z.lor v 128 = v + 128.
Proof.
  intros H. rewrite Z.lor_comm. pose proof (lor_add 1 v 7 ltac:(lia) H) as E.
  change (Z.shiftl 1 7) with 128 in E. lia.
Qed.

Lemma shiftl_1_mask p : 0 <= p -> Z.shiftl 1 p - 1 = Z.ones p.
Proof. intros. rewrite Z.shiftl_1_l, Z.ones_equiv. lia. Qed.

Lemma len_0_nil {A} (l : list A) : len l = 0 -> l = [].
Proof. destruct l; [done|]. rewrite len_cons. pose proof (len_nonneg l). lia. Qed.

Lemma len_1_inv {A} (l : list A) : len l = 1 -> exists x, l = [x].
Proof.
  destruct l as [|x l]; [done|]. rewrite len_cons. intros.
  rewrite (len_0_nil l) by lia. eauto.
Qed.

Lemma len_4_inv {A} (l : list A) : len l = 4 -> exists a b c d, l = [a; b; c; d].
Proof.
  unfold len. intros H. do 4 (destruct l as [|? l]; [simpl in H; lia|]).
  destruct l; [|simpl in H; lia]. eauto.
Qed.

Lemma split_len {A} (l : list A) n :
  0 <= n <= len l -> exists a b, l = a ++ b /\ len a = n.
Proof.
  intros H. exists (take (Z.to_nat n) l), (drop (Z.to_nat n) l). rewrite take_drop.
  split; [done|]. unfold len in *. rewrite length_take. lia.
Qed.

Lemma slice_full l : slice l 0 (len l) = l.
Proof.
  unfold slice, len. rewrite Z.sub_0_r, Nat2Z.id, drop_0. by apply take_ge.
Qed.

Lemma slice_length l a b :
  0 <= a -> a <= b -> b <= len l -> len (slice l a b) = b - a.
Proof. unfold slice, len. intros. rewrite length_take, length_drop. lia. Qed.

Lemma slice_split bs a b :
  0 <= a -> a <= b -> b <= len bs ->
  exists pre pad, bs = pre ++ slice bs a b ++ pad /\ len pre = a /\ len pad = len bs - b.
Proof.
  intros. exists (take (Z.to_nat a) bs), (drop (Z.to_nat (b - a)) (drop (Z.to_nat a) bs)).
  unfold slice. rewrite take_drop, take_drop. split; [done|].
  unfold len in *. rewrite length_take, !length_drop. lia.
Qed.

Lemma byte_at_cons_S x l i : byte_at (x :: l) (S i) = byte_at l i.
Proof. done. Qed.

Lemma byte_at_cons_0 x l : byte_at (x :: l) 0 = x.
Proof. done. Qed.

(** Used as a rewrite rule so that [g x] is not reduced in conversion. *)
Lemma concat_map_cons {A B} (g : A -> list B) x l :
  concat (map g (x :: l)) = g x ++ concat (map g l).
Proof. done. Qed.

Lemma sublist_map {A B} (f : A -> B) l k : sublist l k -> sublist (map f l) (map f k).
Proof. induction 1; cbn [map]; by constructor. Qed.
