(* ===== verification/RustStd.v ===== *)
(** * The parts of Rust's standard library the modelled code uses

    A [String] or [&str] is its UTF-8 byte sequence.  Searching and splitting
    at ASCII separators, [trim] (all of Unicode [White_Space]), ASCII case
    folding, [from_utf8], [parse::<usize>] and decimal/hexadecimal formatting
    are executable functions on bytes.  The Unicode case tables behind
    [to_lowercase]/[to_uppercase] are an interface, [UnicodeCase], of which the
    code only relies on the behaviour on ASCII text. *)

From S2P Require Import Prelude.

(** A string literal. *)
Definition str (s : string) : bytes :=
  map (fun a => Z.of_N (Ascii.N_of_ascii a)) (String.list_ascii_of_string s).
Arguments str s%_string_scope.

(** [==] on strings and slices. *)
Definition bytes_eqb (a b : bytes) : bool := bool_decide (a = b).

(** ** [u8] classification *)

Definition is_ascii_uppercase (b : Z) : bool := (65 <=? b) && (b <=? 90).
Definition is_ascii_lowercase (b : Z) : bool := (97 <=? b) && (b <=? 122).
Definition is_ascii_alphabetic (b : Z) : bool := is_ascii_uppercase b || is_ascii_lowercase b.
Definition is_ascii_digit (b : Z) : bool := (48 <=? b) && (b <=? 57).
Definition is_ascii_alphanumeric (b : Z) : bool := is_ascii_alphabetic b || is_ascii_digit b.

Definition byte_to_lower (b : Z) : Z := if is_ascii_uppercase b then b + 32 else b.
Definition byte_to_upper (b : Z) : Z := if is_ascii_lowercase b then b - 32 else b.
Definition to_ascii_lowercase (s : bytes) : bytes := map byte_to_lower s.
Definition to_ascii_uppercase (s : bytes) : bytes := map byte_to_upper s.

Definition eq_ignore_ascii_case (a b : bytes) : bool :=
  bytes_eqb (to_ascii_lowercase a) (to_ascii_lowercase b).

Definition is_ascii (s : bytes) : Prop := Forall (fun b => 0 <= b < 128) s.

(** [str::to_lowercase] and [str::to_uppercase] use Unicode tables; on ASCII
    text they are the ASCII maps. *)
Class UnicodeCase : Type := {
  to_lowercase : bytes -> bytes;
  to_uppercase : bytes -> bytes;
  to_lowercase_ascii : forall s, is_ascii s -> to_lowercase s = to_ascii_lowercase s;
  to_uppercase_ascii : forall s, is_ascii s -> to_uppercase s = to_ascii_uppercase s;
}.

(** The smallest implementation, used to run the model. *)
Definition ascii_case : UnicodeCase := {|
  to_lowercase := to_ascii_lowercase;
  to_uppercase := to_ascii_uppercase;
  to_lowercase_ascii _ _ := eq_refl;
  to_uppercase_ascii _ _ := eq_refl;
|}.

(** ** [std::str::from_utf8] *)

Definition cont (b : Z) : bool := (128 <=? b) && (b <=? 191).
Definition between (lo b hi : Z) : bool := (lo <=? b) && (b <=? hi).

Definition utf8_second3 (b0 b1 : Z) : bool :=
  if b0 =? 224 then between 160 b1 191
  else if b0 =? 237 then between 128 b1 159
  else between 225 b0 239 && cont b1.

Definition utf8_second4 (b0 b1 : Z) : bool :=
  if b0 =? 240 then between 144 b1 191
  else if b0 =? 244 then between 128 b1 143
  else between 241 b0 243 && cont b1.

Fixpoint utf8_valid (l : bytes) : bool :=
  match l with
  | [] => true
  | b0 :: r0 =>
      if between 0 b0 127 then utf8_valid r0 else
      match r0 with
      | [] => false
      | b1 :: r1 =>
          if between 194 b0 223 then cont b1 && utf8_valid r1 else
          match r1 with
          | [] => false
          | b2 :: r2 =>
              if between 224 b0 239 then utf8_second3 b0 b1 && cont b2 && utf8_valid r2 else
              match r2 with
              | [] => false
              | b3 :: r3 =>
                  between 240 b0 244 && utf8_second4 b0 b1 && cont b2 && cont b3
                  && utf8_valid r3
              end
          end
      end
  end.

(** ** [str::trim]: the UTF-8 encodings of the [White_Space] characters *)

Definition ws1 (b : Z) : bool := between 9 b 13 || (b =? 32).
Definition ws2 (b0 b1 : Z) : bool := (b0 =? 194) && ((b1 =? 133) || (b1 =? 160)).
Definition ws3 (b0 b1 b2 : Z) : bool :=
  ((b0 =? 225) && (b1 =? 154) && (b2 =? 128))
  || ((b0 =? 226) && (b1 =? 128)
      && (between 128 b2 138 || (b2 =? 168) || (b2 =? 169) || (b2 =? 175)))
  || ((b0 =? 226) && (b1 =? 129) && (b2 =? 159))
  || ((b0 =? 227) && (b1 =? 128) && (b2 =? 128)).

Fixpoint trim_start (l : bytes) : bytes :=
  match l with
  | [] => []
  | b0 :: r0 =>
      if ws1 b0 then trim_start r0 else
      match r0 with
      | [] => l
      | b1 :: r1 =>
          if ws2 b0 b1 then trim_start r1 else
          match r1 with
          | [] => l
          | b2 :: r2 => if ws3 b0 b1 b2 then trim_start r2 else l
          end
      end
  end.

(** The same on a reversed string. *)
Fixpoint trim_start_rev (l : bytes) : bytes :=
  match l with
  | [] => []
  | b0 :: r0 =>
      if ws1 b0 then trim_start_rev r0 else
      match r0 with
      | [] => l
      | b1 :: r1 =>
          if ws2 b1 b0 then trim_start_rev r1 else
          match r1 with
          | [] => l
          | b2 :: r2 => if ws3 b2 b1 b0 then trim_start_rev r2 else l
          end
      end
  end.

Definition trim_end (l : bytes) : bytes := rev (trim_start_rev (rev l)).
Definition trim (l : bytes) : bytes := trim_end (trim_start l).

(** ** Splitting *)

Definition cons_head (c : Z) (ls : list bytes) : list bytes :=
  match ls with [] => [[c]] | h :: t => (c :: h) :: t end.

(** [str::split(c)] for an ASCII character. *)
Fixpoint split_on (c : Z) (l : bytes) : list bytes :=
  match l with
  | [] => [[]]
  | b :: r => if b =? c then [] :: split_on c r else cons_head b (split_on c r)
  end.

(** The [split] of a string at CR LF. *)
Fixpoint split_crlf (l : bytes) : list bytes :=
  match l with
  | [] => [[]]
  | b :: r =>
      match r with
      | d :: r' =>
          if (b =? 13) && (d =? 10) then [] :: split_crlf r' else cons_head b (split_crlf r)
      | [] => [[b]]
      end
  end.

(** [str::split_once(c)]. *)
Fixpoint split_once (c : Z) (l : bytes) : option (bytes * bytes) :=
  match l with
  | [] => None
  | b :: r =>
      if b =? c then Some ([], r)
      else match split_once c r with Some (x, y) => Some (b :: x, y) | None => None end
  end.

Fixpoint starts_with (l p : bytes) {struct p} : bool :=
  match p, l with
  | [], _ => true
  | _ :: _, [] => false
  | x :: p, y :: l => (x =? y) && starts_with l p
  end.

(** [str::contains] of a substring. *)
Fixpoint contains_sub (l p : bytes) : bool :=
  starts_with l p || match l with [] => false | _ :: r => contains_sub r p end.

Definition strip_prefix (l p : bytes) : option bytes :=
  if starts_with l p then Some (drop (length p) l) else None.

(** ** Numbers *)

Fixpoint parse_digits (max : Z) (l : bytes) (acc : Z) : option Z :=
  match l with
  | [] => Some acc
  | d :: r =>
      if is_ascii_digit d then
        let acc' := acc * 10 + (d - 48) in
        if acc' <=? max then parse_digits max r acc' else None
      else None
  end.

(** [str::parse] at an unsigned type with the given maximum: an optional [+],
    then one or more digits whose value fits. *)
Definition parse_unsigned (max : Z) (s : bytes) : option Z :=
  match s with
  | [] => None
  | c :: r =>
      if c =? 43 then match r with [] => None | _ => parse_digits max r 0 end
      else parse_digits max s 0
  end.

Definition parse_usize : bytes -> option Z := parse_unsigned USIZE_MAX.

Definition digit_char (d : Z) : Z := if d <? 10 then d + 48 else d + 87.

Fixpoint radix_digits (base : Z) (fuel : nat) (n : Z) (acc : bytes) : bytes :=
  let acc := digit_char (n mod base) :: acc in
  match fuel with
  | O => acc
  | S f => if n / base =? 0 then acc else radix_digits base f (n / base) acc
  end.

(** Decimal and hexadecimal formatting of a 64-bit number: at most 20 and 16
    digits. *)
Definition to_string (n : Z) : bytes := radix_digits 10 19 n [].
Definition to_hex (n : Z) : bytes := radix_digits 16 15 n [].

(** ** Lemmas *)

Lemma bytes_eqb_eq a b : bytes_eqb a b = true <-> a = b.
Proof. apply bool_decide_eq_true. Qed.

Lemma bytes_eqb_neq a b : bytes_eqb a b = false <-> a <> b.
Proof. apply bool_decide_eq_false. Qed.

Lemma bytes_eqb_refl a : bytes_eqb a a = true.
Proof. by apply bytes_eqb_eq. Qed.

Lemma eq_ignore_ascii_case_refl a : eq_ignore_ascii_case a a = true.
Proof. apply bytes_eqb_refl. Qed.

Lemma ascii_bytes_ok s : is_ascii s -> bytes_ok s.
Proof. intros H. eapply Forall_impl; [exact H|]. unfold is_byte. simpl. lia. Qed.

Lemma ascii_utf8_valid s : is_ascii s -> utf8_valid s = true.
Proof.
  induction 1 as [|b s Hb _ IH]; [done|]. cbn [utf8_valid].
  replace (between 0 b 127) with true; [done|]. unfold between. lia.
Qed.

Lemma utf8_bytes_ok s : utf8_valid s = true -> bytes_ok s.
Proof.
  remember (length s) as n eqn:Hn. revert s Hn.
  induction (lt_wf n) as [n _ IH]. intros s -> H.
  destruct s as [|b0 r0]; [constructor|]. cbn [utf8_valid] in H.
  unfold is_byte. destruct (between 0 b0 127) eqn:E0.
  { unfold between in E0. constructor; [lia|]. eapply IH; [|done|done]. simpl; lia. }
  destruct r0 as [|b1 r1]; [done|]. destruct (between 194 b0 223) eqn:E1.
  { unfold between, cont in *. zbool. repeat (constructor; [lia|]).
    eapply IH; [|done|done]. simpl; lia. }
  destruct r1 as [|b2 r2]; [done|]. destruct (between 224 b0 239) eqn:E2.
  { zbool. unfold between, cont, utf8_second3 in *.
    assert (is_byte b1) by (unfold is_byte; unfold between, cont in *; repeat case_match; lia).
    zbool. unfold is_byte in *. repeat (constructor; [lia|]).
    eapply IH; [|done|done]. simpl; lia. }
  destruct r2 as [|b3 r3]; [done|]. zbool. unfold between, cont, utf8_second4 in *.
  assert (is_byte b1) by (unfold is_byte; unfold between, cont in *; repeat case_match; lia).
  zbool. unfold is_byte in *. repeat (constructor; [lia|]).
  eapply IH; [|done|done]. simpl; lia.
Qed.

Lemma to_ascii_lowercase_ascii s : is_ascii s -> is_ascii (to_ascii_lowercase s).
Proof.
  unfold to_ascii_lowercase. induction 1; cbn [map]; constructor; [|done].
  unfold byte_to_lower, is_ascii_uppercase. case_match; zbool; lia.
Qed.

Lemma to_ascii_lowercase_idemp s :
  to_ascii_lowercase (to_ascii_lowercase s) = to_ascii_lowercase s.
Proof.
  unfold to_ascii_lowercase. induction s as [|b s IH]; [done|]. cbn [map]. f_equal; [|done].
  unfold byte_to_lower, is_ascii_uppercase. destruct ((65 <=? b) && (b <=? 90)) eqn:E.
  - zbool. case_match; zbool; lia.
  - by rewrite E.
Qed.

(** Two strings that differ only in case are interchangeable for the
    comparison. *)
#[global] Instance eq_ignore_ascii_case_equiv :
  Equivalence (fun a b => eq_ignore_ascii_case a b = true).
Proof.
  unfold eq_ignore_ascii_case. split.
  - intros a. apply bytes_eqb_refl.
  - intros a b. rewrite !bytes_eqb_eq. done.
  - intros a b c. rewrite !bytes_eqb_eq. congruence.
Qed.

Lemma parse_digits_bound max l acc n :
  0 <= acc <= max -> parse_digits max l acc = Some n -> 0 <= n <= max.
Proof.
  revert acc. induction l as [|d l IH]; intros acc Hacc H; cbn [parse_digits] in H.
  - by simplify_eq.
  - do 2 (split_if H; [|done]). unfold is_ascii_digit in E. zbool.
    eapply IH; [|exact H]. lia.
Qed.

Lemma parse_unsigned_bound max s n :
  0 <= max -> parse_unsigned max s = Some n -> 0 <= n <= max.
Proof.
  intros Hm. unfold parse_unsigned. repeat case_match; try done;
    intros Hn; apply parse_digits_bound in Hn; lia.
Qed.
