(* ===== verification/Io.v ===== *)
(** * Byte streams

    The [Read] and [Write] traits as the code uses them, against an arbitrary
    environment.  A reader is the script of outcomes its [read] calls will have;
    a connection holds the script of the peer, the outcomes of the coming
    [write_all]/[flush] calls and the bytes put on the wire so far.  Theorems
    quantify over the scripts, that is, over every behaviour of the peer. *)

From S2P Require Import Prelude.

(** What one [read] finds: bytes, [WouldBlock]/[TimedOut], or another error.
    An empty [RData] is an end of file, and so is the end of the script. *)
Inductive ReadEvent : Type :=
| RData (d : bytes)
| RWouldBlock
| RFail.

Abbreviation Reader := (list ReadEvent).

Inductive ReadResult : Type :=
| ReadOk (d : bytes)
| ReadWouldBlock
| ReadErr.

(** [reader.read(&mut buf)] with a buffer of [n] bytes. *)
Definition read (r : Reader) (n : Z) : Reader * ReadResult :=
  match r with
  | [] => ([], ReadOk [])
  | RData d :: r' =>
      if len d <=? n then (r', ReadOk d)
      else (RData (drop (Z.to_nat n) d) :: r', ReadOk (take (Z.to_nat n) d))
  | RWouldBlock :: r' => (r', ReadWouldBlock)
  | RFail :: r' => (r', ReadErr)
  end.

(** Upper bound on the number of reads before the script is exhausted. *)
Definition event_size (e : ReadEvent) : nat :=
  match e with RData d => S (length d) | _ => 1 end.

Fixpoint reader_size (r : Reader) : nat :=
  match r with [] => O | e :: r => (event_size e + reader_size r)%nat end.

(** The bytes a reader delivers up to its first end of file or error. *)
Fixpoint reader_bytes (r : Reader) : bytes :=
  match r with
  | RData (b :: d) :: r => (b :: d) ++ reader_bytes r
  | _ => []
  end.

(** The outcome of a [write_all] or [flush]: success, or failure after some of
    the bytes went out.  The end of the script means success. *)
Inductive WriteEvent : Type :=
| WOk
| WFail (written : nat).

Record Io : Type := mkIo {
  wire : bytes;
  faults : list WriteEvent;
  incoming : Reader;
}.

Definition io_write (io : Io) (d : bytes) : Io * bool :=
  match faults io with
  | [] => (mkIo (wire io ++ d) [] (incoming io), true)
  | WOk :: fs => (mkIo (wire io ++ d) fs (incoming io), true)
  | WFail k :: fs => (mkIo (wire io ++ take k d) fs (incoming io), false)
  end.

Definition io_flush (io : Io) : Io * bool :=
  match faults io with
  | [] => (io, true)
  | WOk :: fs => (mkIo (wire io) fs (incoming io), true)
  | WFail _ :: fs => (mkIo (wire io) fs (incoming io), false)
  end.

Definition io_read (io : Io) (n : Z) : Io * ReadResult :=
  let '(r, x) := read (incoming io) n in (mkIo (wire io) (faults io) r, x).

(** ** Errors

    An [io::Error] is one of the operating system's, or its kind and message. *)

Inductive ErrorKind : Type :=
| InvalidData | InvalidInput | EofReached | PermissionDenied | TimedOut | WouldBlock | ErrNotFound | ConnectionRefused.
Inductive IoErr : Type :=
| OsError
| Custom (kind : ErrorKind) (message : bytes).

Definition invalid_data (message : bytes) : IoErr := Custom InvalidData message.

(** [reader.read_exact(&mut buf)] with a buffer of [n] bytes; a failure leaves
    what came before it consumed. *)
Fixpoint read_exact (r : Reader) (n : Z) : Reader * result bytes IoErr :=
  if n <=? 0 then (r, Ok []) else
  match r with
  | [] => ([], Err (Custom EofReached []))
  | RData [] :: r' => (r', Err (Custom EofReached []))
  | RData d :: r' =>
      if len d <=? n then
        let '(r', x) := read_exact r' (n - len d) in (r', let? e := x in Ok (d ++ e))
      else (RData (drop (Z.to_nat n) d) :: r', Ok (take (Z.to_nat n) d))
  | RWouldBlock :: r' => (r', Err (Custom WouldBlock []))
  | RFail :: r' => (r', Err OsError)
  end.

(** ** Lemmas *)

Lemma read_len r n r' d : 0 <= n -> read r n = (r', ReadOk d) -> len d <= n.
Proof.
  intros Hn. unfold read. destruct r as [|[e| |] r]; try done.
  - intros [= _ <-]. by rewrite len_nil.
  - destruct (Z.leb_spec (len e) n); intros [= _ <-]; [done|].
    unfold len in *. rewrite length_take. lia.
Qed.

Lemma read_size r n r' x :
  0 < n -> read r n = (r', x) -> r = [] \/ (reader_size r' < reader_size r)%nat.
Proof.
  intros Hn. unfold read. destruct r as [|[d| |] r]; [by left|..].
  - right. destruct (Z.leb_spec (len d) n); simplify_eq; cbn; [lia|].
    rewrite length_drop. unfold len in *. lia.
  - intros [= <- _]. right. cbn. lia.
  - intros [= <- _]. right. cbn. lia.
Qed.

Lemma read_bytes r n r' d :
  0 < n -> read r n = (r', ReadOk d) -> d <> [] ->
  reader_bytes r = d ++ reader_bytes r'.
Proof.
  intros Hn. unfold read. destruct r as [|[e| |] r]; try done.
  - intros [= _ <-]. done.
  - destruct (Z.leb_spec (len e) n) as [|Hgt]; intros [= <- <-] Hne.
    + by destruct e.
    + destruct e as [|b e]; [rewrite len_nil in Hgt; lia|]. rewrite len_cons in Hgt. unfold len in *.
      destruct (Z.to_nat n) as [|k] eqn:Hk; [lia|]. cbn [reader_bytes take drop].
      destruct (drop k e) as [|c f] eqn:Hd.
      * apply (f_equal length) in Hd. rewrite length_drop in Hd. cbn in Hd. lia.
      * cbn [reader_bytes]. rewrite <- (take_drop k e) at 1. rewrite Hd.
        cbn. by rewrite <- app_assoc.
Qed.

Lemma io_write_wire io d io' : io_write io d = (io', true) -> wire io' = wire io ++ d.
Proof. unfold io_write. repeat case_match; intros; by simplify_eq. Qed.

(** Nothing already written is lost. *)
Lemma io_write_prefix io d io' b : io_write io d = (io', b) -> wire io `prefix_of` wire io'.
Proof.
  unfold io_write. repeat case_match; intros; simplify_eq; cbn [wire]; by eexists.
Qed.

Lemma io_flush_wire io io' b : io_flush io = (io', b) -> wire io' = wire io.
Proof. unfold io_flush. repeat case_match; intros; by simplify_eq. Qed.
