(* ===== verification/Config.v ===== *)
(** * Server configuration (src/config/veysrule.rs, [ServerConfig])

    The configuration record with its route and virtual-host entries, and the
    defaults.  Paths are their byte sequences. *)

From S2P Require Import Prelude RustStd.

Record ProxyRoute : Type := mkProxyRoute {
  proxy_host : bytes;
  proxy_prefix : bytes;
  proxy_upstream : bytes;
}.

Record FastCgiRoute : Type := mkFastCgiRoute {
  fcgi_host : bytes;
  fcgi_prefix : bytes;
  fcgi_endpoint : bytes;
  fcgi_document_root : bytes;
}.

Record VhostConfig : Type := mkVhostConfig {
  vhost_host : bytes;
  vhost_root_dir : bytes;
  vhost_config_file : option bytes;
  vhost_tls_certificate : option bytes;
  vhost_tls_private_key : option bytes;
}.

Record ServerConfig : Type := mkServerConfig {
  host : bytes;
  port : Z;
  root_dir : bytes;
  config_file : bytes;
  workers : Z;
  dev_mode : bool;
  max_request_size : Z;
  max_header_size : Z;
  max_headers : Z;
  max_header_line : Z;
  max_uri_length : Z;
  read_timeout : Z;
  write_timeout : Z;
  keep_alive_timeout : Z;
  max_connections : Z;
  max_requests_per_connection : Z;
  deny_hidden_files : bool;
  http2_enabled : bool;
  http2_max_concurrent_streams : Z;
  http2_max_frame_size : Z;
  http2_max_header_block_size : Z;
  http2_initial_window_size : Z;
  tls_enabled : bool;
  tls_certificate : option bytes;
  tls_private_key : option bytes;
  vhosts : list VhostConfig;
  proxy_routes : list ProxyRoute;
  fastcgi_routes : list FastCgiRoute;
  front_controller : option bytes;
  log_format : bytes;
  access_log : bytes;
  error_log : bytes;
  rate_limit_per_second : Z;
  rate_limit_burst : Z;
  max_connections_per_ip : Z;
  security_x_content_type_options : option bytes;
  security_referrer_policy : option bytes;
  security_x_frame_options : option bytes;
  security_content_security_policy : option bytes;
  compression_enabled : bool;
  compression_level : Z;
  compression_min_size : Z;
  compression_mime_types : list bytes;
  upstream_health_interval : Z;
  upstream_health_timeout : Z;
  upstream_health_failures : Z;
  upstream_health_recovery : Z;
}.

(** [impl Default for ServerConfig]. *)
Definition server_config_default : ServerConfig := {|
  host := str "127.0.0.1";
  port := 8080;
  root_dir := str "./public";
  config_file := str "./.veysrule";
  workers := 4;
  dev_mode := false;
  max_request_size := 65536;
  max_header_size := 16384;
  max_headers := 64;
  max_header_line := 8192;
  max_uri_length := 8192;
  read_timeout := 10;
  write_timeout := 10;
  keep_alive_timeout := 10;
  max_connections := 1024;
  max_requests_per_connection := 100;
  deny_hidden_files := true;
  http2_enabled := true;
  http2_max_concurrent_streams := 100;
  http2_max_frame_size := 16384;
  http2_max_header_block_size := 65536;
  http2_initial_window_size := 65535;
  tls_enabled := false;
  tls_certificate := None;
  tls_private_key := None;
  vhosts := [];
  proxy_routes := [];
  fastcgi_routes := [];
  front_controller := None;
  log_format := str "text";
  access_log := str "stdout";
  error_log := str "stderr";
  rate_limit_per_second := 0;
  rate_limit_burst := 0;
  max_connections_per_ip := 0;
  security_x_content_type_options := Some (str "nosniff");
  security_referrer_policy := Some (str "strict-origin-when-cross-origin");
  security_x_frame_options := None;
  security_content_security_policy := None;
  compression_enabled := true;
  compression_level := 6;
  compression_min_size := 1024;
  compression_mime_types := [str "text/"; str "application/javascript"; str "application/json";
       str "application/xml"; str "image/svg+xml"];
  upstream_health_interval := 0;
  upstream_health_timeout := 2;
  upstream_health_failures := 3;
  upstream_health_recovery := 2;
|}.
