(* ===== verification/ConfigSet.v ===== *)
(** * Field updates of the configuration

    One function per field of [ServerConfig] that the parser of rule files, the
    reload or the virtual-host selection assigns. *)

From S2P Require Import Prelude RustStd Config.

Definition set_host (v : bytes) (c : ServerConfig) : ServerConfig :=
  mkServerConfig v (port c) (root_dir c) (config_file c) (workers c) (dev_mode c)
    (max_request_size c) (max_header_size c) (max_headers c) (max_header_line c)
    (max_uri_length c) (read_timeout c) (write_timeout c) (keep_alive_timeout c)
    (max_connections c) (max_requests_per_connection c) (deny_hidden_files c) (http2_enabled c)
    (http2_max_concurrent_streams c) (http2_max_frame_size c) (http2_max_header_block_size c)
    (http2_initial_window_size c) (tls_enabled c) (tls_certificate c) (tls_private_key c)
    (vhosts c) (proxy_routes c) (fastcgi_routes c) (front_controller c) (log_format c)
    (access_log c) (error_log c) (rate_limit_per_second c) (rate_limit_burst c)
    (max_connections_per_ip c) (security_x_content_type_options c) (security_referrer_policy c)
    (security_x_frame_options c) (security_content_security_policy c) (compression_enabled c)
    (compression_level c) (compression_min_size c) (compression_mime_types c)
    (upstream_health_interval c) (upstream_health_timeout c) (upstream_health_failures c)
    (upstream_health_recovery c).
Definition set_port (v : Z) (c : ServerConfig) : ServerConfig :=
  mkServerConfig (host c) v (root_dir c) (config_file c) (workers c) (dev_mode c)
    (max_request_size c) (max_header_size c) (max_headers c) (max_header_line c)
    (max_uri_length c) (read_timeout c) (write_timeout c) (keep_alive_timeout c)
    (max_connections c) (max_requests_per_connection c) (deny_hidden_files c) (http2_enabled c)
    (http2_max_concurrent_streams c) (http2_max_frame_size c) (http2_max_header_block_size c)
    (http2_initial_window_size c) (tls_enabled c) (tls_certificate c) (tls_private_key c)
    (vhosts c) (proxy_routes c) (fastcgi_routes c) (front_controller c) (log_format c)
    (access_log c) (error_log c) (rate_limit_per_second c) (rate_limit_burst c)
    (max_connections_per_ip c) (security_x_content_type_options c) (security_referrer_policy c)
    (security_x_frame_options c) (security_content_security_policy c) (compression_enabled c)
    (compression_level c) (compression_min_size c) (compression_mime_types c)
    (upstream_health_interval c) (upstream_health_timeout c) (upstream_health_failures c)
    (upstream_health_recovery c).
Definition set_root_dir (v : bytes) (c : ServerConfig) : ServerConfig :=
  mkServerConfig (host c) (port c) v (config_file c) (workers c) (dev_mode c)
    (max_request_size c) (max_header_size c) (max_headers c) (max_header_line c)
    (max_uri_length c) (read_timeout c) (write_timeout c) (keep_alive_timeout c)
    (max_connections c) (max_requests_per_connection c) (deny_hidden_files c) (http2_enabled c)
    (http2_max_concurrent_streams c) (http2_max_frame_size c) (http2_max_header_block_size c)
    (http2_initial_window_size c) (tls_enabled c) (tls_certificate c) (tls_private_key c)
    (vhosts c) (proxy_routes c) (fastcgi_routes c) (front_controller c) (log_format c)
    (access_log c) (error_log c) (rate_limit_per_second c) (rate_limit_burst c)
    (max_connections_per_ip c) (security_x_content_type_options c) (security_referrer_policy c)
    (security_x_frame_options c) (security_content_security_policy c) (compression_enabled c)
    (compression_level c) (compression_min_size c) (compression_mime_types c)
    (upstream_health_interval c) (upstream_health_timeout c) (upstream_health_failures c)
    (upstream_health_recovery c).
Definition set_config_file (v : bytes) (c : ServerConfig) : ServerConfig :=
  mkServerConfig (host c) (port c) (root_dir c) v (workers c) (dev_mode c) (max_request_size c)
    (max_header_size c) (max_headers c) (max_header_line c) (max_uri_length c) (read_timeout c)
    (write_timeout c) (keep_alive_timeout c) (max_connections c) (max_requests_per_connection c)
    (deny_hidden_files c) (http2_enabled c) (http2_max_concurrent_streams c)
    (http2_max_frame_size c) (http2_max_header_block_size c) (http2_initial_window_size c)
    (tls_enabled c) (tls_certificate c) (tls_private_key c) (vhosts c) (proxy_routes c)
    (fastcgi_routes c) (front_controller c) (log_format c) (access_log c) (error_log c)
    (rate_limit_per_second c) (rate_limit_burst c) (max_connections_per_ip c)
    (security_x_content_type_options c) (security_referrer_policy c)
    (security_x_frame_options c) (security_content_security_policy c) (compression_enabled c)
    (compression_level c) (compression_min_size c) (compression_mime_types c)
    (upstream_health_interval c) (upstream_health_timeout c) (upstream_health_failures c)
    (upstream_health_recovery c).
Definition set_workers (v : Z) (c : ServerConfig) : ServerConfig :=
  mkServerConfig (host c) (port c) (root_dir c) (config_file c) v (dev_mode c)
    (max_request_size c) (max_header_size c) (max_headers c) (max_header_line c)
    (max_uri_length c) (read_timeout c) (write_timeout c) (keep_alive_timeout c)
    (max_connections c) (max_requests_per_connection c) (deny_hidden_files c) (http2_enabled c)
    (http2_max_concurrent_streams c) (http2_max_frame_size c) (http2_max_header_block_size c)
    (http2_initial_window_size c) (tls_enabled c) (tls_certificate c) (tls_private_key c)
    (vhosts c) (proxy_routes c) (fastcgi_routes c) (front_controller c) (log_format c)
    (access_log c) (error_log c) (rate_limit_per_second c) (rate_limit_burst c)
    (max_connections_per_ip c) (security_x_content_type_options c) (security_referrer_policy c)
    (security_x_frame_options c) (security_content_security_policy c) (compression_enabled c)
    (compression_level c) (compression_min_size c) (compression_mime_types c)
    (upstream_health_interval c) (upstream_health_timeout c) (upstream_health_failures c)
    (upstream_health_recovery c).
Definition set_max_request_size (v : Z) (c : ServerConfig) : ServerConfig :=
  mkServerConfig (host c) (port c) (root_dir c) (config_file c) (workers c) (dev_mode c) v
    (max_header_size c) (max_headers c) (max_header_line c) (max_uri_length c) (read_timeout c)
    (write_timeout c) (keep_alive_timeout c) (max_connections c) (max_requests_per_connection c)
    (deny_hidden_files c) (http2_enabled c) (http2_max_concurrent_streams c)
    (http2_max_frame_size c) (http2_max_header_block_size c) (http2_initial_window_size c)
    (tls_enabled c) (tls_certificate c) (tls_private_key c) (vhosts c) (proxy_routes c)
    (fastcgi_routes c) (front_controller c) (log_format c) (access_log c) (error_log c)
    (rate_limit_per_second c) (rate_limit_burst c) (max_connections_per_ip c)
    (security_x_content_type_options c) (security_referrer_policy c)
    (security_x_frame_options c) (security_content_security_policy c) (compression_enabled c)
    (compression_level c) (compression_min_size c) (compression_mime_types c)
    (upstream_health_interval c) (upstream_health_timeout c) (upstream_health_failures c)
    (upstream_health_recovery c).
Definition set_max_header_size (v : Z) (c : ServerConfig) : ServerConfig :=
  mkServerConfig (host c) (port c) (root_dir c) (config_file c) (workers c) (dev_mode c)
    (max_request_size c) v (max_headers c) (max_header_line c) (max_uri_length c)
    (read_timeout c) (write_timeout c) (keep_alive_timeout c) (max_connections c)
    (max_requests_per_connection c) (deny_hidden_files c) (http2_enabled c)
    (http2_max_concurrent_streams c) (http2_max_frame_size c) (http2_max_header_block_size c)
    (http2_initial_window_size c) (tls_enabled c) (tls_certificate c) (tls_private_key c)
    (vhosts c) (proxy_routes c) (fastcgi_routes c) (front_controller c) (log_format c)
    (access_log c) (error_log c) (rate_limit_per_second c) (rate_limit_burst c)
    (max_connections_per_ip c) (security_x_content_type_options c) (security_referrer_policy c)
    (security_x_frame_options c) (security_content_security_policy c) (compression_enabled c)
    (compression_level c) (compression_min_size c) (compression_mime_types c)
    (upstream_health_interval c) (upstream_health_timeout c) (upstream_health_failures c)
    (upstream_health_recovery c).
Definition set_max_headers (v : Z) (c : ServerConfig) : ServerConfig :=
  mkServerConfig (host c) (port c) (root_dir c) (config_file c) (workers c) (dev_mode c)
    (max_request_size c) (max_header_size c) v (max_header_line c) (max_uri_length c)
    (read_timeout c) (write_timeout c) (keep_alive_timeout c) (max_connections c)
    (max_requests_per_connection c) (deny_hidden_files c) (http2_enabled c)
    (http2_max_concurrent_streams c) (http2_max_frame_size c) (http2_max_header_block_size c)
    (http2_initial_window_size c) (tls_enabled c) (tls_certificate c) (tls_private_key c)
    (vhosts c) (proxy_routes c) (fastcgi_routes c) (front_controller c) (log_format c)
    (access_log c) (error_log c) (rate_limit_per_second c) (rate_limit_burst c)
    (max_connections_per_ip c) (security_x_content_type_options c) (security_referrer_policy c)
    (security_x_frame_options c) (security_content_security_policy c) (compression_enabled c)
    (compression_level c) (compression_min_size c) (compression_mime_types c)
    (upstream_health_interval c) (upstream_health_timeout c) (upstream_health_failures c)
    (upstream_health_recovery c).
Definition set_max_header_line (v : Z) (c : ServerConfig) : ServerConfig :=
  mkServerConfig (host c) (port c) (root_dir c) (config_file c) (workers c) (dev_mode c)
    (max_request_size c) (max_header_size c) (max_headers c) v (max_uri_length c)
    (read_timeout c) (write_timeout c) (keep_alive_timeout c) (max_connections c)
    (max_requests_per_connection c) (deny_hidden_files c) (http2_enabled c)
    (http2_max_concurrent_streams c) (http2_max_frame_size c) (http2_max_header_block_size c)
    (http2_initial_window_size c) (tls_enabled c) (tls_certificate c) (tls_private_key c)
    (vhosts c) (proxy_routes c) (fastcgi_routes c) (front_controller c) (log_format c)
    (access_log c) (error_log c) (rate_limit_per_second c) (rate_limit_burst c)
    (max_connections_per_ip c) (security_x_content_type_options c) (security_referrer_policy c)
    (security_x_frame_options c) (security_content_security_policy c) (compression_enabled c)
    (compression_level c) (compression_min_size c) (compression_mime_types c)
    (upstream_health_interval c) (upstream_health_timeout c) (upstream_health_failures c)
    (upstream_health_recovery c).
Definition set_max_uri_length (v : Z) (c : ServerConfig) : ServerConfig :=
  mkServerConfig (host c) (port c) (root_dir c) (config_file c) (workers c) (dev_mode c)
    (max_request_size c) (max_header_size c) (max_headers c) (max_header_line c) v
    (read_timeout c) (write_timeout c) (keep_alive_timeout c) (max_connections c)
    (max_requests_per_connection c) (deny_hidden_files c) (http2_enabled c)
    (http2_max_concurrent_streams c) (http2_max_frame_size c) (http2_max_header_block_size c)
    (http2_initial_window_size c) (tls_enabled c) (tls_certificate c) (tls_private_key c)
    (vhosts c) (proxy_routes c) (fastcgi_routes c) (front_controller c) (log_format c)
    (access_log c) (error_log c) (rate_limit_per_second c) (rate_limit_burst c)
    (max_connections_per_ip c) (security_x_content_type_options c) (security_referrer_policy c)
    (security_x_frame_options c) (security_content_security_policy c) (compression_enabled c)
    (compression_level c) (compression_min_size c) (compression_mime_types c)
    (upstream_health_interval c) (upstream_health_timeout c) (upstream_health_failures c)
    (upstream_health_recovery c).
Definition set_read_timeout (v : Z) (c : ServerConfig) : ServerConfig :=
  mkServerConfig (host c) (port c) (root_dir c) (config_file c) (workers c) (dev_mode c)
    (max_request_size c) (max_header_size c) (max_headers c) (max_header_line c)
    (max_uri_length c) v (write_timeout c) (keep_alive_timeout c) (max_connections c)
    (max_requests_per_connection c) (deny_hidden_files c) (http2_enabled c)
    (http2_max_concurrent_streams c) (http2_max_frame_size c) (http2_max_header_block_size c)
    (http2_initial_window_size c) (tls_enabled c) (tls_certificate c) (tls_private_key c)
    (vhosts c) (proxy_routes c) (fastcgi_routes c) (front_controller c) (log_format c)
    (access_log c) (error_log c) (rate_limit_per_second c) (rate_limit_burst c)
    (max_connections_per_ip c) (security_x_content_type_options c) (security_referrer_policy c)
    (security_x_frame_options c) (security_content_security_policy c) (compression_enabled c)
    (compression_level c) (compression_min_size c) (compression_mime_types c)
    (upstream_health_interval c) (upstream_health_timeout c) (upstream_health_failures c)
    (upstream_health_recovery c).
Definition set_write_timeout (v : Z) (c : ServerConfig) : ServerConfig :=
  mkServerConfig (host c) (port c) (root_dir c) (config_file c) (workers c) (dev_mode c)
    (max_request_size c) (max_header_size c) (max_headers c) (max_header_line c)
    (max_uri_length c) (read_timeout c) v (keep_alive_timeout c) (max_connections c)
    (max_requests_per_connection c) (deny_hidden_files c) (http2_enabled c)
    (http2_max_concurrent_streams c) (http2_max_frame_size c) (http2_max_header_block_size c)
    (http2_initial_window_size c) (tls_enabled c) (tls_certificate c) (tls_private_key c)
    (vhosts c) (proxy_routes c) (fastcgi_routes c) (front_controller c) (log_format c)
    (access_log c) (error_log c) (rate_limit_per_second c) (rate_limit_burst c)
    (max_connections_per_ip c) (security_x_content_type_options c) (security_referrer_policy c)
    (security_x_frame_options c) (security_content_security_policy c) (compression_enabled c)
    (compression_level c) (compression_min_size c) (compression_mime_types c)
    (upstream_health_interval c) (upstream_health_timeout c) (upstream_health_failures c)
    (upstream_health_recovery c).
Definition set_keep_alive_timeout (v : Z) (c : ServerConfig) : ServerConfig :=
  mkServerConfig (host c) (port c) (root_dir c) (config_file c) (workers c) (dev_mode c)
    (max_request_size c) (max_header_size c) (max_headers c) (max_header_line c)
    (max_uri_length c) (read_timeout c) (write_timeout c) v (max_connections c)
    (max_requests_per_connection c) (deny_hidden_files c) (http2_enabled c)
    (http2_max_concurrent_streams c) (http2_max_frame_size c) (http2_max_header_block_size c)
    (http2_initial_window_size c) (tls_enabled c) (tls_certificate c) (tls_private_key c)
    (vhosts c) (proxy_routes c) (fastcgi_routes c) (front_controller c) (log_format c)
    (access_log c) (error_log c) (rate_limit_per_second c) (rate_limit_burst c)
    (max_connections_per_ip c) (security_x_content_type_options c) (security_referrer_policy c)
    (security_x_frame_options c) (security_content_security_policy c) (compression_enabled c)
    (compression_level c) (compression_min_size c) (compression_mime_types c)
    (upstream_health_interval c) (upstream_health_timeout c) (upstream_health_failures c)
    (upstream_health_recovery c).
Definition set_max_connections (v : Z) (c : ServerConfig) : ServerConfig :=
  mkServerConfig (host c) (port c) (root_dir c) (config_file c) (workers c) (dev_mode c)
    (max_request_size c) (max_header_size c) (max_headers c) (max_header_line c)
    (max_uri_length c) (read_timeout c) (write_timeout c) (keep_alive_timeout c) v
    (max_requests_per_connection c) (deny_hidden_files c) (http2_enabled c)
    (http2_max_concurrent_streams c) (http2_max_frame_size c) (http2_max_header_block_size c)
    (http2_initial_window_size c) (tls_enabled c) (tls_certificate c) (tls_private_key c)
    (vhosts c) (proxy_routes c) (fastcgi_routes c) (front_controller c) (log_format c)
    (access_log c) (error_log c) (rate_limit_per_second c) (rate_limit_burst c)
    (max_connections_per_ip c) (security_x_content_type_options c) (security_referrer_policy c)
    (security_x_frame_options c) (security_content_security_policy c) (compression_enabled c)
    (compression_level c) (compression_min_size c) (compression_mime_types c)
    (upstream_health_interval c) (upstream_health_timeout c) (upstream_health_failures c)
    (upstream_health_recovery c).
Definition set_max_requests_per_connection (v : Z) (c : ServerConfig) : ServerConfig :=
  mkServerConfig (host c) (port c) (root_dir c) (config_file c) (workers c) (dev_mode c)
    (max_request_size c) (max_header_size c) (max_headers c) (max_header_line c)
    (max_uri_length c) (read_timeout c) (write_timeout c) (keep_alive_timeout c)
    (max_connections c) v (deny_hidden_files c) (http2_enabled c)
    (http2_max_concurrent_streams c) (http2_max_frame_size c) (http2_max_header_block_size c)
    (http2_initial_window_size c) (tls_enabled c) (tls_certificate c) (tls_private_key c)
    (vhosts c) (proxy_routes c) (fastcgi_routes c) (front_controller c) (log_format c)
    (access_log c) (error_log c) (rate_limit_per_second c) (rate_limit_burst c)
    (max_connections_per_ip c) (security_x_content_type_options c) (security_referrer_policy c)
    (security_x_frame_options c) (security_content_security_policy c) (compression_enabled c)
    (compression_level c) (compression_min_size c) (compression_mime_types c)
    (upstream_health_interval c) (upstream_health_timeout c) (upstream_health_failures c)
    (upstream_health_recovery c).
Definition set_deny_hidden_files (v : bool) (c : ServerConfig) : ServerConfig :=
  mkServerConfig (host c) (port c) (root_dir c) (config_file c) (workers c) (dev_mode c)
    (max_request_size c) (max_header_size c) (max_headers c) (max_header_line c)
    (max_uri_length c) (read_timeout c) (write_timeout c) (keep_alive_timeout c)
    (max_connections c) (max_requests_per_connection c) v (http2_enabled c)
    (http2_max_concurrent_streams c) (http2_max_frame_size c) (http2_max_header_block_size c)
    (http2_initial_window_size c) (tls_enabled c) (tls_certificate c) (tls_private_key c)
    (vhosts c) (proxy_routes c) (fastcgi_routes c) (front_controller c) (log_format c)
    (access_log c) (error_log c) (rate_limit_per_second c) (rate_limit_burst c)
    (max_connections_per_ip c) (security_x_content_type_options c) (security_referrer_policy c)
    (security_x_frame_options c) (security_content_security_policy c) (compression_enabled c)
    (compression_level c) (compression_min_size c) (compression_mime_types c)
    (upstream_health_interval c) (upstream_health_timeout c) (upstream_health_failures c)
    (upstream_health_recovery c).
Definition set_tls_enabled (v : bool) (c : ServerConfig) : ServerConfig :=
  mkServerConfig (host c) (port c) (root_dir c) (config_file c) (workers c) (dev_mode c)
    (max_request_size c) (max_header_size c) (max_headers c) (max_header_line c)
    (max_uri_length c) (read_timeout c) (write_timeout c) (keep_alive_timeout c)
    (max_connections c) (max_requests_per_connection c) (deny_hidden_files c) (http2_enabled c)
    (http2_max_concurrent_streams c) (http2_max_frame_size c) (http2_max_header_block_size c)
    (http2_initial_window_size c) v (tls_certificate c) (tls_private_key c) (vhosts c)
    (proxy_routes c) (fastcgi_routes c) (front_controller c) (log_format c) (access_log c)
    (error_log c) (rate_limit_per_second c) (rate_limit_burst c) (max_connections_per_ip c)
    (security_x_content_type_options c) (security_referrer_policy c)
    (security_x_frame_options c) (security_content_security_policy c) (compression_enabled c)
    (compression_level c) (compression_min_size c) (compression_mime_types c)
    (upstream_health_interval c) (upstream_health_timeout c) (upstream_health_failures c)
    (upstream_health_recovery c).
Definition set_tls_certificate (v : option bytes) (c : ServerConfig) : ServerConfig :=
  mkServerConfig (host c) (port c) (root_dir c) (config_file c) (workers c) (dev_mode c)
    (max_request_size c) (max_header_size c) (max_headers c) (max_header_line c)
    (max_uri_length c) (read_timeout c) (write_timeout c) (keep_alive_timeout c)
    (max_connections c) (max_requests_per_connection c) (deny_hidden_files c) (http2_enabled c)
    (http2_max_concurrent_streams c) (http2_max_frame_size c) (http2_max_header_block_size c)
    (http2_initial_window_size c) (tls_enabled c) v (tls_private_key c) (vhosts c)
    (proxy_routes c) (fastcgi_routes c) (front_controller c) (log_format c) (access_log c)
    (error_log c) (rate_limit_per_second c) (rate_limit_burst c) (max_connections_per_ip c)
    (security_x_content_type_options c) (security_referrer_policy c)
    (security_x_frame_options c) (security_content_security_policy c) (compression_enabled c)
    (compression_level c) (compression_min_size c) (compression_mime_types c)
    (upstream_health_interval c) (upstream_health_timeout c) (upstream_health_failures c)
    (upstream_health_recovery c).
Definition set_tls_private_key (v : option bytes) (c : ServerConfig) : ServerConfig :=
  mkServerConfig (host c) (port c) (root_dir c) (config_file c) (workers c) (dev_mode c)
    (max_request_size c) (max_header_size c) (max_headers c) (max_header_line c)
    (max_uri_length c) (read_timeout c) (write_timeout c) (keep_alive_timeout c)
    (max_connections c) (max_requests_per_connection c) (deny_hidden_files c) (http2_enabled c)
    (http2_max_concurrent_streams c) (http2_max_frame_size c) (http2_max_header_block_size c)
    (http2_initial_window_size c) (tls_enabled c) (tls_certificate c) v (vhosts c)
    (proxy_routes c) (fastcgi_routes c) (front_controller c) (log_format c) (access_log c)
    (error_log c) (rate_limit_per_second c) (rate_limit_burst c) (max_connections_per_ip c)
    (security_x_content_type_options c) (security_referrer_policy c)
    (security_x_frame_options c) (security_content_security_policy c) (compression_enabled c)
    (compression_level c) (compression_min_size c) (compression_mime_types c)
    (upstream_health_interval c) (upstream_health_timeout c) (upstream_health_failures c)
    (upstream_health_recovery c).
Definition set_vhosts (v : list VhostConfig) (c : ServerConfig) : ServerConfig :=
  mkServerConfig (host c) (port c) (root_dir c) (config_file c) (workers c) (dev_mode c)
    (max_request_size c) (max_header_size c) (max_headers c) (max_header_line c)
    (max_uri_length c) (read_timeout c) (write_timeout c) (keep_alive_timeout c)
    (max_connections c) (max_requests_per_connection c) (deny_hidden_files c) (http2_enabled c)
    (http2_max_concurrent_streams c) (http2_max_frame_size c) (http2_max_header_block_size c)
    (http2_initial_window_size c) (tls_enabled c) (tls_certificate c) (tls_private_key c) v
    (proxy_routes c) (fastcgi_routes c) (front_controller c) (log_format c) (access_log c)
    (error_log c) (rate_limit_per_second c) (rate_limit_burst c) (max_connections_per_ip c)
    (security_x_content_type_options c) (security_referrer_policy c)
    (security_x_frame_options c) (security_content_security_policy c) (compression_enabled c)
    (compression_level c) (compression_min_size c) (compression_mime_types c)
    (upstream_health_interval c) (upstream_health_timeout c) (upstream_health_failures c)
    (upstream_health_recovery c).
Definition set_proxy_routes (v : list ProxyRoute) (c : ServerConfig) : ServerConfig :=
  mkServerConfig (host c) (port c) (root_dir c) (config_file c) (workers c) (dev_mode c)
    (max_request_size c) (max_header_size c) (max_headers c) (max_header_line c)
    (max_uri_length c) (read_timeout c) (write_timeout c) (keep_alive_timeout c)
    (max_connections c) (max_requests_per_connection c) (deny_hidden_files c) (http2_enabled c)
    (http2_max_concurrent_streams c) (http2_max_frame_size c) (http2_max_header_block_size c)
    (http2_initial_window_size c) (tls_enabled c) (tls_certificate c) (tls_private_key c)
    (vhosts c) v (fastcgi_routes c) (front_controller c) (log_format c) (access_log c)
    (error_log c) (rate_limit_per_second c) (rate_limit_burst c) (max_connections_per_ip c)
    (security_x_content_type_options c) (security_referrer_policy c)
    (security_x_frame_options c) (security_content_security_policy c) (compression_enabled c)
    (compression_level c) (compression_min_size c) (compression_mime_types c)
    (upstream_health_interval c) (upstream_health_timeout c) (upstream_health_failures c)
    (upstream_health_recovery c).
Definition set_fastcgi_routes (v : list FastCgiRoute) (c : ServerConfig) : ServerConfig :=
  mkServerConfig (host c) (port c) (root_dir c) (config_file c) (workers c) (dev_mode c)
    (max_request_size c) (max_header_size c) (max_headers c) (max_header_line c)
    (max_uri_length c) (read_timeout c) (write_timeout c) (keep_alive_timeout c)
    (max_connections c) (max_requests_per_connection c) (deny_hidden_files c) (http2_enabled c)
    (http2_max_concurrent_streams c) (http2_max_frame_size c) (http2_max_header_block_size c)
    (http2_initial_window_size c) (tls_enabled c) (tls_certificate c) (tls_private_key c)
    (vhosts c) (proxy_routes c) v (front_controller c) (log_format c) (access_log c)
    (error_log c) (rate_limit_per_second c) (rate_limit_burst c) (max_connections_per_ip c)
    (security_x_content_type_options c) (security_referrer_policy c)
    (security_x_frame_options c) (security_content_security_policy c) (compression_enabled c)
    (compression_level c) (compression_min_size c) (compression_mime_types c)
    (upstream_health_interval c) (upstream_health_timeout c) (upstream_health_failures c)
    (upstream_health_recovery c).
Definition set_front_controller (v : option bytes) (c : ServerConfig) : ServerConfig :=
  mkServerConfig (host c) (port c) (root_dir c) (config_file c) (workers c) (dev_mode c)
    (max_request_size c) (max_header_size c) (max_headers c) (max_header_line c)
    (max_uri_length c) (read_timeout c) (write_timeout c) (keep_alive_timeout c)
    (max_connections c) (max_requests_per_connection c) (deny_hidden_files c) (http2_enabled c)
    (http2_max_concurrent_streams c) (http2_max_frame_size c) (http2_max_header_block_size c)
    (http2_initial_window_size c) (tls_enabled c) (tls_certificate c) (tls_private_key c)
    (vhosts c) (proxy_routes c) (fastcgi_routes c) v (log_format c) (access_log c) (error_log c)
    (rate_limit_per_second c) (rate_limit_burst c) (max_connections_per_ip c)
    (security_x_content_type_options c) (security_referrer_policy c)
    (security_x_frame_options c) (security_content_security_policy c) (compression_enabled c)
    (compression_level c) (compression_min_size c) (compression_mime_types c)
    (upstream_health_interval c) (upstream_health_timeout c) (upstream_health_failures c)
    (upstream_health_recovery c).
Definition set_log_format (v : bytes) (c : ServerConfig) : ServerConfig :=
  mkServerConfig (host c) (port c) (root_dir c) (config_file c) (workers c) (dev_mode c)
    (max_request_size c) (max_header_size c) (max_headers c) (max_header_line c)
    (max_uri_length c) (read_timeout c) (write_timeout c) (keep_alive_timeout c)
    (max_connections c) (max_requests_per_connection c) (deny_hidden_files c) (http2_enabled c)
    (http2_max_concurrent_streams c) (http2_max_frame_size c) (http2_max_header_block_size c)
    (http2_initial_window_size c) (tls_enabled c) (tls_certificate c) (tls_private_key c)
    (vhosts c) (proxy_routes c) (fastcgi_routes c) (front_controller c) v (access_log c)
    (error_log c) (rate_limit_per_second c) (rate_limit_burst c) (max_connections_per_ip c)
    (security_x_content_type_options c) (security_referrer_policy c)
    (security_x_frame_options c) (security_content_security_policy c) (compression_enabled c)
    (compression_level c) (compression_min_size c) (compression_mime_types c)
    (upstream_health_interval c) (upstream_health_timeout c) (upstream_health_failures c)
    (upstream_health_recovery c).
Definition set_access_log (v : bytes) (c : ServerConfig) : ServerConfig :=
  mkServerConfig (host c) (port c) (root_dir c) (config_file c) (workers c) (dev_mode c)
    (max_request_size c) (max_header_size c) (max_headers c) (max_header_line c)
    (max_uri_length c) (read_timeout c) (write_timeout c) (keep_alive_timeout c)
    (max_connections c) (max_requests_per_connection c) (deny_hidden_files c) (http2_enabled c)
    (http2_max_concurrent_streams c) (http2_max_frame_size c) (http2_max_header_block_size c)
    (http2_initial_window_size c) (tls_enabled c) (tls_certificate c) (tls_private_key c)
    (vhosts c) (proxy_routes c) (fastcgi_routes c) (front_controller c) (log_format c) v
    (error_log c) (rate_limit_per_second c) (rate_limit_burst c) (max_connections_per_ip c)
    (security_x_content_type_options c) (security_referrer_policy c)
    (security_x_frame_options c) (security_content_security_policy c) (compression_enabled c)
    (compression_level c) (compression_min_size c) (compression_mime_types c)
    (upstream_health_interval c) (upstream_health_timeout c) (upstream_health_failures c)
    (upstream_health_recovery c).
Definition set_error_log (v : bytes) (c : ServerConfig) : ServerConfig :=
  mkServerConfig (host c) (port c) (root_dir c) (config_file c) (workers c) (dev_mode c)
    (max_request_size c) (max_header_size c) (max_headers c) (max_header_line c)
    (max_uri_length c) (read_timeout c) (write_timeout c) (keep_alive_timeout c)
    (max_connections c) (max_requests_per_connection c) (deny_hidden_files c) (http2_enabled c)
    (http2_max_concurrent_streams c) (http2_max_frame_size c) (http2_max_header_block_size c)
    (http2_initial_window_size c) (tls_enabled c) (tls_certificate c) (tls_private_key c)
    (vhosts c) (proxy_routes c) (fastcgi_routes c) (front_controller c) (log_format c)
    (access_log c) v (rate_limit_per_second c) (rate_limit_burst c) (max_connections_per_ip c)
    (security_x_content_type_options c) (security_referrer_policy c)
    (security_x_frame_options c) (security_content_security_policy c) (compression_enabled c)
    (compression_level c) (compression_min_size c) (compression_mime_types c)
    (upstream_health_interval c) (upstream_health_timeout c) (upstream_health_failures c)
    (upstream_health_recovery c).
Definition set_rate_limit_per_second (v : Z) (c : ServerConfig) : ServerConfig :=
  mkServerConfig (host c) (port c) (root_dir c) (config_file c) (workers c) (dev_mode c)
    (max_request_size c) (max_header_size c) (max_headers c) (max_header_line c)
    (max_uri_length c) (read_timeout c) (write_timeout c) (keep_alive_timeout c)
    (max_connections c) (max_requests_per_connection c) (deny_hidden_files c) (http2_enabled c)
    (http2_max_concurrent_streams c) (http2_max_frame_size c) (http2_max_header_block_size c)
    (http2_initial_window_size c) (tls_enabled c) (tls_certificate c) (tls_private_key c)
    (vhosts c) (proxy_routes c) (fastcgi_routes c) (front_controller c) (log_format c)
    (access_log c) (error_log c) v (rate_limit_burst c) (max_connections_per_ip c)
    (security_x_content_type_options c) (security_referrer_policy c)
    (security_x_frame_options c) (security_content_security_policy c) (compression_enabled c)
    (compression_level c) (compression_min_size c) (compression_mime_types c)
    (upstream_health_interval c) (upstream_health_timeout c) (upstream_health_failures c)
    (upstream_health_recovery c).
Definition set_rate_limit_burst (v : Z) (c : ServerConfig) : ServerConfig :=
  mkServerConfig (host c) (port c) (root_dir c) (config_file c) (workers c) (dev_mode c)
    (max_request_size c) (max_header_size c) (max_headers c) (max_header_line c)
    (max_uri_length c) (read_timeout c) (write_timeout c) (keep_alive_timeout c)
    (max_connections c) (max_requests_per_connection c) (deny_hidden_files c) (http2_enabled c)
    (http2_max_concurrent_streams c) (http2_max_frame_size c) (http2_max_header_block_size c)
    (http2_initial_window_size c) (tls_enabled c) (tls_certificate c) (tls_private_key c)
    (vhosts c) (proxy_routes c) (fastcgi_routes c) (front_controller c) (log_format c)
    (access_log c) (error_log c) (rate_limit_per_second c) v (max_connections_per_ip c)
    (security_x_content_type_options c) (security_referrer_policy c)
    (security_x_frame_options c) (security_content_security_policy c) (compression_enabled c)
    (compression_level c) (compression_min_size c) (compression_mime_types c)
    (upstream_health_interval c) (upstream_health_timeout c) (upstream_health_failures c)
    (upstream_health_recovery c).
Definition set_max_connections_per_ip (v : Z) (c : ServerConfig) : ServerConfig :=
  mkServerConfig (host c) (port c) (root_dir c) (config_file c) (workers c) (dev_mode c)
    (max_request_size c) (max_header_size c) (max_headers c) (max_header_line c)
    (max_uri_length c) (read_timeout c) (write_timeout c) (keep_alive_timeout c)
    (max_connections c) (max_requests_per_connection c) (deny_hidden_files c) (http2_enabled c)
    (http2_max_concurrent_streams c) (http2_max_frame_size c) (http2_max_header_block_size c)
    (http2_initial_window_size c) (tls_enabled c) (tls_certificate c) (tls_private_key c)
    (vhosts c) (proxy_routes c) (fastcgi_routes c) (front_controller c) (log_format c)
    (access_log c) (error_log c) (rate_limit_per_second c) (rate_limit_burst c) v
    (security_x_content_type_options c) (security_referrer_policy c)
    (security_x_frame_options c) (security_content_security_policy c) (compression_enabled c)
    (compression_level c) (compression_min_size c) (compression_mime_types c)
    (upstream_health_interval c) (upstream_health_timeout c) (upstream_health_failures c)
    (upstream_health_recovery c).
Definition set_security_x_content_type_options (v : option bytes) (c : ServerConfig) : ServerConfig :=
  mkServerConfig (host c) (port c) (root_dir c) (config_file c) (workers c) (dev_mode c)
    (max_request_size c) (max_header_size c) (max_headers c) (max_header_line c)
    (max_uri_length c) (read_timeout c) (write_timeout c) (keep_alive_timeout c)
    (max_connections c) (max_requests_per_connection c) (deny_hidden_files c) (http2_enabled c)
    (http2_max_concurrent_streams c) (http2_max_frame_size c) (http2_max_header_block_size c)
    (http2_initial_window_size c) (tls_enabled c) (tls_certificate c) (tls_private_key c)
    (vhosts c) (proxy_routes c) (fastcgi_routes c) (front_controller c) (log_format c)
    (access_log c) (error_log c) (rate_limit_per_second c) (rate_limit_burst c)
    (max_connections_per_ip c) v (security_referrer_policy c) (security_x_frame_options c)
    (security_content_security_policy c) (compression_enabled c) (compression_level c)
    (compression_min_size c) (compression_mime_types c) (upstream_health_interval c)
    (upstream_health_timeout c) (upstream_health_failures c) (upstream_health_recovery c).
Definition set_security_referrer_policy (v : option bytes) (c : ServerConfig) : ServerConfig :=
  mkServerConfig (host c) (port c) (root_dir c) (config_file c) (workers c) (dev_mode c)
    (max_request_size c) (max_header_size c) (max_headers c) (max_header_line c)
    (max_uri_length c) (read_timeout c) (write_timeout c) (keep_alive_timeout c)
    (max_connections c) (max_requests_per_connection c) (deny_hidden_files c) (http2_enabled c)
    (http2_max_concurrent_streams c) (http2_max_frame_size c) (http2_max_header_block_size c)
    (http2_initial_window_size c) (tls_enabled c) (tls_certificate c) (tls_private_key c)
    (vhosts c) (proxy_routes c) (fastcgi_routes c) (front_controller c) (log_format c)
    (access_log c) (error_log c) (rate_limit_per_second c) (rate_limit_burst c)
    (max_connections_per_ip c) (security_x_content_type_options c) v
    (security_x_frame_options c) (security_content_security_policy c) (compression_enabled c)
    (compression_level c) (compression_min_size c) (compression_mime_types c)
    (upstream_health_interval c) (upstream_health_timeout c) (upstream_health_failures c)
    (upstream_health_recovery c).
Definition set_security_x_frame_options (v : option bytes) (c : ServerConfig) : ServerConfig :=
  mkServerConfig (host c) (port c) (root_dir c) (config_file c) (workers c) (dev_mode c)
    (max_request_size c) (max_header_size c) (max_headers c) (max_header_line c)
    (max_uri_length c) (read_timeout c) (write_timeout c) (keep_alive_timeout c)
    (max_connections c) (max_requests_per_connection c) (deny_hidden_files c) (http2_enabled c)
    (http2_max_concurrent_streams c) (http2_max_frame_size c) (http2_max_header_block_size c)
    (http2_initial_window_size c) (tls_enabled c) (tls_certificate c) (tls_private_key c)
    (vhosts c) (proxy_routes c) (fastcgi_routes c) (front_controller c) (log_format c)
    (access_log c) (error_log c) (rate_limit_per_second c) (rate_limit_burst c)
    (max_connections_per_ip c) (security_x_content_type_options c) (security_referrer_policy c)
    v (security_content_security_policy c) (compression_enabled c) (compression_level c)
    (compression_min_size c) (compression_mime_types c) (upstream_health_interval c)
    (upstream_health_timeout c) (upstream_health_failures c) (upstream_health_recovery c).
Definition set_security_content_security_policy (v : option bytes) (c : ServerConfig) : ServerConfig :=
  mkServerConfig (host c) (port c) (root_dir c) (config_file c) (workers c) (dev_mode c)
    (max_request_size c) (max_header_size c) (max_headers c) (max_header_line c)
    (max_uri_length c) (read_timeout c) (write_timeout c) (keep_alive_timeout c)
    (max_connections c) (max_requests_per_connection c) (deny_hidden_files c) (http2_enabled c)
    (http2_max_concurrent_streams c) (http2_max_frame_size c) (http2_max_header_block_size c)
    (http2_initial_window_size c) (tls_enabled c) (tls_certificate c) (tls_private_key c)
    (vhosts c) (proxy_routes c) (fastcgi_routes c) (front_controller c) (log_format c)
    (access_log c) (error_log c) (rate_limit_per_second c) (rate_limit_burst c)
    (max_connections_per_ip c) (security_x_content_type_options c) (security_referrer_policy c)
    (security_x_frame_options c) v (compression_enabled c) (compression_level c)
    (compression_min_size c) (compression_mime_types c) (upstream_health_interval c)
    (upstream_health_timeout c) (upstream_health_failures c) (upstream_health_recovery c).
Definition set_compression_enabled (v : bool) (c : ServerConfig) : ServerConfig :=
  mkServerConfig (host c) (port c) (root_dir c) (config_file c) (workers c) (dev_mode c)
    (max_request_size c) (max_header_size c) (max_headers c) (max_header_line c)
    (max_uri_length c) (read_timeout c) (write_timeout c) (keep_alive_timeout c)
    (max_connections c) (max_requests_per_connection c) (deny_hidden_files c) (http2_enabled c)
    (http2_max_concurrent_streams c) (http2_max_frame_size c) (http2_max_header_block_size c)
    (http2_initial_window_size c) (tls_enabled c) (tls_certificate c) (tls_private_key c)
    (vhosts c) (proxy_routes c) (fastcgi_routes c) (front_controller c) (log_format c)
    (access_log c) (error_log c) (rate_limit_per_second c) (rate_limit_burst c)
    (max_connections_per_ip c) (security_x_content_type_options c) (security_referrer_policy c)
    (security_x_frame_options c) (security_content_security_policy c) v (compression_level c)
    (compression_min_size c) (compression_mime_types c) (upstream_health_interval c)
    (upstream_health_timeout c) (upstream_health_failures c) (upstream_health_recovery c).
Definition set_compression_level (v : Z) (c : ServerConfig) : ServerConfig :=
  mkServerConfig (host c) (port c) (root_dir c) (config_file c) (workers c) (dev_mode c)
    (max_request_size c) (max_header_size c) (max_headers c) (max_header_line c)
    (max_uri_length c) (read_timeout c) (write_timeout c) (keep_alive_timeout c)
    (max_connections c) (max_requests_per_connection c) (deny_hidden_files c) (http2_enabled c)
    (http2_max_concurrent_streams c) (http2_max_frame_size c) (http2_max_header_block_size c)
    (http2_initial_window_size c) (tls_enabled c) (tls_certificate c) (tls_private_key c)
    (vhosts c) (proxy_routes c) (fastcgi_routes c) (front_controller c) (log_format c)
    (access_log c) (error_log c) (rate_limit_per_second c) (rate_limit_burst c)
    (max_connections_per_ip c) (security_x_content_type_options c) (security_referrer_policy c)
    (security_x_frame_options c) (security_content_security_policy c) (compression_enabled c) v
    (compression_min_size c) (compression_mime_types c) (upstream_health_interval c)
    (upstream_health_timeout c) (upstream_health_failures c) (upstream_health_recovery c).
Definition set_compression_min_size (v : Z) (c : ServerConfig) : ServerConfig :=
  mkServerConfig (host c) (port c) (root_dir c) (config_file c) (workers c) (dev_mode c)
    (max_request_size c) (max_header_size c) (max_headers c) (max_header_line c)
    (max_uri_length c) (read_timeout c) (write_timeout c) (keep_alive_timeout c)
    (max_connections c) (max_requests_per_connection c) (deny_hidden_files c) (http2_enabled c)
    (http2_max_concurrent_streams c) (http2_max_frame_size c) (http2_max_header_block_size c)
    (http2_initial_window_size c) (tls_enabled c) (tls_certificate c) (tls_private_key c)
    (vhosts c) (proxy_routes c) (fastcgi_routes c) (front_controller c) (log_format c)
    (access_log c) (error_log c) (rate_limit_per_second c) (rate_limit_burst c)
    (max_connections_per_ip c) (security_x_content_type_options c) (security_referrer_policy c)
    (security_x_frame_options c) (security_content_security_policy c) (compression_enabled c)
    (compression_level c) v (compression_mime_types c) (upstream_health_interval c)
    (upstream_health_timeout c) (upstream_health_failures c) (upstream_health_recovery c).
Definition set_compression_mime_types (v : list bytes) (c : ServerConfig) : ServerConfig :=
  mkServerConfig (host c) (port c) (root_dir c) (config_file c) (workers c) (dev_mode c)
    (max_request_size c) (max_header_size c) (max_headers c) (max_header_line c)
    (max_uri_length c) (read_timeout c) (write_timeout c) (keep_alive_timeout c)
    (max_connections c) (max_requests_per_connection c) (deny_hidden_files c) (http2_enabled c)
    (http2_max_concurrent_streams c) (http2_max_frame_size c) (http2_max_header_block_size c)
    (http2_initial_window_size c) (tls_enabled c) (tls_certificate c) (tls_private_key c)
    (vhosts c) (proxy_routes c) (fastcgi_routes c) (front_controller c) (log_format c)
    (access_log c) (error_log c) (rate_limit_per_second c) (rate_limit_burst c)
    (max_connections_per_ip c) (security_x_content_type_options c) (security_referrer_policy c)
    (security_x_frame_options c) (security_content_security_policy c) (compression_enabled c)
    (compression_level c) (compression_min_size c) v (upstream_health_interval c)
    (upstream_health_timeout c) (upstream_health_failures c) (upstream_health_recovery c).
Definition set_upstream_health_interval (v : Z) (c : ServerConfig) : ServerConfig :=
  mkServerConfig (host c) (port c) (root_dir c) (config_file c) (workers c) (dev_mode c)
    (max_request_size c) (max_header_size c) (max_headers c) (max_header_line c)
    (max_uri_length c) (read_timeout c) (write_timeout c) (keep_alive_timeout c)
    (max_connections c) (max_requests_per_connection c) (deny_hidden_files c) (http2_enabled c)
    (http2_max_concurrent_streams c) (http2_max_frame_size c) (http2_max_header_block_size c)
    (http2_initial_window_size c) (tls_enabled c) (tls_certificate c) (tls_private_key c)
    (vhosts c) (proxy_routes c) (fastcgi_routes c) (front_controller c) (log_format c)
    (access_log c) (error_log c) (rate_limit_per_second c) (rate_limit_burst c)
    (max_connections_per_ip c) (security_x_content_type_options c) (security_referrer_policy c)
    (security_x_frame_options c) (security_content_security_policy c) (compression_enabled c)
    (compression_level c) (compression_min_size c) (compression_mime_types c) v
    (upstream_health_timeout c) (upstream_health_failures c) (upstream_health_recovery c).
Definition set_upstream_health_timeout (v : Z) (c : ServerConfig) : ServerConfig :=
  mkServerConfig (host c) (port c) (root_dir c) (config_file c) (workers c) (dev_mode c)
    (max_request_size c) (max_header_size c) (max_headers c) (max_header_line c)
    (max_uri_length c) (read_timeout c) (write_timeout c) (keep_alive_timeout c)
    (max_connections c) (max_requests_per_connection c) (deny_hidden_files c) (http2_enabled c)
    (http2_max_concurrent_streams c) (http2_max_frame_size c) (http2_max_header_block_size c)
    (http2_initial_window_size c) (tls_enabled c) (tls_certificate c) (tls_private_key c)
    (vhosts c) (proxy_routes c) (fastcgi_routes c) (front_controller c) (log_format c)
    (access_log c) (error_log c) (rate_limit_per_second c) (rate_limit_burst c)
    (max_connections_per_ip c) (security_x_content_type_options c) (security_referrer_policy c)
    (security_x_frame_options c) (security_content_security_policy c) (compression_enabled c)
    (compression_level c) (compression_min_size c) (compression_mime_types c)
    (upstream_health_interval c) v (upstream_health_failures c) (upstream_health_recovery c).
Definition set_upstream_health_failures (v : Z) (c : ServerConfig) : ServerConfig :=
  mkServerConfig (host c) (port c) (root_dir c) (config_file c) (workers c) (dev_mode c)
    (max_request_size c) (max_header_size c) (max_headers c) (max_header_line c)
    (max_uri_length c) (read_timeout c) (write_timeout c) (keep_alive_timeout c)
    (max_connections c) (max_requests_per_connection c) (deny_hidden_files c) (http2_enabled c)
    (http2_max_concurrent_streams c) (http2_max_frame_size c) (http2_max_header_block_size c)
    (http2_initial_window_size c) (tls_enabled c) (tls_certificate c) (tls_private_key c)
    (vhosts c) (proxy_routes c) (fastcgi_routes c) (front_controller c) (log_format c)
    (access_log c) (error_log c) (rate_limit_per_second c) (rate_limit_burst c)
    (max_connections_per_ip c) (security_x_content_type_options c) (security_referrer_policy c)
    (security_x_frame_options c) (security_content_security_policy c) (compression_enabled c)
    (compression_level c) (compression_min_size c) (compression_mime_types c)
    (upstream_health_interval c) (upstream_health_timeout c) v (upstream_health_recovery c).
Definition set_upstream_health_recovery (v : Z) (c : ServerConfig) : ServerConfig :=
  mkServerConfig (host c) (port c) (root_dir c) (config_file c) (workers c) (dev_mode c)
    (max_request_size c) (max_header_size c) (max_headers c) (max_header_line c)
    (max_uri_length c) (read_timeout c) (write_timeout c) (keep_alive_timeout c)
    (max_connections c) (max_requests_per_connection c) (deny_hidden_files c) (http2_enabled c)
    (http2_max_concurrent_streams c) (http2_max_frame_size c) (http2_max_header_block_size c)
    (http2_initial_window_size c) (tls_enabled c) (tls_certificate c) (tls_private_key c)
    (vhosts c) (proxy_routes c) (fastcgi_routes c) (front_controller c) (log_format c)
    (access_log c) (error_log c) (rate_limit_per_second c) (rate_limit_burst c)
    (max_connections_per_ip c) (security_x_content_type_options c) (security_referrer_policy c)
    (security_x_frame_options c) (security_content_security_policy c) (compression_enabled c)
    (compression_level c) (compression_min_size c) (compression_mime_types c)
    (upstream_health_interval c) (upstream_health_timeout c) (upstream_health_failures c) v.
