(* ===== verification/Http.v ===== *)
(** * HTTP/1.1 messages (src/server/http.rs)

    Methods, status codes, the incremental request parser with all its limits,
    and responses: header construction and the serialiser [send_to] with its
    body sources and chunked framing.  A file is its content; the gzip encoder
    is a library and a parameter, the reader it yields for a file and a level. *)

From S2P Require Import Prelude RustStd Io Config ConfigSet.

Inductive Method : Type := Get | Head | Post | Other (m : bytes).

#[global] Instance Method_eq_dec : EqDecision Method.
Proof. solve_decision. Defined.

(** [impl Display for Method]. *)
Definition method_display (m : Method) : bytes :=
  match m with Get => str "GET" | Head => str "HEAD" | Post => str "POST" | Other m => m end.

(** [impl From<&str> for Method]. *)
Definition method_from `{UnicodeCase} (s : bytes) : Method :=
  let u := to_uppercase s in
  if bytes_eqb u (str "GET") then Get
  else if bytes_eqb u (str "HEAD") then Head
  else if bytes_eqb u (str "POST") then Post
  else Other u.

Inductive StatusCode : Type :=
| StatusOk | Created | Accepted | NoContent | MovedPermanently | Found
| PartialContent | NotModified | BadRequest | Unauthorized | Forbidden | NotFound
| MethodNotAllowed | RequestTimeout | PayloadTooLarge | UriTooLong
| RangeNotSatisfiable | RequestHeaderFieldsTooLarge | TooManyRequests
| InternalServerError | BadGateway | NotImplemented | ServiceUnavailable
| GatewayTimeout | HttpVersionNotSupported.

#[global] Instance StatusCode_eq_dec : EqDecision StatusCode.
Proof. solve_decision. Defined.

Definition code (s : StatusCode) : Z :=
  match s with
  | StatusOk => 200 | Created => 201 | Accepted => 202 | NoContent => 204
  | MovedPermanently => 301 | Found => 302 | PartialContent => 206 | NotModified => 304
  | BadRequest => 400 | Unauthorized => 401 | Forbidden => 403 | NotFound => 404
  | MethodNotAllowed => 405 | RequestTimeout => 408 | PayloadTooLarge => 413
  | UriTooLong => 414 | RangeNotSatisfiable => 416 | RequestHeaderFieldsTooLarge => 431
  | TooManyRequests => 429 | InternalServerError => 500 | BadGateway => 502
  | NotImplemented => 501 | ServiceUnavailable => 503 | GatewayTimeout => 504
  | HttpVersionNotSupported => 505
  end.

Definition reason_phrase (s : StatusCode) : bytes :=
  match s with
  | StatusOk => str "OK" | Created => str "Created" | Accepted => str "Accepted"
  | NoContent => str "No Content" | MovedPermanently => str "Moved Permanently"
  | Found => str "Found" | PartialContent => str "Partial Content"
  | NotModified => str "Not Modified" | BadRequest => str "Bad Request"
  | Unauthorized => str "Unauthorized" | Forbidden => str "Forbidden"
  | NotFound => str "Not Found" | MethodNotAllowed => str "Method Not Allowed"
  | RequestTimeout => str "Request Timeout" | PayloadTooLarge => str "Payload Too Large"
  | UriTooLong => str "URI Too Long" | RangeNotSatisfiable => str "Range Not Satisfiable"
  | RequestHeaderFieldsTooLarge => str "Request Header Fields Too Large"
  | TooManyRequests => str "Too Many Requests"
  | InternalServerError => str "Internal Server Error" | BadGateway => str "Bad Gateway"
  | NotImplemented => str "Not Implemented" | ServiceUnavailable => str "Service Unavailable"
  | GatewayTimeout => str "Gateway Timeout"
  | HttpVersionNotSupported => str "HTTP Version Not Supported"
  end.

Definition from_u16 (c : Z) : StatusCode :=
  match c with
  | 200 => StatusOk | 201 => Created | 202 => Accepted | 204 => NoContent
  | 301 => MovedPermanently | 302 => Found | 206 => PartialContent | 304 => NotModified
  | 400 => BadRequest | 401 => Unauthorized | 403 => Forbidden | 404 => NotFound
  | 405 => MethodNotAllowed | 408 => RequestTimeout | 413 => PayloadTooLarge
  | 414 => UriTooLong | 416 => RangeNotSatisfiable | 431 => RequestHeaderFieldsTooLarge
  | 429 => TooManyRequests | 500 => InternalServerError | 501 => NotImplemented
  | 502 => BadGateway | 503 => ServiceUnavailable | 504 => GatewayTimeout
  | 505 => HttpVersionNotSupported
  | _ => if (400 <=? c) && (c <=? 499) then BadRequest
         else if (500 <=? c) && (c <=? 599) then InternalServerError
         else InternalServerError
  end.

Inductive HttpParseError : Type :=
| MalformedRequest | OversizedRequestLine | OversizedHeader | OversizedHeaderLine
| TooManyHeaders | OversizedBody | Timeout | UnsupportedVersion | MissingHost
| MalformedHost | ChunkedEncodingNotImplemented | ConflictingHeaders
| MalformedContentLength | IoError | ConnectionClosed.

#[global] Instance HttpParseError_eq_dec : EqDecision HttpParseError.
Proof. solve_decision. Defined.

(** [impl From<HttpParseError> for StatusCode]. *)
Definition status_from_error (err : HttpParseError) : StatusCode :=
  match err with
  | UnsupportedVersion => HttpVersionNotSupported
  | MissingHost | MalformedHost => BadRequest
  | ChunkedEncodingNotImplemented => NotImplemented
  | ConflictingHeaders | MalformedContentLength | MalformedRequest => BadRequest
  | OversizedRequestLine => UriTooLong
  | OversizedHeader | OversizedHeaderLine | TooManyHeaders => RequestHeaderFieldsTooLarge
  | OversizedBody => PayloadTooLarge
  | Timeout => RequestTimeout
  | _ => BadRequest
  end.

Record HttpRequest : Type := mkHttpRequest {
  method : Method;
  uri : bytes;
  version : bytes;
  headers : list (bytes * bytes);
  body : bytes;
}.

Definition get_header (r : HttpRequest) (name : bytes) : option bytes :=
  option_map snd (find (fun h => eq_ignore_ascii_case (fst h) name) (headers r)).

Definition is_keep_alive (r : HttpRequest) : bool :=
  match get_header r (str "Connection") with
  | Some conn =>
      let tokens := map trim (split_on 44 conn) in
      if existsb (fun t => eq_ignore_ascii_case t (str "close")) tokens then false
      else if existsb (fun t => eq_ignore_ascii_case t (str "keep-alive")) tokens then true
      else bytes_eqb (version r) (str "HTTP/1.1")
  | None => bytes_eqb (version r) (str "HTTP/1.1")
  end.

Record HttpRequestHead : Type := mkHead {
  head_method : Method;
  head_uri : bytes;
  head_version : bytes;
  head_headers : list (bytes * bytes);
  content_length : Z;
  header_len : Z;
}.

Definition into_request (h : HttpRequestHead) (b : bytes) : HttpRequest :=
  mkHttpRequest (head_method h) (head_uri h) (head_version h) (head_headers h) b.

(** ** The request parser *)

Definition is_tchar (b : Z) : bool :=
  is_ascii_alphanumeric b
  || existsb (Z.eqb b) (str "!#$%&'*+-.^_`|~").

(** [haystack.windows(n).position(|w| w == needle)] for a non-empty needle. *)
Fixpoint find_from (haystack needle : bytes) (i : Z) : option Z :=
  if starts_with haystack needle then Some i
  else match haystack with [] => None | _ :: t => find_from t needle (i + 1) end.

Definition find_subslice (haystack needle : bytes) : option Z := find_from haystack needle 0.

Definition CRLF2 : bytes := [13; 10; 13; 10].

(** The loop that rejects a bare CR or LF; [prev] is [header_bytes[idx - 1]]. *)
Fixpoint line_breaks_ok (prev : option Z) (l : bytes) : bool :=
  match l with
  | [] => true
  | b :: r =>
      if ((b =? 10) && negb (bool_decide (prev = Some 13)))
         || ((b =? 13) && negb (match r with n :: _ => n =? 10 | [] => false end))
      then false
      else line_breaks_ok (Some b) r
  end.

Record HeaderAcc : Type := mkAcc {
  acc_headers : list (bytes * bytes);
  acc_hosts : list bytes;
  acc_lengths : list bytes;
}.

(** The body of the loop over the header lines. *)
Definition parse_header_line (config : ServerConfig) (a : HeaderAcc) (line : bytes)
  : result HeaderAcc HttpParseError :=
  if bool_decide (trim line = []) then Ok a else
  if len line >? max_header_line config then Err OversizedHeaderLine else
  if len (acc_headers a) >=? max_headers config then Err TooManyHeaders else
  let? (raw_name, raw_value) := ok_or (split_once 58 line) MalformedRequest in
  if bool_decide (raw_name = []) || negb (forallb is_tchar raw_name)
  then Err MalformedRequest else
  let name := raw_name in
  let value := trim raw_value in
  if existsb (fun b => (b =? 13) || (b =? 10)) value then Err MalformedRequest else
  let? a :=
    if eq_ignore_ascii_case name (str "Host") then
      Ok (mkAcc (acc_headers a) (acc_hosts a ++ [value]) (acc_lengths a))
    else if eq_ignore_ascii_case name (str "Content-Length") then
      Ok (mkAcc (acc_headers a) (acc_hosts a) (acc_lengths a ++ [value]))
    else if eq_ignore_ascii_case name (str "Transfer-Encoding") then
      Err ChunkedEncodingNotImplemented
    else Ok a in
  Ok (mkAcc (acc_headers a ++ [(name, value)]) (acc_hosts a) (acc_lengths a)).

Fixpoint parse_header_lines (config : ServerConfig) (a : HeaderAcc) (lines : list bytes)
  : result HeaderAcc HttpParseError :=
  match lines with
  | [] => Ok a
  | l :: lines => let? a := parse_header_line config a l in parse_header_lines config a lines
  end.

(** The request line: method, target and version after their checks. *)
Definition parse_request_line (config : ServerConfig) (request_line : bytes)
  : result (bytes * bytes * bytes) HttpParseError :=
  match split_on 32 request_line with
  | [m; u; v] =>
      if existsb (fun p => bool_decide (p = []) || existsb (Z.eqb 9) p) [m; u; v]
      then Err MalformedRequest else
      if negb (forallb is_ascii_alphabetic m) then Err MalformedRequest else
      if len u >? max_uri_length config then Err OversizedRequestLine else
      if (len request_line >? max_header_line config)
         || existsb (fun b => (b <=? 31) || (b =? 127)) u
      then Err (if len request_line >? max_header_line config
                then OversizedHeaderLine else MalformedRequest)
      else if negb (bytes_eqb v (str "HTTP/1.1")) then Err UnsupportedVersion
      else Ok (m, u, v)
  | _ => Err MalformedRequest
  end.

(** The checks on the collected [Host] and [Content-Length] values. *)
Definition check_hosts (hosts : list bytes) : result unit HttpParseError :=
  match hosts with
  | [h] => if bool_decide (trim h = []) then Err MalformedHost else Ok tt
  | [] => Err MissingHost
  | _ => Err MalformedHost
  end.

Definition check_lengths (config : ServerConfig) (lengths : list bytes)
  : result Z HttpParseError :=
  match lengths with
  | [] => Ok 0
  | first :: _ =>
      if existsb (fun v => negb (bytes_eqb v first)) lengths then Err ConflictingHeaders else
      let? n := ok_or (parse_usize first) MalformedContentLength in
      if n >? max_request_size config then Err OversizedBody else Ok n
  end.

Section Parser.
Context `{UnicodeCase}.

(** [parse_http_request_head_from_buf_with_limits]. *)
Definition parse_head (buffer : bytes) (config : ServerConfig)
  : result (option HttpRequestHead) HttpParseError :=
  match find_subslice buffer CRLF2 with
  | None =>
      if len buffer >? max_header_size config then Err OversizedHeader else Ok None
  | Some header_end =>
      if header_end + 4 >? max_header_size config then Err OversizedHeader else
      let header_bytes := take (Z.to_nat header_end) buffer in
      if negb (line_breaks_ok None header_bytes) then Err MalformedRequest else
      if negb (utf8_valid header_bytes) then Err MalformedRequest else
      match split_crlf header_bytes with
      | [] => Err MalformedRequest
      | request_line :: lines =>
          let? (m, u, v) := parse_request_line config request_line in
          let? a := parse_header_lines config (mkAcc [] [] []) lines in
          let? _ := check_hosts (acc_hosts a) in
          let? content_length := check_lengths config (acc_lengths a) in
          Ok (Some (mkHead (method_from m) u v (acc_headers a) content_length
                      (header_end + 4)))
      end
  end.

(** [parse_http_request_from_buf_with_limits]: the buffer afterwards and the
    result. *)
Definition parse_request (buffer : bytes) (config : ServerConfig)
  : bytes * result (option HttpRequest) HttpParseError :=
  match parse_head buffer config with
  | Err e => (buffer, Err e)
  | Ok None => (buffer, Ok None)
  | Ok (Some head) =>
      let total_required := saturating_add_usize (header_len head) (content_length head) in
      if len buffer <? total_required then (buffer, Ok None) else
      let body_bytes := slice buffer (header_len head) total_required in
      (drop (Z.to_nat total_required) buffer, Ok (Some (into_request head body_bytes)))
  end.

(** [parse_http_request_from_buf]. *)
Definition parse_request_default (buffer : bytes)
  : bytes * result (option HttpRequest) HttpParseError :=
  parse_request buffer server_config_default.
End Parser.

(** ** Responses *)

Inductive BodySource : Type :=
| BodyBytes (data : bytes)
| BodyFile (file : bytes) (size : Z)
| BodyFileRange (file : bytes) (offset length : Z)
| BodyGzipFile (file : bytes) (size level : Z).

Record HttpResponse : Type := mkResponse {
  status : StatusCode;
  resp_headers : list (bytes * bytes);
  body_source : BodySource;
  close_connection : bool;
}.

Definition response_new (s : StatusCode) : HttpResponse :=
  mkResponse s [(str "Server", str "veysrs/0.6.1")] (BodyBytes []) false.

(** [name.replace(['\r', '\n'], "")]. *)
Definition strip_crlf (s : bytes) : bytes :=
  List.filter (fun b => negb ((b =? 13) || (b =? 10))) s.

Definition push_header (r : HttpResponse) (name value : bytes) : HttpResponse :=
  mkResponse (status r) (resp_headers r ++ [(name, value)]) (body_source r)
    (close_connection r).

Definition with_header (r : HttpResponse) (name value : bytes) : HttpResponse :=
  push_header r (strip_crlf name) (strip_crlf value).

Definition set_body (r : HttpResponse) (b : BodySource) : HttpResponse :=
  mkResponse (status r) (resp_headers r) b (close_connection r).

Definition with_body (r : HttpResponse) (b content_type : bytes) : HttpResponse :=
  let r := push_header r (str "Content-Length") (to_string (len b)) in
  let r := push_header r (str "Content-Type") content_type in
  set_body r (BodyBytes b).

Definition with_file (r : HttpResponse) (file : bytes) (file_size : Z) (content_type : bytes)
  : HttpResponse :=
  let r := push_header r (str "Content-Length") (to_string file_size) in
  let r := push_header r (str "Content-Type") content_type in
  set_body r (BodyFile file file_size).

Definition with_file_range (r : HttpResponse) (file : bytes) (offset length : Z)
  (content_type : bytes) : HttpResponse :=
  let r := push_header r (str "Content-Length") (to_string length) in
  let r := push_header r (str "Content-Type") content_type in
  set_body r (BodyFileRange file offset length).

Definition set_close_connection (r : HttpResponse) (close : bool) : HttpResponse :=
  mkResponse (status r) (resp_headers r) (body_source r) close.

Definition body_len (r : HttpResponse) : Z :=
  match body_source r with
  | BodyBytes b => len b
  | BodyFile _ sz => sz
  | BodyFileRange _ _ n => n
  | BodyGzipFile _ n _ => n
  end.

(** ** The serialiser *)

Inductive StreamError : Type := WriteFailed | ReadFailed | UnexpectedEof.

Definition write_all (d : bytes) : ST Io StreamError unit :=
  fun io => let '(io, ok) := io_write io d in (io, if ok then Ok tt else Err WriteFailed).

Definition flush : ST Io StreamError unit :=
  fun io => let '(io, ok) := io_flush io in (io, if ok then Ok tt else Err WriteFailed).

Definition CRLF : bytes := [13; 10].

Definition header_line (h : bytes * bytes) : bytes := fst h ++ str ": " ++ snd h ++ CRLF.

Definition is_gzip (b : BodySource) : bool :=
  match b with BodyGzipFile _ _ _ => true | _ => false end.

(** The status line and the header section, up to the empty line. *)
Definition response_head (r : HttpResponse) : bytes :=
  let chunked := is_gzip (body_source r) in
  let has_transfer_encoding :=
    existsb (fun h => eq_ignore_ascii_case (fst h) (str "Transfer-Encoding")) (resp_headers r) in
  let sent := List.filter
    (fun h => negb (chunked && eq_ignore_ascii_case (fst h) (str "Content-Length")))
    (resp_headers r) in
  let has_connection_header :=
    existsb (fun h => eq_ignore_ascii_case (fst h) (str "Connection")) sent in
  str "HTTP/1.1 " ++ to_string (code (status r)) ++ str " " ++ reason_phrase (status r) ++ CRLF
  ++ concat (map header_line sent)
  ++ (if has_connection_header then []
      else if close_connection r then str "Connection: close" ++ CRLF
      else str "Connection: keep-alive" ++ CRLF)
  ++ (if chunked && negb has_transfer_encoding
      then str "Transfer-Encoding: chunked" ++ CRLF else [])
  ++ CRLF.

(** The [loop] of [write_chunked] around a 64 KiB buffer.  A read either ends
    the loop or shortens the script, so its size is enough fuel. *)
Fixpoint write_chunked_loop (fuel : nat) (chunked : bool) (r : Reader) : ST Io StreamError unit :=
  match fuel with
  | O => st_err ReadFailed
  | S f =>
      let '(r, x) := read r 65536 in
      match x with
      | ReadWouldBlock | ReadErr => st_err ReadFailed
      | ReadOk [] => if chunked then write_all (str "0" ++ CRLF ++ CRLF) else st_ret tt
      | ReadOk d =>
          if chunked then
            let! _ := write_all (to_hex (len d) ++ CRLF) in
            let! _ := write_all d in
            let! _ := write_all CRLF in
            write_chunked_loop f chunked r
          else
            let! _ := write_all d in
            write_chunked_loop f chunked r
      end
  end.

Definition write_chunked (chunked : bool) (r : Reader) : ST Io StreamError unit :=
  write_chunked_loop (S (reader_size r)) chunked r.

(** The copy loops for a file read to its end and for a range of it. *)
Fixpoint copy_file (fuel : nat) (r : Reader) : ST Io StreamError unit :=
  match fuel with
  | O => st_err ReadFailed
  | S f =>
      let '(r, x) := read r 65536 in
      match x with
      | ReadOk [] => st_ret tt
      | ReadOk d => let! _ := write_all d in copy_file f r
      | ReadWouldBlock | ReadErr => st_err ReadFailed
      end
  end.

Fixpoint copy_range (fuel : nat) (r : Reader) (remaining : Z) : ST Io StreamError unit :=
  if remaining <=? 0 then st_ret tt else
  match fuel with
  | O => st_err ReadFailed
  | S f =>
      let to_read := Z.min remaining 65536 in
      let '(r, x) := read r to_read in
      match x with
      | ReadOk [] => st_err UnexpectedEof
      | ReadOk d => let! _ := write_all d in copy_range f r (remaining - len d)
      | ReadWouldBlock | ReadErr => st_err ReadFailed
      end
  end.

Section Send.
(** [GzEncoder::new(source, Compression::new(level))], a library; and the
    operating system's answer to [try_clone] and [seek]: a handle on the file's
    contents from an offset, unless one of the calls fails. *)
Context (gz_reader : Reader -> Z -> Reader).
Context (file_at : bytes -> Z -> option Reader).

Definition send_body (b : BodySource) : ST Io StreamError unit :=
  match b with
  | BodyBytes data => if bool_decide (data = []) then st_ret tt else write_all data
  | BodyFile file _ =>
      let! r := st_res (ok_or (file_at file 0) ReadFailed) in
      copy_file (S (reader_size r)) r
  | BodyFileRange file offset n =>
      let! r := st_res (ok_or (file_at file offset) ReadFailed) in
      copy_range (S (reader_size r)) r n
  | BodyGzipFile file _ level =>
      let! r := st_res (ok_or (file_at file 0) ReadFailed) in
      write_chunked true (gz_reader r level)
  end.

Definition send_to (r : HttpResponse) : ST Io StreamError unit :=
  let! _ := write_all (response_head r) in
  let! _ := send_body (body_source r) in
  flush.
End Send.

(** ** Searching *)

Lemma starts_with_app l p more : (length p <= length l)%nat ->
  starts_with (l ++ more) p = starts_with l p.
Proof.
  revert l. induction p as [|x p IH]; intros l Hl; [by destruct l|].
  destruct l as [|y l]; [cbn in Hl; lia|]. cbn [app starts_with]. rewrite IH; [done|].
  cbn in Hl. lia.
Qed.

Lemma starts_with_spec l p : starts_with l p = true <-> exists r, l = p ++ r.
Proof.
  revert l. induction p as [|x p IH]; intros l; cbn [starts_with].
  - split; [intros _; by exists l|by destruct l].
  - destruct l as [|y l].
    + split; [done|]. by intros [r [=]].
    + rewrite andb_true_iff, IH, Z.eqb_eq. split.
      * intros [-> [r ->]]. by exists r.
      * intros [r [= -> ->]]. eauto.
Qed.

(** [find_from] returns the first position at which the needle starts. *)
Lemma find_from_spec h n i j :
  find_from h n i = Some j ->
  exists pre post, h = pre ++ n ++ post /\ j = i + len pre /\
    forall k, (k < length pre)%nat -> starts_with (drop k h) n = false.
Proof.
  revert i. induction h as [|x h IH]; intros i; cbn [find_from].
  - destruct (starts_with [] n) eqn:E; [|done]. intros [= <-].
    apply starts_with_spec in E as [r E]. exists [], r. split_and!; [done|rewrite len_nil; lia|].
    intros k Hk. cbn in Hk. lia.
  - destruct (starts_with (x :: h) n) eqn:E.
    + intros [= <-]. apply starts_with_spec in E as [r E]. exists [], r.
      split_and!; [done|rewrite len_nil; lia|]. intros k Hk. cbn in Hk. lia.
    + intros (pre & post & -> & -> & Hf)%IH. exists (x :: pre), post.
      split_and!; [done|rewrite len_cons; lia|]. intros [|k] Hk; [done|].
      cbn [drop length] in *. apply Hf. lia.
Qed.

Lemma find_from_app h n i j more :
  find_from h n i = Some j -> find_from (h ++ more) n i = Some j.
Proof.
  revert i. induction h as [|x h IH]; intros i; cbn [find_from app].
  - destruct (starts_with [] n) eqn:E; [|done]. intros [= <-].
    apply starts_with_spec in E as [r E].
    symmetry in E. apply app_eq_nil in E as [-> ->]. by destruct more.
  - destruct (starts_with (x :: h) n) eqn:E.
    + intros [= <-]. apply starts_with_spec in E as [r E].
      rewrite app_comm_cons, E, <- app_assoc.
      assert (starts_with (n ++ r ++ more) n = true) as -> by (apply starts_with_spec; eauto).
      by destruct more.
    + intros H. pose proof (find_from_spec _ _ _ _ H) as (pre & post & -> & _ & _).
      rewrite app_comm_cons, starts_with_app, E by (cbn; rewrite !length_app; lia).
      cbn [app]. by apply IH.
Qed.

Lemma find_from_bound h n i j : find_from h n i = Some j -> i <= j /\ j - i + len n <= len h.
Proof.
  intros (pre & post & -> & -> & _)%find_from_spec. rewrite !len_app.
  pose proof (len_nonneg pre). pose proof (len_nonneg post). lia.
Qed.

(** ** Line breaks *)

Definition no_crlf (s : bytes) : Prop := Forall (fun b => b <> 13 /\ b <> 10) s.

Lemma no_crlf_cons_head b ls :
  b <> 13 -> b <> 10 -> Forall no_crlf ls -> Forall no_crlf (cons_head b ls).
Proof.
  intros H1 H2 Hl. destruct Hl; cbn [cons_head]; by repeat constructor.
Qed.

(** Text that passed the bare-CR/LF check splits into lines without any. *)
Lemma line_breaks_ok_lines l prev :
  prev <> Some 13 -> line_breaks_ok prev l = true -> Forall no_crlf (split_crlf l).
Proof.
  remember (length l) as n eqn:Hn. revert l Hn prev.
  induction (lt_wf n) as [n _ IH]. intros l -> prev Hp H.
  destruct l as [|b r]; [repeat constructor|]. cbn [line_breaks_ok] in H.
  split_if H; [done|]. rewrite bool_decide_false in E by done. cbn [negb] in E.
  rewrite andb_true_r in E. zbool. destruct r as [|d r'].
  - cbn [split_crlf]. repeat constructor; [|done]. intros ->. done.
  - change (split_crlf (b :: d :: r')) with
      (if (b =? 13) && (d =? 10) then [] :: split_crlf r'
       else cons_head b (split_crlf (d :: r'))).
    destruct (Z.eqb_spec b 13) as [->|Hb].
    + destruct (Z.eqb_spec d 10) as [->|Hd]; [|done]. cbn [andb]. constructor; [constructor|].
      cbn [line_breaks_ok] in H. rewrite bool_decide_true in H by done. cbn in H.
      eapply (IH (length r')); [cbn; lia|done| |exact H]. done.
    + cbn [andb]. apply no_crlf_cons_head; [done..|].
      eapply (IH (length (d :: r'))); [cbn; lia|done| |exact H]. congruence.
Qed.

Lemma split_crlf_clean b l : (b = 13 -> forall l', l <> 10 :: l') -> split_crlf (b :: l) = cons_head b (split_crlf l).
Proof.
  intros Hb. destruct l as [|d l]; [done|].
  change (split_crlf (b :: d :: l)) with (if (b =? 13) && (d =? 10) then [] :: split_crlf l else cons_head b (split_crlf (d :: l))).
  destruct (Z.eqb_spec b 13) as [->|]; [|done]. destruct (Z.eqb_spec d 10) as [->|]; [|done]. by destruct (Hb eq_refl l).
Qed.

Lemma no_crlf_cons_head_inv b ls : ls <> [] -> Forall no_crlf (cons_head b ls) -> (b <> 13 /\ b <> 10) /\ Forall no_crlf ls.
Proof.
  intros Hne Hf. destruct ls as [|l ls]; [done|]. cbn [cons_head] in Hf. apply Forall_cons in Hf as [Hl Hf].
  apply Forall_cons in Hl as [Hb Hl]. by split; [|constructor].
Qed.

Lemma split_crlf_nonempty l : split_crlf l <> [].
Proof.
  destruct l as [|b [|d l]]; [done..|].
  change (split_crlf (b :: d :: l)) with (if (b =? 13) && (d =? 10) then [] :: split_crlf l else cons_head b (split_crlf (d :: l))).
  case_match; [done|]. by destruct (split_crlf (d :: l)).
Qed.

Lemma lines_line_breaks_ok l prev : Forall no_crlf (split_crlf l) -> line_breaks_ok prev l = true.
Proof.
  remember (length l) as n eqn:Hn. revert l Hn prev.
  induction (lt_wf n) as [n _ IH]. intros l -> prev Hl. destruct l as [|b r]; [done|].
  assert (Hcase : (b = 13 /\ exists r', r = 10 :: r') \/ (b = 13 -> forall r', r <> 10 :: r')).
  { destruct (Z.eqb_spec b 13); [|by right]. destruct r as [|d r']; [by right|]. destruct (Z.eqb_spec d 10) as [->|]; [left; eauto|right; congruence]. }
  destruct Hcase as [[-> [r' ->]]|Hno].
  - change (split_crlf (13 :: 10 :: r')) with ([] :: split_crlf r') in Hl. apply Forall_cons in Hl as [_ Hl].
    cbn. apply (IH (length r')); [cbn; lia|done|done].
  - rewrite split_crlf_clean in Hl by done.
    apply no_crlf_cons_head_inv in Hl as [[H13 H10] Hl]; [|apply split_crlf_nonempty]. cbn [line_breaks_ok].
    rewrite (proj2 (Z.eqb_neq b 10) H10), (proj2 (Z.eqb_neq b 13) H13). cbn [andb orb].
    apply (IH (length r)); [cbn; lia|done|done].
Qed.

(** ** What the header loop maintains *)

(** The values of all fields with a given name, in order. *)
Definition values_of (name : bytes) (hs : list (bytes * bytes)) : list bytes :=
  map snd (List.filter (fun h => eq_ignore_ascii_case (fst h) name) hs).

(** A field name is a non-empty token and its value has no line break. *)
Definition field_ok (h : bytes * bytes) : Prop :=
  fst h <> [] /\ Forall (fun b => is_tchar b = true) (fst h) /\ no_crlf (snd h).

(** A header line of the allowed length, and the field it holds. *)
Definition field_line_of (config : ServerConfig) (line : bytes) (h : bytes * bytes) : Prop :=
  (exists raw, line = fst h ++ 58 :: raw /\ snd h = trim raw) /\ field_ok h /\ len line <= max_header_line config.

(** Blank lines are passed over. *)
Definition not_blank (line : bytes) : bool := negb (bool_decide (trim line = [])).

Lemma values_of_snoc name hs n v :
  values_of name (hs ++ [(n, v)]) =
  values_of name hs ++ (if eq_ignore_ascii_case n name then [v] else []).
Proof.
  unfold values_of. rewrite List.filter_app, map_app. cbn [List.filter fst].
  by destruct (eq_ignore_ascii_case n name).
Qed.

(** A name equals at most one of two names that differ ignoring case. *)
Lemma eq_ignore_case_excl n a b :
  to_ascii_lowercase a <> to_ascii_lowercase b ->
  eq_ignore_ascii_case n a = true -> eq_ignore_ascii_case n b = false.
Proof.
  unfold eq_ignore_ascii_case. rewrite bytes_eqb_eq, bytes_eqb_neq. congruence.
Qed.

Lemma existsb_crlf_false v :
  existsb (fun b => (b =? 13) || (b =? 10)) v = false -> no_crlf v.
Proof.
  induction v as [|b v IH]; [constructor|]. cbn [existsb]. intros H. zbool.
  constructor; [done|by apply IH].
Qed.

Lemma values_of_cons name h hs : values_of name (h :: hs) = values_of name [h] ++ values_of name hs.
Proof. unfold values_of. cbn [List.filter]. by destruct (eq_ignore_ascii_case (fst h) name). Qed.

Lemma split_once_spec c l x y : split_once c l = Some (x, y) <-> l = x ++ c :: y /\ c ∉ x.
Proof.
  revert x. induction l as [|b l IH]; intros x; cbn [split_once].
  - split; [done|]. intros [E _]. by destruct x.
  - destruct (Z.eqb_spec b c) as [->|Hb].
    + split.
      * intros [= <- <-]. split; [done|]. apply not_elem_of_nil.
      * intros [E Hx]. destruct x as [|b' x]; [by injection E as ->|]. injection E as -> _. exfalso. apply Hx. by left.
    + split.
      * destruct (split_once c l) as [[x' y']|] eqn:E; [|done]. intros [= <- <-]. destruct (proj1 (IH x') eq_refl) as [-> Hx].
        split; [done|]. apply not_elem_of_cons. split; [done|exact Hx].
      * intros [E Hx]. destruct x as [|b' x]; [by injection E as ->|]. injection E as -> ->.
        apply not_elem_of_cons in Hx as [_ Hx]. by rewrite (proj2 (IH x)) by done.
Qed.

Definition add_fields (a : HeaderAcc) (hs : list (bytes * bytes)) : HeaderAcc :=
  mkAcc (acc_headers a ++ hs) (acc_hosts a ++ values_of (str "Host") hs) (acc_lengths a ++ values_of (str "Content-Length") hs).

Lemma no_crlf_existsb v : existsb (fun b => (b =? 13) || (b =? 10)) v = false <-> no_crlf v.
Proof.
  split; [apply existsb_crlf_false|]. induction 1 as [|b v [H1 H2] _ IH]; [done|]. cbn [existsb]. rewrite IH. lia.
Qed.

(** A header line is accepted exactly when it holds a field there is room for;
    the field is then the last one. *)
Lemma parse_header_line_spec config a line a' :
  not_blank line = true ->
  parse_header_line config a line = Ok a' <->
  exists h, field_line_of config line h /\ len (acc_headers a) < max_headers config /\
    values_of (str "Transfer-Encoding") [h] = [] /\ a' = add_fields a [h].
Proof.
  unfold not_blank, parse_header_line. intros Hb%negb_true_iff. rewrite Hb.
  assert (Hone : forall name (h : bytes * bytes), values_of name [h] = if eq_ignore_ascii_case (fst h) name then [snd h] else [])
    by (intros name h; unfold values_of; cbn [List.filter]; by destruct (eq_ignore_ascii_case _ _)).
  assert (Hexc : forall name x y, x <> y -> In x [str "Host"; str "Content-Length"; str "Transfer-Encoding"] ->
    In y [str "Host"; str "Content-Length"; str "Transfer-Encoding"] ->
    eq_ignore_ascii_case name x = true -> eq_ignore_ascii_case name y = false).
  { intros name x y Hne Hx Hy. apply eq_ignore_case_excl. cbn in Hx, Hy.
    destruct_or!; subst; try done; vm_compute; congruence. }
  assert (Hstore : forall (name value : bytes) a',
    (let? a :=
       if eq_ignore_ascii_case name (str "Host") then Ok (mkAcc (acc_headers a) (acc_hosts a ++ [value]) (acc_lengths a))
       else if eq_ignore_ascii_case name (str "Content-Length") then Ok (mkAcc (acc_headers a) (acc_hosts a) (acc_lengths a ++ [value]))
       else if eq_ignore_ascii_case name (str "Transfer-Encoding") then Err ChunkedEncodingNotImplemented else Ok a in
     Ok (mkAcc (acc_headers a ++ [(name, value)]) (acc_hosts a) (acc_lengths a))) = Ok a' <->
    eq_ignore_ascii_case name (str "Transfer-Encoding") = false /\ a' = add_fields a [(name, value)]).
  { intros name value a1. unfold add_fields. rewrite !Hone. cbn [fst snd].
    destruct (eq_ignore_ascii_case name (str "Host")) eqn:E1.
    { rewrite !(Hexc name (str "Host")) by (done || (cbn; tauto)). cbn. rewrite app_nil_r. naive_solver. }
    destruct (eq_ignore_ascii_case name (str "Content-Length")) eqn:E2.
    { rewrite !(Hexc name (str "Content-Length")) by (done || (cbn; tauto)). cbn. rewrite app_nil_r. naive_solver. }
    rewrite !app_nil_r. destruct (eq_ignore_ascii_case name (str "Transfer-Encoding")); cbn; naive_solver. }
  split.
  - intros H. split_if H; [done|]. split_if H; [done|]. rewrite Z.geb_leb in E0. zbool.
    apply rbind_ok in H as ([name raw] & Hs & H). cbn in Hs. destruct (split_once 58 line) as [[n r]|] eqn:Hso; [|done].
    injection Hs as -> ->. apply split_once_spec in Hso as [-> _].
    split_if H; [done|]. apply orb_false_iff in E1 as [En Et]. split_if H; [done|]. zbool. apply no_crlf_existsb in E1.
    apply Hstore in H as [Hte ->]. exists (name, trim raw). rewrite Hone. cbn [fst snd]. rewrite Hte. split_and!; try done; try lia.
    split; [by exists raw|]. split; [|cbn [fst]; lia]. split_and!; [done| |done]. apply Forall_forall. intros b Hin%list_elem_of_In.
    by apply (proj1 (forallb_forall _ _) Et).
  - intros ([name value] & [(raw & Hline & Hval) [(Hne & Ht & Hv) Hl]] & Hroom & Hte & ->). cbn [fst snd] in *. subst line value. rewrite Hone in Hte. cbn [fst snd] in Hte.
    destruct (Z.gtb_spec (len (name ++ 58 :: raw)) (max_header_line config)); [lia|].
    rewrite Z.geb_leb. destruct (Z.leb_spec (max_headers config) (len (acc_headers a))); [lia|].
    assert (H58 : 58 ∉ name) by (intros Hin; rewrite Forall_forall in Ht; by specialize (Ht _ Hin)).
    rewrite (proj2 (split_once_spec 58 (name ++ 58 :: raw) name raw)) by done. cbn [ok_or rbind].
    rewrite bool_decide_false by done. assert (forallb is_tchar name = true) as ->.
    { apply forallb_forall. intros b Hin%list_elem_of_In. rewrite Forall_forall in Ht. by apply Ht. }
    cbn [negb orb]. rewrite (proj2 (no_crlf_existsb (trim raw))) by done. apply Hstore. split; [|done].
    by destruct (eq_ignore_ascii_case name (str "Transfer-Encoding")).
Qed.

Lemma add_fields_app a hs1 hs2 : add_fields (add_fields a hs1) hs2 = add_fields a (hs1 ++ hs2).
Proof. unfold add_fields, values_of. cbn [acc_headers acc_hosts acc_lengths]. by rewrite !List.filter_app, !map_app, !app_assoc. Qed.

Lemma add_no_fields a : add_fields a [] = a.
Proof. unfold add_fields. cbn. rewrite !app_nil_r. by destruct a. Qed.

(** The loop collects the fields of the lines that are not blank. *)
Lemma parse_header_lines_spec config a lines a' :
  parse_header_lines config a lines = Ok a' <->
  exists hs, Forall2 (field_line_of config) (List.filter not_blank lines) hs /\
    (hs <> [] -> len (acc_headers a) + len hs <= max_headers config) /\
    values_of (str "Transfer-Encoding") hs = [] /\ a' = add_fields a hs.
Proof.
  revert a. induction lines as [|line lines IH]; intros a; cbn [parse_header_lines List.filter].
  - split.
    + intros [= <-]. exists []. split_and!; [constructor|done|done|by rewrite add_no_fields].
    + intros (hs & Hf & _ & _ & ->). inversion Hf. by rewrite add_no_fields.
  - destruct (not_blank line) eqn:Hb.
    + split.
      * intros (a1 & H1 & H2)%rbind_ok. apply (parse_header_line_spec _ _ _ _ Hb) in H1 as (h & Hh & Hroom & Hte & ->).
        apply IH in H2 as (hs & Hf & Hmax & Hts & ->). exists (h :: hs). rewrite add_fields_app, values_of_cons, Hte, Hts.
        split_and!; [by constructor| |done|done]. intros _. rewrite len_cons. unfold add_fields in Hmax. cbn [acc_headers] in Hmax.
        rewrite len_app in Hmax. change (len [h]) with 1 in Hmax. destruct hs as [|h' hs]; [rewrite len_nil; lia|specialize (Hmax ltac:(done)); lia].
      * intros (hs & Hf & Hmax & Hts & ->). inversion Hf as [|? h ? hs' Hh Hf']; subst. rewrite values_of_cons in Hts. apply app_eq_nil in Hts as [Hte Hts].
        specialize (Hmax ltac:(done)). rewrite len_cons in Hmax. pose proof (len_nonneg hs').
        rewrite (proj2 (parse_header_line_spec config a line (add_fields a [h]) Hb)) by (exists h; split_and!; [done|lia|done..]).
        cbn [rbind]. apply IH. exists hs'. rewrite add_fields_app. split_and!; [done| |done|done].
        intros _. unfold add_fields. cbn [acc_headers]. rewrite len_app. change (len [h]) with 1. lia.
    + assert (parse_header_line config a line = Ok a) as ->; [|apply IH]. unfold parse_header_line. unfold not_blank in Hb.
      apply negb_false_iff in Hb. by rewrite Hb.
Qed.

(** ** The request line *)

Fixpoint join (c : Z) (ls : list bytes) : bytes :=
  match ls with
  | [] => []
  | [x] => x
  | x :: ls => x ++ c :: join c ls
  end.

Lemma split_on_nonempty c l : split_on c l <> [].
Proof. destruct l as [|b l]; cbn; [done|]. case_match; [done|]. by destruct (split_on c l). Qed.

Lemma join_split_on c l : join c (split_on c l) = l.
Proof.
  induction l as [|b l IH]; [done|]. cbn [split_on].
  pose proof (split_on_nonempty c l) as Hne. destruct (Z.eqb_spec b c) as [->|].
  - cbn [join]. destruct (split_on c l); [done|]. by rewrite IH.
  - destruct (split_on c l) as [|x ls]; [done|]. cbn [cons_head].
    destruct ls; cbn [join app] in *; by rewrite IH.
Qed.

Lemma split_on_words c l : Forall (fun w => c ∉ w) (split_on c l).
Proof.
  induction l as [|b l IH]; [by repeat constructor; set_solver|]. cbn [split_on].
  destruct (Z.eqb_spec b c) as [->|Hb]; [constructor; [set_solver|done]|].
  destruct (split_on c l) as [|w ws]; cbn [cons_head]; [repeat constructor; set_solver|].
  apply Forall_cons in IH as [Hw Hws]. constructor; [set_solver|done].
Qed.

Lemma split_on_word c w : c ∉ w -> split_on c w = [w].
Proof.
  induction w as [|b w IH]; [done|]. intros [Hb Hw]%not_elem_of_cons. cbn [split_on].
  rewrite (proj2 (Z.eqb_neq b c)) by done. by rewrite IH.
Qed.

Lemma split_on_first c w l : c ∉ w -> split_on c (w ++ c :: l) = w :: split_on c l.
Proof.
  induction w as [|b w IH]; [cbn; by rewrite Z.eqb_refl|]. intros [Hb Hw]%not_elem_of_cons. cbn [app split_on].
  rewrite (proj2 (Z.eqb_neq b c)) by done. by rewrite IH.
Qed.

(** A request line within the limits and its parts. *)
Definition request_line_ok (config : ServerConfig) (l m u v : bytes) : Prop :=
  l = m ++ 32 :: u ++ 32 :: v /\ v = str "HTTP/1.1" /\
  len u <= max_uri_length config /\ len l <= max_header_line config /\
  m <> [] /\ u <> [] /\ forallb is_ascii_alphabetic m = true /\
  Forall (fun b => 32 < b /\ b <> 127) u.

Lemma existsb_control u : existsb (fun b => (b <=? 31) || (b =? 127)) u = false <-> Forall (fun b => 31 < b /\ b <> 127) u.
Proof.
  split.
  - induction u as [|b u IH]; [constructor|]. cbn [existsb]. intros H. zbool. constructor; [lia|by apply IH].
  - induction 1 as [|b u Hb _ IH]; [done|]. cbn [existsb]. rewrite IH. lia.
Qed.

Lemma existsb_tab w : 9 ∉ w -> existsb (Z.eqb 9) w = false.
Proof. intros Hw. apply existsb_false_Forall, Forall_forall. intros b Hb. apply Z.eqb_neq. by intros <-. Qed.

Lemma parse_request_line_spec config l m u v :
  parse_request_line config l = Ok (m, u, v) <-> request_line_ok config l m u v.
Proof.
  unfold parse_request_line. split.
  - pose proof (join_split_on 32 l) as Hj. pose proof (split_on_words 32 l) as Hw.
    destruct (split_on 32 l) as [|m' [|u' [|v' [|]]]]; try done.
    apply Forall_cons in Hw as [_ [Hw _]%Forall_cons]. intros H.
    do 5 (split_if H; [done|]). simplify_eq. cbn [existsb] in E. zbool.
    cbn [join] in *. split_and!; try done; try lia; [by apply bytes_eqb_eq|].
    match goal with H : existsb _ u = false |- _ => apply existsb_control in H; rename H into Hu end.
    rewrite !Forall_forall in *. intros b Hb. specialize (Hu b Hb). cbn in Hu. split; [|lia].
    destruct (decide (b = 32)) as [->|]; [by apply Hw in Hb|lia].
  - intros (-> & -> & Hu & Hl & Hm & Hne & Ha & Hc).
    assert (Hnm : forall c, is_ascii_alphabetic c = false -> c ∉ m).
    { intros c Hf Hin. by rewrite (proj1 (forallb_forall _ _) Ha c (proj1 (list_elem_of_In _ _) Hin)) in Hf. }
    assert (Hnu : forall c, c <= 32 -> c ∉ u) by (intros c Hle Hin; rewrite Forall_forall in Hc; specialize (Hc _ Hin); cbn in Hc; lia).
    rewrite split_on_first by by apply Hnm. rewrite split_on_first by by apply Hnu. rewrite split_on_word by (apply (bool_decide_unpack _); exact I).
    cbn [existsb]. rewrite !existsb_tab by (first [by apply Hnm|by apply Hnu|apply (bool_decide_unpack _); exact I]).
    rewrite !bool_decide_false by done. cbn [orb]. rewrite Ha. cbn [negb].
    destruct (Z.gtb_spec (len u) (max_uri_length config)); [lia|].
    destruct (Z.gtb_spec (len (m ++ 32 :: u ++ 32 :: str "HTTP/1.1")) (max_header_line config)); [lia|].
    rewrite (proj2 (existsb_control u)); [done|]. eapply Forall_impl; [exact Hc|]. cbn. lia.
Qed.

Section ParserProofs.
Context `{UnicodeCase}.

(** The length of the body that the [Content-Length] values announce. *)
Definition announced_length (config : ServerConfig) (values : list bytes) (n : Z) : Prop :=
  match values with
  | [] => n = 0
  | v :: rest => Forall (fun v' => v' = v) rest /\ parse_usize v = Some n /\ n <= max_request_size config
  end.

(** The requests the server takes, by the bytes of their heads: the head is
    within its limit and valid UTF-8; its lines, which nothing but CR LF ends,
    are a request line and the fields, in their order, each line within its
    limit and the fields within their number; none of them is a
    [Transfer-Encoding], just one is a [Host], and the lengths agree. *)
Record head_ok (config : ServerConfig) (header_bytes : bytes) (h : HttpRequestHead) : Prop := {
  head_ok_len : header_len h = len header_bytes + 4;
  head_ok_size : header_len h <= max_header_size config;
  head_ok_text : utf8_valid header_bytes = true;
  head_ok_breaks : Forall no_crlf (split_crlf header_bytes);
  head_ok_lines : exists l m lines, split_crlf header_bytes = l :: lines /\
    request_line_ok config l m (head_uri h) (head_version h) /\ head_method h = method_from m /\
    Forall2 (field_line_of config) (List.filter not_blank lines) (head_headers h);
  head_ok_count : len (head_headers h) <= max_headers config;
  head_ok_coding : values_of (str "Transfer-Encoding") (head_headers h) = [];
  head_ok_host : exists host, values_of (str "Host") (head_headers h) = [host] /\ trim host <> [];
  head_ok_length : announced_length config (values_of (str "Content-Length") (head_headers h)) (content_length h);
}.

Lemma check_lengths_spec config ls n : check_lengths config ls = Ok n <-> announced_length config ls n.
Proof.
  unfold check_lengths, announced_length. destruct ls as [|v ls]; [naive_solver|].
  assert (Hall : existsb (fun v' => negb (bytes_eqb v' v)) (v :: ls) = false <-> Forall (fun v' => v' = v) ls).
  { cbn [existsb]. rewrite (proj2 (bytes_eqb_eq v v) eq_refl). cbn [negb orb]. rewrite existsb_false_Forall.
    apply Forall_iff. intros v'. by rewrite negb_false_iff, bytes_eqb_eq. }
  split.
  - intros Hx. split_if Hx; [done|]. apply rbind_ok in Hx as (k & Hk & Hx). destruct (parse_usize v) as [k'|]; [|done].
    injection Hk as ->. split_if Hx; [done|]. injection Hx as ->. zbool. split_and!; [by apply Hall|done|lia].
  - intros (Hf & Hp & Hm). rewrite (proj2 Hall Hf), Hp. cbn [ok_or rbind].
    by destruct (Z.gtb_spec n (max_request_size config)); [lia|].
Qed.

Lemma announced_bounds config ls n : announced_length config ls n -> 0 <= max_request_size config -> 0 <= n <= max_request_size config.
Proof.
  destruct ls as [|v ls]; cbn; [lia|]. intros (_ & Hp & Hm) _.
  apply parse_unsigned_bound in Hp; [lia|unfold USIZE_MAX, U64_MAX; lia].
Qed.

Lemma check_hosts_spec hosts : check_hosts hosts = Ok tt <-> exists host, hosts = [host] /\ trim host <> [].
Proof.
  destruct hosts as [|host [|]]; cbn [check_hosts]; [split; [done|by intros (? & [=] & _)]| |split; [done|by intros (? & [=] & _)]].
  case_bool_decide; split; [done|by intros (? & [= <-] & ?)|by eexists|done].
Qed.

Lemma parse_head_spec buffer config h :
  parse_head buffer config = Ok (Some h) <->
  exists header_bytes, find_subslice buffer CRLF2 = Some (len header_bytes) /\
    buffer = header_bytes ++ CRLF2 ++ drop (Z.to_nat (header_len h)) buffer /\ head_ok config header_bytes h.
Proof.
  assert (Htake : forall pre post : bytes, take (Z.to_nat (len pre)) (pre ++ post) = pre)
    by (intros; unfold len; by rewrite Nat2Z.id, take_app_length).
  unfold parse_head. split.
  - destruct (find_subslice buffer CRLF2) as [e|] eqn:Hfind; [|by case_match].
    apply find_from_spec in Hfind as (pre & post & Hb & -> & _). rewrite Z.add_0_l. intros Hx. split_if Hx; [done|].
    rewrite Hb, Htake in Hx. split_if Hx; [done|]. split_if Hx; [done|]. zbool.
    destruct (split_crlf pre) as [|l lines] eqn:Hsplit; [done|].
    apply rbind_ok in Hx as ([[m u] v] & Hrl & Hr). apply rbind_ok in Hr as (a & Ha & Hr).
    apply rbind_ok in Hr as ([] & Hhost & Hr). apply rbind_ok in Hr as (n & Hn & [= <-]).
    apply parse_request_line_spec in Hrl. apply parse_header_lines_spec in Ha as (hs & Hf & Hmax & Hte & ->).
    apply check_hosts_spec in Hhost. apply check_lengths_spec in Hn. cbn [add_fields acc_headers acc_hosts acc_lengths app] in *.
    exists pre. cbn [header_len]. split; [done|]. split.
    + rewrite Hb at 1. do 2 f_equal. rewrite Hb, app_assoc.
      replace (Z.to_nat (len pre + 4)) with (length (pre ++ CRLF2))
        by (rewrite length_app; unfold len; change (length CRLF2) with 4%nat; lia).
      by rewrite drop_app_length.
    + split; cbn [head_method head_uri head_version head_headers content_length header_len]; try done; [| |].
      * by eapply line_breaks_ok_lines; [|done].
      * by exists l, m, lines.
      * destruct hs as [|h hs]; [destruct Hhost as (? & [=] & _)|]. specialize (Hmax ltac:(done)). by rewrite len_nil, Z.add_0_l in Hmax.
  - intros (pre & -> & Hb & [Hlen Hsize Htext Hbreaks (l & m & lines & Hs & Hrl & Hm & Hf) Hcount Hte Hhost Hcl]).
    rewrite <- Hlen. destruct (Z.gtb_spec (header_len h) (max_header_size config)); [lia|].
    rewrite Hb, Htake, Htext, lines_line_breaks_ok by done. cbn [negb]. rewrite Hs.
    rewrite (proj2 (parse_request_line_spec _ _ _ _ _) Hrl). cbn [rbind].
    rewrite (proj2 (parse_header_lines_spec config (mkAcc [] [] []) lines (add_fields (mkAcc [] [] []) (head_headers h))))
      by (exists (head_headers h); split_and!; [done|intros _; cbn [acc_headers]; rewrite len_nil; lia|done..]).
    cbn [rbind add_fields acc_headers acc_hosts acc_lengths app].
    rewrite (proj2 (check_hosts_spec _) Hhost), (proj2 (check_lengths_spec _ _ _) Hcl). cbn [rbind]. rewrite <- Hm. by destruct h.
Qed.

(** What is used of an accepted head elsewhere. *)
Lemma parse_head_ok buffer config h :
  parse_head buffer config = Ok (Some h) ->
  exists header_bytes, buffer = header_bytes ++ CRLF2 ++ drop (Z.to_nat (header_len h)) buffer /\ head_ok config header_bytes h.
Proof. intros (pre & _ & Hb & Hok)%parse_head_spec. by exists pre. Qed.

Lemma head_fields config header_bytes h : head_ok config header_bytes h -> Forall field_ok (head_headers h).
Proof. intros Hok. destruct (head_ok_lines _ _ _ Hok) as (l & m & lines & _ & _ & _ & Hf). induction Hf as [|? ? ? ? (_ & Hh & _)]; by constructor. Qed.

(** C40: The parser takes a request's head exactly when it should.  A head is
    accepted if and only if the buffer holds an empty line and the bytes before
    the first one are a head as [head_ok] describes it, within every limit: the
    size of the head, of each of its lines and of the target, and the number of
    fields.  Method, target, version and length are those of the bytes, and the
    fields are those of its lines, blank ones apart, each in its place and none
    left out. *)
Theorem parse_head_exact buffer config h :
  parse_head buffer config = Ok (Some h) <->
  exists header_bytes, find_subslice buffer CRLF2 = Some (len header_bytes) /\
    buffer = header_bytes ++ CRLF2 ++ drop (Z.to_nat (header_len h)) buffer /\ head_ok config header_bytes h.
Proof. apply parse_head_spec. Qed.

(** More input does not change a decided head. *)
Lemma parse_head_app buffer config h more :
  parse_head buffer config = Ok (Some h) -> parse_head (buffer ++ more) config = Ok (Some h).
Proof.
  unfold parse_head. destruct (find_subslice buffer CRLF2) as [e|] eqn:Hfind; [|by case_match].
  pose proof (find_from_bound _ _ _ _ Hfind) as Hbd. change (len CRLF2) with 4 in Hbd.
  unfold find_subslice in *. rewrite (find_from_app _ _ _ _ more Hfind).
  rewrite take_app_le; [done|]. unfold len in Hbd. lia.
Qed.

(** A request is taken off the front of the buffer
    exactly: the consumed bytes are the head, its empty line and as many body
    bytes as the head announces, the rest stays; and bytes that arrive later
    (a pipelined request) change neither the request nor what is consumed. *)
Theorem parse_request_incremental buffer config rest req :
  len buffer < USIZE_MAX ->
  0 <= max_request_size config ->
  parse_request buffer config = (rest, Ok (Some req)) ->
  (exists head header_bytes, head_ok config header_bytes head /\
     buffer = header_bytes ++ CRLF2 ++ body req ++ rest /\
     len (body req) = content_length head /\ req = into_request head (body req)) /\
  (forall more, parse_request (buffer ++ more) config = (rest ++ more, Ok (Some req))).
Proof.
  intros Hlen Hmax. unfold parse_request.
  destruct (parse_head buffer config) as [[h|]|] eqn:Hh; try done.
  destruct (len buffer <? _) eqn:Hl; [done|]. intros [= <- <-]. zbool.
  destruct (parse_head_ok _ _ _ Hh) as (hb & Hb & Hok).
  pose proof (head_ok_len _ _ _ Hok) as Hhl. pose proof (announced_bounds _ _ _ (head_ok_length _ _ _ Hok) Hmax) as Hcl.
  pose proof (len_nonneg hb). unfold saturating_add_usize in *.
  rewrite Z.min_l in * by lia. set (tot := header_len h + content_length h) in *.
  split.
  - exists h, hb. cbn [body into_request]. split_and!; [done| |rewrite slice_length; lia|done].
    rewrite Hb at 1. do 2 f_equal. unfold slice.
    rewrite <- (take_drop (Z.to_nat (tot - header_len h)) (drop (Z.to_nat (header_len h)) buffer)) at 1.
    rewrite drop_drop. do 2 f_equal. lia.
  - intros more. rewrite (parse_head_app _ _ _ more Hh). rewrite Z.min_l by lia.
    fold tot. rewrite len_app. pose proof (len_nonneg more).
    replace (len buffer + len more <? tot) with false by lia. unfold len in *.
    rewrite drop_app_le by lia. unfold slice.
    rewrite drop_app_le, take_app_le by (rewrite ?length_drop; lia). done.
Qed.
End ParserProofs.

Definition sample_request : bytes :=
  str "POST /a HTTP/1.1" ++ CRLF ++ str "Host: x" ++ CRLF ++ str "Content-Length: 3"
  ++ CRLF2 ++ str "abc".

(** A header line one byte over its limit refuses the head that is taken with it
    in full, and the fields of a head are all there. *)
Example sample_head_limits :
  let allows n := set_max_header_line n server_config_default in
  parse_head (H:=ascii_case) sample_request (allows 17) =
    Ok (Some (mkHead Post (str "/a") (str "HTTP/1.1") [(str "Host", str "x"); (str "Content-Length", str "3")] 3 48)) /\
  parse_head (H:=ascii_case) sample_request (allows 16) = Err OversizedHeaderLine.
Proof. split; vm_compute; reflexivity. Qed.

Lemma parse_request_incremental_witness :
  parse_request (H:=ascii_case) (sample_request ++ str "GET") server_config_default
  = ([] ++ str "GET",
     Ok (Some (mkHttpRequest Post (str "/a") (str "HTTP/1.1")
       [(str "Host", str "x"); (str "Content-Length", str "3")] (str "abc")))).
Proof.
  apply (parse_request_incremental (H:=ascii_case) sample_request server_config_default []
    (mkHttpRequest Post (str "/a") (str "HTTP/1.1")
       [(str "Host", str "x"); (str "Content-Length", str "3")] (str "abc"))).
  - vm_compute. reflexivity.
  - vm_compute. discriminate.
  - vm_compute. reflexivity.
Defined.

(** ** Numbers in messages *)

Definition digit_value (c : Z) : Z := if c <? 58 then c - 48 else c - 87.

(** Value of a digit string, most significant digit first. *)
Fixpoint digits_value (base : Z) (l : bytes) (acc : Z) : Z :=
  match l with [] => acc | c :: l => digits_value base l (acc * base + digit_value c) end.

Lemma digit_value_char d : 0 <= d < 16 -> digit_value (digit_char d) = d.
Proof. unfold digit_value, digit_char. intros H. repeat case_match; zbool; lia. Qed.

Lemma radix_digits_value base fuel n acc :
  2 <= base <= 16 -> 0 <= n < base ^ (Z.of_nat fuel + 1) ->
  digits_value base (radix_digits base fuel n acc) 0 = digits_value base acc n.
Proof.
  intros Hb. revert n acc. induction fuel as [|f IH]; intros n acc Hn; cbn [radix_digits].
  all: pose proof (Z.mod_pos_bound n base ltac:(lia)) as Hmod.
  all: pose proof (Z.div_mod n base ltac:(lia)) as Hdm.
  - change (Z.of_nat 0 + 1) with 1 in Hn. rewrite Z.pow_1_r in Hn. cbn [digits_value].
    rewrite digit_value_char by lia. rewrite Z.mod_small by lia. f_equal.
  - destruct (Z.eqb_spec (n / base) 0) as [E|E].
    + cbn [digits_value]. rewrite digit_value_char by lia. f_equal. rewrite E in Hdm. lia.
    + rewrite IH.
      * cbn [digits_value]. rewrite digit_value_char by lia. f_equal. lia.
      * split; [apply Z.div_pos; lia|]. apply Z.div_lt_upper_bound; [lia|].
        replace (Z.of_nat (S f) + 1) with (1 + (Z.of_nat f + 1)) in Hn by lia.
        rewrite Z.pow_add_r, Z.pow_1_r in Hn by lia. lia.
Qed.

Lemma digit_char_decimal d : 0 <= d < 10 -> is_ascii_digit (digit_char d) = true.
Proof. unfold is_ascii_digit, digit_char. intros H. case_match; zbool; lia. Qed.

Lemma radix_digits_app base fuel n acc :
  exists ds, radix_digits base fuel n acc = ds ++ acc /\ ds <> [] /\
    (0 < base -> Forall (fun c => exists d, 0 <= d < base /\ c = digit_char d) ds).
Proof.
  revert n acc. induction fuel as [|f IH]; intros n acc; cbn [radix_digits].
  - exists [digit_char (n mod base)]. split_and!; try done.
    intros. repeat constructor. exists (n mod base). split; [by apply Z.mod_pos_bound|done].
  - case_match.
    + exists [digit_char (n mod base)]. split_and!; try done.
      intros. repeat constructor. exists (n mod base). split; [by apply Z.mod_pos_bound|done].
    + destruct (IH (n / base) (digit_char (n mod base) :: acc)) as (ds & -> & Hne & Hd).
      exists (ds ++ [digit_char (n mod base)]). rewrite <- app_assoc. split_and!; try done.
      * by destruct ds.
      * intros Hb. apply Forall_app. split; [by apply Hd|]. repeat constructor.
        exists (n mod base). split; [by apply Z.mod_pos_bound|done].
Qed.

(** [parse_digits] computes the value when it fits, for prefixes too. *)
Lemma parse_digits_value max l acc :
  Forall (fun c => is_ascii_digit c = true) l -> 0 <= acc ->
  digits_value 10 l acc <= max -> parse_digits max l acc = Some (digits_value 10 l acc).
Proof.
  intros Hl. revert acc. induction Hl as [|c l Hc Hl IH]; intros acc Ha Hm; [done|].
  cbn [parse_digits digits_value] in *. rewrite Hc. unfold is_ascii_digit in Hc. zbool.
  assert (Hd : digit_value c = c - 48) by (unfold digit_value; case_match; zbool; lia).
  rewrite Hd in *.
  assert (Hmono : forall k a, Forall (fun c => is_ascii_digit c = true) k -> 0 <= a ->
                    a <= digits_value 10 k a).
  { intros k a Hk. revert a. induction Hk as [|x k Hx Hk IHk]; intros a Ha'; [done|].
    cbn [digits_value]. unfold is_ascii_digit in Hx. zbool.
    assert (0 <= digit_value x) by (unfold digit_value; case_match; zbool; lia).
    specialize (IHk (a * 10 + digit_value x)). lia. }
  specialize (Hmono l (acc * 10 + (c - 48)) Hl).
  replace (acc * 10 + (c - 48) <=? max) with true by lia. apply IH; lia.
Qed.

Lemma parse_usize_to_string n : 0 <= n <= USIZE_MAX -> parse_usize (to_string n) = Some n.
Proof.
  intros Hn. unfold to_string.
  assert (Hv : digits_value 10 (radix_digits 10 19 n []) 0 = n).
  { rewrite radix_digits_value; [done|lia|]. unfold USIZE_MAX, U64_MAX in Hn. simpl. lia. }
  destruct (radix_digits_app 10 19 n []) as (ds & E & Hne & Hd). rewrite app_nil_r in E.
  specialize (Hd ltac:(lia)). rewrite E in *.
  assert (Hdig : Forall (fun c => is_ascii_digit c = true) ds).
  { eapply Forall_impl; [exact Hd|]. intros c (d & Hr & ->). by apply digit_char_decimal. }
  unfold parse_usize, parse_unsigned. destruct ds as [|c ds]; [done|].
  pose proof (Forall_inv Hdig) as Hc. unfold is_ascii_digit in Hc. zbool.
  rewrite eqb_neq_false by lia. rewrite parse_digits_value; rewrite ?Hv; (done || lia).
Qed.

(** The Content-Length that [with_body] writes is the only one
    it adds and is read back by the request parser's own number parser as the
    exact length of the body, which is also what [body_len] reports. *)
Theorem with_body_content_length r b content_type :
  len b <= USIZE_MAX ->
  let r' := with_body r b content_type in
  values_of (str "Content-Length") (resp_headers r')
  = values_of (str "Content-Length") (resp_headers r) ++ [to_string (len b)] /\
  parse_usize (to_string (len b)) = Some (body_len r').
Proof.
  intros Hb r'. subst r'. split.
  - unfold with_body, push_header, set_body. cbn [resp_headers].
    rewrite !values_of_snoc.
    change (eq_ignore_ascii_case (str "Content-Length") (str "Content-Length")) with true.
    change (eq_ignore_ascii_case (str "Content-Type") (str "Content-Length")) with false.
    by rewrite app_nil_r.
  - cbn [body_len with_body set_body body_source]. apply parse_usize_to_string.
    split; [apply len_nonneg|done].
Qed.

Lemma with_body_content_length_witness :
  parse_usize (to_string 5) = Some (body_len (with_body (response_new StatusOk)
                                      (str "hello") (str "text/plain"))).
Proof.
  apply (with_body_content_length (response_new StatusOk) (str "hello") (str "text/plain")).
  vm_compute. discriminate.
Defined.

(** ** The response head cannot be split *)

Definition line_end (l : bytes) : bytes := l ++ CRLF.

Lemma find_from_skip b h n i :
  starts_with (b :: h) n = false -> find_from (b :: h) n i = find_from h n (i + 1).
Proof. intros E. cbn [find_from]. by rewrite E. Qed.

Lemma not_crlf_start b l : b <> 13 -> starts_with (b :: l) CRLF2 = false.
Proof. intros H. unfold CRLF2. cbn [starts_with]. by rewrite eqb_neq_false by congruence. Qed.

Lemma find_from_line l i rest :
  no_crlf l -> starts_with (CRLF ++ rest) CRLF2 = false ->
  find_from (l ++ CRLF ++ rest) CRLF2 i = find_from rest CRLF2 (i + len l + 2).
Proof.
  intros Hl Hr. revert i. induction Hl as [|b l [Hb1 Hb2] Hl IH]; intros i.
  - cbn [app]. unfold CRLF in *. cbn [app] in *. rewrite find_from_skip by done.
    rewrite find_from_skip by done. f_equal. rewrite len_nil. lia.
  - cbn [app]. rewrite find_from_skip.
    + rewrite IH, len_cons. f_equal. lia.
    + by apply not_crlf_start.
Qed.

(** Non-empty lines without line breaks, each ended by CRLF, then the empty
    line: the first blank line is that one. *)
Lemma find_from_lines ls i rest :
  Forall (fun l => no_crlf l /\ l <> []) ls -> ls <> [] ->
  find_from (concat (map line_end ls) ++ CRLF ++ rest) CRLF2 i
  = Some (i + len (concat (map line_end ls)) - 2).
Proof.
  intros Hls Hne. revert i. induction Hls as [|l ls [Hl Hlne] Hls IH]; intros i; [done|].
  rewrite concat_map_cons. unfold line_end at 1 3. rewrite <- !app_assoc, !len_app.
  change (len CRLF) with 2. destruct ls as [|l2 ls].
  - cbn [map concat app]. rewrite len_nil. clear -Hl Hlne.
    replace (i + (len l + (2 + 0)) - 2) with (i + len l) by lia.
    revert i. clear Hlne. induction Hl as [|b l [Hb1 Hb2] Hl IH]; intros i.
    + cbn. by rewrite Z.add_0_r.
    + cbn [app]. rewrite find_from_skip.
      * rewrite IH, len_cons. f_equal. lia.
      * by apply not_crlf_start.
  - rewrite find_from_line; [rewrite IH by done; f_equal; lia|done|].
    inversion_clear Hls as [|? ? [Hl2 Hl2ne] _]. rewrite concat_map_cons. unfold line_end at 1.
    destruct l2 as [|b l2]; [done|]. apply Forall_cons in Hl2 as [[Hb1 _] _].
    unfold CRLF, CRLF2. cbn [app starts_with]. by rewrite (eqb_neq_false 13 b) by congruence.
Qed.

(** The lines of the head, the status line first. *)
Definition head_lines (r : HttpResponse) : list bytes :=
  let chunked := is_gzip (body_source r) in
  let sent := List.filter
    (fun h => negb (chunked && eq_ignore_ascii_case (fst h) (str "Content-Length")))
    (resp_headers r) in
  (str "HTTP/1.1 " ++ to_string (code (status r)) ++ str " " ++ reason_phrase (status r))
  :: map (fun h => fst h ++ str ": " ++ snd h) sent
  ++ (if existsb (fun h => eq_ignore_ascii_case (fst h) (str "Connection")) sent then []
      else [if close_connection r then str "Connection: close"
            else str "Connection: keep-alive"])
  ++ (if chunked && negb (existsb (fun h => eq_ignore_ascii_case (fst h)
                                     (str "Transfer-Encoding")) (resp_headers r))
      then [str "Transfer-Encoding: chunked"] else []).

Lemma response_head_lines r :
  response_head r = concat (map line_end (head_lines r)) ++ CRLF.
Proof.
  unfold response_head, head_lines. rewrite concat_map_cons, !map_app, !concat_app, map_map.
  unfold line_end at 1. rewrite <- !app_assoc. do 5 f_equal.
  f_equal; [f_equal; apply map_ext; intros h; unfold header_line, line_end;
            by rewrite <- !app_assoc|].
  f_equal; [by repeat case_match|]. f_equal. by case_match.
Qed.

Definition clean_headers (r : HttpResponse) : Prop :=
  Forall (fun h => no_crlf (fst h) /\ no_crlf (snd h)) (resp_headers r).

Lemma no_crlf_app a b : no_crlf a -> no_crlf b -> no_crlf (a ++ b).
Proof. intros. by apply Forall_app. Qed.

Lemma no_crlf_dec s : forallb (fun b => negb (b =? 13) && negb (b =? 10)) s = true -> no_crlf s.
Proof.
  induction s as [|b s IH]; [constructor|]. cbn [forallb]. intros H. zbool.
  constructor; [done|by apply IH].
Qed.

Lemma status_line_clean s : no_crlf (to_string (code s)) /\ no_crlf (reason_phrase s).
Proof. split; destruct s; by apply no_crlf_dec. Qed.

Lemma head_lines_clean r :
  clean_headers r -> Forall (fun l => no_crlf l /\ l <> []) (head_lines r).
Proof.
  intros Hc. unfold head_lines. destruct (status_line_clean (status r)) as [Hs1 Hs2].
  constructor.
  { split; [|done]. repeat apply no_crlf_app; try done; by apply no_crlf_dec. }
  apply Forall_app. split; [|apply Forall_app; split].
  - apply Forall_forall. intros l (h & <- & Hin)%list_elem_of_In%in_map_iff.
    apply List.filter_In in Hin as [Hin _]. apply list_elem_of_In in Hin.
    destruct (proj1 (Forall_forall _ _) Hc _ Hin) as [Hn Hv]. split.
    + apply no_crlf_app; [done|]. apply no_crlf_app; [by apply no_crlf_dec|done].
    + by destruct (fst h).
  - repeat case_match; repeat constructor; (done || by apply no_crlf_dec).
  - repeat case_match; repeat constructor; (done || by apply no_crlf_dec).
Qed.

Lemma response_head_ends r body_bytes :
  clean_headers r ->
  find_subslice (response_head r ++ body_bytes) CRLF2 = Some (len (response_head r) - 4).
Proof.
  intros Hc. rewrite response_head_lines, <- app_assoc. unfold find_subslice.
  rewrite find_from_lines; [|by apply head_lines_clean|done].
  rewrite len_app. change (len CRLF) with 2. f_equal. lia.
Qed.

(** With headers free of CR and LF, as
    [with_header] makes them whatever its arguments are, the serialised head is
    one line per header, and the first blank line a receiver finds is the one
    that ends the head, whatever the body contains. *)
Theorem response_head_not_split r body_bytes :
  clean_headers r ->
  find_subslice (response_head r ++ body_bytes) CRLF2 = Some (len (response_head r) - 4) /\
  (forall name value, clean_headers (with_header r name value)).
Proof.
  intros Hc. split; [by apply response_head_ends|].
  - intros name value. apply Forall_app. split; [done|]. repeat constructor; cbn [fst snd].
    all: apply Forall_forall; intros b [_ Hb]%list_elem_of_In%List.filter_In; zbool; lia.
Qed.

Lemma response_head_not_split_witness :
  find_subslice (response_head (with_header (response_new NotFound)
     (str "X-A") (str "b" ++ CRLF2 ++ str "c")) ++ str "body") CRLF2 = Some 77.
Proof.
  destruct (response_head_not_split (with_header (response_new NotFound)
     (str "X-A") (str "b" ++ CRLF2 ++ str "c")) (str "body")) as [-> _].
  - repeat constructor; vm_compute; discriminate.
  - vm_compute. reflexivity.
Defined.

(** ** Chunked framing *)

(** A reference decoder for the chunked coding (RFC 9112 section 7.1, without
    extensions and trailers). *)
Fixpoint dechunk (fuel : nat) (l : bytes) : option bytes :=
  match fuel with
  | O => None
  | S f =>
      match split_once 13 l with
      | Some (hex, 10 :: rest) =>
          let n := digits_value 16 hex 0 in
          if n =? 0 then (if bool_decide (rest = CRLF) then Some [] else None) else
          let d := take (Z.to_nat n) rest in
          if (len d =? n) && starts_with (drop (Z.to_nat n) rest) CRLF then
            match dechunk f (drop 2 (drop (Z.to_nat n) rest)) with
            | Some b => Some (d ++ b)
            | None => None
            end
          else None
      | _ => None
      end
  end.

(** A reader that delivers data until its end, without errors. *)
Definition reader_clean (r : Reader) : Prop :=
  Forall (fun e => exists b d, e = RData (b :: d)) r.

Lemma split_once_skip c l rest : Forall (fun b => b <> c) l ->
  split_once c (l ++ c :: rest) = Some (l, rest).
Proof.
  induction 1 as [|b l Hb _ IH]; cbn [app split_once]; [by rewrite Z.eqb_refl|].
  by rewrite eqb_neq_false, IH.
Qed.

Lemma to_hex_spec n : 0 <= n <= 65536 ->
  digits_value 16 (to_hex n) 0 = n /\ Forall (fun b => b <> 13) (to_hex n).
Proof.
  intros Hn. unfold to_hex. split.
  - rewrite radix_digits_value; [done|lia|]. simpl. lia.
  - destruct (radix_digits_app 16 15 n []) as (ds & -> & _ & Hd). rewrite app_nil_r.
    eapply Forall_impl; [apply Hd; lia|]. intros c (d & Hr & ->).
    unfold digit_char. case_match; zbool; lia.
Qed.

Lemma dechunk_chunk f d rest b :
  0 < len d <= 65536 -> dechunk f rest = Some b ->
  dechunk (S f) (to_hex (len d) ++ CRLF ++ d ++ CRLF ++ rest) = Some (d ++ b).
Proof.
  intros Hd Hr. destruct (to_hex_spec (len d)) as [Hv Hn]; [lia|].
  unfold CRLF. cbn [app dechunk]. rewrite split_once_skip by done. rewrite Hv.
  rewrite eqb_neq_false by lia. unfold len. rewrite Nat2Z.id, take_app_length, drop_app_length.
  rewrite Z.eqb_refl. change (starts_with (13 :: 10 :: rest) CRLF) with true. cbn [andb].
  change (drop 2 (13 :: 10 :: rest)) with rest. by rewrite Hr.
Qed.

Lemma dechunk_last f : dechunk (S f) (str "0" ++ CRLF ++ CRLF) = Some [].
Proof. done. Qed.

(** One read of a clean reader. *)
Lemma read_clean n r : 0 < n -> reader_clean r ->
  r = [] \/ exists d r', read r n = (r', ReadOk d) /\ 0 < len d <= n /\ d <> [] /\
    reader_clean r' /\ (reader_size r' < reader_size r)%nat /\
    reader_bytes r = d ++ reader_bytes r'.
Proof.
  intros Hn Hc. destruct Hc as [|e r (b & d & ->) Hr]; [by left|right].
  destruct (read (RData (b :: d) :: r) n) as [r' x] eqn:Hread.
  pose proof (read_size _ _ _ _ Hn Hread) as [|Hsz]; [done|].
  assert (Hx : exists y, x = ReadOk y /\ 0 < len y /\ reader_clean r').
  { unfold read in Hread. pose proof (len_nonneg d).
    destruct (Z.leb_spec (len (b :: d)) n) as [|Hgt]; simplify_eq.
    - eexists. split; [done|]. split; [rewrite len_cons; lia|done].
    - eexists. split; [done|]. unfold len in *. rewrite length_take. split; [lia|].
      constructor; [|done].
      destruct (drop (Z.to_nat n) (b :: d)) as [|c k] eqn:Hd; [|eauto].
      apply (f_equal length) in Hd. rewrite length_drop in Hd. cbn [length] in *. lia. }
  destruct Hx as (y & -> & Hpos & Hcl). exists y, r'.
  pose proof (read_len _ _ _ _ (Z.lt_le_incl _ _ Hn) Hread).
  assert (y <> []) by (intros E; rewrite E in Hpos; by vm_compute in Hpos).
  split_and!; try done. by apply (read_bytes _ n).
Qed.

Lemma write_all_ok io d :
  faults io = [] -> write_all d io = (mkIo (wire io ++ d) [] (incoming io), Ok tt).
Proof. intros H. unfold write_all, io_write. by rewrite H. Qed.

Lemma write_chunked_loop_ok fuel r io :
  reader_clean r -> faults io = [] -> (reader_size r < fuel)%nat ->
  exists w, write_chunked_loop fuel true r io = (mkIo (wire io ++ w) [] (incoming io), Ok tt) /\
    dechunk fuel w = Some (reader_bytes r).
Proof.
  revert r io. induction fuel as [|f IH]; intros r io Hc Hf Hsz; [lia|].
  destruct (read_clean 65536 r ltac:(lia) Hc) as [->|(d & r' & Hread & Hd & Hne & Hc' & Hsz' & Hb)].
  - exists (str "0" ++ CRLF ++ CRLF). split; [|apply dechunk_last].
    cbn [write_chunked_loop read]. by apply write_all_ok.
  - cbn [write_chunked_loop]. rewrite Hread. destruct d as [|x d]; [done|].
    set (dd := x :: d) in *. cbn match. unfold st_bind.
    rewrite write_all_ok by done. cbn match. rewrite write_all_ok by done. cbn match.
    rewrite write_all_ok by done. cbn [wire incoming].
    destruct (IH r' (mkIo (((wire io ++ to_hex (len dd) ++ CRLF) ++ dd) ++ CRLF) [] (incoming io)))
      as (w & Hw & Hdw); [done|done|lia|].
    exists (to_hex (len dd) ++ CRLF ++ dd ++ CRLF ++ w). split.
    + rewrite Hw. cbn [wire incoming]. by rewrite <- !app_assoc.
    + rewrite Hb. by apply dechunk_chunk.
Qed.

(** On a working connection [write_chunked]
    finishes, and what it puts on the wire for a reader is a well-formed chunked
    message that decodes to exactly the bytes the reader delivered. *)
Theorem write_chunked_round_trip r io :
  reader_clean r -> faults io = [] ->
  exists w, write_chunked true r io = (mkIo (wire io ++ w) [] (incoming io), Ok tt) /\
    dechunk (S (reader_size r)) w = Some (reader_bytes r).
Proof. intros Hr Hf. apply write_chunked_loop_ok; [done..|lia]. Qed.

Lemma write_chunked_round_trip_witness :
  exists w, fst (write_chunked true [RData (str "hello"); RData (str "abc")] (mkIo [] [] []))
            = mkIo w [] [] /\ dechunk 11 w = Some (str "helloabc").
Proof.
  destruct (write_chunked_round_trip [RData (str "hello"); RData (str "abc")] (mkIo [] [] []))
    as (w & Hw & Hd).
  - repeat constructor; eauto.
  - reflexivity.
  - exists w. split; [by rewrite Hw|exact Hd].
Defined.

(** ** Status codes *)

Lemma from_u16_code s : from_u16 (code s) = s.
Proof. by destruct s. Qed.

Lemma from_u16_inv c :
  code (from_u16 c) = c \/ from_u16 c = InternalServerError \/
  (from_u16 c = BadRequest /\ 400 <= c <= 499).
Proof.
  assert (Hd : forall s, s = (if (400 <=? c) && (c <=? 499) then BadRequest
         else if (500 <=? c) && (c <=? 599) then InternalServerError
         else InternalServerError) -> s = InternalServerError \/
         (s = BadRequest /\ 400 <= c <= 499)).
  { intros s ->. destruct ((400 <=? c) && (c <=? 499)) eqn:E.
    - zbool. by right.
    - left. by case_match. }
  unfold from_u16. destruct c as [|p|p]; [by right; apply Hd| |by right; apply Hd].
  repeat first
    [ left; reflexivity
    | right; apply Hd; reflexivity
    | match goal with |- context [match ?q with xI _ => _ | xO _ => _ | xH => _ end] =>
        destruct q end ].
Qed.

(** C35 (round trip and defect): [from_u16] inverts [code], keeps the class of
    every client or server error, but turns every other number it does not know
    into 500, redirects such as 303, 307 and 308 included. *)
Theorem from_u16_spec :
  (forall s, from_u16 (code s) = s) /\
  (forall c, 400 <= c < 500 -> 400 <= code (from_u16 c) < 500) /\
  (forall c, 500 <= c < 600 -> 500 <= code (from_u16 c) < 600) /\
  (forall c, ~ (400 <= c < 600) -> (forall s, code s <> c) -> from_u16 c = InternalServerError) /\
  map from_u16 [303; 307; 308] = [InternalServerError; InternalServerError; InternalServerError].
Proof.
  split_and!; try done; [apply from_u16_code|..].
  - intros c Hc.
    assert (Hall : forallb (fun n => (400 <=? code (from_u16 (400 + Z.of_nat n)))
              && (code (from_u16 (400 + Z.of_nat n)) <? 500)) (seq 0 100) = true)
      by (vm_compute; reflexivity).
    rewrite forallb_forall in Hall. specialize (Hall (Z.to_nat (c - 400))).
    rewrite in_seq in Hall. specialize (Hall ltac:(lia)).
    replace (400 + Z.of_nat (Z.to_nat (c - 400))) with c in Hall by lia. zbool. lia.
  - intros c Hc.
    assert (Hall : forallb (fun n => (500 <=? code (from_u16 (500 + Z.of_nat n)))
              && (code (from_u16 (500 + Z.of_nat n)) <? 600)) (seq 0 100) = true)
      by (vm_compute; reflexivity).
    rewrite forallb_forall in Hall. specialize (Hall (Z.to_nat (c - 500))).
    rewrite in_seq in Hall. specialize (Hall ltac:(lia)).
    replace (500 + Z.of_nat (Z.to_nat (c - 500))) with c in Hall by lia. zbool. lia.
  - intros c Hc Hs. destruct (from_u16_inv c) as [E|[E|[E ?]]]; [|done|lia].
    by destruct (Hs _ E).
Qed.
