(* ===== verification/Frame.v ===== *)
(** * HTTP/2 frames (src/server/http2/frame.rs)

    The error codes, frame types and setting identifiers with their numeric
    conversions, the nine-byte frame header, and [Frame::parse] /
    [Frame::encode].  [Frame::parse] is one definition per arm of its match,
    composed by [frame_parse].  The theorems are the two round trips (header and
    whole frame), what an accepted payload looks like, and the rejection
    table. *)

From S2P Require Import Prelude.

Definition FRAME_HEADER_SIZE : Z := 9.
Definition DEFAULT_MAX_FRAME_SIZE : Z := 16384.

Inductive Http2ErrorCode : Type :=
| NoError | ProtocolError | InternalError | FlowControlError | SettingsTimeout
| StreamClosed | FrameSizeError | RefusedStream | Cancel | CompressionError
| ConnectError | EnhanceYourCalm | InadequateSecurity | Http11Required.

#[global] Instance Http2ErrorCode_eq_dec : EqDecision Http2ErrorCode.
Proof. solve_decision. Defined.

(** [*error_code as u32]: the discriminants of the [#[repr(u32)]] enum. *)
Definition error_code_as_u32 (e : Http2ErrorCode) : Z :=
  match e with
  | NoError => 0x0 | ProtocolError => 0x1 | InternalError => 0x2
  | FlowControlError => 0x3 | SettingsTimeout => 0x4 | StreamClosed => 0x5
  | FrameSizeError => 0x6 | RefusedStream => 0x7 | Cancel => 0x8
  | CompressionError => 0x9 | ConnectError => 0xa | EnhanceYourCalm => 0xb
  | InadequateSecurity => 0xc | Http11Required => 0xd
  end.

Definition error_code_from_u32 (val : Z) : Http2ErrorCode :=
  match val with
  | 0x0 => NoError | 0x1 => ProtocolError | 0x2 => InternalError
  | 0x3 => FlowControlError | 0x4 => SettingsTimeout | 0x5 => StreamClosed
  | 0x6 => FrameSizeError | 0x7 => RefusedStream | 0x8 => Cancel
  | 0x9 => CompressionError | 0xa => ConnectError | 0xb => EnhanceYourCalm
  | 0xc => InadequateSecurity | 0xd => Http11Required
  | _ => ProtocolError
  end.

Inductive FrameType : Type :=
| FT_Data | FT_Headers | FT_Priority | FT_RstStream | FT_Settings
| FT_PushPromise | FT_Ping | FT_GoAway | FT_WindowUpdate | FT_Continuation
| FT_Unknown (val : Z).

#[global] Instance FrameType_eq_dec : EqDecision FrameType.
Proof. solve_decision. Defined.

(** [impl From<u8> for FrameType]. *)
Definition frame_type_from_u8 (val : Z) : FrameType :=
  match val with
  | 0x0 => FT_Data | 0x1 => FT_Headers | 0x2 => FT_Priority
  | 0x3 => FT_RstStream | 0x4 => FT_Settings | 0x5 => FT_PushPromise
  | 0x6 => FT_Ping | 0x7 => FT_GoAway | 0x8 => FT_WindowUpdate
  | 0x9 => FT_Continuation
  | other => FT_Unknown other
  end.

(** [impl From<FrameType> for u8]. *)
Definition u8_from_frame_type (ft : FrameType) : Z :=
  match ft with
  | FT_Data => 0x0 | FT_Headers => 0x1 | FT_Priority => 0x2
  | FT_RstStream => 0x3 | FT_Settings => 0x4 | FT_PushPromise => 0x5
  | FT_Ping => 0x6 | FT_GoAway => 0x7 | FT_WindowUpdate => 0x8
  | FT_Continuation => 0x9
  | FT_Unknown val => val
  end.

(** [mod flags]. *)
Module flags.
Definition END_STREAM : Z := 0x1.
Definition ACK : Z := 0x1.
Definition END_HEADERS : Z := 0x4.
Definition PADDED : Z := 0x8.
Definition PRIORITY : Z := 0x20.
End flags.

(** [(header.flags & flag) != 0]. *)
Definition has_flag (fl flag : Z) : bool := negb (Z.land fl flag =? 0).

Record FrameHeader : Type := mkFrameHeader {
  length_ : Z;         (* u32 *)
  frame_type : FrameType;
  flags_ : Z;          (* u8 *)
  stream_id : Z;       (* u32 *)
}.

#[global] Instance FrameHeader_eq_dec : EqDecision FrameHeader.
Proof. solve_decision. Defined.

Definition frame_header_parse (buf : bytes) : result FrameHeader Http2ErrorCode :=
  if len buf <? FRAME_HEADER_SIZE then Err FrameSizeError else
  let length := be24 (byte_at buf 0) (byte_at buf 1) (byte_at buf 2) in
  let frame_type := frame_type_from_u8 (byte_at buf 3) in
  let flags := byte_at buf 4 in
  let raw_stream_id :=
    be32 (byte_at buf 5) (byte_at buf 6) (byte_at buf 7) (byte_at buf 8) in
  let stream_id := Z.land raw_stream_id 0x7FFFFFFF in
  Ok (mkFrameHeader length frame_type flags stream_id).

Definition frame_header_encode (h : FrameHeader) : bytes :=
  let sid := Z.land (stream_id h) 0x7FFFFFFF in
  [ as_u8 (Z.land (Z.shiftr (length_ h) 16) 0xFF);
    as_u8 (Z.land (Z.shiftr (length_ h) 8) 0xFF);
    as_u8 (Z.land (length_ h) 0xFF);
    u8_from_frame_type (frame_type h);
    flags_ h;
    as_u8 (Z.land (Z.shiftr sid 24) 0xFF);
    as_u8 (Z.land (Z.shiftr sid 16) 0xFF);
    as_u8 (Z.land (Z.shiftr sid 8) 0xFF);
    as_u8 (Z.land sid 0xFF) ].

Inductive SettingId : Type :=
| HeaderTableSize | EnablePush | MaxConcurrentStreams | InitialWindowSize
| MaxFrameSize | MaxHeaderListSize | UnknownSetting (val : Z).

#[global] Instance SettingId_eq_dec : EqDecision SettingId.
Proof. solve_decision. Defined.

(** [impl From<u16> for SettingId] and back. *)
Definition setting_id_from_u16 (val : Z) : SettingId :=
  match val with
  | 0x1 => HeaderTableSize | 0x2 => EnablePush | 0x3 => MaxConcurrentStreams
  | 0x4 => InitialWindowSize | 0x5 => MaxFrameSize | 0x6 => MaxHeaderListSize
  | other => UnknownSetting other
  end.

Definition u16_from_setting_id (id : SettingId) : Z :=
  match id with
  | HeaderTableSize => 0x1 | EnablePush => 0x2 | MaxConcurrentStreams => 0x3
  | InitialWindowSize => 0x4 | MaxFrameSize => 0x5 | MaxHeaderListSize => 0x6
  | UnknownSetting val => val
  end.

Inductive FramePayload : Type :=
| Data (data : bytes) (end_stream : bool)
| Headers (header_block : bytes) (end_stream end_headers : bool)
| Priority (stream_dependency weight : Z) (exclusive : bool)
| RstStream (error_code : Http2ErrorCode)
| Settings (settings : list (SettingId * Z)) (ack : bool)
| PushPromise (promised_stream_id : Z) (header_block : bytes)
| Ping (opaque_data : bytes) (ack : bool)
| GoAway (last_stream_id : Z) (error_code : Http2ErrorCode) (debug_data : bytes)
| WindowUpdate (window_size_increment : Z)
| Continuation (header_block : bytes) (end_headers : bool)
| UnknownPayload (payload : bytes).

#[global] Instance FramePayload_eq_dec : EqDecision FramePayload.
Proof. solve_decision. Defined.

Record Frame : Type := mkFrame { header : FrameHeader; payload : FramePayload }.

#[global] Instance Frame_eq_dec : EqDecision Frame.
Proof. solve_decision. Defined.

(** ** [Frame::parse], one definition per arm *)

Definition parse_data (h : FrameHeader) (payload_bytes : bytes)
  : result FramePayload Http2ErrorCode :=
  if stream_id h =? 0 then Err ProtocolError else
  let end_stream := has_flag (flags_ h) flags.END_STREAM in
  if has_flag (flags_ h) flags.PADDED then
    if len payload_bytes =? 0 then Err FrameSizeError else
    let pad_len := byte_at payload_bytes 0 in
    let data_start := 1 in
    if data_start + pad_len >? len payload_bytes then Err ProtocolError else
    let data_end := len payload_bytes - pad_len in
    Ok (Data (slice payload_bytes data_start data_end) end_stream)
  else Ok (Data (slice payload_bytes 0 (len payload_bytes)) end_stream).

Definition parse_headers (h : FrameHeader) (payload_bytes : bytes)
  : result FramePayload Http2ErrorCode :=
  if stream_id h =? 0 then Err ProtocolError else
  let? (offset, pad_len) :=
    if has_flag (flags_ h) flags.PADDED then
      if len payload_bytes =? 0 then Err FrameSizeError
      else Ok (1, byte_at payload_bytes 0)
    else Ok (0, 0) in
  let? offset :=
    if has_flag (flags_ h) flags.PRIORITY then
      if len payload_bytes <? offset + 5 then Err FrameSizeError
      else Ok (offset + 5)
    else Ok offset in
  if offset + pad_len >? len payload_bytes then Err ProtocolError else
  Ok (Headers (slice payload_bytes offset (len payload_bytes - pad_len))
              (has_flag (flags_ h) flags.END_STREAM)
              (has_flag (flags_ h) flags.END_HEADERS)).

Definition parse_priority (h : FrameHeader) (payload_bytes : bytes)
  : result FramePayload Http2ErrorCode :=
  if stream_id h =? 0 then Err ProtocolError else
  if negb (len payload_bytes =? 5) then Err FrameSizeError else
  let raw_dep := be32 (byte_at payload_bytes 0) (byte_at payload_bytes 1)
                      (byte_at payload_bytes 2) (byte_at payload_bytes 3) in
  let exclusive := negb (Z.land raw_dep 0x80000000 =? 0) in
  let stream_dependency := Z.land raw_dep 0x7FFFFFFF in
  Ok (Priority stream_dependency (byte_at payload_bytes 4) exclusive).

Definition parse_rst_stream (h : FrameHeader) (payload_bytes : bytes)
  : result FramePayload Http2ErrorCode :=
  if stream_id h =? 0 then Err ProtocolError else
  if negb (len payload_bytes =? 4) then Err FrameSizeError else
  let code_raw := be32 (byte_at payload_bytes 0) (byte_at payload_bytes 1)
                       (byte_at payload_bytes 2) (byte_at payload_bytes 3) in
  Ok (RstStream (error_code_from_u32 code_raw)).

(** The [chunks_exact(6)] loop: whole six-byte chunks, in order. *)
Fixpoint parse_setting_chunks (l : bytes) : list (SettingId * Z) :=
  match l with
  | c0 :: c1 :: c2 :: c3 :: c4 :: c5 :: rest =>
      (setting_id_from_u16 (be16 c0 c1), be32 c2 c3 c4 c5)
        :: parse_setting_chunks rest
  | _ => []
  end.

Definition parse_settings (h : FrameHeader) (payload_bytes : bytes)
  : result FramePayload Http2ErrorCode :=
  if negb (stream_id h =? 0) then Err ProtocolError else
  let ack := has_flag (flags_ h) flags.ACK in
  if ack && negb (len payload_bytes =? 0) then Err FrameSizeError else
  if negb (len payload_bytes mod 6 =? 0) then Err FrameSizeError else
  Ok (Settings (parse_setting_chunks payload_bytes) ack).

Definition parse_ping (h : FrameHeader) (payload_bytes : bytes)
  : result FramePayload Http2ErrorCode :=
  if negb (stream_id h =? 0) then Err ProtocolError else
  if negb (len payload_bytes =? 8) then Err FrameSizeError else
  Ok (Ping payload_bytes (has_flag (flags_ h) flags.ACK)).

Definition parse_goaway (h : FrameHeader) (payload_bytes : bytes)
  : result FramePayload Http2ErrorCode :=
  if negb (stream_id h =? 0) then Err ProtocolError else
  if len payload_bytes <? 8 then Err FrameSizeError else
  let raw_last_sid := be32 (byte_at payload_bytes 0) (byte_at payload_bytes 1)
                           (byte_at payload_bytes 2) (byte_at payload_bytes 3) in
  let err_raw := be32 (byte_at payload_bytes 4) (byte_at payload_bytes 5)
                      (byte_at payload_bytes 6) (byte_at payload_bytes 7) in
  Ok (GoAway (Z.land raw_last_sid 0x7FFFFFFF) (error_code_from_u32 err_raw)
             (drop 8 payload_bytes)).

Definition parse_window_update (payload_bytes : bytes)
  : result FramePayload Http2ErrorCode :=
  if negb (len payload_bytes =? 4) then Err FrameSizeError else
  let raw_inc := be32 (byte_at payload_bytes 0) (byte_at payload_bytes 1)
                      (byte_at payload_bytes 2) (byte_at payload_bytes 3) in
  let window_size_increment := Z.land raw_inc 0x7FFFFFFF in
  if window_size_increment =? 0 then Err ProtocolError else
  Ok (WindowUpdate window_size_increment).

Definition parse_continuation (h : FrameHeader) (payload_bytes : bytes)
  : result FramePayload Http2ErrorCode :=
  if stream_id h =? 0 then Err ProtocolError else
  Ok (Continuation payload_bytes (has_flag (flags_ h) flags.END_HEADERS)).

(** [Frame::parse]. *)
Definition frame_parse (h : FrameHeader) (payload_bytes : bytes)
  : result Frame Http2ErrorCode :=
  if negb (len payload_bytes =? length_ h) then Err FrameSizeError else
  let? p :=
    match frame_type h with
    | FT_Data => parse_data h payload_bytes
    | FT_Headers => parse_headers h payload_bytes
    | FT_Priority => parse_priority h payload_bytes
    | FT_RstStream => parse_rst_stream h payload_bytes
    | FT_Settings => parse_settings h payload_bytes
    | FT_PushPromise => Err ProtocolError
    | FT_Ping => parse_ping h payload_bytes
    | FT_GoAway => parse_goaway h payload_bytes
    | FT_WindowUpdate => parse_window_update payload_bytes
    | FT_Continuation => parse_continuation h payload_bytes
    | FT_Unknown _ => Ok (UnknownPayload payload_bytes)
    end in
  Ok (mkFrame h p).

(** ** [Frame::encode] *)

Definition encode_setting (s : SettingId * Z) : bytes :=
  u16_to_be_bytes (u16_from_setting_id (fst s)) ++ u32_to_be_bytes (snd s).

(** The match of [Frame::encode] that builds [body]. *)
Definition encode_body (p : FramePayload) : bytes :=
  match p with
  | Data data _ => data
  | Headers header_block _ _ => header_block
  | Priority stream_dependency weight exclusive =>
      let dep := if exclusive then Z.lor stream_dependency 0x80000000
                 else Z.land stream_dependency 0x7FFFFFFF in
      u32_to_be_bytes dep ++ [weight]
  | RstStream error_code => u32_to_be_bytes (error_code_as_u32 error_code)
  | Settings settings _ => concat (map encode_setting settings)
  | PushPromise promised_stream_id header_block =>
      u32_to_be_bytes (Z.land promised_stream_id 0x7FFFFFFF) ++ header_block
  | Ping opaque_data _ => opaque_data
  | GoAway last_stream_id error_code debug_data =>
      u32_to_be_bytes (Z.land last_stream_id 0x7FFFFFFF)
        ++ u32_to_be_bytes (error_code_as_u32 error_code) ++ debug_data
  | WindowUpdate window_size_increment =>
      u32_to_be_bytes (Z.land window_size_increment 0x7FFFFFFF)
  | Continuation header_block _ => header_block
  | UnknownPayload payload => payload
  end.

Definition set_length (h : FrameHeader) (n : Z) : FrameHeader :=
  mkFrameHeader n (frame_type h) (flags_ h) (stream_id h).

Definition frame_encode (f : Frame) : bytes :=
  let body := encode_body (payload f) in
  frame_header_encode (set_length (header f) (as_u32 (len body))) ++ body.

(** ** Well-formedness *)

(** A frame type in the form [From<u8>] produces: [Unknown] only for the
    numbers that have no constructor. *)
Definition canonical_type (ft : FrameType) : Prop :=
  match ft with FT_Unknown v => 10 <= v < 256 | _ => True end.

Definition canonical_setting (id : SettingId) : Prop :=
  match id with UnknownSetting v => v = 0 \/ 7 <= v < 2 ^ 16 | _ => True end.

Definition wf_header (h : FrameHeader) : Prop :=
  0 <= length_ h < 2 ^ 24 /\ canonical_type (frame_type h) /\
  is_byte (flags_ h) /\ 0 <= stream_id h < 2 ^ 31.

Definition wf_setting (s : SettingId * Z) : Prop :=
  canonical_setting (fst s) /\ 0 <= snd s < 2 ^ 32.

(** The payloads that may travel under a header: type, stream number, flag
    bits and value ranges agree, and no padding or priority is announced. *)
Definition wf_payload (h : FrameHeader) (p : FramePayload) : Prop :=
  match p with
  | Data d es =>
      frame_type h = FT_Data /\ stream_id h <> 0 /\
      has_flag (flags_ h) flags.PADDED = false /\
      es = has_flag (flags_ h) flags.END_STREAM
  | Headers b es eh =>
      frame_type h = FT_Headers /\ stream_id h <> 0 /\
      has_flag (flags_ h) flags.PADDED = false /\
      has_flag (flags_ h) flags.PRIORITY = false /\
      es = has_flag (flags_ h) flags.END_STREAM /\
      eh = has_flag (flags_ h) flags.END_HEADERS
  | Priority dep w _ =>
      frame_type h = FT_Priority /\ stream_id h <> 0 /\
      0 <= dep < 2 ^ 31
  | RstStream _ => frame_type h = FT_RstStream /\ stream_id h <> 0
  | Settings l ack =>
      frame_type h = FT_Settings /\ stream_id h = 0 /\ Forall wf_setting l /\
      ack = has_flag (flags_ h) flags.ACK /\ (ack = true -> l = [])
  | PushPromise _ _ => False
  | Ping d ack =>
      frame_type h = FT_Ping /\ stream_id h = 0 /\ len d = 8 /\
      ack = has_flag (flags_ h) flags.ACK
  | GoAway sid _ _ =>
      frame_type h = FT_GoAway /\ stream_id h = 0 /\ 0 <= sid < 2 ^ 31
  | WindowUpdate inc => frame_type h = FT_WindowUpdate /\ 0 < inc < 2 ^ 31
  | Continuation b eh =>
      frame_type h = FT_Continuation /\ stream_id h <> 0 /\
      eh = has_flag (flags_ h) flags.END_HEADERS
  | UnknownPayload _ => exists v, frame_type h = FT_Unknown v
  end.

Definition wf_frame (f : Frame) : Prop :=
  wf_header (header f) /\ wf_payload (header f) (payload f) /\
  length_ (header f) = len (encode_body (payload f)).

(** ** Lemmas *)

Lemma from_u32_as_u32 e : error_code_from_u32 (error_code_as_u32 e) = e.
Proof. by destruct e. Qed.

Lemma error_code_as_u32_range e : 0 <= error_code_as_u32 e < 2 ^ 32.
Proof. destruct e; simpl; lia. Qed.

(** A number whose binary form is longer than four bits reaches the last arm
    of the [match]es on small numbers. *)
Lemma frame_type_from_u8_large v : 10 <= v -> frame_type_from_u8 v = FT_Unknown v.
Proof.
  intros H. destruct v as [|p|p]; [lia| |lia].
  do 4 (destruct p as [p|p|]; try reflexivity; try lia).
Qed.

Lemma setting_id_from_u16_large v : 7 <= v -> setting_id_from_u16 v = UnknownSetting v.
Proof.
  intros H. destruct v as [|p|p]; [lia| |lia].
  do 3 (destruct p as [p|p|]; try reflexivity; try lia).
Qed.

Lemma from_u8_frame_type ft :
  canonical_type ft -> frame_type_from_u8 (u8_from_frame_type ft) = ft.
Proof. destruct ft; simpl; intros; try done. apply frame_type_from_u8_large; lia. Qed.

Lemma u8_frame_type_from v : u8_from_frame_type (frame_type_from_u8 v) = v.
Proof.
  destruct v as [|p|p]; try reflexivity.
  do 4 (destruct p as [p|p|]; try reflexivity).
Qed.

Lemma frame_type_from_u8_canonical v : is_byte v -> canonical_type (frame_type_from_u8 v).
Proof.
  unfold is_byte. intros H.
  destruct (Z_lt_ge_dec v 10).
  - assert (v = 0 \/ v = 1 \/ v = 2 \/ v = 3 \/ v = 4 \/ v = 5 \/ v = 6 \/ v = 7
            \/ v = 8 \/ v = 9) as Hc by lia.
    by destruct_or! Hc; subst.
  - rewrite frame_type_from_u8_large by lia. simpl. lia.
Qed.

Lemma from_u16_setting_id id :
  canonical_setting id -> setting_id_from_u16 (u16_from_setting_id id) = id.
Proof.
  destruct id; simpl; try done. intros [->|H]; [done|].
  apply setting_id_from_u16_large; lia.
Qed.

Lemma u16_from_setting_id_range id :
  canonical_setting id -> 0 <= u16_from_setting_id id < 2 ^ 16.
Proof. destruct id; simpl; lia. Qed.

Lemma u8_from_frame_type_byte ft : canonical_type ft -> is_byte (u8_from_frame_type ft).
Proof. unfold is_byte. destruct ft; simpl; lia. Qed.

(** Every entry of the encoded header, as plain arithmetic. *)
Lemma frame_header_encode_arith h :
  frame_header_encode h =
  [ length_ h / 2 ^ 16 mod 256; length_ h / 2 ^ 8 mod 256; length_ h mod 256;
    u8_from_frame_type (frame_type h); flags_ h;
    stream_id h mod 2 ^ 31 / 2 ^ 24 mod 256; stream_id h mod 2 ^ 31 / 2 ^ 16 mod 256;
    stream_id h mod 2 ^ 31 / 2 ^ 8 mod 256; stream_id h mod 2 ^ 31 mod 256 ].
Proof.
  unfold frame_header_encode, as_u8.
  rewrite !land_255, land_31bits, !Z.shiftr_div_pow2 by lia.
  change (2 ^ 8) with 256. by rewrite !Zmod_mod.
Qed.

Lemma frame_header_encode_length h : length (frame_header_encode h) = 9%nat.
Proof. done. Qed.

Lemma frame_header_encode_ok h :
  is_byte (flags_ h) -> canonical_type (frame_type h) ->
  bytes_ok (frame_header_encode h).
Proof.
  intros Hf Ht. rewrite frame_header_encode_arith.
  repeat (apply Forall_cons; split); auto with veys. by apply u8_from_frame_type_byte.
Qed.

Lemma header_parse_encode h rest :
  wf_header h -> frame_header_parse (frame_header_encode h ++ rest) = Ok h.
Proof.
  intros (Hl & Ht & Hf & Hs). rewrite frame_header_encode_arith.
  unfold frame_header_parse. autorewrite with veys_len.
  pose proof (len_nonneg rest).
  replace (_ <? FRAME_HEADER_SIZE) with false
    by (symmetry; apply Z.ltb_ge; unfold FRAME_HEADER_SIZE; lia).
  cbn [app]. rewrite ?byte_at_cons_S, ?byte_at_cons_0.
  rewrite from_u8_frame_type by done.
  rewrite land_31bits, (Z.mod_small (stream_id h) (2 ^ 31)) by lia.
  rewrite be32_to_be_bytes, be24_eq by (try apply is_byte_mod; lia).
  rewrite (Z.mod_small (stream_id h) (2 ^ 31)) by lia.
  replace (length_ h / 2 ^ 16 mod 256 * 2 ^ 16 + length_ h / 2 ^ 8 mod 256 * 2 ^ 8 +
           length_ h mod 256) with (length_ h) by zlia.
  by destruct h.
Qed.

(** Assembling and splitting a list of settings. *)
Lemma parse_setting_chunks_encode l :
  Forall wf_setting l -> parse_setting_chunks (concat (map encode_setting l)) = l.
Proof.
  induction 1 as [|[id v] l [Hid Hv] _ IH]; [done|]. simpl in Hid, Hv.
  cbn [map concat encode_setting u16_to_be_bytes u32_to_be_bytes app fst snd
       parse_setting_chunks].
  rewrite IH, be32_to_be_bytes by done.
  rewrite be16_to_be_bytes by (by apply u16_from_setting_id_range).
  by rewrite from_u16_setting_id.
Qed.

Lemma encode_settings_len l : len (concat (map encode_setting l)) = 6 * len l.
Proof.
  induction l as [|s l IH]; [done|]. cbn [map concat]. rewrite len_app, len_cons, IH.
  change (len (encode_setting s)) with 6. lia.
Qed.

Lemma exclusive_bit dep (e : bool) :
  0 <= dep < 2 ^ 31 ->
  (if e then Z.lor dep 2147483648 else Z.land dep 2147483647)
  = (if e then 2 ^ 31 else 0) + dep.
Proof.
  intros H. destruct e.
  - rewrite Z.lor_comm. change 2147483648 with (Z.shiftl 1 31).
    rewrite lor_add by lia. lia.
  - rewrite land_31bits, Z.mod_small by lia. lia.
Qed.

Lemma land_bit31 v : 0 <= v < 2 ^ 32 -> (Z.land v 2147483648 =? 0) = (v <? 2 ^ 31).
Proof. apply (land_top_bit v 31). lia. Qed.

(** Each arm of [Frame::parse] inverts the matching arm of [Frame::encode]. *)
Lemma parse_priority_encode h dep w e :
  stream_id h <> 0 -> 0 <= dep < 2 ^ 31 ->
  parse_priority h (encode_body (Priority dep w e)) = Ok (Priority dep w e).
Proof.
  intros Hs Hd. unfold parse_priority, encode_body. rewrite eqb_neq_false by done.
  rewrite exclusive_bit by done. set (v := (if e then 2 ^ 31 else 0) + dep).
  assert (0 <= v < 2 ^ 32) by (subst v; destruct e; lia).
  cbn [app u32_to_be_bytes]. rewrite ?byte_at_cons_S, ?byte_at_cons_0. cbn [negb].
  change (negb (len [_; _; _; _; w] =? 5)) with false. cbn match.
  rewrite be32_to_be_bytes, land_bit31, land_31bits by done.
  f_equal. subst v. f_equal; destruct e; zlia.
Qed.

Lemma parse_goaway_encode h sid e d :
  stream_id h = 0 -> 0 <= sid < 2 ^ 31 ->
  parse_goaway h (encode_body (GoAway sid e d)) = Ok (GoAway sid e d).
Proof.
  intros Hs Hd. unfold parse_goaway, encode_body. rewrite Hs, land_31bits. cbn [negb Z.eqb].
  rewrite Z.mod_small by lia. rewrite !len_app.
  change (len (u32_to_be_bytes _)) with 4. pose proof (len_nonneg d).
  rewrite (proj2 (Z.ltb_ge _ _)) by lia.
  cbn [app u32_to_be_bytes]. rewrite ?byte_at_cons_S, ?byte_at_cons_0.
  pose proof (error_code_as_u32_range e).
  rewrite !be32_to_be_bytes by lia. rewrite land_31bits, Z.mod_small by lia.
  by rewrite from_u32_as_u32.
Qed.

Lemma parse_rst_stream_encode h e :
  stream_id h <> 0 -> parse_rst_stream h (encode_body (RstStream e)) = Ok (RstStream e).
Proof.
  intros Hs. unfold parse_rst_stream. rewrite eqb_neq_false by done.
  unfold encode_body, u32_to_be_bytes. rewrite ?byte_at_cons_S, ?byte_at_cons_0.
  change (negb (len [_; _; _; _] =? 4)) with false. cbn match.
  by rewrite be32_to_be_bytes, from_u32_as_u32 by apply error_code_as_u32_range.
Qed.

Lemma parse_window_update_encode inc :
  0 < inc < 2 ^ 31 ->
  parse_window_update (encode_body (WindowUpdate inc)) = Ok (WindowUpdate inc).
Proof.
  intros Hi. unfold parse_window_update, encode_body.
  rewrite land_31bits, (Z.mod_small inc) by lia.
  unfold u32_to_be_bytes. rewrite ?byte_at_cons_S, ?byte_at_cons_0.
  change (negb (len [_; _; _; _] =? 4)) with false. cbn match.
  rewrite be32_to_be_bytes, land_31bits, Z.mod_small by lia.
  by rewrite eqb_neq_false by lia.
Qed.

Lemma frame_parse_body f :
  wf_frame f -> frame_parse (header f) (encode_body (payload f)) = Ok f.
Proof.
  intros (Hh & Hp & Hl). unfold frame_parse. rewrite Hl, Z.eqb_refl. cbn [negb].
  destruct f as [h p]; cbn [header payload] in *.
  enough (Hgoal : forall r, r = Ok p -> (let? p := r in Ok (mkFrame h p)) = Ok (E:=Http2ErrorCode) (mkFrame h p)).
  2: { intros r ->. done. }
  apply Hgoal. clear Hgoal.
  destruct p; cbn [wf_payload] in Hp; destruct_and?; simplify_eq;
    try match goal with H : frame_type h = _ |- _ => rewrite H end.
  - unfold parse_data. rewrite eqb_neq_false by done.
    match goal with H : has_flag _ flags.PADDED = _ |- _ => rewrite H end.
    cbn [encode_body]. by rewrite slice_full.
  - unfold parse_headers. rewrite eqb_neq_false by done.
    repeat match goal with H : has_flag _ _ = false |- _ => rewrite H end. cbn [rbind encode_body].
    pose proof (len_nonneg header_block). rewrite Z.gtb_ltb, (proj2 (Z.ltb_ge _ _)) by lia.
    by rewrite Z.sub_0_r, slice_full.
  - by apply parse_priority_encode.
  - by apply parse_rst_stream_encode.
  - unfold parse_settings. match goal with H : stream_id h = 0 |- _ => rewrite H end.
    cbn [negb Z.eqb encode_body]. rewrite encode_settings_len, parse_setting_chunks_encode by done.
    replace (6 * len settings mod 6 =? 0) with true by (symmetry; apply Z.eqb_eq; zlia).
    destruct (has_flag _ flags.ACK); [|done]. by rewrite (H4 eq_refl).
  - done.
  - unfold parse_ping. match goal with H : stream_id h = 0 |- _ => rewrite H end.
    cbn [encode_body]. match goal with H : len opaque_data = 8 |- _ => by rewrite H end.
  - by apply parse_goaway_encode.
  - by apply parse_window_update_encode.
  - unfold parse_continuation. by rewrite eqb_neq_false by done.
  - destruct Hp as [v ->]. done.
Qed.

(** ** What an accepted frame is *)

(** The optional pad-length octet in front of a padded payload, and the
    padding it announces at the end. *)
Definition padding_of (fl : Z) (pre pad : bytes) : Prop :=
  if has_flag fl flags.PADDED then pre = [len pad] else pre = [] /\ pad = [].

(** Which stream numbers a frame type may carry (RFC 9113 section 6). *)
Definition stream_id_ok (ft : FrameType) (sid : Z) : Prop :=
  match ft with
  | FT_Data | FT_Headers | FT_Priority | FT_RstStream | FT_Continuation => sid <> 0
  | FT_Settings | FT_Ping | FT_GoAway => sid = 0
  | FT_PushPromise => False
  | FT_WindowUpdate | FT_Unknown _ => True
  end.

(** The relation between an accepted payload and the bytes it came from. *)
Definition accepted (h : FrameHeader) (bs : bytes) (p : FramePayload) : Prop :=
  match p with
  | Data d es =>
      frame_type h = FT_Data /\ es = has_flag (flags_ h) flags.END_STREAM /\
      exists pre pad, padding_of (flags_ h) pre pad /\ bs = pre ++ d ++ pad
  | Headers b es eh =>
      frame_type h = FT_Headers /\ es = has_flag (flags_ h) flags.END_STREAM /\
      eh = has_flag (flags_ h) flags.END_HEADERS /\
      exists pre prio pad, padding_of (flags_ h) pre pad /\
        len prio = (if has_flag (flags_ h) flags.PRIORITY then 5 else 0) /\
        bs = pre ++ prio ++ b ++ pad
  | Priority dep w e =>
      frame_type h = FT_Priority /\ 0 <= dep < 2 ^ 31 /\
      bs = u32_to_be_bytes ((if e then 2 ^ 31 else 0) + dep) ++ [w]
  | RstStream e =>
      frame_type h = FT_RstStream /\
      exists code, bs = u32_to_be_bytes code /\ e = error_code_from_u32 code
  | Settings l ack =>
      frame_type h = FT_Settings /\ ack = has_flag (flags_ h) flags.ACK /\
      (ack = true -> l = []) /\ bs = concat (map encode_setting l)
  | PushPromise _ _ => False
  | Ping d ack =>
      frame_type h = FT_Ping /\ ack = has_flag (flags_ h) flags.ACK /\
      len d = 8 /\ bs = d
  | GoAway sid e dbg =>
      frame_type h = FT_GoAway /\ 0 <= sid < 2 ^ 31 /\
      exists hi code, bs = hi ++ u32_to_be_bytes code ++ dbg /\
        len hi = 4 /\ e = error_code_from_u32 code
  | WindowUpdate inc =>
      frame_type h = FT_WindowUpdate /\ 0 < inc < 2 ^ 31 /\ len bs = 4
  | Continuation b eh =>
      frame_type h = FT_Continuation /\ eh = has_flag (flags_ h) flags.END_HEADERS /\ bs = b
  | UnknownPayload b => (exists v, frame_type h = FT_Unknown v) /\ bs = b
  end.

Lemma u32_to_be_bytes_be32 b0 b1 b2 b3 :
  bytes_ok [b0; b1; b2; b3] -> u32_to_be_bytes (be32 b0 b1 b2 b3) = [b0; b1; b2; b3].
Proof.
  rewrite !Forall_cons. intros (H0 & H1 & H2 & H3 & _).
  rewrite be32_eq by done. unfold u32_to_be_bytes, is_byte in *. repeat f_equal; zlia.
Qed.

Lemma u16_to_be_bytes_be16 b0 b1 :
  bytes_ok [b0; b1] -> u16_to_be_bytes (be16 b0 b1) = [b0; b1].
Proof.
  rewrite !Forall_cons. intros (H0 & H1 & _).
  rewrite be16_eq by done. unfold u16_to_be_bytes, is_byte in *. repeat f_equal; zlia.
Qed.

Lemma be32_range b0 b1 b2 b3 :
  bytes_ok [b0; b1; b2; b3] -> 0 <= be32 b0 b1 b2 b3 < 2 ^ 32.
Proof.
  rewrite !Forall_cons. intros (H0 & H1 & H2 & H3 & _).
  rewrite be32_eq by done. unfold is_byte in *. lia.
Qed.

Lemma u16_setting_id_from v : u16_from_setting_id (setting_id_from_u16 v) = v.
Proof.
  destruct v as [|p|p]; try reflexivity.
  do 3 (destruct p as [p|p|]; try reflexivity).
Qed.

(** [chunks_exact(6)] loses nothing when the length is a multiple of six. *)
Lemma encode_parse_setting_chunks n bs :
  bytes_ok bs -> length bs = (6 * n)%nat ->
  concat (map encode_setting (parse_setting_chunks bs)) = bs.
Proof.
  revert bs. induction n as [|n IH]; intros bs Hok Hlen.
  - by destruct bs.
  - do 6 (destruct bs as [|? bs]; [simpl in Hlen; lia|]).
    rewrite !Forall_cons in Hok. destruct_and! Hok.
    cbn [parse_setting_chunks map concat]. unfold encode_setting. cbn [fst snd].
    rewrite u16_setting_id_from, IH by (done || (simpl in Hlen; lia)).
    by rewrite u16_to_be_bytes_be16, u32_to_be_bytes_be32
      by (rewrite ?Forall_cons; auto).
Qed.

Lemma parse_data_accepted h bs p :
  frame_type h = FT_Data -> bytes_ok bs ->
  parse_data h bs = Ok p -> accepted h bs p /\ stream_id h <> 0.
Proof.
  intros Ht Hok. unfold parse_data. case_match eqn:Hs; [done|].
  destruct (has_flag _ flags.PADDED) eqn:Hp.
  - case_match eqn:He; [done|]. case_match eqn:Hg; [done|]. intros [= <-]. zbool.
    split; [|done]. split_and!; try done.
    destruct bs as [|x bs]; [done|]. rewrite byte_at_cons_0 in *.
    rewrite Forall_cons in Hok. destruct Hok as [Hx _]. unfold is_byte in Hx.
    destruct (slice_split (x :: bs) 1 (len (x :: bs) - x)) as (pre & pad & E & Hpre & Hpad);
      [lia..|].
    exists pre, pad. split; [|done]. unfold padding_of. rewrite Hp.
    destruct (len_1_inv _ Hpre) as [y ->]. injection E as -> _. f_equal. lia.
  - intros [= <-]. zbool. split; [|done]. split_and!; try done.
    exists [], []. unfold padding_of. rewrite Hp, slice_full, app_nil_r. done.
Qed.

Lemma parse_headers_accepted h bs p :
  frame_type h = FT_Headers -> bytes_ok bs ->
  parse_headers h bs = Ok p -> accepted h bs p /\ stream_id h <> 0.
Proof.
  intros Ht Hok. unfold parse_headers. case_match eqn:Hs; [done|].
  intros ([off pad] & H1 & H)%rbind_ok. apply rbind_ok in H as (off' & H2 & H).
  case_match eqn:Hg; [done|]. injection H as <-. zbool.
  set (np := if has_flag (flags_ h) flags.PADDED then 1 else 0).
  set (nq := if has_flag (flags_ h) flags.PRIORITY then 5 else 0).
  assert (off = np /\ 0 <= pad /\ (np = 0 -> pad = 0) /\ (np = 1 -> pad = byte_at bs 0))
    as (-> & Hpad & Hpad0 & Hpad1).
  { subst np. destruct (has_flag _ flags.PADDED);
      [destruct (len bs =? 0) eqn:He; [done|]|]; injection H1 as <- <-; split_and!; try lia.
    destruct bs as [|x bs]; [done|]. rewrite byte_at_cons_0.
    by apply Forall_inv in Hok as []. }
  assert (off' = np + nq) as ->.
  { subst nq. destruct (has_flag _ flags.PRIORITY); 
      [destruct (len bs <? _); [done|]|]; injection H2 as <-; lia. }
  assert (0 <= np <= 1 /\ (nq = 0 \/ nq = 5)) as [Hnp Hnq].
  { subst np nq. repeat case_match; lia. }
  split; [|done]. split_and!; try done.
  destruct (slice_split bs (np + nq) (len bs - pad)) as (pre & suf & E & Hpre & Hsuf); [lia..|].
  exists (take (Z.to_nat np) pre), (drop (Z.to_nat np) pre), suf.
  rewrite app_assoc, take_drop. split_and!; [|unfold len in *; rewrite length_drop; lia|done].
  unfold padding_of. subst np. destruct (has_flag _ flags.PADDED).
  - destruct bs as [|x bs]; [done|]. rewrite byte_at_cons_0 in Hpad1.
    destruct pre as [|y pre]; [rewrite len_nil in Hpre; lia|].
    injection E as -> _. change (Z.to_nat 1) with 1%nat. cbn [take]. f_equal. lia.
  - rewrite take_0. split; [done|]. apply len_0_nil. lia.
Qed.

Lemma byte_at_app_l a b i : (i < length a)%nat -> byte_at (a ++ b) i = byte_at a i.
Proof. intros. unfold byte_at. by rewrite app_nth1. Qed.

Lemma parse_fixed_accepted h bs p :
  bytes_ok bs ->
  (frame_type h = FT_Priority /\ parse_priority h bs = Ok p) \/
  (frame_type h = FT_RstStream /\ parse_rst_stream h bs = Ok p) \/
  (frame_type h = FT_WindowUpdate /\ parse_window_update bs = Ok p) ->
  accepted h bs p /\ stream_id_ok (frame_type h) (stream_id h).
Proof.
  intros Hok [[Ht H]|[[Ht H]|[Ht H]]]; rewrite Ht.
  - unfold parse_priority in H. do 2 (split_if H; [done|]). zbool. simplify_eq.
    destruct (split_len bs 4) as (a & b & -> & Ha); [lia|]. rewrite len_app in *.
    destruct (len_4_inv _ Ha) as (b0 & b1 & b2 & b3 & ->).
    destruct (len_1_inv b) as [w ->]; [lia|].
    apply Forall_app in Hok as [Hok _]. cbn [app byte_at nth].
    pose proof (be32_range _ _ _ _ Hok). rewrite land_bit31, land_31bits by done.
    split; [|done]. split_and!; [done|zlia..|].
    change [b0; b1; b2; b3; w] with ([b0; b1; b2; b3] ++ [w]). rewrite <- (u32_to_be_bytes_be32 _ _ _ _ Hok) at 1.
    do 2 f_equal. destruct (Z.ltb_spec (be32 b0 b1 b2 b3) (2 ^ 31)); cbn [negb]; zlia.
  - unfold parse_rst_stream in H. do 2 (split_if H; [done|]). zbool. simplify_eq.
    destruct (len_4_inv _ E0) as (b0 & b1 & b2 & b3 & ->). split; [|done].
    split; [done|]. exists (be32 b0 b1 b2 b3). by rewrite u32_to_be_bytes_be32.
  - unfold parse_window_update in H. do 2 (split_if H; [done|]). zbool. simplify_eq.
    split; [|done]. rewrite land_31bits in *. split_and!; try done; zlia.
Qed.

Lemma parse_control_accepted h bs p :
  bytes_ok bs ->
  (frame_type h = FT_Settings /\ parse_settings h bs = Ok p) \/
  (frame_type h = FT_Ping /\ parse_ping h bs = Ok p) \/
  (frame_type h = FT_GoAway /\ parse_goaway h bs = Ok p) ->
  accepted h bs p /\ stream_id_ok (frame_type h) (stream_id h).
Proof.
  intros Hok [[Ht H]|[[Ht H]|[Ht H]]]; rewrite Ht.
  - unfold parse_settings in H. do 3 (split_if H; [done|]). simplify_eq.
    split; [|by zbool]. split_and!; try done.
    + intros Ha. rewrite Ha, andb_true_l in E0. zbool. by rewrite (len_0_nil bs).
    + symmetry. apply (encode_parse_setting_chunks (Z.to_nat (len bs / 6))); [done|].
      zbool. unfold len in *. zlia.
  - unfold parse_ping in H. do 2 (split_if H; [done|]). zbool. simplify_eq. done.
  - unfold parse_goaway in H. do 2 (split_if H; [done|]). zbool. simplify_eq.
    destruct (split_len bs 4) as (a & b & -> & Ha); [lia|]. rewrite len_app in *.
    destruct (split_len b 4) as (c & d & -> & Hc); [lia|].
    destruct (len_4_inv _ Ha) as (a0 & a1 & a2 & a3 & ->).
    destruct (len_4_inv _ Hc) as (c0 & c1 & c2 & c3 & ->).
    rewrite !Forall_app in Hok. destruct Hok as (Hoka & Hokc & _).
    cbn [app byte_at nth drop skipn]. rewrite land_31bits.
    split; [|done]. split_and!; [done|zlia..|].
    exists [a0; a1; a2; a3], (be32 c0 c1 c2 c3).
    by rewrite u32_to_be_bytes_be32.
Qed.

(** C37 (round trip): writing a well-formed frame with [Frame::encode] and
    reading the bytes back, first the header with [FrameHeader::parse], then the
    payload with [Frame::parse], yields the same frame, whatever follows it on
    the wire. *)
Theorem frame_round_trip f rest :
  wf_frame f ->
  frame_header_parse (frame_encode f ++ rest) = Ok (header f) /\
  frame_parse (header f) (take (Z.to_nat (length_ (header f)))
                               (drop 9 (frame_encode f ++ rest))) = Ok f.
Proof.
  intros Hf. pose proof Hf as (Hh & Hp & Hl).
  unfold frame_encode. rewrite <- Hl, as_u32_id by (destruct Hh; lia).
  replace (set_length (header f) (length_ (header f))) with (header f) by (by destruct f as [[] ]).
  rewrite <- app_assoc. split; [by apply header_parse_encode|].
  change 9%nat with (length (frame_header_encode (header f))).
  rewrite drop_app_length, Hl. unfold len. rewrite Nat2Z.id, take_app_length.
  by apply frame_parse_body.
Qed.

Lemma frame_round_trip_witness :
  frame_parse (mkFrameHeader 12 FT_Settings 0 0)
    (take 12 (drop 9 (frame_encode (mkFrame (mkFrameHeader 12 FT_Settings 0 0)
       (Settings [(MaxConcurrentStreams, 100); (InitialWindowSize, 65535)] false)) ++ [7])))
  = Ok (mkFrame (mkFrameHeader 12 FT_Settings 0 0)
       (Settings [(MaxConcurrentStreams, 100); (InitialWindowSize, 65535)] false)).
Proof.
  apply (frame_round_trip (mkFrame (mkFrameHeader 12 FT_Settings 0 0)
       (Settings [(MaxConcurrentStreams, 100); (InitialWindowSize, 65535)] false)) [7]).
  split; [|split]; [unfold wf_header, is_byte; simpl; lia| |reflexivity].
  simpl. split; [done|]. split; [done|]. split; [|done].
  repeat constructor; simpl; lia.
Defined.

(** A frame is accepted only with the announced
    length, a stream number its type allows, and a payload that is exactly the
    received bytes less the padding and priority fields the flags announce. *)
Theorem frame_parse_sound h bs f :
  bytes_ok bs -> frame_parse h bs = Ok f ->
  header f = h /\ len bs = length_ h /\ stream_id_ok (frame_type h) (stream_id h) /\
  accepted h bs (payload f).
Proof.
  intros Hok. unfold frame_parse. case_match eqn:Hl; [done|].
  intros (p & Hp & [= <-])%rbind_ok. zbool. cbn [header payload].
  enough (accepted h bs p /\ stream_id_ok (frame_type h) (stream_id h)) as [? ?] by done.
  destruct (frame_type h) eqn:Ht; try (rewrite <- Ht);
    try (apply parse_fixed_accepted; by eauto);
    try (apply parse_control_accepted; by eauto 6).
  - rewrite Ht. by apply parse_data_accepted.
  - rewrite Ht. by apply parse_headers_accepted.
  - rewrite Ht. unfold parse_continuation in Hp. split_if Hp; [done|]. zbool. by simplify_eq.
  - rewrite Ht. simplify_eq. simpl. eauto.
Qed.

Lemma frame_parse_sound_witness :
  accepted (mkFrameHeader 5 FT_Data 9 1) [2; 65; 66; 0; 0] (Data [65; 66] true).
Proof.
  apply (frame_parse_sound (mkFrameHeader 5 FT_Data 9 1) [2; 65; 66; 0; 0]
           (mkFrame (mkFrameHeader 5 FT_Data 9 1) (Data [65; 66] true))).
  - repeat constructor; lia.
  - vm_compute. reflexivity.
Defined.

(** A frame whose payload length matches its header but whose
    stream number is forbidden for its type is a PROTOCOL_ERROR, a payload of
    the wrong length is a FRAME_SIZE_ERROR, and no other error code is ever
    produced. *)
Theorem frame_parse_errors h bs :
  (len bs <> length_ h -> frame_parse h bs = Err FrameSizeError) /\
  (len bs = length_ h -> ~ stream_id_ok (frame_type h) (stream_id h) ->
   frame_parse h bs = Err ProtocolError) /\
  (forall e, frame_parse h bs = Err e -> e = FrameSizeError \/ e = ProtocolError).
Proof.
  unfold frame_parse. split_and!.
  - intros H. by rewrite eqb_neq_false.
  - intros -> H. rewrite Z.eqb_refl. cbn [negb].
    destruct (frame_type h); simpl in H; try done;
      unfold parse_data, parse_headers, parse_priority, parse_rst_stream, parse_settings,
        parse_ping, parse_goaway, parse_continuation;
      destruct (Z.eqb_spec (stream_id h) 0); naive_solver.
  - intros e He. unfold rbind, parse_data, parse_headers, parse_priority, parse_rst_stream,
      parse_settings, parse_ping, parse_goaway, parse_continuation, parse_window_update, rbind
      in He.
    repeat case_match; simplify_eq; auto.
Qed.

Lemma frame_parse_errors_witness :
  frame_parse (mkFrameHeader 0 FT_Settings 0 1) [] = Err ProtocolError.
Proof.
  apply (frame_parse_errors (mkFrameHeader 0 FT_Settings 0 1) []); [reflexivity|].
  simpl. lia.
Defined.
