(* ===== verification/Huffman.v ===== *)
(** * Huffman-coded strings (src/server/http2/hpack.rs, [decode_huffman])

    The decoder builds a binary tree in a vector of nodes from the code table
    [HUFFMAN_SPEC] and then walks it one bit at a time.  Both phases are modelled
    as written.  The main theorem characterises the accepted inputs and the
    result completely: the bits of the input are the codes of the decoded
    symbols followed by at most seven one-bits. *)

From S2P Require Import Prelude RustStd Frame.

(** (symbol, code, number of bits), RFC 7541 appendix B. *)
Definition HUFFMAN_SPEC : list (Z * Z * nat) := [
  (0, 0x1ff8, 13%nat); (1, 0x7fffd8, 23%nat); (2, 0xfffffe2, 28%nat); (3, 0xfffffe3, 28%nat);
  (4, 0xfffffe4, 28%nat); (5, 0xfffffe5, 28%nat); (6, 0xfffffe6, 28%nat); (7, 0xfffffe7, 28%nat);
  (8, 0xfffffe8, 28%nat); (9, 0xffffea, 24%nat); (10, 0x3ffffffc, 30%nat); (11, 0xfffffe9, 28%nat);
  (12, 0xfffffea, 28%nat); (13, 0x3ffffffd, 30%nat); (14, 0xfffffeb, 28%nat); (15, 0xfffffec, 28%nat);
  (16, 0xfffffed, 28%nat); (17, 0xfffffee, 28%nat); (18, 0xfffffef, 28%nat); (19, 0xffffff0, 28%nat);
  (20, 0xffffff1, 28%nat); (21, 0xffffff2, 28%nat); (22, 0x3ffffffe, 30%nat); (23, 0xffffff3, 28%nat);
  (24, 0xffffff4, 28%nat); (25, 0xffffff5, 28%nat); (26, 0xffffff6, 28%nat); (27, 0xffffff7, 28%nat);
  (28, 0xffffff8, 28%nat); (29, 0xffffff9, 28%nat); (30, 0xffffffa, 28%nat); (31, 0xffffffb, 28%nat);
  (32, 0x14, 6%nat); (33, 0x3f8, 10%nat); (34, 0x3f9, 10%nat); (35, 0xffa, 12%nat);
  (36, 0x1ff9, 13%nat); (37, 0x15, 6%nat); (38, 0xf8, 8%nat); (39, 0x7fa, 11%nat);
  (40, 0x3fa, 10%nat); (41, 0x3fb, 10%nat); (42, 0xf9, 8%nat); (43, 0x7fb, 11%nat);
  (44, 0xfa, 8%nat); (45, 0x16, 6%nat); (46, 0x17, 6%nat); (47, 0x18, 6%nat);
  (48, 0x0, 5%nat); (49, 0x1, 5%nat); (50, 0x2, 5%nat); (51, 0x19, 6%nat);
  (52, 0x1a, 6%nat); (53, 0x1b, 6%nat); (54, 0x1c, 6%nat); (55, 0x1d, 6%nat);
  (56, 0x1e, 6%nat); (57, 0x1f, 6%nat); (58, 0x5c, 7%nat); (59, 0xfb, 8%nat);
  (60, 0x7ffc, 15%nat); (61, 0x20, 6%nat); (62, 0xffb, 12%nat); (63, 0x3fc, 10%nat);
  (64, 0x1ffa, 13%nat); (65, 0x21, 6%nat); (66, 0x5d, 7%nat); (67, 0x5e, 7%nat);
  (68, 0x5f, 7%nat); (69, 0x60, 7%nat); (70, 0x61, 7%nat); (71, 0x62, 7%nat);
  (72, 0x63, 7%nat); (73, 0x64, 7%nat); (74, 0x65, 7%nat); (75, 0x66, 7%nat);
  (76, 0x67, 7%nat); (77, 0x68, 7%nat); (78, 0x69, 7%nat); (79, 0x6a, 7%nat);
  (80, 0x6b, 7%nat); (81, 0x6c, 7%nat); (82, 0x6d, 7%nat); (83, 0x6e, 7%nat);
  (84, 0x6f, 7%nat); (85, 0x70, 7%nat); (86, 0x71, 7%nat); (87, 0x72, 7%nat);
  (88, 0xfc, 8%nat); (89, 0x73, 7%nat); (90, 0xfd, 8%nat); (91, 0x1ffb, 13%nat);
  (92, 0x7fff0, 19%nat); (93, 0x1ffc, 13%nat); (94, 0x3ffc, 14%nat); (95, 0x22, 6%nat);
  (96, 0x7ffd, 15%nat); (97, 0x3, 5%nat); (98, 0x23, 6%nat); (99, 0x4, 5%nat);
  (100, 0x24, 6%nat); (101, 0x5, 5%nat); (102, 0x25, 6%nat); (103, 0x26, 6%nat);
  (104, 0x27, 6%nat); (105, 0x6, 5%nat); (106, 0x74, 7%nat); (107, 0x75, 7%nat);
  (108, 0x28, 6%nat); (109, 0x29, 6%nat); (110, 0x2a, 6%nat); (111, 0x7, 5%nat);
  (112, 0x2b, 6%nat); (113, 0x76, 7%nat); (114, 0x2c, 6%nat); (115, 0x8, 5%nat);
  (116, 0x9, 5%nat); (117, 0x2d, 6%nat); (118, 0x77, 7%nat); (119, 0x78, 7%nat);
  (120, 0x79, 7%nat); (121, 0x7a, 7%nat); (122, 0x7b, 7%nat); (123, 0x7ffe, 15%nat);
  (124, 0x7fc, 11%nat); (125, 0x3ffd, 14%nat); (126, 0x1ffd, 13%nat); (127, 0xffffffc, 28%nat);
  (128, 0xfffe6, 20%nat); (129, 0x3fffd2, 22%nat); (130, 0xfffe7, 20%nat); (131, 0xfffe8, 20%nat);
  (132, 0x3fffd3, 22%nat); (133, 0x3fffd4, 22%nat); (134, 0x3fffd5, 22%nat); (135, 0x7fffd9, 23%nat);
  (136, 0x3fffd6, 22%nat); (137, 0x7fffda, 23%nat); (138, 0x7fffdb, 23%nat); (139, 0x7fffdc, 23%nat);
  (140, 0x7fffdd, 23%nat); (141, 0x7fffde, 23%nat); (142, 0xffffeb, 24%nat); (143, 0x7fffdf, 23%nat);
  (144, 0xffffec, 24%nat); (145, 0xffffed, 24%nat); (146, 0x3fffd7, 22%nat); (147, 0x7fffe0, 23%nat);
  (148, 0xffffee, 24%nat); (149, 0x7fffe1, 23%nat); (150, 0x7fffe2, 23%nat); (151, 0x7fffe3, 23%nat);
  (152, 0x7fffe4, 23%nat); (153, 0x1fffdc, 21%nat); (154, 0x3fffd8, 22%nat); (155, 0x7fffe5, 23%nat);
  (156, 0x3fffd9, 22%nat); (157, 0x7fffe6, 23%nat); (158, 0x7fffe7, 23%nat); (159, 0xffffef, 24%nat);
  (160, 0x3fffda, 22%nat); (161, 0x1fffdd, 21%nat); (162, 0xfffe9, 20%nat); (163, 0x3fffdb, 22%nat);
  (164, 0x3fffdc, 22%nat); (165, 0x7fffe8, 23%nat); (166, 0x7fffe9, 23%nat); (167, 0x1fffde, 21%nat);
  (168, 0x7fffea, 23%nat); (169, 0x3fffdd, 22%nat); (170, 0x3fffde, 22%nat); (171, 0xfffff0, 24%nat);
  (172, 0x1fffdf, 21%nat); (173, 0x3fffdf, 22%nat); (174, 0x7fffeb, 23%nat); (175, 0x7fffec, 23%nat);
  (176, 0x1fffe0, 21%nat); (177, 0x1fffe1, 21%nat); (178, 0x3fffe0, 22%nat); (179, 0x1fffe2, 21%nat);
  (180, 0x7fffed, 23%nat); (181, 0x3fffe1, 22%nat); (182, 0x7fffee, 23%nat); (183, 0x7fffef, 23%nat);
  (184, 0xfffea, 20%nat); (185, 0x3fffe2, 22%nat); (186, 0x3fffe3, 22%nat); (187, 0x3fffe4, 22%nat);
  (188, 0x7ffff0, 23%nat); (189, 0x3fffe5, 22%nat); (190, 0x3fffe6, 22%nat); (191, 0x7ffff1, 23%nat);
  (192, 0x3ffffe0, 26%nat); (193, 0x3ffffe1, 26%nat); (194, 0xfffeb, 20%nat); (195, 0x7fff1, 19%nat);
  (196, 0x3fffe7, 22%nat); (197, 0x7ffff2, 23%nat); (198, 0x3fffe8, 22%nat); (199, 0x1ffffec, 25%nat);
  (200, 0x3ffffe2, 26%nat); (201, 0x3ffffe3, 26%nat); (202, 0x3ffffe4, 26%nat); (203, 0x7ffffde, 27%nat);
  (204, 0x7ffffdf, 27%nat); (205, 0x3ffffe5, 26%nat); (206, 0xfffff1, 24%nat); (207, 0x1ffffed, 25%nat);
  (208, 0x7fff2, 19%nat); (209, 0x1fffe3, 21%nat); (210, 0x3ffffe6, 26%nat); (211, 0x7ffffe0, 27%nat);
  (212, 0x7ffffe1, 27%nat); (213, 0x3ffffe7, 26%nat); (214, 0x7ffffe2, 27%nat); (215, 0xfffff2, 24%nat);
  (216, 0x1fffe4, 21%nat); (217, 0x1fffe5, 21%nat); (218, 0x3ffffe8, 26%nat); (219, 0x3ffffe9, 26%nat);
  (220, 0xffffffd, 28%nat); (221, 0x7ffffe3, 27%nat); (222, 0x7ffffe4, 27%nat); (223, 0x7ffffe5, 27%nat);
  (224, 0xfffec, 20%nat); (225, 0xfffff3, 24%nat); (226, 0xfffed, 20%nat); (227, 0x1fffe6, 21%nat);
  (228, 0x3fffe9, 22%nat); (229, 0x1fffe7, 21%nat); (230, 0x1fffe8, 21%nat); (231, 0x7ffff3, 23%nat);
  (232, 0x3fffea, 22%nat); (233, 0x3fffeb, 22%nat); (234, 0x1ffffee, 25%nat); (235, 0x1ffffef, 25%nat);
  (236, 0xfffff4, 24%nat); (237, 0xfffff5, 24%nat); (238, 0x3ffffea, 26%nat); (239, 0x7ffff4, 23%nat);
  (240, 0x3ffffeb, 26%nat); (241, 0x7ffffe6, 27%nat); (242, 0x3ffffec, 26%nat); (243, 0x3ffffed, 26%nat);
  (244, 0x7ffffe7, 27%nat); (245, 0x7ffffe8, 27%nat); (246, 0x7ffffe9, 27%nat); (247, 0x7ffffea, 27%nat);
  (248, 0x7ffffeb, 27%nat); (249, 0xffffffe, 28%nat); (250, 0x7ffffec, 27%nat); (251, 0x7ffffed, 27%nat);
  (252, 0x7ffffee, 27%nat); (253, 0x7ffffef, 27%nat); (254, 0x7fffff0, 27%nat); (255, 0x3ffffee, 26%nat);
  (256, 0x3fffffff, 30%nat)
].

Record Node : Type := mkNode {
  symbol : option Z;
  left_ : option nat;
  right_ : option nat;
}.

(** [Node::default()]. *)
Definition node_default : Node := mkNode None None None.

#[global] Instance Node_eq_dec : EqDecision Node.
Proof. solve_decision. Defined.

Definition node_at (nodes : list Node) (i : nat) : Node := nth i nodes node_default.

(** [if bit == 0 { nodes[curr].left } else { nodes[curr].right }]. *)
Definition child (nodes : list Node) (curr : nat) (bit : Z) : option nat :=
  if bit =? 0 then left_ (node_at nodes curr) else right_ (node_at nodes curr).

Definition set_child (n : Node) (bit : Z) (c : nat) : Node :=
  if bit =? 0 then mkNode (symbol n) (Some c) (right_ n)
  else mkNode (symbol n) (left_ n) (Some c).

(** The loop [for i in (0..bits).rev()] that adds the path of one code and
    returns the node it ends in. *)
Fixpoint add_path (nodes : list Node) (curr : nat) (code : Z) (i : nat)
  : list Node * nat :=
  match i with
  | O => (nodes, curr)
  | S i =>
      let bit := Z.land (Z.shiftr code (Z.of_nat i)) 1 in
      match child nodes curr bit with
      | Some idx => add_path nodes idx code i
      | None =>
          let new_idx := length nodes in
          let nodes := nodes ++ [node_default] in
          let nodes := <[curr := set_child (node_at nodes curr) bit new_idx]> nodes in
          add_path nodes new_idx code i
      end
  end.

Definition add_symbol (nodes : list Node) (entry : Z * Z * nat) : list Node :=
  let '(sym, code, bits) := entry in
  let '(nodes, curr) := add_path nodes 0%nat code bits in
  let n := node_at nodes curr in
  <[curr := mkNode (Some sym) (left_ n) (right_ n)]> nodes.

(** The tree [decode_huffman] builds on every call. *)
Definition huffman_tree : list Node := fold_left add_symbol HUFFMAN_SPEC [node_default].

(** The bits of a byte, most significant first. *)
Definition byte_bits (b : Z) : list Z :=
  map (fun i => Z.land (Z.shiftr b i) 1) [7; 6; 5; 4; 3; 2; 1; 0].

Record HuffState : Type := mkHuff {
  decoded : bytes;
  curr : nat;
  bits_since_symbol : Z;
  trailing_bits_are_ones : bool;
}.

(** The body of the inner loop. *)
Definition huffman_bit (nodes : list Node) (st : HuffState) (bit : Z)
  : result HuffState Http2ErrorCode :=
  match child nodes (curr st) bit with
  | Some idx =>
      match symbol (node_at nodes idx) with
      | Some sym =>
          if sym =? 256 then Err CompressionError
          else Ok (mkHuff (decoded st ++ [as_u8 sym]) 0 0 true)
      | None =>
          Ok (mkHuff (decoded st) idx (bits_since_symbol st + 1)
                (trailing_bits_are_ones st && (bit =? 1)))
      end
  | None => Err CompressionError
  end.

Fixpoint huffman_bits (nodes : list Node) (st : HuffState) (bits : list Z)
  : result HuffState Http2ErrorCode :=
  match bits with
  | [] => Ok st
  | b :: bits => let? st := huffman_bit nodes st b in huffman_bits nodes st bits
  end.

Definition decode_huffman (input : bytes) : result bytes Http2ErrorCode :=
  let nodes := huffman_tree in
  let? st := huffman_bits nodes (mkHuff [] 0 0 true) (concat (map byte_bits input)) in
  if negb (curr st =? 0)%nat
     && ((bits_since_symbol st >? 7) || negb (trailing_bits_are_ones st))
  then Err CompressionError
  else if utf8_valid (decoded st) then Ok (decoded st) else Err CompressionError.

(** ** Specification *)

(** The low [n] bits of a code, most significant first. *)
Fixpoint msb_bits (code : Z) (n : nat) : list Z :=
  match n with
  | O => []
  | S i => Z.land (Z.shiftr code (Z.of_nat i)) 1 :: msb_bits code i
  end.

(** The code word of a symbol according to the table. *)
Definition code_bits (sym : Z) : list Z :=
  match find (fun e => fst (fst e) =? sym) HUFFMAN_SPEC with
  | Some (_, code, n) => msb_bits code n
  | None => []
  end.

Definition input_bits (input : bytes) : list Z := concat (map byte_bits input).

(** A reference encoder: the code words, then ones up to the byte boundary. *)
Definition pack8 (b7 b6 b5 b4 b3 b2 b1 b0 : Z) : Z :=
  b7 * 128 + b6 * 64 + b5 * 32 + b4 * 16 + b3 * 8 + b2 * 4 + b1 * 2 + b0.

Fixpoint pack_bits (l : list Z) : bytes :=
  match l with
  | b7 :: b6 :: b5 :: b4 :: b3 :: b2 :: b1 :: b0 :: rest =>
      pack8 b7 b6 b5 b4 b3 b2 b1 b0 :: pack_bits rest
  | _ => []
  end.

Definition padding (n : nat) : nat := Nat.modulo (8 - Nat.modulo n 8) 8.

Definition huffman_encode (s : bytes) : bytes :=
  let bits := concat (map code_bits s) in
  pack_bits (bits ++ repeat 1 (padding (length bits))).

(** ** Facts about the tree, by computation

    [paths] gives for every node the bits that lead to it from the root; a
    child is created after its parent, so one pass over the nodes fills it. *)

Definition extend_path (nodes : list Node) (ps : list (list Z)) (i : nat) : list (list Z) :=
  let p := nth i ps [] in
  let ps := match child nodes i 0 with Some c => <[c := p ++ [0]]> ps | None => ps end in
  match child nodes i 1 with Some c => <[c := p ++ [1]]> ps | None => ps end.

Definition tree : list Node := Eval vm_compute in huffman_tree.
Definition paths : list (list Z) :=
  Eval vm_compute in fold_left (extend_path tree) (seq 0 (length tree)) (repeat [] (length tree)).
Definition path (i : nat) : list Z := nth i paths [].

Lemma huffman_tree_eq : huffman_tree = tree.
Proof. vm_compute. reflexivity. Qed.

(** What is checked at node [i]: children extend the path and lie in the tree,
    a leaf's path is the code word of its symbol. *)
Definition check_node (i : nat) : bool :=
  forallb (fun bit =>
    match child tree i bit with
    | Some c => (0 <? c)%nat && (c <? length tree)%nat && bool_decide (path c = path i ++ [bit])
    | None => true
    end) [0; 1]
  && match symbol (node_at tree i) with
     | Some sym => (0 <=? sym) && (sym <=? 256) && bool_decide (path i = code_bits sym)
     | None => true
     end.

Lemma check_nodes : forallb check_node (seq 0 (length tree)) = true.
Proof. vm_compute. reflexivity. Qed.

Lemma node_checked i : (i < length tree)%nat -> check_node i = true.
Proof.
  intros Hi. pose proof check_nodes as H. rewrite forallb_forall in H.
  apply H, in_seq. lia.
Qed.

Lemma child_path i bit c :
  (i < length tree)%nat -> bit = 0 \/ bit = 1 -> child tree i bit = Some c ->
  (0 < c < length tree)%nat /\ path c = path i ++ [bit].
Proof.
  intros Hi Hb Hc. apply node_checked in Hi. unfold check_node in Hi.
  apply andb_true_iff in Hi as [Hi _]. cbn [forallb] in Hi.
  apply andb_true_iff in Hi as [H0 Hi]. apply andb_true_iff in Hi as [H1 _].
  destruct Hb as [-> | ->]; rewrite Hc in *; zbool.
  all: by split; [lia|].
Qed.

Lemma symbol_path i sym :
  (i < length tree)%nat -> symbol (node_at tree i) = Some sym ->
  0 <= sym <= 256 /\ path i = code_bits sym.
Proof.
  intros Hi Hs. apply node_checked in Hi. unfold check_node in Hi. rewrite Hs in Hi.
  zbool. split; [lia|done].
Qed.

(** Decoding the code word of [sym] from the root emits exactly [sym]. *)
Definition check_symbol (sym : Z) : bool :=
  match huffman_bits tree (mkHuff [] 0 0 true) (code_bits sym) with
  | Ok st => bool_decide (decoded st = [sym]) && (curr st =? 0)%nat
             && (bits_since_symbol st =? 0) && trailing_bits_are_ones st
  | Err _ => false
  end.

Lemma check_symbols : forallb check_symbol (map Z.of_nat (seq 0 256)) = true.
Proof. vm_compute. reflexivity. Qed.

(** One to seven one-bits from the root end inside the tree. *)
Definition check_padding (n : nat) : bool :=
  match huffman_bits tree (mkHuff [] 0 0 true) (repeat 1 n) with
  | Ok st => bool_decide (decoded st = []) && (bits_since_symbol st =? Z.of_nat n)
             && trailing_bits_are_ones st
  | Err _ => false
  end.

Lemma check_paddings : forallb check_padding (seq 0 8) = true.
Proof. vm_compute. reflexivity. Qed.

(** ** Decoding is parametric in the output so far *)

Definition prepend (d : bytes) (st : HuffState) : HuffState :=
  mkHuff (d ++ decoded st) (curr st) (bits_since_symbol st) (trailing_bits_are_ones st).

Lemma huffman_bits_prepend nodes d bits st :
  huffman_bits nodes (prepend d st) bits =
  (let? st' := huffman_bits nodes st bits in Ok (prepend d st')).
Proof.
  revert st. induction bits as [|b bits IH]; intros st; [done|].
  cbn [huffman_bits]. unfold huffman_bit. cbn [prepend curr decoded bits_since_symbol
    trailing_bits_are_ones].
  destruct (child nodes (curr st) b); [|done].
  destruct (symbol _) as [sym|]; [destruct (sym =? 256); [done|]|]; cbn [rbind];
    rewrite <- IH; unfold prepend; cbn [curr decoded bits_since_symbol trailing_bits_are_ones];
    by rewrite ?app_assoc.
Qed.

Lemma huffman_bits_app nodes st l k :
  huffman_bits nodes st (l ++ k) =
  (let? st' := huffman_bits nodes st l in huffman_bits nodes st' k).
Proof.
  revert st. induction l as [|b l IH]; intros st; [done|]. cbn [app huffman_bits].
  destruct (huffman_bit nodes st b); cbn [rbind]; [apply IH|done].
Qed.

Lemma huffman_state_eq st d c n o :
  decoded st = d -> curr st = c -> bits_since_symbol st = n ->
  trailing_bits_are_ones st = o -> st = mkHuff d c n o.
Proof. destruct st. naive_solver. Qed.

Lemma decode_symbol d sym rest :
  is_byte sym ->
  huffman_bits tree (mkHuff d 0 0 true) (code_bits sym ++ rest)
  = huffman_bits tree (mkHuff (d ++ [sym]) 0 0 true) rest.
Proof.
  intros Hs. rewrite huffman_bits_app.
  replace (mkHuff d 0 0 true) with (prepend d (mkHuff [] 0 0 true))
    by (unfold prepend; cbn; by rewrite app_nil_r).
  rewrite huffman_bits_prepend.
  pose proof check_symbols as H. rewrite forallb_forall in H.
  specialize (H sym). unfold check_symbol in H.
  destruct (huffman_bits tree _ (code_bits sym)) as [st|e]; cbn [rbind].
  - assert (H' : (bool_decide (decoded st = [sym]) && (curr st =? 0)%nat
             && (bits_since_symbol st =? 0) && trailing_bits_are_ones st) = true).
    { apply H, in_map_iff. exists (Z.to_nat sym). unfold is_byte in Hs.
      split; [lia|apply in_seq; lia]. }
    zbool.
    by rewrite (huffman_state_eq st [sym] 0 0 true).
  - discriminate H. apply in_map_iff. exists (Z.to_nat sym). unfold is_byte in Hs.
    split; [lia|apply in_seq; lia].
Qed.

Lemma decode_symbols d s rest :
  bytes_ok s ->
  huffman_bits tree (mkHuff d 0 0 true) (concat (map code_bits s) ++ rest)
  = huffman_bits tree (mkHuff (d ++ s) 0 0 true) rest.
Proof.
  intros Hs. revert d. induction Hs as [|b s Hb _ IH]; intros d.
  - by rewrite app_nil_r.
  - cbn [map concat]. rewrite <- app_assoc, decode_symbol, IH by done.
    by rewrite <- app_assoc.
Qed.

Lemma decode_padding d n :
  (n <= 7)%nat ->
  exists c, huffman_bits tree (mkHuff d 0 0 true) (repeat 1 n)
            = Ok (mkHuff d c (Z.of_nat n) true).
Proof.
  intros Hn. pose proof check_paddings as H. rewrite forallb_forall in H.
  assert (Hc : check_padding n = true) by (apply H, in_seq; lia). unfold check_padding in Hc.
  replace (mkHuff d 0 0 true) with (prepend d (mkHuff [] 0 0 true))
    by (unfold prepend; cbn; by rewrite app_nil_r).
  rewrite huffman_bits_prepend.
  destruct (huffman_bits tree _ (repeat 1 n)) as [st|]; [|done]. zbool.
  exists (curr st). cbn [rbind]. unfold prepend.
  repeat match goal with H : _ st = _ |- _ => rewrite H end. by rewrite app_nil_r.
Qed.

(** ** The invariant of the decoding loop *)

(** The bits consumed so far are the code words of the output followed by the
    path to the current node, which is not a leaf. *)
Definition huff_inv (consumed : list Z) (st : HuffState) : Prop :=
  bytes_ok (decoded st) /\ (curr st < length tree)%nat /\
  consumed = concat (map code_bits (decoded st)) ++ path (curr st) /\
  bits_since_symbol st = len (path (curr st)) /\
  trailing_bits_are_ones st = forallb (fun b => b =? 1) (path (curr st)).

Lemma huff_inv_init : huff_inv [] (mkHuff [] 0 0 true).
Proof. split_and!; try done; vm_compute; lia. Qed.

Lemma path_root : path 0 = [].
Proof. done. Qed.

Lemma huff_inv_step consumed st bit st' :
  bit = 0 \/ bit = 1 -> huff_inv consumed st -> huffman_bit tree st bit = Ok st' ->
  huff_inv (consumed ++ [bit]) st'.
Proof.
  intros Hb (Hd & Hc & Hcons & Hn & Ho). unfold huffman_bit.
  destruct (child tree (curr st) bit) as [idx|] eqn:Hch; [|done].
  destruct (child_path _ _ _ Hc Hb Hch) as [Hidx Hp].
  destruct (symbol (node_at tree idx)) as [sym|] eqn:Hs.
  - destruct (symbol_path idx sym ltac:(lia) Hs) as [Hr Hcode].
    destruct (sym =? 256) eqn:E; [done|]. intros [= <-]. zbool.
    unfold as_u8. rewrite Z.mod_small by lia.
    unfold huff_inv; cbn [decoded curr bits_since_symbol trailing_bits_are_ones].
    split_and!; try done; [|lia|].
    + apply Forall_app. split; [done|]. repeat constructor; lia.
    + rewrite map_app, concat_app, path_root, app_nil_r. cbn [map concat].
      by rewrite app_nil_r, <- Hcode, Hp, Hcons, app_assoc.
  - intros [= <-]. unfold huff_inv; cbn [decoded curr bits_since_symbol trailing_bits_are_ones].
    rewrite Hp, forallb_app, len_app, Hn, Ho, Hcons. cbn [forallb].
    rewrite andb_true_r, app_assoc. split_and!; try done; lia.
Qed.

Lemma huff_inv_run bits consumed st st' :
  Forall (fun b => b = 0 \/ b = 1) bits -> huff_inv consumed st ->
  huffman_bits tree st bits = Ok st' -> huff_inv (consumed ++ bits) st'.
Proof.
  intros Hb. revert consumed st. induction Hb as [|b bits Hb _ IH]; intros consumed st Hi H.
  - cbn in H. simplify_eq. by rewrite app_nil_r.
  - cbn [huffman_bits] in H. apply rbind_ok in H as (st1 & H1 & H).
    rewrite (app_assoc consumed [b] bits : consumed ++ b :: bits = _).
    eapply IH; [|done]. by eapply huff_inv_step.
Qed.

Lemma land_1_cases v : Z.land v 1 = 0 \/ Z.land v 1 = 1.
Proof.
  pose proof (Z.land_ones v 1 ltac:(lia)) as H. change (Z.ones 1) with 1 in H.
  rewrite H. change (2 ^ 1) with 2. zlia.
Qed.

Lemma input_bits_binary input : Forall (fun b => b = 0 \/ b = 1) (input_bits input).
Proof.
  unfold input_bits. induction input as [|b input IH]; [constructor|].
  cbn [map concat]. apply Forall_app. split; [|done].
  unfold byte_bits. cbn [map]. repeat (constructor; [apply land_1_cases|]). constructor.
Qed.

Lemma forallb_ones l : forallb (fun b => b =? 1) l = true -> l = repeat 1 (length l).
Proof.
  induction l as [|b l IH]; [done|]. cbn. intros H. zbool. subst. f_equal. by apply IH.
Qed.

(** C39 (functional correctness): [decode_huffman] accepts an input with result
    [s] exactly when [s] is valid UTF-8 and the bits of the input are the code
    words of [s] from the table followed by at most seven one-bits. *)
Theorem decode_huffman_spec input s :
  decode_huffman input = Ok s <->
  utf8_valid s = true /\
  exists n, (n <= 7)%nat /\ input_bits input = concat (map code_bits s) ++ repeat 1 n.
Proof.
  unfold decode_huffman. rewrite huffman_tree_eq. fold (input_bits input). split.
  - intros (st & Hrun & H)%rbind_ok. split_if H; [done|]. split_if H; [|done].
    injection H as <-. split; [done|].
    pose proof (huff_inv_run _ _ _ _ (input_bits_binary input) huff_inv_init Hrun)
      as (_ & _ & Hc & Hn & Ho). cbn [app] in Hc.
    exists (length (path (curr st))). apply andb_false_iff in E as [E|E]; zbool.
    + rewrite Hc, E, path_root. split; [simpl; lia|done].
    + unfold len in Hn. split; [lia|]. rewrite Hc at 1. f_equal. apply forallb_ones. congruence.
  - intros (Hu & n & Hn & Hbits). rewrite Hbits.
    rewrite decode_symbols by (by apply utf8_bytes_ok).
    destruct (decode_padding ([] ++ s) n Hn) as [c ->].
    cbn [rbind curr decoded bits_since_symbol trailing_bits_are_ones app].
    replace (Z.of_nat n >? 7) with false by lia. rewrite andb_false_r, Hu. done.
Qed.

(** ** Round trip with the reference encoder *)

Lemma code_bits_binary sym : Forall (fun b => b = 0 \/ b = 1) (code_bits sym).
Proof.
  unfold code_bits. destruct (find _ _) as [[[? code] n]|]; [|constructor].
  induction n; constructor; [apply land_1_cases|done].
Qed.

Lemma byte_bits_pack8 b7 b6 b5 b4 b3 b2 b1 b0 :
  Forall (fun b => b = 0 \/ b = 1) [b7; b6; b5; b4; b3; b2; b1; b0] ->
  byte_bits (pack8 b7 b6 b5 b4 b3 b2 b1 b0) = [b7; b6; b5; b4; b3; b2; b1; b0].
Proof. rewrite !Forall_cons. intros H. destruct_and! H. destruct_or!; subst; reflexivity. Qed.

Lemma input_bits_pack n l :
  length l = (8 * n)%nat -> Forall (fun b => b = 0 \/ b = 1) l -> input_bits (pack_bits l) = l.
Proof.
  revert l. induction n as [|n IH]; intros l Hl Hb; [by destruct l|].
  do 8 (destruct l as [|? l]; [simpl in Hl; lia|]).
  change (?a :: ?b :: ?c :: ?d :: ?e :: ?f :: ?g :: ?h :: l) with ([a; b; c; d; e; f; g; h] ++ l)
    in Hb. apply Forall_app in Hb as [Hb1 Hb2].
  unfold input_bits in *. cbn [pack_bits map concat]. rewrite IH, byte_bits_pack8; try done.
  simpl in Hl. lia.
Qed.

Lemma padding_spec n : (padding n <= 7)%nat /\ exists k, (n + padding n = 8 * k)%nat.
Proof.
  unfold padding.
  pose proof (Nat.mod_upper_bound (8 - n mod 8) 8 ltac:(lia)).
  split; [lia|].
  pose proof (Nat.div_mod_eq n 8). pose proof (Nat.mod_upper_bound n 8 ltac:(lia)).
  destruct (decide (n mod 8 = 0)%nat) as [E|E].
  - rewrite E. exists (n / 8)%nat. change (Nat.modulo (8 - 0) 8) with 0%nat. lia.
  - rewrite (Nat.mod_small (8 - n mod 8)) by lia. exists (S (n / 8)). lia.
Qed.

(** Every valid UTF-8 string survives Huffman coding with the
    table's code words: [decode_huffman] returns it from its encoding. *)
Theorem huffman_round_trip s :
  utf8_valid s = true -> decode_huffman (huffman_encode s) = Ok s.
Proof.
  intros Hs.
  set (bits := concat (map code_bits s)).
  destruct (padding_spec (length bits)) as (Hp & k & Hk).
  assert (Hb : Forall (fun b => b = 0 \/ b = 1) (bits ++ repeat 1 (padding (length bits)))).
  { apply Forall_app. split.
    - subst bits. clear. induction s; [constructor|]. cbn [map concat].
      apply Forall_app. split; [apply code_bits_binary|done].
    - apply Forall_forall. intros b Hb%list_elem_of_In%repeat_spec. by right. }
  assert (Hlen : length (bits ++ repeat 1 (padding (length bits))) = (8 * k)%nat)
    by (rewrite length_app, repeat_length; lia).
  pose proof (input_bits_pack k _ Hlen Hb) as Hin.
  unfold decode_huffman. rewrite huffman_tree_eq. fold (input_bits (huffman_encode s)).
  unfold huffman_encode. fold bits. rewrite Hin. subst bits.
  rewrite decode_symbols by (by apply utf8_bytes_ok).
  destruct (decode_padding ([] ++ s) _ Hp) as [c ->].
  cbn [rbind curr decoded bits_since_symbol trailing_bits_are_ones app].
  replace (Z.of_nat _ >? 7) with false by lia. rewrite andb_false_r, Hs. done.
Qed.

Lemma huffman_round_trip_witness :
  huffman_encode (str "www.example.com")
  = [0xf1; 0xe3; 0xc2; 0xe5; 0xf2; 0x3a; 0x6b; 0xa0; 0xab; 0x90; 0xf4; 0xff] /\
  decode_huffman (huffman_encode (str "www.example.com")) = Ok (str "www.example.com").
Proof.
  split; [vm_compute; reflexivity|].
  apply (huffman_round_trip (str "www.example.com")). vm_compute. reflexivity.
Defined.
