(* ===== verification/Hpack.v ===== *)
(** * HPACK header compression (src/server/http2/hpack.rs)

    Variable-length integers, strings, the static and dynamic tables, the
    decoder with its dynamic-table updates and the encoder, which never indexes.
    A decoder error keeps the table changes made before it, as in the source, so
    the decoder returns the new table next to its result. *)

From S2P Require Import Prelude RustStd Frame Huffman.

(** A header field: name and value. *)
Abbreviation field := (bytes * bytes)%type.

Definition STATIC_TABLE : list field := [
  (str ":authority", str "");
  (str ":method", str "GET");
  (str ":method", str "POST");
  (str ":path", str "/");
  (str ":path", str "/index.html");
  (str ":scheme", str "http");
  (str ":scheme", str "https");
  (str ":status", str "200");
  (str ":status", str "204");
  (str ":status", str "206");
  (str ":status", str "304");
  (str ":status", str "400");
  (str ":status", str "404");
  (str ":status", str "500");
  (str "accept-charset", str "");
  (str "accept-encoding", str "gzip, deflate");
  (str "accept-language", str "");
  (str "accept-ranges", str "");
  (str "accept", str "");
  (str "access-control-allow-origin", str "");
  (str "age", str "");
  (str "allow", str "");
  (str "authorization", str "");
  (str "cache-control", str "");
  (str "content-disposition", str "");
  (str "content-encoding", str "");
  (str "content-language", str "");
  (str "content-length", str "");
  (str "content-location", str "");
  (str "content-range", str "");
  (str "content-type", str "");
  (str "cookie", str "");
  (str "date", str "");
  (str "etag", str "");
  (str "expect", str "");
  (str "expires", str "");
  (str "from", str "");
  (str "host", str "");
  (str "if-match", str "");
  (str "if-modified-since", str "");
  (str "if-none-match", str "");
  (str "if-range", str "");
  (str "if-unmodified-since", str "");
  (str "last-modified", str "");
  (str "link", str "");
  (str "location", str "");
  (str "max-forwards", str "");
  (str "proxy-authenticate", str "");
  (str "proxy-authorization", str "");
  (str "range", str "");
  (str "referer", str "");
  (str "refresh", str "");
  (str "retry-after", str "");
  (str "server", str "");
  (str "set-cookie", str "");
  (str "strict-transport-security", str "");
  (str "transfer-encoding", str "");
  (str "user-agent", str "");
  (str "vary", str "");
  (str "via", str "");
  (str "www-authenticate", str "")
].

(** ** Integers *)

Definition checked_shl_u64 (v m : Z) : option Z :=
  if m <? 64 then Some (as_u64 (Z.shiftl v m)) else None.

(** The continuation loop of [decode_int] over the bytes after the prefix. *)
Fixpoint decode_int_loop (l : bytes) (val m pos : Z) : result (Z * Z) Http2ErrorCode :=
  match l with
  | [] => Err CompressionError
  | b :: l =>
      let chunk := Z.land b 0x7F in
      if m >=? 63 then Err CompressionError else
      let? shift_val := ok_or (checked_shl_u64 chunk m) CompressionError in
      let? val := ok_or (checked_add_u64 val shift_val) CompressionError in
      let m := m + 7 in
      let pos := pos + 1 in
      if Z.land b 0x80 =? 0 then Ok (val, pos) else decode_int_loop l val m pos
  end.

Definition decode_int (buf : bytes) (prefix_bits : Z) : result (Z * Z) Http2ErrorCode :=
  match buf with
  | [] => Err CompressionError
  | b0 :: rest =>
      let mask := Z.shiftl 1 prefix_bits - 1 in
      let val := Z.land b0 mask in
      if val <? mask then Ok (val, 1) else decode_int_loop rest val 0 1
  end.

(** [while rem >= 128]; a [u64] has at most ten groups of seven bits, so the
    loop runs at most nine times before its last byte. *)
Fixpoint encode_int_loop (fuel : nat) (rem : Z) : bytes :=
  match fuel with
  | O => [as_u8 rem]
  | S f =>
      if rem >=? 128
      then Z.lor (as_u8 (Z.land rem 0x7F)) 0x80 :: encode_int_loop f (Z.shiftr rem 7)
      else [as_u8 rem]
  end.

(** The bytes [encode_int] appends to its output. *)
Definition encode_int (prefix_mask prefix_bits value : Z) : bytes :=
  let max_prefix := Z.shiftl 1 prefix_bits - 1 in
  if value <? max_prefix then [Z.lor prefix_mask (as_u8 value)]
  else Z.lor prefix_mask (as_u8 max_prefix) :: encode_int_loop 9 (value - max_prefix).

(** ** Strings *)

Definition decode_string (buf : bytes) : result (bytes * Z) Http2ErrorCode :=
  match buf with
  | [] => Err CompressionError
  | b0 :: _ =>
      let is_huffman := negb (Z.land b0 0x80 =? 0) in
      let? (str_len, bytes_read) := decode_int buf 7 in
      let? total_len := ok_or (checked_add_u64 bytes_read str_len) CompressionError in
      if len buf <? total_len then Err CompressionError else
      let str_bytes := slice buf bytes_read total_len in
      let? string_val :=
        if is_huffman then decode_huffman str_bytes
        else if utf8_valid str_bytes then Ok str_bytes else Err CompressionError in
      Ok (string_val, total_len)
  end.

Definition encode_string (s : bytes) : bytes := encode_int 0x00 7 (len s) ++ s.

(** ** The dynamic table *)

Record DynamicTable : Type := mkTable {
  entries : list field;
  size : Z;
  max_size : Z;
}.

Definition table_new (max_size : Z) : DynamicTable := mkTable [] 0 max_size.

Definition entry_size (e : field) : Z := len (fst e) + len (snd e) + 32.

(** [Vec::pop]. *)
Definition pop {A} (l : list A) : option (list A * A) :=
  match rev l with [] => None | x :: r => Some (rev r, x) end.

(** The [while] of [evict_to_size]: every round pops an entry, so the number of
    entries bounds the rounds. *)
Fixpoint evict_loop (fuel : nat) (t : DynamicTable) (target_size : Z) : DynamicTable :=
  match fuel with
  | O => t
  | S f =>
      if (size t >? target_size) && negb (bool_decide (entries t = [])) then
        match pop (entries t) with
        | Some (rest, e) =>
            evict_loop f (mkTable rest (saturating_sub_usize (size t) (entry_size e))
                            (max_size t)) target_size
        | None => t
        end
      else t
  end.

Definition evict_to_size (t : DynamicTable) (target_size : Z) : DynamicTable :=
  evict_loop (length (entries t)) t target_size.

Definition set_max_size (t : DynamicTable) (new_max : Z) : DynamicTable :=
  let t := mkTable (entries t) (size t) new_max in
  evict_to_size t (max_size t).

Definition table_insert (t : DynamicTable) (name value : bytes) : DynamicTable :=
  let t := mkTable ((name, value) :: entries t) (size t + entry_size (name, value))
             (max_size t) in
  evict_to_size t (max_size t).

Definition table_get (t : DynamicTable) (index : Z) : option field :=
  if (index >? 0) && (index <=? len (entries t))
  then entries t !! Z.to_nat (index - 1) else None.

(** ** The decoder *)

Record HpackDecoder : Type := mkDecoder {
  dynamic_table : DynamicTable;
  max_dynamic_table_size : Z;
  max_header_block_size : Z;
}.

Definition hpack_decoder_new (max_dynamic_table_size max_header_block_size : Z)
  : HpackDecoder :=
  mkDecoder (table_new max_dynamic_table_size) max_dynamic_table_size max_header_block_size.

Definition lookup_index (t : DynamicTable) (index : Z) : result field Http2ErrorCode :=
  if index =? 0 then Err CompressionError else
  if index <=? len STATIC_TABLE
  then ok_or (STATIC_TABLE !! Z.to_nat (index - 1)) CompressionError
  else ok_or (table_get t (index - len STATIC_TABLE)) CompressionError.

(** A literal: index or name, then the value; with the bytes read. *)
Definition decode_literal (t : DynamicTable) (buf : bytes) (prefix_bits : Z)
  : result (field * Z) Http2ErrorCode :=
  let? (idx, n1) := decode_int buf prefix_bits in
  let? (name, n2) :=
    if idx =? 0 then decode_string (drop (Z.to_nat n1) buf)
    else let? f := lookup_index t idx in Ok (fst f, 0) in
  let? (value, n3) := decode_string (drop (Z.to_nat (n1 + n2)) buf) in
  Ok ((name, value), n1 + n2 + n3).

(** One round of the loop of [decode_header_block] at a non-empty rest of the
    block: the new table, and the field produced (if any) with the number of
    bytes consumed. *)
Definition decode_field (max_dynamic : Z) (t : DynamicTable) (buf : bytes)
  : DynamicTable * result (option field * Z) Http2ErrorCode :=
  let b := byte_at buf 0 in
  if negb (Z.land b 0x80 =? 0) then
    (t, let? (idx, n) := decode_int buf 7 in
        let? f := lookup_index t idx in
        Ok (Some f, n))
  else if negb (Z.land b 0x40 =? 0) then
    match decode_literal t buf 6 with
    | Ok (f, n) => (table_insert t (fst f) (snd f), Ok (Some f, n))
    | Err e => (t, Err e)
    end
  else if negb (Z.land b 0x20 =? 0) then
    match decode_int buf 5 with
    | Ok (new_max, n) =>
        if new_max >? max_dynamic then (t, Err CompressionError)
        else (set_max_size t new_max, Ok (None, n))
    | Err e => (t, Err e)
    end
  else
    (t, let? (f, n) := decode_literal t buf 4 in Ok (Some f, n)).

(** The loop; a round consumes at least one byte, so the length of the block is
    enough fuel ([decode_fields_spec]). *)
Fixpoint decode_fields (fuel : nat) (max_dynamic : Z) (t : DynamicTable) (buf : bytes)
  : DynamicTable * result (list field) Http2ErrorCode :=
  match buf, fuel with
  | [], _ => (t, Ok [])
  | _ :: _, O => (t, Err InternalError)
  | _ :: _, S f =>
      match decode_field max_dynamic t buf with
      | (t, Err e) => (t, Err e)
      | (t, Ok (o, n)) =>
          let '(t, r) := decode_fields f max_dynamic t (drop (Z.to_nat n) buf) in
          (t, let? fs := r in
              Ok (match o with Some h => h :: fs | None => fs end))
      end
  end.

Definition decode_header_block (d : HpackDecoder) (buf : bytes)
  : HpackDecoder * result (list field) Http2ErrorCode :=
  if len buf >? max_header_block_size d then (d, Err EnhanceYourCalm) else
  let '(t, r) := decode_fields (length buf) (max_dynamic_table_size d) (dynamic_table d) buf in
  (mkDecoder t (max_dynamic_table_size d) (max_header_block_size d), r).

(** ** The encoder *)

(** The search of the static table: the first exact match ends it, the first
    name match is remembered.  Indices are one-based. *)
Fixpoint search_static (tbl : list field) (idx : Z) (name value : bytes)
  (name_index : option Z) : option Z * option Z :=
  match tbl with
  | [] => (None, name_index)
  | (s_name, s_val) :: tbl =>
      if bytes_eqb s_name name then
        let name_index := match name_index with None => Some (idx + 1) | _ => name_index end in
        if bytes_eqb s_val value then (Some (idx + 1), name_index)
        else search_static tbl (idx + 1) name value name_index
      else search_static tbl (idx + 1) name value name_index
  end.

Section Encoder.
Context `{UnicodeCase}.

Definition encode_field (f : field) : bytes :=
  let name_lower := to_lowercase (fst f) in
  let value := snd f in
  match search_static STATIC_TABLE 0 name_lower value None with
  | (Some idx, _) => encode_int 0x80 7 idx
  | (None, Some n_idx) => encode_int 0x00 4 n_idx ++ encode_string value
  | (None, None) => encode_int 0x00 4 0 ++ encode_string name_lower ++ encode_string value
  end.

(** [HpackEncoder::encode_headers]; the encoder's own table is never used. *)
Definition encode_headers (headers : list field) : bytes := concat (map encode_field headers).
End Encoder.

(** ** Lemmas on integers *)

(** One round of the loop on a byte, in arithmetic. *)
Lemma decode_int_loop_cons b l val m pos :
  is_byte b -> 0 <= m < 63 ->
  decode_int_loop (b :: l) val m pos =
  (if val + as_u64 (b mod 128 * 2 ^ m) >? U64_MAX then Err CompressionError
   else if b <? 128 then Ok (val + as_u64 (b mod 128 * 2 ^ m), pos + 1)
   else decode_int_loop l (val + as_u64 (b mod 128 * 2 ^ m)) (m + 7) (pos + 1)).
Proof.
  intros Hb Hm. cbn [decode_int_loop]. rewrite land_127.
  replace (m >=? 63) with false by lia. unfold checked_shl_u64.
  replace (m <? 64) with true by lia. cbn [ok_or rbind].
  rewrite Z.shiftl_mul_pow2 by lia. unfold checked_add_u64. rewrite Z.gtb_ltb, Z.ltb_antisym.
  destruct (_ <=? U64_MAX); cbn [negb ok_or rbind]; [|done].
  change 128 with (2 ^ 7). by rewrite land_top_bit by (unfold is_byte in Hb; lia).
Qed.

Lemma encode_int_loop_byte rem :
  0 <= rem -> Z.lor (as_u8 (Z.land rem 0x7F)) 0x80 = rem mod 128 + 128.
Proof.
  intros. rewrite land_127. unfold as_u8. rewrite (Z.mod_small (rem mod 128)) by zlia.
  apply lor_128. zlia.
Qed.

Lemma decode_encode_loop f rem val m pos rest :
  0 <= rem < 2 ^ (7 * (Z.of_nat f + 1)) -> 0 <= m < 63 -> rem * 2 ^ m < 2 ^ 63 ->
  0 <= val -> val + rem * 2 ^ m <= U64_MAX ->
  decode_int_loop (encode_int_loop f rem ++ rest) val m pos
  = Ok (val + rem * 2 ^ m, pos + len (encode_int_loop f rem)).
Proof.
  revert rem val m pos. induction f as [|f IH]; intros rem val m pos Hr Hm Hmax Hv Hs.
  all: assert (H2m : 0 < 2 ^ m) by (apply Z.pow_pos_nonneg; lia).
  all: cbn [encode_int_loop].
  1: replace (7 * (Z.of_nat 0 + 1)) with 7 in Hr by lia.
  2: destruct (rem >=? 128) eqn:E; rewrite Z.geb_leb in E; zbool.
  2: { rewrite encode_int_loop_byte, <- app_comm_cons, decode_int_loop_cons
         by (unfold is_byte; zlia).
       assert (Hm7 : m + 7 < 63).
       { apply (Z.pow_lt_mono_r_iff 2); [lia..|]. rewrite Z.pow_add_r by lia. nia. }
       rewrite Z.shiftr_div_pow2 by lia. change (2 ^ 7) with 128.
       replace ((rem mod 128 + 128) mod 128) with (rem mod 128) by zlia.
       pose proof (Z.div_mod rem 128 ltac:(lia)).
       pose proof (Z.mod_pos_bound rem 128 ltac:(lia)).
       assert (0 <= rem / 128) by zlia.
       assert (Hp : rem * 2 ^ m = rem mod 128 * 2 ^ m + rem / 128 * 2 ^ (m + 7)).
       { rewrite Z.pow_add_r by lia. change (2 ^ 7) with 128. nia. }
       assert (0 <= rem / 128 * 2 ^ (m + 7)) by nia.
       unfold as_u64. rewrite Z.mod_small by nia.
       replace (val + rem mod 128 * 2 ^ m >? U64_MAX) with false by lia.
       replace (rem mod 128 + 128 <? 128) with false by lia.
       rewrite IH.
       - rewrite len_cons, Hp. f_equal. f_equal; lia.
       - split; [done|]. apply Z.div_lt_upper_bound; [lia|].
         replace (7 * (Z.of_nat (S f) + 1)) with (7 + 7 * (Z.of_nat f + 1)) in Hr by lia.
         rewrite Z.pow_add_r in Hr by lia. lia.
       - lia.
       - lia.
       - nia.
       - lia. }
  all: change (2 ^ 7) with 128 in *.
  all: assert (Ha : as_u8 rem = rem) by (apply Z.mod_small; lia); rewrite Ha.
  all: cbn [app]; rewrite decode_int_loop_cons by (unfold is_byte; lia).
  all: unfold as_u64; rewrite (Z.mod_small rem) by lia; rewrite Z.mod_small by nia.
  all: replace (val + rem * 2 ^ m >? U64_MAX) with false by lia.
  all: replace (rem <? 128) with true by lia.
  all: done.
Qed.

(** A remainder that needs a tenth group is refused. *)
Lemma decode_encode_loop_large f k rem val pos rest :
  0 <= rem < 2 ^ (7 * (Z.of_nat f + 1)) -> 0 <= k <= 9 -> 2 ^ 63 <= rem * 2 ^ (7 * k) ->
  decode_int_loop (encode_int_loop f rem ++ rest) val (7 * k) pos = Err CompressionError.
Proof.
  revert k rem val pos. induction f as [|f IH]; intros k rem val pos Hr Hk Hbig.
  all: destruct (Z.eq_dec k 9) as [->|Hk9].
  1, 3: cbn [encode_int_loop]; by repeat case_match.
  - exfalso. replace (7 * (Z.of_nat 0 + 1)) with 7 in Hr by lia. change (2 ^ 7) with 128 in Hr.
    assert (2 ^ (7 * k) <= 2 ^ 56) by (apply Z.pow_le_mono_r; lia). nia.
  - assert (Hpk : 2 ^ 63 = 128 * (2 ^ (7 * k) * 2 ^ (56 - 7 * k))).
    { rewrite <- Z.pow_add_r by lia. replace (7 * k + (56 - 7 * k)) with 56 by lia. lia. }
    assert (0 < 2 ^ (7 * k)) by (apply Z.pow_pos_nonneg; lia).
    assert (0 < 2 ^ (56 - 7 * k)) by (apply Z.pow_pos_nonneg; lia).
    assert (Hrem : 128 * 2 ^ (56 - 7 * k) <= rem) by nia.
    cbn [encode_int_loop]. replace (rem >=? 128) with true by nia.
    rewrite encode_int_loop_byte, <- app_comm_cons, decode_int_loop_cons
      by (unfold is_byte; zlia).
    case_match; [done|]. replace (rem mod 128 + 128 <? 128) with false by zlia.
    replace (7 * k + 7) with (7 * (k + 1)) by lia.
    rewrite Z.shiftr_div_pow2 by lia. change (2 ^ 7) with 128. apply IH; [|lia|].
    + split; [zlia|]. apply Z.div_lt_upper_bound; [lia|].
      replace (7 * (Z.of_nat (S f) + 1)) with (7 + 7 * (Z.of_nat f + 1)) in Hr by lia.
      rewrite Z.pow_add_r in Hr by lia. lia.
    + assert (2 ^ (56 - 7 * k) <= rem / 128) by (apply Z.div_le_lower_bound; lia).
      replace (7 * (k + 1)) with (7 * k + 7) by lia. rewrite Z.pow_add_r by lia.
      change (2 ^ 7) with 128. nia.
Qed.

Lemma prefix_value pm p x :
  0 <= p -> pm mod 2 ^ p = 0 -> 0 <= x < 2 ^ p -> Z.land (Z.lor pm x) (Z.ones p) = x.
Proof.
  intros Hp Hpm Hx. replace pm with (Z.shiftl (pm / 2 ^ p) p).
  - rewrite lor_add, Z.land_ones by lia.
    rewrite Z.add_comm, Z.mod_add by lia. by apply Z.mod_small.
  - rewrite Z.shiftl_mul_pow2 by lia. zlia.
Qed.

Lemma ones_small p : 1 <= p <= 7 -> 1 <= Z.ones p <= 127 /\ 2 ^ p = Z.ones p + 1.
Proof.
  intros H. rewrite Z.ones_equiv.
  assert (2 ^ 1 <= 2 ^ p) by (apply Z.pow_le_mono_r; lia).
  assert (2 ^ p <= 2 ^ 7) by (apply Z.pow_le_mono_r; lia). lia.
Qed.

(** What [decode_int] makes of an encoded integer, in both ranges. *)
Lemma decode_encode_int pm p v rest :
  1 <= p <= 7 -> pm mod 2 ^ p = 0 -> 0 <= v <= U64_MAX ->
  decode_int (encode_int pm p v ++ rest) p =
  if v <? 2 ^ 63 + Z.ones p then Ok (v, len (encode_int pm p v)) else Err CompressionError.
Proof.
  intros Hp Hpm Hv. pose proof (ones_small p Hp) as [Ho H2p].
  unfold encode_int, as_u8. rewrite shiftl_1_mask by lia.
  destruct (Z.ltb_spec v (Z.ones p)).
  - cbn [app decode_int]. rewrite shiftl_1_mask by lia.
    rewrite (Z.mod_small v) by lia. rewrite prefix_value by lia.
    replace (v <? Z.ones p) with true by lia.
    by replace (v <? 2 ^ 63 + Z.ones p) with true by lia.
  - cbn [app decode_int]. rewrite shiftl_1_mask by lia.
    rewrite (Z.mod_small (Z.ones p)) by lia. rewrite prefix_value, Z.ltb_irrefl by lia.
    unfold U64_MAX in Hv. destruct (Z.ltb_spec v (2 ^ 63 + Z.ones p)).
    + rewrite decode_encode_loop by (unfold U64_MAX; simpl; lia).
      rewrite len_cons. f_equal. f_equal; lia.
    + apply (decode_encode_loop_large 9 0); simpl; lia.
Qed.

(** An HPACK integer decodes to itself, with exactly
    the bytes of its encoding consumed, whenever its part above the prefix is
    below 2^63; a larger one, which needs a tenth group, is a
    COMPRESSION_ERROR. *)
Theorem hpack_int_round_trip pm p v rest :
  1 <= p <= 7 -> pm mod 2 ^ p = 0 -> 0 <= v <= U64_MAX ->
  decode_int (encode_int pm p v ++ rest) p =
  if v <? 2 ^ 63 + Z.ones p then Ok (v, len (encode_int pm p v)) else Err CompressionError.
Proof. apply decode_encode_int. Qed.

Lemma hpack_int_round_trip_witness :
  decode_int (encode_int 0x20 5 1337 ++ [1; 2; 3]) 5 = Ok (1337, 3).
Proof.
  rewrite (hpack_int_round_trip 0x20 5 1337 [1; 2; 3]); [vm_compute; reflexivity|lia|reflexivity|].
  unfold U64_MAX. lia.
Defined.

(** ** Bounds of the decoder's integers *)

Lemma decode_int_loop_bounds l val m pos v n :
  bytes_ok l -> 0 <= val <= U64_MAX -> 0 <= m ->
  decode_int_loop l val m pos = Ok (v, n) ->
  0 <= v <= U64_MAX /\ pos < n <= pos + len l.
Proof.
  revert val m pos. induction l as [|b l IH]; intros val m pos Hl Hval Hm; [done|].
  apply Forall_cons in Hl as [Hb Hl]. destruct (Z.lt_ge_cases m 63).
  2: { cbn [decode_int_loop]. by replace (m >=? 63) with true by lia. }
  rewrite decode_int_loop_cons by done. rewrite len_cons.
  assert (0 <= as_u64 (b mod 128 * 2 ^ m)) by (apply Z.mod_pos_bound; lia).
  pose proof (len_nonneg l).
  case_match; [done|]. case_match; zbool.
  - intros [= <- <-]. lia.
  - intros [Hv Hn]%IH; [|done|lia|lia]. lia.
Qed.

Lemma decode_int_bounds buf p v n :
  bytes_ok buf -> 1 <= p <= 7 -> decode_int buf p = Ok (v, n) ->
  0 <= v <= U64_MAX /\ 1 <= n <= len buf.
Proof.
  intros Hb Hp. pose proof (ones_small p Hp) as [Ho _].
  unfold decode_int. destruct buf as [|b0 rest]; [done|].
  apply Forall_cons in Hb as [Hb0 Hb]. unfold is_byte in Hb0.
  rewrite shiftl_1_mask, Z.land_ones, len_cons by lia. pose proof (len_nonneg rest).
  pose proof (Z.mod_pos_bound b0 (2 ^ p) ltac:(apply Z.pow_pos_nonneg; lia)).
  assert (b0 mod 2 ^ p <= b0) by (apply Z.mod_le; [lia|apply Z.pow_pos_nonneg; lia]).
  case_match; zbool.
  - intros [= <- <-]. unfold U64_MAX. lia.
  - intros [Hv Hn]%decode_int_loop_bounds; [|done|unfold U64_MAX; lia|lia]. lia.
Qed.

Lemma decode_string_bounds buf s n :
  bytes_ok buf -> decode_string buf = Ok (s, n) -> 1 <= n <= len buf.
Proof.
  intros Hb. unfold decode_string. destruct buf as [|b0 rest] eqn:Eb; [done|]. rewrite <- Eb in *.
  intros ([v m] & Hi & H)%rbind_ok. apply rbind_ok in H as (tot & Ht & H).
  apply decode_int_bounds in Hi as [Hv Hm]; [|done|lia].
  unfold checked_add_u64 in Ht. destruct (_ <=? U64_MAX); [|done]. injection Ht as <-.
  destruct (Z.ltb_spec (len buf) (m + v)); [done|].
  apply rbind_ok in H as (sv & _ & H). simplify_eq. lia.
Qed.

(** ** The dynamic table keeps the newest entries that fit *)

Fixpoint total_size (l : list field) : Z :=
  match l with [] => 0 | e :: l => entry_size e + total_size l end.

(** The longest prefix whose sizes add up to at most the budget. *)
Fixpoint fit (budget : Z) (l : list field) : list field :=
  match l with
  | [] => []
  | e :: l => if entry_size e <=? budget then e :: fit (budget - entry_size e) l else []
  end.

(** The [size] field is the sum over the entries, within the maximum. *)
Definition table_ok (t : DynamicTable) : Prop :=
  size t = total_size (entries t) /\ size t <= max_size t.

Lemma entry_size_pos e : 32 <= entry_size e.
Proof. unfold entry_size. pose proof (len_nonneg (fst e)). pose proof (len_nonneg (snd e)). lia. Qed.

Lemma total_size_nonneg l : 0 <= total_size l.
Proof. induction l as [|e l IH]; [done|]. cbn [total_size app]. pose proof (entry_size_pos e). lia. Qed.

Lemma total_size_snoc l e : total_size (l ++ [e]) = total_size l + entry_size e.
Proof. induction l as [|x l IH]; cbn [total_size app]; lia. Qed.

Lemma fit_total budget l : 0 <= budget -> total_size (fit budget l) <= budget.
Proof.
  revert budget. induction l as [|e l IH]; intros b Hb; cbn [fit]; [done|].
  destruct (Z.leb_spec (entry_size e) b); [|done]. cbn [total_size app].
  specialize (IH (b - entry_size e)). lia.
Qed.

Lemma fit_all budget l : total_size l <= budget -> fit budget l = l.
Proof.
  revert budget. induction l as [|e l IH]; intros b Hb; cbn [fit]; [done|].
  cbn [total_size app] in Hb. pose proof (total_size_nonneg l).
  replace (entry_size e <=? b) with true by lia. f_equal. apply IH. lia.
Qed.

Lemma fit_snoc budget l e : budget < total_size (l ++ [e]) -> fit budget (l ++ [e]) = fit budget l.
Proof.
  revert budget. induction l as [|x l IH]; intros b Hb; cbn [fit app].
  - cbn [total_size app] in Hb. by replace (entry_size e <=? b) with false by lia.
  - destruct (Z.leb_spec (entry_size x) b); [|done]. f_equal. apply IH.
    cbn [total_size app] in Hb. lia.
Qed.

Lemma pop_snoc {A} (l : list A) x : pop (l ++ [x]) = Some (l, x).
Proof. unfold pop. rewrite rev_app_distr. cbn. by rewrite rev_involutive. Qed.

Lemma evict_loop_fit l sz mx target :
  sz = total_size l -> 0 <= target ->
  evict_loop (length l) (mkTable l sz mx) target
  = mkTable (fit target l) (total_size (fit target l)) mx.
Proof.
  revert sz. induction l as [|e l IH] using rev_ind; intros sz -> Ht; [done|].
  rewrite length_app, Nat.add_comm. cbn [length Nat.add evict_loop size entries max_size].
  destruct (Z.leb_spec (total_size (l ++ [e])) target).
  - replace (total_size (l ++ [e]) >? target) with false by lia. cbn [andb].
    by rewrite fit_all.
  - replace (total_size (l ++ [e]) >? target) with true by lia.
    rewrite bool_decide_false by (by destruct l). cbn [andb negb].
    rewrite pop_snoc, fit_snoc by lia. apply IH; [|done].
    unfold saturating_sub_usize. rewrite total_size_snoc.
    pose proof (total_size_nonneg l). lia.
Qed.

Lemma table_insert_fit t name value :
  table_ok t -> 0 <= max_size t ->
  let l := fit (max_size t) ((name, value) :: entries t) in
  table_insert t name value = mkTable l (total_size l) (max_size t).
Proof.
  intros [Hs _] Hm. unfold table_insert, evict_to_size. cbn [entries max_size].
  apply evict_loop_fit; [|done]. rewrite Hs. cbn [total_size]. lia.
Qed.

Lemma set_max_size_fit t m :
  table_ok t -> 0 <= m ->
  set_max_size t m = mkTable (fit m (entries t)) (total_size (fit m (entries t))) m.
Proof.
  intros [Hs _] Hm. unfold set_max_size, evict_to_size. cbn [entries max_size].
  by apply evict_loop_fit.
Qed.

(** The dynamic table, with its incrementally maintained size
    and its eviction loop, implements "keep the longest prefix of newest entries
    that fits": insertion and resizing equal that function, and keep the
    invariant that the recorded size is the sum of the entries and within the
    maximum. *)
Theorem dynamic_table_refines t :
  table_ok t -> 0 <= max_size t ->
  (forall name value,
     entries (table_insert t name value) = fit (max_size t) ((name, value) :: entries t) /\
     max_size (table_insert t name value) = max_size t /\
     table_ok (table_insert t name value)) /\
  (forall m, 0 <= m ->
     entries (set_max_size t m) = fit m (entries t) /\
     max_size (set_max_size t m) = m /\ table_ok (set_max_size t m)).
Proof.
  intros Ht Hm. split.
  - intros name value. rewrite table_insert_fit by done. split_and!; try done.
    split; [done|]. by apply fit_total.
  - intros m Hm'. rewrite set_max_size_fit by done. split_and!; try done.
    split; [done|]. by apply fit_total.
Qed.

Lemma dynamic_table_refines_witness :
  entries (table_insert (mkTable [(str "a", str "b"); (str "c", str "d")] 68 80)
             (str "ab") (str "cd"))
  = [(str "ab", str "cd"); (str "a", str "b")].
Proof.
  destruct (dynamic_table_refines
              (mkTable [(str "a", str "b"); (str "c", str "d")] 68 80)) as [H _].
  - split; [reflexivity|simpl; lia].
  - simpl. lia.
  - destruct (H (str "ab") (str "cd")) as [-> _]. vm_compute. reflexivity.
Defined.

(** ** The decoding loop *)

Lemma bytes_ok_drop n l : bytes_ok l -> bytes_ok (drop n l).
Proof. apply Forall_drop. Qed.

Lemma decode_int_loop_err l v m pos e :
  decode_int_loop l v m pos = Err e -> e = CompressionError.
Proof.
  revert v m pos. induction l as [|b l IH]; intros v m pos; cbn [decode_int_loop];
    [by intros [=]|].
  case_match; [by intros [=]|].
  destruct (checked_shl_u64 _ _); cbn [ok_or rbind]; [|by intros [=]].
  destruct (checked_add_u64 _ _); cbn [ok_or rbind]; [|by intros [=]].
  case_match; [done|apply IH].
Qed.

Lemma decode_int_err buf p e : decode_int buf p = Err e -> e = CompressionError.
Proof.
  unfold decode_int. destruct buf as [|b0 l]; [by intros [=]|]. case_match; [done|].
  apply decode_int_loop_err.
Qed.

Lemma huffman_bits_err nodes st bits e :
  huffman_bits nodes st bits = Err e -> e = CompressionError.
Proof.
  revert st. induction bits as [|b bits IH]; intros st; cbn [huffman_bits]; [done|].
  destruct (huffman_bit nodes st b) eqn:Hb; cbn [rbind]; [apply IH|].
  intros [= <-]. unfold huffman_bit in Hb. repeat case_match; by simplify_eq.
Qed.

Lemma decode_huffman_err input e : decode_huffman input = Err e -> e = CompressionError.
Proof.
  unfold decode_huffman. destruct (huffman_bits _ _ _) eqn:Hb; cbn [rbind].
  - repeat case_match; by intros [=].
  - intros [= <-]. by eapply huffman_bits_err.
Qed.

Lemma decode_string_err buf e : decode_string buf = Err e -> e = CompressionError.
Proof.
  unfold decode_string. destruct buf as [|b0 l]; [by intros [=]|].
  destruct (decode_int _ _) as [[v n]|] eqn:Hi; cbn [rbind].
  2: { intros [= <-]. by eapply decode_int_err. }
  destruct (checked_add_u64 _ _); cbn [ok_or rbind]; [|by intros [=]].
  case_match; [by intros [=]|]. case_match.
  - destruct (decode_huffman _) eqn:Hh; cbn [rbind]; [done|].
    intros [= <-]. by eapply decode_huffman_err.
  - case_match; cbn [rbind]; [done|by intros [=]].
Qed.

Lemma lookup_index_err t i e : lookup_index t i = Err e -> e = CompressionError.
Proof. unfold lookup_index, ok_or. repeat case_match; by intros [=]. Qed.

Lemma decode_literal_err t buf p e : decode_literal t buf p = Err e -> e = CompressionError.
Proof.
  unfold decode_literal. destruct (decode_int buf p) as [[v n]|] eqn:Hi; cbn [rbind].
  2: { intros [= <-]. by eapply decode_int_err. }
  destruct (v =? 0).
  - destruct (decode_string (drop _ _)) as [[nm n2]|] eqn:H1; cbn [rbind].
    2: { intros [= <-]. by eapply decode_string_err. }
    destruct (decode_string (drop (Z.to_nat (n + n2)) _)) as [[vl n3]|] eqn:H2; cbn [rbind]; [done|].
    intros [= <-]. by eapply decode_string_err.
  - destruct (lookup_index t v) as [f|] eqn:Hl; cbn [rbind].
    2: { intros [= <-]. by eapply lookup_index_err. }
    destruct (decode_string (drop (Z.to_nat (n + 0)) _)) as [[vl n3]|] eqn:H2; cbn [rbind]; [done|].
    intros [= <-]. by eapply decode_string_err.
Qed.

Lemma decode_field_err md t buf t' e :
  decode_field md t buf = (t', Err e) -> e = CompressionError.
Proof.
  unfold decode_field. case_match; [|case_match; [|case_match]].
  - destruct (decode_int buf 7) as [[v n]|] eqn:Hi; cbn [rbind].
    2: { intros [= _ <-]. by eapply decode_int_err. }
    destruct (lookup_index t v) eqn:Hl; cbn [rbind]; [done|].
    intros [= _ <-]. by eapply lookup_index_err.
  - destruct (decode_literal t buf 6) as [[f n]|] eqn:Hl; [done|].
    intros [= _ <-]. by eapply decode_literal_err.
  - destruct (decode_int buf 5) as [[v n]|] eqn:Hi.
    + case_match; by intros [=].
    + intros [= _ <-]. by eapply decode_int_err.
  - destruct (decode_literal t buf 4) as [[f n]|] eqn:Hl; cbn [rbind]; [done|].
    intros [= _ <-]. by eapply decode_literal_err.
Qed.

Lemma decode_literal_bounds t buf p f n :
  bytes_ok buf -> 1 <= p <= 7 -> decode_literal t buf p = Ok (f, n) -> 1 <= n <= len buf.
Proof.
  intros Hb Hp. unfold decode_literal.
  intros ([i n1] & Hi & H)%rbind_ok. apply decode_int_bounds in Hi as [_ Hn1]; [|done..].
  apply rbind_ok in H as ([nm n2] & Hnm & H). apply rbind_ok in H as ([vl n3] & Hvl & H).
  assert (0 <= n2).
  { destruct (i =? 0).
    - apply decode_string_bounds in Hnm; [lia|by apply bytes_ok_drop].
    - apply rbind_ok in Hnm as (? & _ & Hnm). by simplify_eq. }
  apply decode_string_bounds in Hvl; [|by apply bytes_ok_drop].
  unfold len in *. rewrite length_drop in Hvl. simplify_eq. lia.
Qed.

Lemma decode_field_bounds md t buf t' o n :
  bytes_ok buf -> decode_field md t buf = (t', Ok (o, n)) -> 1 <= n <= len buf.
Proof.
  intros Hb. unfold decode_field. case_match; [|case_match; [|case_match]].
  - intros [= _ H']. apply rbind_ok in H' as ([v m] & Hi & H').
    apply rbind_ok in H' as (f & _ & [= _ <-]). apply decode_int_bounds in Hi; [by destruct Hi|done|lia].
  - destruct (decode_literal t buf 6) as [[f m]|] eqn:Hl; [|done]. intros [= _ _ <-].
    eapply decode_literal_bounds; [done| |done]. lia.
  - destruct (decode_int buf 5) as [[v m]|] eqn:Hi; [|done]. case_match; [done|].
    intros [= _ _ <-]. apply decode_int_bounds in Hi; [by destruct Hi|done|lia].
  - intros [= _ H']. apply rbind_ok in H' as ([f m] & Hl & [= _ <-]).
    eapply decode_literal_bounds; [done| |done]. lia.
Qed.

(** The invariant of a decoder: a consistent table whose current maximum never
    exceeds the one it was created with. *)
Definition decoder_ok (d : HpackDecoder) : Prop :=
  table_ok (dynamic_table d) /\
  0 <= max_size (dynamic_table d) <= max_dynamic_table_size d.

Lemma decode_field_ok md t buf t' r :
  bytes_ok buf -> table_ok t -> 0 <= max_size t <= md -> decode_field md t buf = (t', r) ->
  table_ok t' /\ 0 <= max_size t' <= md.
Proof.
  intros Hb Ht Hm. unfold decode_field. case_match; [|case_match; [|case_match]].
  - by intros [= <- _].
  - destruct (decode_literal t buf 6) as [[f n]|]; intros [= <- _]; [|done].
    rewrite table_insert_fit by (done || lia). split; [|done].
    split; [done|]. apply fit_total. cbn [max_size]. lia.
  - destruct (decode_int buf 5) as [[v n]|] eqn:Hi; [|by intros [= <- _]].
    apply decode_int_bounds in Hi as [Hv _]; [|done|lia].
    case_match; intros [= <- _]; [done|]. zbool. rewrite set_max_size_fit by (done || lia).
    split; [|cbn [max_size]; lia]. split; [done|]. apply fit_total. cbn [max_size]. lia.
  - by intros [= <- _].
Qed.

Lemma decode_fields_spec fuel md t buf t' r :
  bytes_ok buf -> table_ok t -> 0 <= max_size t <= md -> (length buf <= fuel)%nat ->
  decode_fields fuel md t buf = (t', r) ->
  table_ok t' /\ 0 <= max_size t' <= md /\
  decode_fields (length buf) md t buf = (t', r) /\
  (forall e, r = Err e -> e = CompressionError).
Proof.
  intros Hb. remember (length buf) as n eqn:Hn. revert fuel t buf t' r Hn Hb.
  induction (lt_wf n) as [n _ IH]. intros fuel t buf t' r -> Hb Ht Hm Hf.
  destruct buf as [|b buf].
  { destruct fuel; cbn; intros [= <- <-]; split_and!; (done || lia). }
  destruct fuel as [|fuel]; [cbn in Hf; lia|].
  change (length (b :: buf)) with (S (length buf)). cbn [decode_fields].
  destruct (decode_field md t (b :: buf)) as [t1 [[o m]|e]] eqn:Hd.
  2: { intros [= <- <-]. destruct (decode_field_ok _ _ _ _ _ Hb Ht Hm Hd) as [H1 H2].
       split_and!; try done; try lia. intros e' [= <-]. by eapply decode_field_err. }
  destruct (decode_field_ok _ _ _ _ _ Hb Ht Hm Hd) as [Ht1 Hm1].
  pose proof (decode_field_bounds _ _ _ _ _ _ Hb Hd) as Hm'. rewrite len_cons in Hm'.
  destruct (decode_fields fuel md t1 _) as [t2 r2] eqn:Hr.
  set (rest := drop (Z.to_nat m) (b :: buf)) in *.
  assert (Hlen : (length rest <= length buf)%nat).
  { subst rest. rewrite length_drop. cbn [length]. unfold len in *. lia. }
  cbn [length] in Hf.
  destruct (IH (length rest) ltac:(cbn [length]; lia) fuel t1 rest t2 r2)
    as (H1 & H2 & H3 & H4); try done; [by apply bytes_ok_drop|lia|].
  intros [= <- <-].
  destruct (decode_fields (length buf) md t1 rest) as [t3 r3] eqn:Hr3.
  destruct (IH (length rest) ltac:(cbn [length]; lia) (length buf) t1 rest t3 r3)
    as (_ & _ & H3' & _); try done; [by apply bytes_ok_drop|].
  rewrite H3 in H3'. simplify_eq. split_and!; try done; try lia.
  intros e. destruct r3; cbn [rbind]; [done|]. intros [= <-]. by apply H4.
Qed.

Lemma decode_header_block_keeps d buf d' r :
  decoder_ok d -> bytes_ok buf -> decode_header_block d buf = (d', r) ->
  decoder_ok d' /\ max_dynamic_table_size d' = max_dynamic_table_size d /\
  max_header_block_size d' = max_header_block_size d.
Proof.
  intros [Ht Hm] Hb. unfold decode_header_block. case_match; [by intros [= <- _]|].
  destruct (decode_fields _ _ _ _) as [t' r'] eqn:Hd. intros [= <- _].
  by destruct (decode_fields_spec _ _ _ _ _ _ Hb Ht Hm (le_n _) Hd) as (H1 & H2 & _).
Qed.

(** Decoding any header block ends with a
    result, the fuel of the loop never being the reason; it keeps the table
    consistent and its maximum within the configured one, and fails only with
    COMPRESSION_ERROR or, for an oversized block, ENHANCE_YOUR_CALM. *)
Theorem decode_header_block_safe d buf d' r :
  decoder_ok d -> bytes_ok buf -> decode_header_block d buf = (d', r) ->
  decoder_ok d' /\
  max_dynamic_table_size d' = max_dynamic_table_size d /\
  max_header_block_size d' = max_header_block_size d /\
  (forall fuel, (length buf <= fuel)%nat ->
     decode_fields fuel (max_dynamic_table_size d) (dynamic_table d) buf =
     decode_fields (length buf) (max_dynamic_table_size d) (dynamic_table d) buf) /\
  (forall e, r = Err e ->
     e = CompressionError \/ (e = EnhanceYourCalm /\ max_header_block_size d < len buf)).
Proof.
  intros [Ht Hm] Hb. unfold decode_header_block.
  assert (Hfuel : forall fuel, (length buf <= fuel)%nat ->
     decode_fields fuel (max_dynamic_table_size d) (dynamic_table d) buf =
     decode_fields (length buf) (max_dynamic_table_size d) (dynamic_table d) buf).
  { intros fuel Hf. destruct (decode_fields fuel _ _ _) as [t' r'] eqn:Hd.
    by destruct (decode_fields_spec _ _ _ _ _ _ Hb Ht Hm Hf Hd) as (_ & _ & -> & _). }
  destruct (len buf >? max_header_block_size d) eqn:E; zbool.
  - intros [= <- <-]. split_and!; try done. intros e [= <-]. by right.
  - destruct (decode_fields _ _ _ _) as [t' r'] eqn:Hd. intros [= <- <-].
    destruct (decode_fields_spec _ _ _ _ _ _ Hb Ht Hm (le_n _) Hd) as (H1 & H2 & _ & H4).
    split_and!; try done. intros e He. left. by apply H4.
Qed.

Lemma decode_header_block_safe_witness :
  decoder_ok (fst (decode_header_block (hpack_decoder_new 4096 1024) [0x3f; 0xe1; 0x1f])).
Proof.
  eapply (decode_header_block_safe (hpack_decoder_new 4096 1024) [0x3f; 0xe1; 0x1f]).
  - split; [split|]; simpl; lia.
  - repeat constructor; lia.
  - vm_compute. reflexivity.
Defined.

(** ** Encoding, then decoding *)

Lemma land_small_bit b k : 0 <= k -> 0 <= b < 2 ^ k -> (Z.land b (2 ^ k) =? 0) = true.
Proof.
  intros Hk Hb. rewrite land_top_bit; [lia|lia|]. rewrite Z.pow_add_r by lia. lia.
Qed.

Lemma land_128 b : is_byte b -> (Z.land b 128 =? 0) = (b <? 128).
Proof. intros Hb. apply (land_top_bit b 7); unfold is_byte in Hb; lia. Qed.

Lemma land_pattern_bits b : 0 <= b < 32 ->
  (Z.land b 128 =? 0) = true /\ (Z.land b 64 =? 0) = true /\ (Z.land b 32 =? 0) = true.
Proof.
  intros Hb. split_and!;
    [apply (land_small_bit b 7)|apply (land_small_bit b 6)|apply (land_small_bit b 5)]; lia.
Qed.

(** The first byte of an encoded integer. *)
Lemma encode_int_head pm p v :
  1 <= p <= 7 -> 0 <= v ->
  exists rest, encode_int pm p v = Z.lor pm (Z.min v (Z.ones p)) :: rest.
Proof.
  intros Hp Hv. pose proof (ones_small p Hp) as [Ho _].
  unfold encode_int, as_u8. rewrite shiftl_1_mask by lia. destruct (Z.ltb_spec v (Z.ones p)).
  - rewrite Z.mod_small by lia. exists []. do 2 f_equal. lia.
  - rewrite Z.mod_small by lia. eexists. do 2 f_equal. lia.
Qed.

Lemma drop_len_app {A} (l k : list A) : drop (Z.to_nat (len l)) (l ++ k) = k.
Proof. unfold len. rewrite Nat2Z.id. apply drop_app_length. Qed.

Lemma slice_mid (a s b : bytes) : slice (a ++ s ++ b) (len a) (len a + len s) = s.
Proof.
  unfold slice. rewrite drop_len_app. replace (len a + len s - len a) with (len s) by lia.
  unfold len. rewrite Nat2Z.id. apply take_app_length.
Qed.

Lemma decode_encode_string s rest :
  utf8_valid s = true -> len s < 2 ^ 62 ->
  decode_string (encode_string s ++ rest) = Ok (s, len (encode_string s)).
Proof.
  intros Hs Hl. unfold encode_string. rewrite <- app_assoc. pose proof (len_nonneg s).
  destruct (encode_int_head 0 7 (len s)) as [k Hk]; [lia..|]. rewrite Z.lor_0_l in Hk.
  unfold decode_string. rewrite Hk. cbn [app]. rewrite app_comm_cons, <- Hk.
  replace (Z.land (Z.min (len s) (Z.ones 7)) 128 =? 0) with true
    by (symmetry; apply (land_small_bit _ 7); change (Z.ones 7) with 127; lia).
  rewrite decode_encode_int by (unfold U64_MAX; (done || lia)).
  replace (len s <? 2 ^ 63 + Z.ones 7) with true by (change (Z.ones 7) with 127; lia).
  cbn [rbind]. set (hd := encode_int 0 7 (len s)) in *.
  assert (0 <= len hd < 2 ^ 10).
  { split; [apply len_nonneg|]. unfold hd, encode_int. clear.
    case_match; [done|]. rewrite len_cons.
    generalize (len s - (Z.shiftl 1 7 - 1)) as r.
    assert (Hf : forall f r, len (encode_int_loop f r) <= Z.of_nat f + 1).
    { induction f as [|f IH]; intros r; cbn [encode_int_loop]; [done|].
      case_match; [rewrite len_cons; specialize (IH (Z.shiftr r 7)); lia|].
      rewrite len_cons, len_nil. lia. }
    intros r. specialize (Hf 9%nat r). lia. }
  unfold checked_add_u64, U64_MAX. replace (_ <=? 18446744073709551615) with true by lia.
  cbn [ok_or rbind negb]. rewrite !len_app. pose proof (len_nonneg rest).
  replace (len hd + (len s + len rest) <? len hd + len s) with false by lia.
  rewrite slice_mid, Hs. cbn [rbind]. by rewrite app_comm_cons, <- Hk, len_app.
Qed.

(** What the search of the static table returns. *)
Definition static_hit (name : bytes) (full : list field) (k : Z) : Prop :=
  1 <= k <= len full /\ exists v, full !! Z.to_nat (k - 1) = Some (name, v).

Lemma search_static_spec full pre tbl name value ni m n :
  full = pre ++ tbl -> (forall k, ni = Some k -> static_hit name full k) ->
  search_static tbl (len pre) name value ni = (m, n) ->
  (forall k, m = Some k ->
     1 <= k <= len full /\ full !! Z.to_nat (k - 1) = Some (name, value)) /\
  (forall k, n = Some k -> static_hit name full k).
Proof.
  revert pre ni. induction tbl as [|[sn sv] tbl IH]; intros pre ni Hfull Hni.
  { intros [= <- <-]. done. }
  assert (Hat : full !! Z.to_nat (len pre + 1 - 1) = Some (sn, sv)).
  { rewrite Hfull. replace (Z.to_nat (len pre + 1 - 1)) with (length pre) by (unfold len; lia).
    by rewrite list_lookup_middle. }
  assert (Hlen : 1 <= len pre + 1 <= len full).
  { rewrite Hfull, len_app, len_cons. pose proof (len_nonneg pre). pose proof (len_nonneg tbl). lia. }
  assert (Hnext : full = (pre ++ [(sn, sv)]) ++ tbl) by (by rewrite <- app_assoc).
  cbn [search_static]. replace (len pre + 1) with (len (pre ++ [(sn, sv)])) in * by
    (by rewrite len_app).
  destruct (bytes_eqb sn name) eqn:En; [|by apply IH].
  apply bytes_eqb_eq in En as ->.
  set (ni' := match ni with None => Some _ | _ => ni end).
  assert (Hni' : forall k, ni' = Some k -> static_hit name full k).
  { subst ni'. destruct ni; [done|]. intros k [= <-]. split; [done|]. eauto. }
  destruct (bytes_eqb sv value) eqn:Ev; [|by apply IH].
  apply bytes_eqb_eq in Ev as ->. intros [= <- <-]. split; [|done].
  intros k [= <-]. done.
Qed.

Lemma lookup_static t k f :
  1 <= k <= len STATIC_TABLE -> STATIC_TABLE !! Z.to_nat (k - 1) = Some f ->
  lookup_index t k = Ok f.
Proof.
  intros Hk Hf. unfold lookup_index. rewrite eqb_neq_false by lia.
  replace (k <=? len STATIC_TABLE) with true by lia. by rewrite Hf.
Qed.

(** The three forms the encoder produces, read by [decode_field]. *)
Lemma decode_indexed md t k f rest :
  1 <= k <= len STATIC_TABLE -> STATIC_TABLE !! Z.to_nat (k - 1) = Some f ->
  decode_field md t (encode_int 0x80 7 k ++ rest)
  = (t, Ok (Some f, len (encode_int 0x80 7 k))).
Proof.
  intros Hk Hf. pose proof Hk as Hk'. change (len STATIC_TABLE) with 61 in Hk'.
  destruct (encode_int_head 0x80 7 k) as [r Hr]; [lia..|].
  unfold decode_field. replace (byte_at _ 0) with (128 + k).
  - rewrite land_128 by (unfold is_byte; lia).
    replace (128 + k <? 128) with false by lia. cbn [negb].
    rewrite decode_encode_int by (unfold U64_MAX; (done || lia)).
    replace (k <? 2 ^ 63 + Z.ones 7) with true by (change (Z.ones 7) with 127; lia).
    cbn [rbind]. by rewrite (lookup_static t k f).
  - rewrite Hr. cbn [app]. rewrite byte_at_cons_0, Z.min_l by (change (Z.ones 7) with 127; lia).
    change 128 with (Z.shiftl 1 7). by rewrite lor_add by lia.
Qed.

Lemma decode_without_indexing md t v rest :
  0 <= v -> decode_field md t (encode_int 0x00 4 v ++ rest)
  = (t, let? (f, n) := decode_literal t (encode_int 0x00 4 v ++ rest) 4 in Ok (Some f, n)).
Proof.
  intros Hv. destruct (encode_int_head 0 4 v) as [r Hr]; [lia..|]. rewrite Z.lor_0_l in Hr.
  unfold decode_field. replace (byte_at _ 0) with (Z.min v (Z.ones 4)) by (by rewrite Hr).
  change (Z.ones 4) with 15.
  destruct (land_pattern_bits (Z.min v 15)) as (-> & -> & ->); [lia|done].
Qed.

Lemma decode_literal_named t v s name rest :
  static_hit name STATIC_TABLE v -> utf8_valid s = true -> len s < 2 ^ 62 ->
  decode_literal t (encode_int 0 4 v ++ encode_string s ++ rest) 4
  = Ok ((name, s), len (encode_int 0 4 v ++ encode_string s)).
Proof.
  intros [Hv [w Hw]] Hs Hl. pose proof Hv as Hv'. change (len STATIC_TABLE) with 61 in Hv'.
  unfold decode_literal. rewrite decode_encode_int by (unfold U64_MAX; (done || lia)).
  replace (v <? 2 ^ 63 + Z.ones 4) with true by (change (Z.ones 4) with 15; lia).
  cbn [rbind]. rewrite eqb_neq_false by lia. rewrite (lookup_static t v _ Hv Hw).
  cbn [rbind fst]. rewrite Z.add_0_r, drop_len_app, decode_encode_string by done.
  cbn [rbind]. by rewrite len_app.
Qed.

Lemma decode_literal_new t name s rest :
  utf8_valid name = true -> len name < 2 ^ 62 -> utf8_valid s = true -> len s < 2 ^ 62 ->
  decode_literal t (encode_int 0 4 0 ++ encode_string name ++ encode_string s ++ rest) 4
  = Ok ((name, s), len (encode_int 0 4 0 ++ encode_string name ++ encode_string s)).
Proof.
  intros Hn Hnl Hs Hl. unfold decode_literal.
  rewrite decode_encode_int by (unfold U64_MAX; (done || lia)).
  replace (0 <? 2 ^ 63 + Z.ones 4) with true by done. cbn [rbind].
  rewrite Z.eqb_refl, drop_len_app, decode_encode_string by done. cbn [rbind].
  rewrite <- len_app, app_assoc, drop_len_app, decode_encode_string by done.
  cbn [rbind]. rewrite !len_app. do 2 f_equal. lia.
Qed.

Section RoundTrip.
Context `{UnicodeCase}.

(** A field the server may send: an ASCII name, a UTF-8 value. *)
Definition sendable (f : field) : Prop :=
  is_ascii (fst f) /\ len (fst f) < 2 ^ 62 /\
  utf8_valid (snd f) = true /\ len (snd f) < 2 ^ 62.

(** The field as the peer sees it: HTTP/2 names are lowercase. *)
Definition lower_field (f : field) : field := (to_ascii_lowercase (fst f), snd f).

Lemma decode_encode_field md t f rest :
  sendable f ->
  decode_field md t (encode_field f ++ rest)
  = (t, Ok (Some (lower_field f), len (encode_field f))).
Proof.
  intros (Ha & Hal & Hv & Hvl). unfold encode_field, lower_field.
  rewrite to_lowercase_ascii by done. set (name := to_ascii_lowercase (fst f)).
  assert (Hn : utf8_valid name = true)
    by (apply ascii_utf8_valid, to_ascii_lowercase_ascii, Ha).
  assert (Hnl : len name < 2 ^ 62)
    by (unfold len, name, to_ascii_lowercase in *; by rewrite length_map).
  destruct (search_static STATIC_TABLE 0 name (snd f) None) as [m n] eqn:Hs.
  destruct (search_static_spec STATIC_TABLE [] STATIC_TABLE name (snd f) None m n)
    as [Hm Hh]; try done.
  destruct m as [k|]; [|destruct n as [k|]].
  - destruct (Hm k eq_refl) as [Hk Hf]. by apply decode_indexed.
  - rewrite <- app_assoc. destruct (Hh k eq_refl) as [Hk Hw].
    rewrite decode_without_indexing by lia.
    by rewrite (decode_literal_named t k (snd f) name rest) by done.
  - rewrite <- !app_assoc, decode_without_indexing by lia.
    by rewrite decode_literal_new by done.
Qed.

Lemma encode_field_nonempty f : sendable f -> encode_field f <> [].
Proof.
  intros Hf. intros E. pose proof (decode_encode_field 0 (table_new 0) f [] Hf) as Hd.
  rewrite E in Hd. discriminate Hd.
Qed.

Lemma encode_field_length f : sendable f -> (0 < length (encode_field f))%nat.
Proof.
  intros Hf%encode_field_nonempty. destruct (encode_field f); [by destruct Hf|].
  cbn [length]. lia.
Qed.

Lemma decode_fields_step fuel md t f rest :
  sendable f ->
  decode_fields (S fuel) md t (encode_field f ++ rest) =
  (let '(t2, r) := decode_fields fuel md t rest in
   (t2, let? fs := r in Ok (lower_field f :: fs))).
Proof.
  intros Hf. pose proof (decode_encode_field md t f rest Hf) as Hd.
  pose proof (encode_field_length f Hf) as Hl.
  pose proof (drop_len_app (encode_field f) rest) as Hdrop.
  assert (encode_field f ++ rest <> []) as Hne
    by (intros E%(f_equal length); rewrite length_app in E; cbn [length] in E; lia).
  destruct (encode_field f ++ rest) as [|b buf]; [by destruct Hne|].
  cbn [decode_fields]. by rewrite Hd, Hdrop.
Qed.

#[local] Opaque encode_field.

Lemma decode_encode_cons f fs fuel md t :
  sendable f ->
  (forall fuel, (length (encode_headers fs) <= fuel)%nat ->
     decode_fields fuel md t (encode_headers fs) = (t, Ok (map lower_field fs))) ->
  (length (encode_headers (f :: fs)) <= fuel)%nat ->
  decode_fields fuel md t (encode_headers (f :: fs)) = (t, Ok (map lower_field (f :: fs))).
Proof.
  intros Hf IH Hl. pose proof (encode_field_length f Hf) as Hp.
  unfold encode_headers in *. rewrite concat_map_cons in *. rewrite map_cons.
  rewrite length_app in Hl. destruct fuel as [|fuel]; [exfalso; clear IH; lia|].
  rewrite decode_fields_step by done. rewrite IH by lia. reflexivity.
Qed.

Lemma decode_encode_fields fs fuel md t :
  Forall sendable fs -> (length (encode_headers fs) <= fuel)%nat ->
  decode_fields fuel md t (encode_headers fs) = (t, Ok (map lower_field fs)).
Proof.
  intros Hfs. revert fuel. induction Hfs as [|f fs Hf Hfs IH]; intros fuel Hl.
  - by destruct fuel.
  - by apply decode_encode_cons.
Qed.

#[local] Transparent encode_field.

(** C38 (round trip): a block produced by [encode_headers] decodes, whatever
    the state of the decoder's dynamic table, to the same fields with lowercase
    names, and leaves the decoder unchanged. *)
Theorem hpack_round_trip d fs :
  Forall sendable fs -> len (encode_headers fs) <= max_header_block_size d ->
  decode_header_block d (encode_headers fs) = (d, Ok (map lower_field fs)).
Proof.
  intros Hfs Hl. unfold decode_header_block.
  replace (len (encode_headers fs) >? max_header_block_size d) with false by lia.
  rewrite decode_encode_fields by done. by destruct d.
Qed.
End RoundTrip.

Lemma hpack_round_trip_witness :
  decode_header_block (hpack_decoder_new 4096 1024)
    (encode_headers (H:=ascii_case)
       [(str ":status", str "200"); (str "Content-Type", str "text/html"); (str "X-A", str "b")])
  = (hpack_decoder_new 4096 1024,
     Ok [(str ":status", str "200"); (str "content-type", str "text/html"); (str "x-a", str "b")]).
Proof.
  apply (hpack_round_trip (H:=ascii_case) (hpack_decoder_new 4096 1024)
       [(str ":status", str "200"); (str "Content-Type", str "text/html"); (str "X-A", str "b")]).
  - repeat constructor; vm_compute; done.
  - vm_compute. done.
Defined.
