(* ===== verification/Flow.v ===== *)
(** * Flow-control windows (src/server/http2/flow.rs)

    [Window] is a signed 32-bit credit with the source's three operations; an
    operation that fails leaves the window as it was, so each one returns
    either the new window or the error.  The theorems say that the machine
    arithmetic never wraps and that a window is exactly a credit ledger. *)

From S2P Require Import Prelude Frame.

Definition MAX_WINDOW_SIZE : Z := 2147483647.

Record Window : Type := mkWindow { available : Z (* i32 *) }.

#[global] Instance Window_eq_dec : EqDecision Window.
Proof. solve_decision. Defined.

Definition window_new (initial_size : Z) : Window := mkWindow (as_i32 initial_size).

Definition window_update (w : Window) (increment : Z) : result Window Http2ErrorCode :=
  if increment =? 0 then Err ProtocolError else
  let new_available := available w + increment in
  if new_available >? MAX_WINDOW_SIZE then Err FlowControlError else
  Ok (mkWindow (as_i32 new_available)).

Definition window_consume (w : Window) (bytes : Z) : result Window Http2ErrorCode :=
  if bytes >? available w then Err FlowControlError else
  Ok (mkWindow (available w - as_i32 bytes)).

Definition window_adjust (w : Window) (delta : Z) : result Window Http2ErrorCode :=
  let updated := available w + delta in
  if (updated >? MAX_WINDOW_SIZE) || (updated <? I32_MIN) then Err FlowControlError else
  Ok (mkWindow (as_i32 updated)).

(** [FlowControl]: the connection's receive window and the stream default. *)
Record FlowControl : Type := mkFlowControl {
  connection_window : Window;
  initial_stream_window_size : Z;
}.

Definition flow_control_new (initial_window_size : Z) : FlowControl :=
  mkFlowControl (window_new initial_window_size) initial_window_size.

Definition update_initial_window_size (fc : FlowControl) (new_size : Z)
  : result FlowControl Http2ErrorCode :=
  if new_size >? MAX_WINDOW_SIZE then Err FlowControlError else
  Ok (mkFlowControl (connection_window fc) new_size).

(** ** Invariant and lemmas *)

(** The field fits its [i32]. *)
Definition window_ok (w : Window) : Prop := I32_MIN <= available w <= I32_MAX.

Lemma as_i32_small v : I32_MIN <= v <= I32_MAX -> as_i32 v = v.
Proof.
  unfold as_i32, I32_MIN, I32_MAX. intros H.
  destruct (Z.ltb_spec (v mod 2 ^ 32) (2 ^ 31)); zlia.
Qed.

Lemma window_new_ok n : window_ok (window_new n).
Proof.
  unfold window_ok, window_new, as_i32, I32_MIN, I32_MAX; cbn [available].
  case_match; zbool; zlia.
Qed.

Lemma window_new_available n : 0 <= n <= I32_MAX -> available (window_new n) = n.
Proof. apply as_i32_id. Qed.

Lemma window_update_ok w n w' :
  window_ok w -> 0 <= n -> window_update w n = Ok w' ->
  window_ok w' /\ available w' = available w + n /\ 0 < n.
Proof.
  unfold window_ok, window_update, MAX_WINDOW_SIZE, I32_MIN, I32_MAX. intros Hw Hn H.
  do 2 (split_if H; [done|]). zbool. simplify_eq. cbn [available].
  rewrite as_i32_small by (unfold I32_MIN, I32_MAX; lia). lia.
Qed.

Lemma window_consume_ok w n w' :
  window_ok w -> 0 <= n -> window_consume w n = Ok w' ->
  window_ok w' /\ available w' = available w - n /\ 0 <= available w'.
Proof.
  unfold window_ok, window_consume, I32_MIN, I32_MAX. intros Hw Hn H.
  split_if H; [done|]. zbool. simplify_eq. cbn [available].
  rewrite as_i32_small by (unfold I32_MIN, I32_MAX; lia). lia.
Qed.

Lemma window_consume_fits w n : n <= available w -> exists w', window_consume w n = Ok w'.
Proof. intros H. unfold window_consume. destruct (Z.gtb_spec n (available w)); [lia|by eexists]. Qed.

Lemma window_adjust_ok w d w' :
  window_adjust w d = Ok w' -> window_ok w' /\ available w' = available w + d.
Proof.
  unfold window_ok, window_adjust, MAX_WINDOW_SIZE, I32_MIN, I32_MAX. intros H.
  split_if H; [done|]. zbool. simplify_eq. cbn [available].
  rewrite as_i32_small by (unfold I32_MIN, I32_MAX; lia). lia.
Qed.

#[export] Hint Resolve window_new_ok : veys.

(** ** The ledger *)

(** One call on a window; arguments in the range of their Rust type. *)
Inductive window_op : Type :=
| OpUpdate (increment : Z)
| OpConsume (bytes : Z)
| OpAdjust (delta : Z).

Definition op_in_range (o : window_op) : Prop :=
  match o with OpUpdate n | OpConsume n => 0 <= n < 2 ^ 32 | OpAdjust _ => True end.

Definition apply_op (w : Window) (o : window_op) : result Window Http2ErrorCode :=
  match o with
  | OpUpdate n => window_update w n
  | OpConsume n => window_consume w n
  | OpAdjust d => window_adjust w d
  end.

(** The specification: an unbounded credit, refused exactly outside the i32
    range (and for an empty update or an uncovered debit). *)
Definition credit_step (c : Z) (o : window_op) : result Z Http2ErrorCode :=
  match o with
  | OpUpdate n =>
      if n =? 0 then Err ProtocolError
      else if c + n >? I32_MAX then Err FlowControlError else Ok (c + n)
  | OpConsume n => if n >? c then Err FlowControlError else Ok (c - n)
  | OpAdjust d =>
      if (c + d >? I32_MAX) || (c + d <? I32_MIN) then Err FlowControlError else Ok (c + d)
  end.

Fixpoint run_ops (w : Window) (l : list window_op) : result Window Http2ErrorCode :=
  match l with
  | [] => Ok w
  | o :: l => let? w' := apply_op w o in run_ops w' l
  end.

Fixpoint run_credit (c : Z) (l : list window_op) : result Z Http2ErrorCode :=
  match l with
  | [] => Ok c
  | o :: l => let? c' := credit_step c o in run_credit c' l
  end.

Definition window_credit (r : result Window Http2ErrorCode) : result Z Http2ErrorCode :=
  let? w := r in Ok (available w).

Lemma apply_op_credit w o :
  window_ok w -> op_in_range o ->
  window_credit (apply_op w o) = credit_step (available w) o /\
  (forall w', apply_op w o = Ok w' -> window_ok w').
Proof.
  intros Hw Ho. destruct o as [n|n|d]; cbn [apply_op credit_step op_in_range] in *;
    change I32_MAX with MAX_WINDOW_SIZE.
  - split; [|intros w' H; apply window_update_ok in H; [tauto|done|lia]].
    destruct (window_update w n) as [w'|e] eqn:H; cbn [window_credit rbind].
    + pose proof H as H'. apply window_update_ok in H' as (_ & -> & _); [|done|lia].
      unfold window_update in H. do 2 (split_if H; [done|]). done.
    + unfold window_update in H. repeat case_match; by simplify_eq.
  - split; [|intros w' H; apply window_consume_ok in H; [tauto|done|lia]].
    destruct (window_consume w n) as [w'|e] eqn:H; cbn [window_credit rbind].
    + pose proof H as H'. apply window_consume_ok in H' as (_ & -> & _); [|done|lia].
      unfold window_consume in H. by split_if H.
    + unfold window_consume in H. repeat case_match; by simplify_eq.
  - split; [|intros w' H; apply window_adjust_ok in H; tauto].
    destruct (window_adjust w d) as [w'|e] eqn:H; cbn [window_credit rbind].
    + pose proof H as H'. apply window_adjust_ok in H' as (_ & ->).
      unfold window_adjust in H. by split_if H.
    + unfold window_adjust in H. repeat case_match; by simplify_eq.
Qed.

(** On every sequence of calls a window behaves exactly like an
    unbounded credit ledger, errors included: the [i32] arithmetic and the
    [as i32] casts never wrap. *)
Theorem window_refines_ledger w l :
  window_ok w -> Forall op_in_range l ->
  window_credit (run_ops w l) = run_credit (available w) l.
Proof.
  intros Hw Hl. revert w Hw. induction Hl as [|o l Ho _ IH]; intros w Hw; [done|].
  destruct (apply_op_credit w o Hw Ho) as [Hc Hok]. cbn [run_ops run_credit].
  rewrite <- Hc. destruct (apply_op w o) as [w'|e]; cbn [rbind window_credit]; [|done].
  apply IH. by apply Hok.
Qed.

Lemma window_refines_ledger_witness :
  window_credit (run_ops (window_new 65535) [OpConsume 1000; OpUpdate 500; OpAdjust (-70000)])
  = Ok (-4965).
Proof.
  rewrite (window_refines_ledger (window_new 65535)); [vm_compute; reflexivity|apply window_new_ok|].
  repeat constructor; simpl; lia.
Defined.
