(* ===== verification/Stream.v ===== *)
(** * HTTP/2 streams (src/server/http2/stream.rs)

    The stream record, the state machine of [transition_to] and the two append
    operations.  The theorems relate [transition_to] to the transition relation
    it implements and describe the states a request stream can reach. *)

From S2P Require Import Prelude Frame Flow.

Inductive StreamState : Type :=
| Idle | ReservedLocal | ReservedRemote | Open
| HalfClosedLocal | HalfClosedRemote | Closed.

#[global] Instance StreamState_eq_dec : EqDecision StreamState.
Proof. solve_decision. Defined.

Record Stream : Type := mkStream {
  id : Z;
  state : StreamState;
  window : Window;
  send_window : Window;
  request_headers : list (bytes * bytes);
  request_body : bytes;
  received_end_stream : bool;
  received_end_headers : bool;
}.

Definition with_state (s : Stream) (st : StreamState) : Stream :=
  mkStream (id s) st (window s) (send_window s) (request_headers s) (request_body s)
    (received_end_stream s) (received_end_headers s).

(** [Stream::new]. *)
Definition stream_new (id initial_window_size : Z) : result Stream Http2ErrorCode :=
  if (id =? 0) || (id mod 2 =? 0) then Err ProtocolError else
  Ok (mkStream id Idle (window_new initial_window_size) (window_new 65535) [] []
        false false).

Definition is_client_initiated (id : Z) : bool := (id >? 0) && negb (id mod 2 =? 0).

Definition transition_to (s : Stream) (target_state : StreamState)
  : result Stream Http2ErrorCode :=
  match state s, target_state with
  | Idle, Open => Ok (with_state s Open)
  | Idle, HalfClosedRemote => Ok (with_state s HalfClosedRemote)
  | Open, HalfClosedRemote => Ok (with_state s HalfClosedRemote)
  | Open, HalfClosedLocal => Ok (with_state s HalfClosedLocal)
  | Open, Closed => Ok (with_state s Closed)
  | HalfClosedRemote, Closed => Ok (with_state s Closed)
  | HalfClosedLocal, Closed => Ok (with_state s Closed)
  | Closed, Closed => Ok s
  | _, _ => Err StreamClosed
  end.

Definition append_request_headers (s : Stream) (headers : list (bytes * bytes))
  (end_headers : bool) : Stream :=
  mkStream (id s) (state s) (window s) (send_window s) (request_headers s ++ headers)
    (request_body s) (received_end_stream s)
    (if end_headers then true else received_end_headers s).

(** [let _ = self.transition_to(..)]: a refused transition changes nothing. *)
Definition try_transition (s : Stream) (target_state : StreamState) : Stream :=
  match transition_to s target_state with Ok s' => s' | Err _ => s end.

(** [append_request_data] has no failing path: it always returns [Ok(())]. *)
Definition append_request_data (s : Stream) (data : bytes) (end_stream : bool)
  : result Stream Http2ErrorCode :=
  let s := mkStream (id s) (state s) (window s) (send_window s) (request_headers s)
             (request_body s ++ data) (received_end_stream s) (received_end_headers s) in
  if end_stream then
    let s := mkStream (id s) (state s) (window s) (send_window s) (request_headers s)
               (request_body s) true (received_end_headers s) in
    Ok (try_transition s HalfClosedRemote)
  else Ok s.

(** ** The state machine *)

(** RFC 9113 figure 2, the part a server without push can take, plus the
    repeated close. *)
Inductive stream_step : StreamState -> StreamState -> Prop :=
| step_open : stream_step Idle Open
| step_open_ended : stream_step Idle HalfClosedRemote
| step_end_remote : stream_step Open HalfClosedRemote
| step_end_local : stream_step Open HalfClosedLocal
| step_reset : stream_step Open Closed
| step_remote_closed : stream_step HalfClosedRemote Closed
| step_local_closed : stream_step HalfClosedLocal Closed
| step_closed_again : stream_step Closed Closed.

(** How far a stream has progressed; every change of state increases it. *)
Definition progress (st : StreamState) : nat :=
  match st with
  | Idle => 0
  | ReservedLocal | ReservedRemote | Open => 1
  | HalfClosedLocal | HalfClosedRemote => 2
  | Closed => 3
  end.

Fixpoint run_transitions (s : Stream) (l : list StreamState) : result Stream Http2ErrorCode :=
  match l with
  | [] => Ok s
  | t :: l => let? s' := transition_to s t in run_transitions s' l
  end.

Lemma with_state_same s : with_state s (state s) = s.
Proof. by destruct s. Qed.

Lemma transition_to_step s t :
  match transition_to s t with
  | Ok s' => stream_step (state s) t /\ s' = with_state s t
  | Err e => e = StreamClosed /\ ~ stream_step (state s) t
  end.
Proof.
  unfold transition_to. destruct (state s) eqn:Hs, t; try (split; [by constructor|done]);
    try (split; [done|by inversion 1]).
  split; [by constructor|]. rewrite <- Hs. by rewrite with_state_same.
Qed.

Lemma try_transition_id s t : id (try_transition s t) = id s.
Proof.
  unfold try_transition. pose proof (transition_to_step s t) as Hs.
  destruct (transition_to s t); [by destruct Hs as [_ ->]|done].
Qed.

Lemma stream_step_progress a b : stream_step a b -> b = a \/ (progress a < progress b)%nat.
Proof. destruct 1; simpl; (by left) || (right; lia). Qed.

Lemma stream_step_no_reserved a b : stream_step a b -> b <> ReservedLocal /\ b <> ReservedRemote.
Proof. by destruct 1. Qed.

(** C37 (state machine): [transition_to] takes exactly the transitions of the
    relation [stream_step]; otherwise it reports STREAM_CLOSED.  Along any
    sequence of calls only the [state] field changes, the stream never enters
    a reserved state, progress never decreases, and a closed stream stays
    closed. *)
Theorem stream_transitions s l s' :
  run_transitions s l = Ok s' ->
  rtc stream_step (state s) (state s') /\ s' = with_state s (state s') /\
  (progress (state s) <= progress (state s'))%nat /\
  (state s = Closed -> s' = s) /\
  (state s <> state s' -> state s' <> ReservedLocal /\ state s' <> ReservedRemote).
Proof.
  revert s. induction l as [|t l IH]; intros s; cbn [run_transitions].
  - intros [= ->]. rewrite with_state_same. split_and!; try done; try lia.
  - intros (s1 & H1 & H)%rbind_ok. pose proof (transition_to_step s t) as Hs.
    rewrite H1 in Hs. destruct Hs as [Hs ->].
    destruct (IH _ H) as (Hr & Heq & Hp & Hc & Hn). cbn [with_state state] in *.
    pose proof (stream_step_progress _ _ Hs). pose proof (stream_step_no_reserved _ _ Hs).
    split_and!.
    + by eapply rtc_l.
    + rewrite Heq at 1. done.
    + destruct_or!; [subst; lia|lia].
    + intros E. rewrite E in Hs. inversion Hs; subst t. rewrite Hc by done.
      rewrite <- E. apply with_state_same.
    + intros _. destruct (decide (t = state s')) as [->|Hne]; [done|by apply Hn].
Qed.

Lemma stream_transitions_witness :
  exists s', run_transitions (mkStream 3 Idle (mkWindow 1) (mkWindow 1) [] [] false false)
               [Open; HalfClosedRemote; Closed] = Ok s' /\ rtc stream_step Idle (state s').
Proof.
  eexists. split; [reflexivity|].
  eapply (stream_transitions (mkStream 3 Idle (mkWindow 1) (mkWindow 1) [] [] false false)
            [Open; HalfClosedRemote; Closed]).
  reflexivity.
Defined.
