(* ===== verification/H2Headers.v ===== *)
(** * Header rules of the HTTP/2 driver (src/server/http2/connection.rs)

    The free functions at the end of the driver: validation of a request's
    header list and of its [content-length], the [Accept-Encoding] test and the
    editing of response headers for on-the-fly compression. *)

From S2P Require Import Prelude RustStd Frame Http.

Abbreviation header_list := (list (bytes * bytes)).

(** ** [validate_request_headers] *)

(** The locals of the loop. *)
Record Pseudo : Type := mkPseudo {
  seen_regular : bool;
  p_method : option bytes;
  p_scheme : option bytes;
  p_path : option bytes;
  p_authority : option bytes;
}.

Definition bad_name_byte (b : Z) : bool :=
  is_ascii_uppercase b || (b <=? 0x20) || (b =? 0x7f).

Definition connection_specific (name : bytes) : bool :=
  existsb (bytes_eqb name)
    [str "connection"; str "keep-alive"; str "proxy-connection"; str "upgrade";
     str "transfer-encoding"].

(** The match on the pseudo-header's name with [slot.replace(value)]. *)
Definition set_pseudo (p : Pseudo) (name value : bytes) : result Pseudo Http2ErrorCode :=
  let fill (slot : option bytes) (p' : Pseudo) :=
    match slot with Some _ => Err ProtocolError | None => Ok p' end in
  if bytes_eqb name (str ":method") then
    fill (p_method p)
      (mkPseudo (seen_regular p) (Some value) (p_scheme p) (p_path p) (p_authority p))
  else if bytes_eqb name (str ":scheme") then
    fill (p_scheme p)
      (mkPseudo (seen_regular p) (p_method p) (Some value) (p_path p) (p_authority p))
  else if bytes_eqb name (str ":path") then
    fill (p_path p)
      (mkPseudo (seen_regular p) (p_method p) (p_scheme p) (Some value) (p_authority p))
  else if bytes_eqb name (str ":authority") then
    fill (p_authority p)
      (mkPseudo (seen_regular p) (p_method p) (p_scheme p) (p_path p) (Some value))
  else Err ProtocolError.

(** One round of the loop. *)
Definition validate_field (p : Pseudo) (h : bytes * bytes) : result Pseudo Http2ErrorCode :=
  let '(name, value) := h in
  if bool_decide (name = []) || existsb bad_name_byte name then Err ProtocolError else
  if starts_with name (str ":") then
    if seen_regular p then Err ProtocolError else set_pseudo p name value
  else
    let p := mkPseudo true (p_method p) (p_scheme p) (p_path p) (p_authority p) in
    if connection_specific name
       || (bytes_eqb name (str "te") && negb (eq_ignore_ascii_case value (str "trailers")))
    then Err ProtocolError else Ok p.

Fixpoint validate_fields (p : Pseudo) (hs : header_list) : result Pseudo Http2ErrorCode :=
  match hs with
  | [] => Ok p
  | h :: hs => let? p := validate_field p h in validate_fields p hs
  end.

Definition no_pseudo : Pseudo := mkPseudo false None None None None.

Definition validate_request_headers (request_headers : header_list)
  : result unit Http2ErrorCode :=
  let? p := validate_fields no_pseudo request_headers in
  let? method := ok_or (p_method p) ProtocolError in
  if negb (bytes_eqb method (str "CONNECT"))
     && (bool_decide (p_scheme p = None) || bool_decide (p_path p = None))
  then Err ProtocolError else Ok tt.

(** ** [validate_content_length] *)

Fixpoint content_length_loop (content_length : option Z) (headers : header_list)
  : result (option Z) Http2ErrorCode :=
  match headers with
  | [] => Ok content_length
  | (name, value) :: headers =>
      if bytes_eqb name (str "content-length") then
        let? parsed := ok_or (parse_usize value) ProtocolError in
        match content_length with
        | Some _ => Err ProtocolError
        | None => content_length_loop (Some parsed) headers
        end
      else content_length_loop content_length headers
  end.

Definition validate_content_length (headers : header_list) (actual_body_len : Z)
  : result unit Http2ErrorCode :=
  let? content_length := content_length_loop None headers in
  match content_length with
  | Some length => if negb (length =? actual_body_len) then Err ProtocolError else Ok tt
  | None => Ok tt
  end.

(** ** [accepts_gzip] *)

(** [raw.parse::<f32>()], up to what the code does with the number: [None] for
    a syntax error, otherwise whether the number is greater than zero.  A
    decimal rounds to a positive [f32] when it exceeds [2 ^ -150], half of the
    smallest subnormal; NaN is not greater than zero. *)
Fixpoint take_digits (l : bytes) : bytes * bytes :=
  match l with
  | c :: l' =>
      if is_ascii_digit c then let '(d, r) := take_digits l' in (c :: d, r) else ([], l)
  | [] => ([], [])
  end.

Fixpoint decimal_value (l : bytes) (acc : Z) : Z :=
  match l with [] => acc | c :: l => decimal_value l (10 * acc + (c - 48)) end.

(** [e] or [E], a sign and digits; the whole rest must be consumed. *)
Definition parse_exponent (l : bytes) : option Z :=
  match l with
  | [] => Some 0
  | c :: l =>
      if (c =? 101) || (c =? 69) then
        let '(neg, l) := match l with
                         | 43 :: r => (false, r) | 45 :: r => (true, r) | _ => (false, l) end in
        match take_digits l with
        | ((_ :: _) as d, []) =>
            Some (if neg : bool then - decimal_value d 0 else decimal_value d 0)
        | _ => None
        end
      else None
  end.

Definition decimal_positive (mantissa exponent : Z) : bool :=
  (mantissa >? 0) &&
  (if 0 <=? exponent then true else mantissa * 2 ^ 150 >? 10 ^ (- exponent)).

Definition parse_f32_positive (raw : bytes) : option bool :=
  let '(neg, l) := match raw with
                   | 43 :: r => (false, r) | 45 :: r => (true, r) | _ => (false, raw) end in
  if eq_ignore_ascii_case l (str "nan") then Some false else
  if eq_ignore_ascii_case l (str "inf") || eq_ignore_ascii_case l (str "infinity")
  then Some (negb neg) else
  let '(int, l) := take_digits l in
  let '(frac, l) := match l with 46 :: r => take_digits r | _ => ([], l) end in
  if bool_decide (int = []) && bool_decide (frac = []) then None else
  match parse_exponent l with
  | Some e =>
      Some (negb neg && decimal_positive (decimal_value (int ++ frac) 0) (e - len frac))
  | None => None
  end.

(** [iter.find_map(f)]. *)
Fixpoint find_map {A B} (f : A -> option B) (l : list A) : option B :=
  match l with
  | [] => None
  | x :: l => match f x with Some y => Some y | None => find_map f l end
  end.

Definition gzip_entry (entry : bytes) : bool :=
  match split_on 59 (trim entry) with
  | [] => false
  | coding :: parts =>
      let coding := trim coding in
      let q := find_map (fun part =>
                 match strip_prefix (trim part) (str "q=") with
                 | Some raw => parse_f32_positive raw
                 | None => None
                 end) parts in
      (eq_ignore_ascii_case coding (str "gzip") || bytes_eqb coding (str "*"))
      && (match q with Some b => b | None => true end)
  end.

Definition accepts_gzip (value : option bytes) : bool :=
  match value with
  | None => false
  | Some value => existsb gzip_entry (split_on 44 value)
  end.

(** ** Response headers under compression *)

Definition dynamic_response_compressible (response : HttpResponse) : bool :=
  if bool_decide (status response = NoContent) || bool_decide (status response = NotModified)
  then false else
  if existsb (fun h => eq_ignore_ascii_case (fst h) (str "Content-Encoding")
                       || (eq_ignore_ascii_case (fst h) (str "Cache-Control")
                           && contains_sub (to_ascii_lowercase (snd h)) (str "no-transform")))
       (resp_headers response)
  then false else
  match find (fun h => eq_ignore_ascii_case (fst h) (str "Content-Type"))
          (resp_headers response) with
  | None => false
  | Some (_, value) =>
      let mime := to_ascii_lowercase (trim (hd [] (split_on 59 value))) in
      starts_with mime (str "text/")
      || existsb (bytes_eqb mime)
           [str "application/json"; str "application/javascript"; str "application/xml";
            str "image/svg+xml"]
  end.

Definition remove_header (headers : header_list) (name : bytes) : header_list :=
  List.filter (fun h => negb (eq_ignore_ascii_case (fst h) name)) headers.

Definition ensure_vary (headers : header_list) : header_list :=
  if existsb (fun h => eq_ignore_ascii_case (fst h) (str "Vary")
                && existsb (fun part => eq_ignore_ascii_case (trim part) (str "Accept-Encoding"))
                     (split_on 44 (snd h))) headers
  then headers
  else headers ++ [(str "Vary", str "Accept-Encoding")].

(** ** What validation accepts *)

Definition KNOWN_PSEUDO : list bytes :=
  [str ":method"; str ":scheme"; str ":path"; str ":authority"].

Definition name_ok (name : bytes) : Prop :=
  name <> [] /\ Forall (fun b => is_ascii_uppercase b = false /\ 0x20 < b /\ b <> 0x7f) name.

(** A pseudo-header, and a regular header that may travel in HTTP/2. *)
Definition pseudo_ok (h : bytes * bytes) : Prop := name_ok (fst h) /\ fst h ∈ KNOWN_PSEUDO.

Definition regular_ok (h : bytes * bytes) : Prop :=
  name_ok (fst h) /\ starts_with (fst h) (str ":") = false /\
  connection_specific (fst h) = false /\
  (fst h = str "te" -> eq_ignore_ascii_case (snd h) (str "trailers") = true).

(** RFC 9113, section 8.3, for requests: pseudo-headers come first, are known
    and not repeated, connection-specific fields are absent, and the target is
    complete unless the method is CONNECT. *)
Definition well_formed_request (hs : header_list) : Prop :=
  exists ps rs, hs = ps ++ rs /\ Forall pseudo_ok ps /\ Forall regular_ok rs /\
    NoDup (map fst ps) /\
    exists m, (str ":method", m) ∈ ps /\
      (m = str "CONNECT" \/
       ((exists s, (str ":scheme", s) ∈ ps) /\ exists q, (str ":path", q) ∈ ps)).

(** The loop's locals, as a map from pseudo-header names. *)
Definition slot (p : Pseudo) (name : bytes) : option bytes :=
  if bytes_eqb name (str ":method") then p_method p
  else if bytes_eqb name (str ":scheme") then p_scheme p
  else if bytes_eqb name (str ":path") then p_path p
  else if bytes_eqb name (str ":authority") then p_authority p
  else None.

Lemma name_ok_spec name :
  bool_decide (name = []) || existsb bad_name_byte name = false <-> name_ok name.
Proof.
  unfold name_ok. rewrite orb_false_iff, bool_decide_eq_false, Forall_forall.
  apply and_iff_compat_l. rewrite <- not_true_iff_false, existsb_exists. unfold bad_name_byte.
  split.
  - intros H b Hb. destruct (is_ascii_uppercase b) eqn:E; [exfalso|split; [done|]].
    + apply H. exists b. apply list_elem_of_In in Hb. by rewrite E.
    + split; apply Znot_ge_lt || idtac; intros Hx; apply H; exists b;
        (split; [by apply list_elem_of_In|]); rewrite E; zbool.
      * apply orb_true_iff; left. apply Z.leb_le. lia.
      * subst. done.
  - intros H (b & Hb & Hbad). apply list_elem_of_In in Hb. destruct (H b Hb) as (E & ? & ?).
    rewrite E in Hbad. cbn in Hbad. apply orb_true_iff in Hbad as [Hx|Hx]; zbool; lia.
Qed.

(** Compare a name with each literal of the goal. *)
Ltac case_names m :=
  repeat match goal with
  | |- context [bytes_eqb m ?lit] =>
      let E := fresh in
      destruct (bytes_eqb m lit) eqn:E; [apply bytes_eqb_eq in E; subst m; reflexivity|clear E]
  end.

Lemma set_pseudo_ok p n v p' :
  set_pseudo p n v = Ok p' ->
  n ∈ KNOWN_PSEUDO /\ slot p n = None /\ seen_regular p' = seen_regular p /\
  (forall m, slot p' m = if bytes_eqb m n then Some v else slot p m).
Proof.
  unfold set_pseudo. intros H.
  repeat match type of H with
  | (if bytes_eqb n ?lit then _ else _) = _ =>
      destruct (bytes_eqb n lit) eqn:E; [apply bytes_eqb_eq in E; subst n|clear E]
  end; [..|done];
  (case_match eqn:Hslot; [done|]; simplify_eq; cbn [seen_regular];
   split_and!; [apply (bool_decide_unpack _); exact I|exact Hslot|done|];
   intros m; unfold slot; cbn [p_method p_scheme p_path p_authority];
   case_names m; reflexivity).
Qed.

Lemma set_pseudo_total p n v :
  n ∈ KNOWN_PSEUDO -> slot p n = None -> exists p', set_pseudo p n v = Ok p'.
Proof.
  unfold KNOWN_PSEUDO. intros Hn. unfold set_pseudo, slot.
  repeat (case_match; [intros ->; eauto|]).
  repeat match goal with H : bytes_eqb _ _ = false |- _ => apply bytes_eqb_neq in H end.
  set_solver.
Qed.

Lemma set_pseudo_err p n v e : set_pseudo p n v = Err e -> e = ProtocolError.
Proof. unfold set_pseudo. repeat case_match; intros; by simplify_eq. Qed.

Lemma known_pseudo_colon n : n ∈ KNOWN_PSEUDO -> starts_with n (str ":") = true.
Proof. unfold KNOWN_PSEUDO. rewrite !elem_of_cons, elem_of_nil. intros. by destruct_or!; subst. Qed.

Lemma regular_checks (name value : bytes) :
  connection_specific name
  || (bytes_eqb name (str "te") && negb (eq_ignore_ascii_case value (str "trailers"))) = false <->
  connection_specific name = false /\
  (name = str "te" -> eq_ignore_ascii_case value (str "trailers") = true).
Proof.
  rewrite orb_false_iff, andb_false_iff, negb_false_iff, bytes_eqb_neq.
  destruct (decide (name = str "te")); naive_solver.
Qed.

Lemma validate_fields_ok hs p p' :
  validate_fields p hs = Ok p' ->
  exists ps rs, hs = ps ++ rs /\ Forall pseudo_ok ps /\ Forall regular_ok rs /\
    NoDup (map fst ps) /\ (seen_regular p = true -> ps = []) /\
    (forall n, n ∈ map fst ps -> slot p n = None) /\
    (forall n v, slot p' n = Some v <-> slot p n = Some v \/ (n, v) ∈ ps).
Proof.
  revert p. induction hs as [|[name value] hs IH]; intros p; cbn [validate_fields].
  - intros [= <-]. exists [], []. split_and!; try constructor; set_solver.
  - intros (p1 & H1 & H)%rbind_ok. destruct (IH _ H) as (ps & rs & -> & Hps & Hrs & Hnd & Hsr & Hfr & Hsl).
    unfold validate_field in H1. split_if H1; [done|]. apply name_ok_spec in E.
    split_if H1.
    + split_if H1; [done|]. apply set_pseudo_ok in H1 as (Hk & Hs & Hseen & Hu).
      exists ((name, value) :: ps), rs. cbn [map fst].
      assert (Hnew : name ∉ map fst ps).
      { intros Hin. specialize (Hfr _ Hin). by rewrite Hu, bytes_eqb_refl in Hfr. }
      split_and!; try done.
      * by constructor.
      * by constructor.
      * intros n. rewrite elem_of_cons. intros [->|Hin]; [done|].
        specialize (Hfr _ Hin). rewrite Hu in Hfr. by case_match.
      * intros n v. rewrite Hsl, Hu, elem_of_cons. destruct (bytes_eqb n name) eqn:En.
        -- apply bytes_eqb_eq in En as ->. rewrite Hs. naive_solver.
        -- apply bytes_eqb_neq in En. naive_solver.
    + split_if H1; [done|]. apply regular_checks in E1. simplify_eq. cbn [seen_regular] in *.
      rewrite (Hsr eq_refl) in *. exists [], ((name, value) :: rs).
      split_and!; try done. by constructor.
Qed.

Lemma validate_fields_total ps rs p :
  Forall pseudo_ok ps -> Forall regular_ok rs -> NoDup (map fst ps) ->
  (seen_regular p = true -> ps = []) -> (forall n, n ∈ map fst ps -> slot p n = None) ->
  exists p', validate_fields p (ps ++ rs) = Ok p' /\
    (forall n v, slot p' n = Some v <-> slot p n = Some v \/ (n, v) ∈ ps).
Proof.
  revert p. induction ps as [|[name value] ps IH]; intros p Hps Hrs Hnd Hsr Hfr.
  - clear Hps Hnd Hsr Hfr. cbn [app].
    enough (exists p', validate_fields p rs = Ok p' /\ forall n, slot p' n = slot p n)
      as (p' & ? & Hp); [exists p'; split; [done|]; intros; rewrite Hp; set_solver|].
    revert p. induction Hrs as [|[name value] rs (Hn & Hc & Hcs) _ IH]; intros p; [by exists p|].
    cbn [validate_fields validate_field fst snd] in *. apply name_ok_spec in Hn. rewrite Hn, Hc.
    apply regular_checks in Hcs as ->. cbn [rbind].
    by destruct (IH (mkPseudo true (p_method p) (p_scheme p) (p_path p) (p_authority p))) as (p' & ? & ?); eauto.
  - inversion_clear Hps as [|? ? [Hn Hk] Hps']. inversion_clear Hnd as [|? ? Hnew Hnd'].
    cbn [fst] in *. pose proof (known_pseudo_colon _ Hk) as Hcol. apply name_ok_spec in Hn.
    assert (Hseen : seen_regular p = false).
    { destruct (seen_regular p); [by specialize (Hsr eq_refl)|done]. }
    cbn [app validate_fields validate_field]. rewrite Hn, Hcol, Hseen.
    destruct (set_pseudo_total p name value Hk) as (p1 & H1); [apply Hfr; set_solver|].
    rewrite H1. cbn [rbind]. apply set_pseudo_ok in H1 as (_ & Hs & Hseen1 & Hu).
    destruct (IH p1) as (p' & Hp' & Hsl); try done; [congruence| |].
    + intros n Hin. rewrite Hu. case_match eqn:E; [apply bytes_eqb_eq in E; set_solver|].
      apply Hfr. set_solver.
    + exists p'. split; [done|]. intros n v. rewrite Hsl, Hu, elem_of_cons.
      destruct (bytes_eqb n name) eqn:En.
      * apply bytes_eqb_eq in En as ->. rewrite Hs. naive_solver.
      * apply bytes_eqb_neq in En. naive_solver.
Qed.

Lemma validate_fields_err hs p e : validate_fields p hs = Err e -> e = ProtocolError.
Proof.
  revert p. induction hs as [|h hs IH]; intros p; cbn [validate_fields]; [done|].
  destruct (validate_field p h) as [p1|e1] eqn:H1; cbn [rbind]; [apply IH|].
  intros [= ->]. unfold validate_field in H1. repeat case_match; simplify_eq; try done.
  by eapply set_pseudo_err.
Qed.

(** The test after the loop. *)
Lemma target_complete_spec p :
  (let? method := ok_or (p_method p) ProtocolError in
   if negb (bytes_eqb method (str "CONNECT"))
      && (bool_decide (p_scheme p = None) || bool_decide (p_path p = None))
   then Err ProtocolError else Ok tt) = Ok tt <->
  exists m, slot p (str ":method") = Some m /\
    (m = str "CONNECT" \/
     ((exists s, slot p (str ":scheme") = Some s) /\ exists q, slot p (str ":path") = Some q)).
Proof.
  change (slot p (str ":method")) with (p_method p).
  change (slot p (str ":scheme")) with (p_scheme p).
  change (slot p (str ":path")) with (p_path p).
  destruct (p_method p) as [m|]; cbn [ok_or rbind]; [|naive_solver].
  destruct (bytes_eqb m (str "CONNECT")) eqn:E; cbn [negb andb].
  - apply bytes_eqb_eq in E. naive_solver.
  - apply bytes_eqb_neq in E.
    destruct (p_scheme p), (p_path p); cbn; naive_solver.
Qed.

(** A request's header list is accepted exactly when it is
    well formed in the sense of RFC 9113; every rejection is a PROTOCOL_ERROR. *)
Theorem validate_request_headers_spec hs :
  (validate_request_headers hs = Ok tt <-> well_formed_request hs) /\
  (forall e, validate_request_headers hs = Err e -> e = ProtocolError).
Proof.
  unfold validate_request_headers, well_formed_request. split; [split|].
  - intros (p & H & Ht)%rbind_ok. apply target_complete_spec in Ht.
    destruct (validate_fields_ok _ _ _ H) as (ps & rs & -> & ? & ? & ? & _ & _ & Hsl).
    exists ps, rs. split_and!; try done. setoid_rewrite Hsl in Ht.
    setoid_rewrite (or_comm (slot no_pseudo _ = _)) in Ht. naive_solver.
  - intros (ps & rs & -> & Hps & Hrs & Hnd & Ht).
    destruct (validate_fields_total ps rs no_pseudo) as (p & -> & Hsl); try done.
    { intros n _. unfold slot. by repeat case_match. }
    cbn [rbind]. apply target_complete_spec. setoid_rewrite Hsl. naive_solver.
  - intros e. destruct (validate_fields no_pseudo hs) as [p|e'] eqn:H; cbn [rbind].
    + destruct (p_method p); cbn [ok_or rbind]; [|by intros [= <-]].
      case_match; by intros [= <-].
    + intros [= <-]. by eapply validate_fields_err.
Qed.

(** ** [content-length] *)

Definition content_lengths (headers : header_list) : list bytes :=
  map snd (List.filter (fun h => bytes_eqb (fst h) (str "content-length")) headers).

Lemma content_length_loop_spec hs o :
  content_length_loop o hs =
  match content_lengths hs, o with
  | [], _ => Ok o
  | [v], None => let? n := ok_or (parse_usize v) ProtocolError in Ok (Some n)
  | _, _ => Err ProtocolError
  end.
Proof.
  revert o. induction hs as [|[name v] hs IH]; intros o; [done|].
  cbn [content_length_loop]. unfold content_lengths in *. cbn [List.filter fst].
  destruct (bytes_eqb name (str "content-length")); cbn [map snd]; [|apply IH].
  destruct (parse_usize v) as [n|] eqn:Hp; cbn [ok_or rbind].
  - destruct o as [m|].
    + by destruct (map snd _).
    + rewrite IH. by destruct (map snd _) as [|? []].
  - destruct (map snd _), o; cbn; by rewrite ?Hp.
Qed.

(** The body of a request is accepted exactly when there is no
    [content-length], or a single one whose value is the length of the body;
    every rejection is a PROTOCOL_ERROR. *)
Theorem validate_content_length_spec hs n :
  (validate_content_length hs n = Ok tt <->
   content_lengths hs = [] \/ exists v, content_lengths hs = [v] /\ parse_usize v = Some n) /\
  (forall e, validate_content_length hs n = Err e -> e = ProtocolError).
Proof.
  unfold validate_content_length. rewrite content_length_loop_spec.
  destruct (content_lengths hs) as [|v [|v' vs]]; cbn [rbind]; [naive_solver| |naive_solver].
  destruct (parse_usize v) as [m|] eqn:Hp; cbn [ok_or rbind]; [|naive_solver].
  destruct (Z.eqb_spec m n); cbn [negb]; naive_solver.
Qed.

(** ** Headers of a compressed response *)

(** The edits [poll_pending_headers] makes before it wraps the body. *)
Definition compressed_headers (headers : header_list) : header_list :=
  let headers := remove_header headers (str "Content-Length") in
  let headers := remove_header headers (str "Content-Encoding") in
  let headers := headers ++ [(str "Content-Encoding", str "gzip")] in
  ensure_vary headers.

Definition named (name : bytes) (h : bytes * bytes) : bool := eq_ignore_ascii_case (fst h) name.

Lemma filter_remove_header hs name :
  List.filter (named name) (remove_header hs name) = [].
Proof.
  induction hs as [|h hs IH]; [done|]. unfold remove_header in *. cbn [List.filter].
  destruct (eq_ignore_ascii_case (fst h) name) eqn:E; cbn [negb]; [done|].
  cbn [List.filter]. unfold named at 1. by rewrite E.
Qed.

Lemma filter_remove_other hs a b :
  eq_ignore_ascii_case a b = false ->
  List.filter (named a) (remove_header hs b) = List.filter (named a) hs.
Proof.
  intros Hab. induction hs as [|h hs IH]; [done|]. unfold remove_header in *. cbn [List.filter].
  destruct (eq_ignore_ascii_case (fst h) b) eqn:E; cbn [negb List.filter]; rewrite IH; [|done].
  destruct (named a h) eqn:Ea; [|done]. unfold named in Ea. exfalso.
  enough (eq_ignore_ascii_case a b = true) by congruence.
  unfold eq_ignore_ascii_case in *. apply bytes_eqb_eq in Ea, E. apply bytes_eqb_eq. congruence.
Qed.

Definition varies (hs : header_list) : Prop :=
  exists n v part, (n, v) ∈ hs /\ eq_ignore_ascii_case n (str "Vary") = true /\
    part ∈ split_on 44 v /\ eq_ignore_ascii_case (trim part) (str "Accept-Encoding") = true.

Lemma ensure_vary_varies hs : varies (ensure_vary hs).
Proof.
  unfold ensure_vary. case_match eqn:E.
  - apply existsb_exists in E as ([n v] & Hin & [Hn Hv]%andb_true_iff).
    apply existsb_exists in Hv as (part & Hp & Ha). apply list_elem_of_In in Hin, Hp.
    by exists n, v, part.
  - exists (str "Vary"), (str "Accept-Encoding"), (str "Accept-Encoding").
    split_and!; [set_solver|done| |done]. apply (bool_decide_unpack _). by vm_compute.
Qed.

Lemma ensure_vary_filter hs name :
  eq_ignore_ascii_case (str "Vary") name = false ->
  List.filter (named name) (ensure_vary hs) = List.filter (named name) hs.
Proof.
  intros Hn. unfold ensure_vary. case_match; [done|]. rewrite List.filter_app. cbn [List.filter].
  unfold named at 2. cbn [fst]. rewrite Hn. apply app_nil_r.
Qed.

(** A compressed response carries no [Content-Length], exactly
    one [Content-Encoding], which is gzip, and a [Vary] that lists
    [Accept-Encoding]; every field with another name than these is kept. *)
Theorem compressed_headers_consistent hs :
  let hs' := compressed_headers hs in
  List.filter (named (str "Content-Length")) hs' = [] /\
  List.filter (named (str "Content-Encoding")) hs' = [(str "Content-Encoding", str "gzip")] /\
  varies hs' /\
  (forall name, eq_ignore_ascii_case name (str "Content-Length") = false ->
     eq_ignore_ascii_case name (str "Content-Encoding") = false ->
     eq_ignore_ascii_case name (str "Vary") = false ->
     List.filter (named name) hs' = List.filter (named name) hs).
Proof.
  cbn zeta. unfold compressed_headers. split_and!.
  - rewrite ensure_vary_filter by done. rewrite List.filter_app, filter_remove_other by done.
    by rewrite filter_remove_header.
  - rewrite ensure_vary_filter by done. by rewrite List.filter_app, filter_remove_header.
  - apply ensure_vary_varies.
  - intros name H1 H2 H3. rewrite ensure_vary_filter.
    + rewrite List.filter_app, !filter_remove_other by done. cbn [List.filter]. unfold named at 2.
      cbn [fst]. case_match eqn:E; [|apply app_nil_r].
      unfold eq_ignore_ascii_case in *. apply bytes_eqb_eq in E. apply bytes_eqb_neq in H2. congruence.
    + unfold eq_ignore_ascii_case in *. apply bytes_eqb_neq. apply bytes_eqb_neq in H3. congruence.
Qed.

(** Sample runs. *)
Example accepts_gzip_runs :
  map (fun s => accepts_gzip (Some (str s)))
    ["gzip"; "br, GZIP;q=0.5"; "gzip;q=0"; "gzip; q=0.0, *;q=1e-3"; "*"; "identity";
     "gzip;q=abc"; "gzip;q=1e-50"; "gzip;q=-1"; "gzip;q=nan"; "gzip;q=inf"; "gzip;q=.5"]%string
  = [true; true; false; true; true; false; true; false; false; false; true; true].
Proof. vm_compute. reflexivity. Qed.
