(* ===== verification/Wp.v ===== *)
(** * Weakest preconditions for the state-and-error monad

    [wp m Q s] says that running [m] from [s] ends in a state and a result that
    satisfy [Q].  The rules turn a goal about a composed method into goals about
    its parts; [step] applies them, and the lemmas of a component are added
    to the hint database [wp]. *)

From S2P Require Import Prelude.

Section Wp.
Context {S E : Type}.

Definition wp {A} (m : ST S E A) (Q : S -> result A E -> Prop) (s : S) : Prop :=
  Q (fst (m s)) (snd (m s)).

Lemma wp_elim {A} (m : ST S E A) Q s s' r : m s = (s', r) -> wp m Q s -> Q s' r.
Proof. unfold wp. by intros ->. Qed.

Lemma wp_bind {A B} (m : ST S E A) (k : A -> ST S E B) Q s :
  wp m (fun s' r => match r with Ok a => wp (k a) Q s' | Err e => Q s' (Err e) end) s ->
  wp (st_bind m k) Q s.
Proof. unfold wp, st_bind. by destruct (m s) as [s' [a|e]]. Qed.

Lemma wp_ret {A} (a : A) (Q : S -> result A E -> Prop) s : Q s (Ok a) -> wp (st_ret a) Q s.
Proof. done. Qed.

Lemma wp_err {A} (e : E) (Q : S -> result A E -> Prop) s : Q s (Err e) -> wp (st_err e) Q s.
Proof. done. Qed.

Lemma wp_res {A} (x : result A E) (Q : S -> result A E -> Prop) s :
  (forall a, x = Ok a -> Q s (Ok a)) -> (forall e, x = Err e -> Q s (Err e)) ->
  wp (st_res x) Q s.
Proof. unfold wp, st_res. destruct x; cbn; auto. Qed.

Lemma wp_mono {A} (m : ST S E A) (P Q : S -> result A E -> Prop) s :
  wp m P s -> (forall s' r, P s' r -> Q s' r) -> wp m Q s.
Proof. unfold wp. auto. Qed.

Lemma wp_and {A} (m : ST S E A) (P Q : S -> result A E -> Prop) s :
  wp m P s -> wp m Q s -> wp m (fun s' r => P s' r /\ Q s' r) s.
Proof. done. Qed.

Lemma wp_if {A} (b : bool) (m1 m2 : ST S E A) Q s :
  (b = true -> wp m1 Q s) -> (b = false -> wp m2 Q s) -> wp (if b then m1 else m2) Q s.
Proof. destruct b; auto. Qed.
End Wp.

(** A postcondition that only speaks about successful runs. *)
Definition ok_post {S E A} (Q : A -> S -> Prop) : S -> result A E -> Prop :=
  fun s r => match r with Ok a => Q a s | Err _ => True end.

Arguments ok_post {S E A} Q _ _ /.
