(* ===== verification/Connection.v ===== *)
(** * The HTTP/2 connection driver (src/server/http2/connection.rs)

    [Http2Connection] with every method that changes it.  The driver's fields
    are the record [Conn]; a method with [&mut self] and the transport is a
    computation over [World]: the driver, the byte stream to the peer and the
    state of what lies behind the request handlers.  [process_frame] is split
    into one definition per arm of its match.

    The request handler, the proxy and the FastCGI client are reached through
    the interface [Backend]. *)

From S2P Require Import Prelude RustStd Io Config Http Frame Hpack Flow Stream H2Headers.

(** ** Interfaces *)

(** [std::net::SocketAddr]: the octets of the address (4 or 16) and the port. *)
Record SocketAddr : Type := mkSocketAddr { ip : bytes; sock_port : Z }.

(** [SocketAddr::from(([0, 0, 0, 0], 0))]. *)
Definition unspecified_addr : SocketAddr := mkSocketAddr [0; 0; 0; 0] 0.

(** What a [poll] of an upstream delivers once its head has arrived: the
    response, the reader of its body and the announced length. *)
Definition UpstreamHead : Type := HttpResponse * option Reader * option Z.

(** The components that produce responses.  Their outcomes depend on files,
    upstream servers and time, so each call threads an environment [Env]. *)
Class Backend : Type := {
  Env : Type;
  H2ProxyPending : Type;
  H2FastCgiPending : Type;
  (** [RequestHandler::effective_config] and [RequestHandler::handle_request] *)
  effective_config : Env -> HttpRequest -> Env * ServerConfig;
  handle_request : Env -> HttpRequest -> option SocketAddr -> Env * HttpResponse;
  (** [proxy::route_matches_request], [proxy::begin_h2_response],
      [H2ProxyPending::poll] *)
  proxy_route_matches_request : HttpRequest -> ServerConfig -> bool;
  proxy_begin_h2_response : Env -> HttpRequest -> ServerConfig -> SocketAddr -> bool ->
    Env * result (option H2ProxyPending) unit;
  proxy_poll : Env -> H2ProxyPending ->
    Env * H2ProxyPending * result (option UpstreamHead) unit;
  (** The same three of [fastcgi] *)
  fastcgi_route_matches_request : HttpRequest -> ServerConfig -> bool;
  fastcgi_begin_h2_response : Env -> HttpRequest -> ServerConfig -> bool -> SocketAddr ->
    Env * result (option H2FastCgiPending) unit;
  fastcgi_poll : Env -> H2FastCgiPending ->
    Env * H2FastCgiPending * result (option UpstreamHead) unit;
  (** [GzEncoder::new(source, Compression::new(level))], of the flate2 crate *)
  gz_encoder : Reader -> Z -> Reader;
  (** whether the coming [File::try_clone] or [seek] succeeds *)
  file_op : Env -> Env * bool;
}.

(** ** Response bodies *)

Inductive BodyRead : Type :=
| BR_Data (data : bytes) (done : bool)
| BR_Pending
| BR_Done.

Inductive PendingBody : Type :=
| PB_Bytes (data : bytes) (offset : Z)
| PB_File (file : Reader) (remaining : Z)
| PB_Reader (reader : Reader) (remaining : option Z).

(** [PendingBody::read_chunk]. *)
Definition read_chunk (max : Z) : ST PendingBody Http2ErrorCode BodyRead := fun self =>
  match self with
  | PB_Bytes data offset =>
      let end_ := Z.min (offset + max) (len data) in
      (PB_Bytes data end_, Ok (BR_Data (slice data offset end_) (end_ =? len data)))
  | PB_File file remaining =>
      let '(file, x) := read file (Z.min remaining max) in
      match x with
      | ReadOk [] | ReadWouldBlock | ReadErr => (PB_File file remaining, Err InternalError)
      | ReadOk buf =>
          let remaining := remaining - len buf in
          (PB_File file remaining, Ok (BR_Data buf (remaining =? 0)))
      end
  | PB_Reader reader remaining =>
      let want := match remaining with Some left_ => Z.min left_ max | None => max end in
      if want =? 0 then (PB_Reader reader remaining, Ok BR_Done) else
      let '(reader, x) := read reader want in
      match x with
      | ReadOk [] =>
          (PB_Reader reader remaining,
           match remaining with
           | Some left_ => if negb (left_ =? 0) then Err InternalError else Ok BR_Done
           | None => Ok BR_Done
           end)
      | ReadOk buf =>
          match remaining with
          | Some left_ =>
              if left_ <? len buf then (PB_Reader reader remaining, Err InternalError)
              else (PB_Reader reader (Some (left_ - len buf)),
                    Ok (BR_Data buf (left_ - len buf =? 0)))
          | None => (PB_Reader reader None, Ok (BR_Data buf false))
          end
      | ReadWouldBlock => (PB_Reader reader remaining, Ok BR_Pending)
      | ReadErr => (PB_Reader reader remaining, Err InternalError)
      end
  end.

(** ** The driver's state *)

Record PendingResponse : Type := mkPendingResponse {
  pr_stream_id : Z;
  pr_body : PendingBody;
}.

Section Driver.
Context `{UnicodeCase} {B : Backend}.

Inductive PendingHeaderSource : Type :=
| PHS_Proxy (p : H2ProxyPending)
| PHS_FastCgi (p : H2FastCgiPending).

Record PendingHeaderResponse : Type := mkPendingHeaderResponse {
  ph_stream_id : Z;
  ph_source : PendingHeaderSource;
  ph_compress : bool;
  ph_compression_level : Z;
}.

Record Conn : Type := mkConn {
  config : ServerConfig;
  secure : bool;
  hpack_decoder : HpackDecoder;
  flow_control : FlowControl;
  max_frame_size : Z;
  peer_max_frame_size : Z;
  peer_connection_window : Window;
  peer_initial_stream_window_size : Z;
  send_stream_windows : gmap Z Window;
  max_concurrent_streams : Z;
  active_streams : gmap Z Stream;
  last_stream_id : Z;
  pending_headers_stream_id : option Z;
  pending_header_block : bytes;
  read_buffer : bytes;
  deferred_frames : list Frame;
  pending_responses : list PendingResponse;
  pending_header_responses : list PendingHeaderResponse;
  closed_streams : list Z;
}.

(** [Http2Connection::new] and [with_secure]; the encoder has no state of its
    own and the configuration manager is part of the backend. *)
Definition conn_new (cfg : ServerConfig) : Conn := {|
  config := cfg;
  secure := false;
  hpack_decoder := hpack_decoder_new 4096 (http2_max_header_block_size cfg);
  flow_control := flow_control_new (http2_initial_window_size cfg);
  max_frame_size := http2_max_frame_size cfg;
  peer_max_frame_size := DEFAULT_MAX_FRAME_SIZE;
  peer_connection_window := window_new 65535;
  peer_initial_stream_window_size := 65535;
  send_stream_windows := ∅;
  max_concurrent_streams := http2_max_concurrent_streams cfg;
  active_streams := ∅;
  last_stream_id := 0;
  pending_headers_stream_id := None;
  pending_header_block := [];
  read_buffer := [];
  deferred_frames := [];
  pending_responses := [];
  pending_header_responses := [];
  closed_streams := [];
|}.

(** Assignments [self.field = v]. *)
Definition set_secure (v : bool) (c : Conn) : Conn :=
  mkConn (config c) v (hpack_decoder c) (flow_control c) (max_frame_size c)
    (peer_max_frame_size c) (peer_connection_window c) (peer_initial_stream_window_size c)
    (send_stream_windows c) (max_concurrent_streams c) (active_streams c) (last_stream_id c)
    (pending_headers_stream_id c) (pending_header_block c) (read_buffer c)
    (deferred_frames c) (pending_responses c) (pending_header_responses c)
    (closed_streams c).
Definition set_hpack_decoder (v : HpackDecoder) (c : Conn) : Conn :=
  mkConn (config c) (secure c) v (flow_control c) (max_frame_size c) (peer_max_frame_size c)
    (peer_connection_window c) (peer_initial_stream_window_size c) (send_stream_windows c)
    (max_concurrent_streams c) (active_streams c) (last_stream_id c)
    (pending_headers_stream_id c) (pending_header_block c) (read_buffer c)
    (deferred_frames c) (pending_responses c) (pending_header_responses c)
    (closed_streams c).
Definition set_flow_control (v : FlowControl) (c : Conn) : Conn :=
  mkConn (config c) (secure c) (hpack_decoder c) v (max_frame_size c)
    (peer_max_frame_size c) (peer_connection_window c) (peer_initial_stream_window_size c)
    (send_stream_windows c) (max_concurrent_streams c) (active_streams c) (last_stream_id c)
    (pending_headers_stream_id c) (pending_header_block c) (read_buffer c)
    (deferred_frames c) (pending_responses c) (pending_header_responses c)
    (closed_streams c).
Definition set_peer_max_frame_size (v : Z) (c : Conn) : Conn :=
  mkConn (config c) (secure c) (hpack_decoder c) (flow_control c) (max_frame_size c) v
    (peer_connection_window c) (peer_initial_stream_window_size c) (send_stream_windows c)
    (max_concurrent_streams c) (active_streams c) (last_stream_id c)
    (pending_headers_stream_id c) (pending_header_block c) (read_buffer c)
    (deferred_frames c) (pending_responses c) (pending_header_responses c)
    (closed_streams c).
Definition set_peer_connection_window (v : Window) (c : Conn) : Conn :=
  mkConn (config c) (secure c) (hpack_decoder c) (flow_control c) (max_frame_size c)
    (peer_max_frame_size c) v (peer_initial_stream_window_size c) (send_stream_windows c)
    (max_concurrent_streams c) (active_streams c) (last_stream_id c)
    (pending_headers_stream_id c) (pending_header_block c) (read_buffer c)
    (deferred_frames c) (pending_responses c) (pending_header_responses c)
    (closed_streams c).
Definition set_peer_initial_stream_window_size (v : Z) (c : Conn) : Conn :=
  mkConn (config c) (secure c) (hpack_decoder c) (flow_control c) (max_frame_size c)
    (peer_max_frame_size c) (peer_connection_window c) v (send_stream_windows c)
    (max_concurrent_streams c) (active_streams c) (last_stream_id c)
    (pending_headers_stream_id c) (pending_header_block c) (read_buffer c)
    (deferred_frames c) (pending_responses c) (pending_header_responses c)
    (closed_streams c).
Definition set_send_stream_windows (v : gmap Z Window) (c : Conn) : Conn :=
  mkConn (config c) (secure c) (hpack_decoder c) (flow_control c) (max_frame_size c)
    (peer_max_frame_size c) (peer_connection_window c) (peer_initial_stream_window_size c) v
    (max_concurrent_streams c) (active_streams c) (last_stream_id c)
    (pending_headers_stream_id c) (pending_header_block c) (read_buffer c)
    (deferred_frames c) (pending_responses c) (pending_header_responses c)
    (closed_streams c).
Definition set_active_streams (v : gmap Z Stream) (c : Conn) : Conn :=
  mkConn (config c) (secure c) (hpack_decoder c) (flow_control c) (max_frame_size c)
    (peer_max_frame_size c) (peer_connection_window c) (peer_initial_stream_window_size c)
    (send_stream_windows c) (max_concurrent_streams c) v (last_stream_id c)
    (pending_headers_stream_id c) (pending_header_block c) (read_buffer c)
    (deferred_frames c) (pending_responses c) (pending_header_responses c)
    (closed_streams c).
Definition set_last_stream_id (v : Z) (c : Conn) : Conn :=
  mkConn (config c) (secure c) (hpack_decoder c) (flow_control c) (max_frame_size c)
    (peer_max_frame_size c) (peer_connection_window c) (peer_initial_stream_window_size c)
    (send_stream_windows c) (max_concurrent_streams c) (active_streams c) v
    (pending_headers_stream_id c) (pending_header_block c) (read_buffer c)
    (deferred_frames c) (pending_responses c) (pending_header_responses c)
    (closed_streams c).
Definition set_pending_headers_stream_id (v : option Z) (c : Conn) : Conn :=
  mkConn (config c) (secure c) (hpack_decoder c) (flow_control c) (max_frame_size c)
    (peer_max_frame_size c) (peer_connection_window c) (peer_initial_stream_window_size c)
    (send_stream_windows c) (max_concurrent_streams c) (active_streams c) (last_stream_id c)
    v (pending_header_block c) (read_buffer c) (deferred_frames c) (pending_responses c)
    (pending_header_responses c) (closed_streams c).
Definition set_pending_header_block (v : bytes) (c : Conn) : Conn :=
  mkConn (config c) (secure c) (hpack_decoder c) (flow_control c) (max_frame_size c)
    (peer_max_frame_size c) (peer_connection_window c) (peer_initial_stream_window_size c)
    (send_stream_windows c) (max_concurrent_streams c) (active_streams c) (last_stream_id c)
    (pending_headers_stream_id c) v (read_buffer c) (deferred_frames c)
    (pending_responses c) (pending_header_responses c) (closed_streams c).
Definition set_read_buffer (v : bytes) (c : Conn) : Conn :=
  mkConn (config c) (secure c) (hpack_decoder c) (flow_control c) (max_frame_size c)
    (peer_max_frame_size c) (peer_connection_window c) (peer_initial_stream_window_size c)
    (send_stream_windows c) (max_concurrent_streams c) (active_streams c) (last_stream_id c)
    (pending_headers_stream_id c) (pending_header_block c) v (deferred_frames c)
    (pending_responses c) (pending_header_responses c) (closed_streams c).
Definition set_deferred_frames (v : list Frame) (c : Conn) : Conn :=
  mkConn (config c) (secure c) (hpack_decoder c) (flow_control c) (max_frame_size c)
    (peer_max_frame_size c) (peer_connection_window c) (peer_initial_stream_window_size c)
    (send_stream_windows c) (max_concurrent_streams c) (active_streams c) (last_stream_id c)
    (pending_headers_stream_id c) (pending_header_block c) (read_buffer c) v
    (pending_responses c) (pending_header_responses c) (closed_streams c).
Definition set_pending_responses (v : list PendingResponse) (c : Conn) : Conn :=
  mkConn (config c) (secure c) (hpack_decoder c) (flow_control c) (max_frame_size c)
    (peer_max_frame_size c) (peer_connection_window c) (peer_initial_stream_window_size c)
    (send_stream_windows c) (max_concurrent_streams c) (active_streams c) (last_stream_id c)
    (pending_headers_stream_id c) (pending_header_block c) (read_buffer c)
    (deferred_frames c) v (pending_header_responses c) (closed_streams c).
Definition set_pending_header_responses (v : list PendingHeaderResponse) (c : Conn) : Conn :=
  mkConn (config c) (secure c) (hpack_decoder c) (flow_control c) (max_frame_size c)
    (peer_max_frame_size c) (peer_connection_window c) (peer_initial_stream_window_size c)
    (send_stream_windows c) (max_concurrent_streams c) (active_streams c) (last_stream_id c)
    (pending_headers_stream_id c) (pending_header_block c) (read_buffer c)
    (deferred_frames c) (pending_responses c) v (closed_streams c).
Definition set_closed_streams (v : list Z) (c : Conn) : Conn :=
  mkConn (config c) (secure c) (hpack_decoder c) (flow_control c) (max_frame_size c)
    (peer_max_frame_size c) (peer_connection_window c) (peer_initial_stream_window_size c)
    (send_stream_windows c) (max_concurrent_streams c) (active_streams c) (last_stream_id c)
    (pending_headers_stream_id c) (pending_header_block c) (read_buffer c)
    (deferred_frames c) (pending_responses c) (pending_header_responses c) v.

Definition with_secure (c : Conn) (v : bool) : Conn := set_secure v c.

(** ** The world a method runs in *)

Record World : Type := mkWorld { conn : Conn; io : Io; env : Env }.

Definition M : Type -> Type := ST World Http2ErrorCode.

Definition gets {A} (f : Conn -> A) : M A := fun w => (w, Ok (f (conn w))).
Definition modc (f : Conn -> Conn) : M unit :=
  fun w => (mkWorld (f (conn w)) (io w) (env w), Ok tt).

(** A call on the backend. *)
Definition call {A} (f : Env -> Env * A) : M A :=
  fun w => let '(e, a) := f (env w) in (mkWorld (conn w) (io w) e, Ok a).

(** [stream.write_all(&frame.encode())], with
    [.map_err(|_| Http2ErrorCode::InternalError)?] or behind [let _ =]. *)
Definition write_frame (f : Frame) : M unit := fun w =>
  let '(i, ok) := io_write (io w) (frame_encode f) in
  (mkWorld (conn w) i (env w), if ok : bool then Ok tt else Err InternalError).
Definition try_write_frame (f : Frame) : M unit := fun w =>
  (mkWorld (conn w) (fst (io_write (io w) (frame_encode f))) (env w), Ok tt).

Definition flush_io : M unit := fun w =>
  let '(i, ok) := io_flush (io w) in
  (mkWorld (conn w) i (env w), if ok : bool then Ok tt else Err InternalError).
Definition try_flush : M unit := fun w =>
  (mkWorld (conn w) (fst (io_flush (io w))) (env w), Ok tt).

(** A method of a field: its new value is stored, its result returned. *)
Definition on_decoder {A} (f : HpackDecoder -> HpackDecoder * result A Http2ErrorCode) : M A :=
  let! d := gets hpack_decoder in
  let '(d, r) := f d in
  let! _ := modc (set_hpack_decoder d) in
  st_res r.

(** ** Frames the driver sends *)

Definition rst_frame (sid : Z) (error_code : Http2ErrorCode) : Frame :=
  mkFrame (mkFrameHeader 4 FT_RstStream 0 sid) (RstStream error_code).
Definition window_update_frame (sid increment : Z) : Frame :=
  mkFrame (mkFrameHeader 4 FT_WindowUpdate 0 sid) (WindowUpdate increment).
Definition settings_ack_frame : Frame :=
  mkFrame (mkFrameHeader 0 FT_Settings flags.ACK 0) (Settings [] true).
Definition ping_ack_frame (opaque_data : bytes) : Frame :=
  mkFrame (mkFrameHeader 8 FT_Ping flags.ACK 0) (Ping opaque_data true).
Definition goaway_frame (last_stream_id : Z) (error_code : Http2ErrorCode) : Frame :=
  mkFrame (mkFrameHeader 8 FT_GoAway 0 0) (GoAway last_stream_id error_code []).
Definition data_frame (sid : Z) (data : bytes) (done : bool) : Frame :=
  mkFrame (mkFrameHeader (as_u32 (len data)) FT_Data (if done then flags.END_STREAM else 0) sid)
    (Data data done).

Definition server_settings_frame (c : Conn) : Frame :=
  mkFrame (mkFrameHeader 18 FT_Settings 0 0)
    (Settings [(MaxConcurrentStreams, as_u32 (max_concurrent_streams c));
               (InitialWindowSize, initial_stream_window_size (flow_control c));
               (MaxFrameSize, max_frame_size c)] false).

(** ** Stream accounting *)

Definition tracked_stream_count (c : Conn) : Z := Z.of_nat (base.size (send_stream_windows c)).

Definition can_accept_new_stream (c : Conn) : bool :=
  tracked_stream_count c <? max_concurrent_streams c.

(** [pop_front] until the deque has at most [limit] elements. *)
Fixpoint trim_front (limit : Z) (l : list Z) : list Z :=
  if len l >? limit then match l with [] => [] | _ :: l => trim_front limit l end else l.

Definition mark_closed_stream (sid : Z) (c : Conn) : Conn :=
  if bool_decide (sid ∈ closed_streams c) then c else
  let limit := Z.max (saturating_mul_usize (max_concurrent_streams c) 2) 16 in
  set_closed_streams (trim_front limit (closed_streams c ++ [sid])) c.

Definition remove_send_window (sid : Z) (c : Conn) : Conn :=
  set_send_stream_windows (delete sid (send_stream_windows c)) c.

(** The response of a stream is complete: its slot is released. *)
Definition finish_stream (sid : Z) (c : Conn) : Conn :=
  mark_closed_stream sid (remove_send_window sid c).

Definition push_pending_response (p : PendingResponse) (c : Conn) : Conn :=
  set_pending_responses (pending_responses c ++ [p]) c.
Definition push_pending_header (p : PendingHeaderResponse) (c : Conn) : Conn :=
  set_pending_header_responses (pending_header_responses c ++ [p]) c.

(** ** Sending a response *)

Definition has_body (resp : HttpResponse) (dynamic_body : option PendingBody) : bool :=
  match dynamic_body with
  | Some _ => true
  | None =>
      match body_source resp with
      | BodyBytes b => negb (bool_decide (b = []))
      | BodyFile _ sz => sz >? 0
      | BodyFileRange _ _ sz => sz >? 0
      | BodyGzipFile _ sz _ => sz >? 0
      end
  end.

Definition headers_frame (sid : Z) (block : bytes) (end_stream end_headers : bool) : Frame :=
  let first_flags := if end_headers then flags.END_HEADERS else 0 in
  let first_flags := if end_stream then Z.lor first_flags flags.END_STREAM else first_flags in
  mkFrame (mkFrameHeader (as_u32 (len block)) FT_Headers first_flags sid)
    (Headers block end_stream end_headers).

Definition continuation_frame (sid : Z) (block : bytes) (final_fragment : bool) : Frame :=
  mkFrame (mkFrameHeader (as_u32 (len block)) FT_Continuation
             (if final_fragment then flags.END_HEADERS else 0) sid)
    (Continuation block final_fragment).

(** The [while offset < encoded_headers.len()] loop.  A round advances by at
    least one byte when [max] is positive, so the length of the block is
    enough fuel. *)
Fixpoint write_continuations (fuel : nat) (sid max : Z) (encoded_headers : bytes) (offset : Z)
  : M unit :=
  if offset <? len encoded_headers then
    match fuel with
    | O => st_err InternalError
    | S f =>
        let end_ := Z.min (offset + max) (len encoded_headers) in
        let final_fragment := end_ =? len encoded_headers in
        let! _ := write_frame (continuation_frame sid (slice encoded_headers offset end_)
                                 final_fragment) in
        write_continuations f sid max encoded_headers end_
    end
  else st_ret tt.

(** [file.try_clone()] or [f.seek(..)] with its [map_err(..)?]. *)
Definition file_call : M unit :=
  let! ok := call file_op in if ok : bool then st_ret tt else st_err InternalError.

(** The body a response is queued with. *)
Definition pending_body_of (b : BodySource) : M PendingBody :=
  match b with
  | BodyBytes data => st_ret (PB_Bytes data 0)
  | BodyFile file sz => let! _ := file_call in st_ret (PB_File [RData file] sz)
  | BodyFileRange file start length =>
      let! _ := file_call in
      let! _ := file_call in
      st_ret (PB_File [RData (drop (Z.to_nat start) file)] length)
  | BodyGzipFile file _ level =>
      let! _ := file_call in st_ret (PB_Reader (gz_encoder [RData file] level) None)
  end.

Definition response_fields (resp : HttpResponse) : header_list :=
  (str ":status", to_string (code (status resp))) :: resp_headers resp.

Definition queue_h2_stream_response (sid : Z) (resp : HttpResponse)
  (dynamic_body : option PendingBody) : M unit :=
  let encoded_headers := encode_headers (response_fields resp) in
  let has_body := has_body resp dynamic_body in
  let! max := gets peer_max_frame_size in
  let first := Z.min (len encoded_headers) max in
  let! _ := write_frame (headers_frame sid (slice encoded_headers 0 first) (negb has_body)
                           (first =? len encoded_headers)) in
  let! _ := write_continuations (length encoded_headers) sid max encoded_headers first in
  let! _ :=
    if negb has_body then modc (finish_stream sid)
    else
      let! body := match dynamic_body with
                   | Some body => st_ret body
                   | None => pending_body_of (body_source resp)
                   end in
      modc (push_pending_response (mkPendingResponse sid body)) in
  flush_io.

Definition queue_h2_response (sid : Z) (resp : HttpResponse) : M unit :=
  queue_h2_stream_response sid resp None.

(** ** Dispatch *)

(** The locals filled by the loop over the request's headers. *)
Record RequestParts : Type := mkParts {
  parts_method : Method;
  parts_uri : bytes;
  parts_headers : header_list;
  parts_authority : option bytes;
}.

Definition request_part (p : RequestParts) (h : bytes * bytes) : RequestParts :=
  let '(name, val) := h in
  if bytes_eqb name (str ":method") then
    mkParts (method_from val) (parts_uri p) (parts_headers p) (parts_authority p)
  else if bytes_eqb name (str ":path") then
    mkParts (parts_method p) val (parts_headers p) (parts_authority p)
  else if bytes_eqb name (str ":authority") then
    mkParts (parts_method p) (parts_uri p) (parts_headers p) (Some val)
  else if negb (starts_with name (str ":")) then
    mkParts (parts_method p) (parts_uri p) (parts_headers p ++ [(name, val)])
      (parts_authority p)
  else p.

(** The request the handlers see. *)
Definition h2_request (h2_stream : Stream) : HttpRequest :=
  let p := fold_left request_part (request_headers h2_stream)
             (mkParts Get (str "/") [] None) in
  mkHttpRequest (parts_method p) (parts_uri p) (str "HTTP/2.0")
    (parts_headers p ++ match parts_authority p with
                        | Some authority => [(str "Host", authority)]
                        | None => []
                        end)
    (request_body h2_stream).

Definition bad_gateway (text : bytes) : HttpResponse :=
  with_body (response_new BadGateway) text (str "text/plain; charset=utf-8").

Definition await_upstream (req : HttpRequest) (cfg : ServerConfig) (sid : Z)
  (source : PendingHeaderSource) : M unit :=
  modc (push_pending_header
          (mkPendingHeaderResponse sid source
             (accepts_gzip (get_header req (str "Accept-Encoding")))
             (compression_level cfg))).

Definition dispatch_h2_request (h2_stream : Stream) (peer_addr : option SocketAddr) : M unit :=
  let! _ := st_res (validate_request_headers (request_headers h2_stream)) in
  let req := h2_request h2_stream in
  let! _ := st_res (validate_content_length (headers req) (len (request_body h2_stream))) in
  let forwarding_peer := match peer_addr with Some a => a | None => unspecified_addr end in
  let! secure := gets secure in
  let! cfg := call (fun e => effective_config e req) in
  let static :=
    let! resp := call (fun e => handle_request e req peer_addr) in
    queue_h2_response (id h2_stream) resp in
  let try_fastcgi :=
    if fastcgi_route_matches_request req cfg then
      let! r := call (fun e => fastcgi_begin_h2_response e req cfg secure forwarding_peer) in
      match r with
      | Ok (Some source) => await_upstream req cfg (id h2_stream) (PHS_FastCgi source)
      | Ok None => static
      | Err _ => queue_h2_response (id h2_stream)
                   (bad_gateway (str "502 Bad Gateway: FastCGI upstream failure"))
      end
    else static in
  if proxy_route_matches_request req cfg then
    let! r := call (fun e => proxy_begin_h2_response e req cfg forwarding_peer secure) in
    match r with
    | Ok (Some source) => await_upstream req cfg (id h2_stream) (PHS_Proxy source)
    | Ok None => try_fastcgi
    | Err _ => queue_h2_response (id h2_stream)
                 (bad_gateway (str "502 Bad Gateway: proxy upstream failure"))
    end
  else try_fastcgi.

(** ** [process_frame], one definition per arm *)

(** [for x in map.values_mut() { f(x)?; }]: the values changed before a failure
    stay changed.  The order of the keys is the map's. *)
Fixpoint update_values {A} (f : A -> result A Http2ErrorCode) (l : list (Z * A)) (m : gmap Z A)
  : gmap Z A * result unit Http2ErrorCode :=
  match l with
  | [] => (m, Ok tt)
  | (k, a) :: l =>
      match f a with
      | Ok a => update_values f l (<[k := a]> m)
      | Err e => (m, Err e)
      end
  end.

Definition with_window (s : Stream) (w : Window) : Stream :=
  mkStream (id s) (state s) w (send_window s) (request_headers s) (request_body s)
    (received_end_stream s) (received_end_headers s).
Definition with_send_window (s : Stream) (w : Window) : Stream :=
  mkStream (id s) (state s) (window s) w (request_headers s) (request_body s)
    (received_end_stream s) (received_end_headers s).
Definition with_received_end_stream (s : Stream) (b : bool) : Stream :=
  mkStream (id s) (state s) (window s) (send_window s) (request_headers s) (request_body s)
    b (received_end_headers s).

(** A new SETTINGS_INITIAL_WINDOW_SIZE moves every send window. *)
Definition adjust_send_windows (delta : Z) : M unit :=
  let! streams := gets active_streams in
  let '(streams, r) :=
    update_values (fun s => let? w := window_adjust (send_window s) delta in
                            Ok (with_send_window s w))
      (map_to_list streams) streams in
  let! _ := modc (set_active_streams streams) in
  let! _ := st_res r in
  let! windows := gets send_stream_windows in
  let '(windows, r) :=
    update_values (fun w => window_adjust w delta) (map_to_list windows) windows in
  let! _ := modc (set_send_stream_windows windows) in
  st_res r.

Definition apply_setting (s : SettingId * Z) : M unit :=
  let '(id, val) := s in
  match id with
  | MaxFrameSize =>
      if (val <? 16384) || (val >? 16777215) then st_err FrameSizeError
      else modc (set_peer_max_frame_size val)
  | InitialWindowSize =>
      if val >? 2147483647 then st_err FlowControlError else
      let! old := gets peer_initial_stream_window_size in
      let! _ := adjust_send_windows (val - old) in
      modc (set_peer_initial_stream_window_size val)
  | _ => st_ret tt
  end.

Fixpoint apply_settings (l : list (SettingId * Z)) : M unit :=
  match l with
  | [] => st_ret tt
  | s :: l => let! _ := apply_setting s in apply_settings l
  end.

Definition process_settings (settings : list (SettingId * Z)) (ack : bool) : M unit :=
  if ack then st_ret tt else
  let! _ := apply_settings settings in
  let! _ := try_write_frame settings_ack_frame in
  try_flush.

Definition process_ping (opaque_data : bytes) (ack : bool) : M unit :=
  if ack then st_ret tt else
  let! _ := try_write_frame (ping_ack_frame opaque_data) in
  try_flush.

(** The stream's headers are complete: store them, and dispatch the request
    when its body is complete too. *)
Definition headers_complete (sid : Z) (st : Stream) (decoded : header_list) (end_stream : bool)
  (peer_addr : option SocketAddr) : M unit :=
  let st := append_request_headers st decoded true in
  let put st := modc (fun c => set_active_streams (<[sid := st]> (active_streams c)) c) in
  if end_stream then
    let st := try_transition st HalfClosedRemote in
    let! _ := put st in
    let! _ := dispatch_h2_request st peer_addr in
    modc (fun c => set_active_streams (delete sid (active_streams c)) c)
  else put st.

Definition refuse_stream (sid : Z) : M unit :=
  let! _ := write_frame (rst_frame sid RefusedStream) in
  modc (mark_closed_stream sid).

(** The stream of an accepted HEADERS frame, in the state [Open]. *)
Definition open_stream (sid : Z) (end_stream : bool) : M Stream :=
  let! initial := gets (fun c => initial_stream_window_size (flow_control c)) in
  let! peer_initial := gets peer_initial_stream_window_size in
  let! st := st_res (stream_new sid initial) in
  let st := with_send_window st (window_new peer_initial) in
  let! _ := modc (fun c => set_send_stream_windows
                             (<[sid := window_new peer_initial]> (send_stream_windows c)) c) in
  let! st := st_res (transition_to st Open) in
  let st := with_received_end_stream st end_stream in
  let! _ := modc (fun c => set_active_streams (<[sid := st]> (active_streams c)) c) in
  st_ret st.

Definition process_headers (sid : Z) (header_block : bytes) (end_stream end_headers : bool)
  (peer_addr : option SocketAddr) : M unit :=
  if (sid =? 0) || negb (is_client_initiated sid) then st_err ProtocolError else
  let! last := gets last_stream_id in
  if sid <=? last then st_err ProtocolError else
  let! _ := modc (set_last_stream_id sid) in
  let! accept := gets can_accept_new_stream in
  if negb accept then refuse_stream sid else
  let! st := open_stream sid end_stream in
  if end_headers then
    let! decoded := on_decoder (fun d => decode_header_block d header_block) in
    headers_complete sid st decoded end_stream peer_addr
  else
    let! cfg := gets config in
    if len header_block >? http2_max_header_block_size cfg then st_err EnhanceYourCalm else
    let! _ := modc (set_pending_headers_stream_id (Some sid)) in
    modc (set_pending_header_block header_block).

Definition process_continuation (sid : Z) (header_block : bytes) (end_headers : bool)
  (peer_addr : option SocketAddr) : M unit :=
  let! pending := gets pending_header_block in
  let! cfg := gets config in
  let pending_len := len pending + len header_block in
  if pending_len >? USIZE_MAX then st_err EnhanceYourCalm else
  if pending_len >? http2_max_header_block_size cfg then st_err EnhanceYourCalm else
  let! _ := modc (set_pending_header_block (pending ++ header_block)) in
  if end_headers then
    let! _ := modc (set_pending_headers_stream_id None) in
    let! decoded := on_decoder (fun d => decode_header_block d (pending ++ header_block)) in
    let! _ := modc (set_pending_header_block []) in
    let! streams := gets active_streams in
    match streams !! sid with
    | Some st => headers_complete sid st decoded (received_end_stream st) peer_addr
    | None => st_ret tt
    end
  else st_ret tt.

(** Receive-window accounting of a non-empty DATA frame, and the two
    WINDOW_UPDATE frames that give the credit back. *)
Definition account_data (sid : Z) (st : Stream) (data_len : Z) : M Stream :=
  let! fc := gets flow_control in
  let put w := modc (set_flow_control (mkFlowControl w (initial_stream_window_size fc))) in
  if as_i32 data_len >? available (connection_window fc) then st_err FlowControlError else
  if as_i32 data_len >? available (window st) then st_err FlowControlError else
  let! cw := st_res (window_consume (connection_window fc) data_len) in
  let! _ := put cw in
  let! sw := st_res (window_consume (window st) data_len) in
  let! cw := st_res (window_update cw data_len) in
  let! _ := put cw in
  let! sw := st_res (window_update sw data_len) in
  let! _ := write_frame (window_update_frame 0 data_len) in
  let! _ := write_frame (window_update_frame sid data_len) in
  st_ret (with_window st sw).

Definition process_data (sid : Z) (data : bytes) (end_stream : bool)
  (peer_addr : option SocketAddr) : M unit :=
  let data_len := as_u32 (len data) in
  let! streams := gets active_streams in
  match streams !! sid with
  | None => st_err StreamClosed
  | Some st =>
      let! _ := modc (set_active_streams (delete sid streams)) in
      let! st := if data_len >? 0 then account_data sid st data_len else st_ret st in
      let! cfg := gets config in
      if len data >? saturating_sub_usize (max_request_size cfg) (len (request_body st))
      then st_err EnhanceYourCalm else
      let! st := st_res (append_request_data st data end_stream) in
      if end_stream then dispatch_h2_request st peer_addr
      else modc (fun c => set_active_streams (<[sid := st]> (active_streams c)) c)
  end.

Definition process_window_update (sid increment : Z) : M unit :=
  let! c := gets (fun c => c) in
  if sid =? 0 then
    let! w := st_res (window_update (peer_connection_window c) increment) in
    modc (set_peer_connection_window w)
  else
    match active_streams c !! sid with
    | Some st =>
        let! w := st_res (window_update (send_window st) increment) in
        let! _ := modc (set_active_streams
                          (<[sid := with_send_window st w]> (active_streams c))) in
        let entry := match send_stream_windows c !! sid with
                     | Some w => w
                     | None => window_new (peer_initial_stream_window_size c)
                     end in
        let! _ := modc (set_send_stream_windows (<[sid := entry]> (send_stream_windows c))) in
        let! w := st_res (window_update entry increment) in
        modc (set_send_stream_windows (<[sid := w]> (send_stream_windows c)))
    | None =>
        match send_stream_windows c !! sid with
        | Some w =>
            let! w := st_res (window_update w increment) in
            modc (set_send_stream_windows (<[sid := w]> (send_stream_windows c)))
        | None =>
            if bool_decide (sid ∈ closed_streams c) then st_ret tt else st_err ProtocolError
        end
    end.

Definition process_rst_stream (sid : Z) (c : Conn) : Conn :=
  let c := set_active_streams (delete sid (active_streams c)) c in
  let c := set_send_stream_windows (delete sid (send_stream_windows c)) c in
  let c := set_pending_responses
             (List.filter (fun p => negb (pr_stream_id p =? sid)) (pending_responses c)) c in
  let c := set_pending_header_responses
             (List.filter (fun p => negb (ph_stream_id p =? sid))
                (pending_header_responses c)) c in
  mark_closed_stream sid c.

(** The CONTINUATION discipline, checked before the match. *)
Definition continuation_allowed (pending : option Z) (h : FrameHeader) : bool :=
  match pending with
  | Some expected =>
      (stream_id h =? expected) && bool_decide (frame_type h = FT_Continuation)
  | None => negb (bool_decide (frame_type h = FT_Continuation))
  end.

Definition process_frame (frame : Frame) (peer_addr : option SocketAddr) : M unit :=
  let sid := stream_id (header frame) in
  let! pending := gets pending_headers_stream_id in
  if negb (continuation_allowed pending (header frame)) then st_err ProtocolError else
  match payload frame with
  | Settings settings ack => process_settings settings ack
  | Ping opaque_data ack => process_ping opaque_data ack
  | Headers header_block end_stream end_headers =>
      process_headers sid header_block end_stream end_headers peer_addr
  | Continuation header_block end_headers =>
      process_continuation sid header_block end_headers peer_addr
  | Data data end_stream => process_data sid data end_stream peer_addr
  | WindowUpdate increment => process_window_update sid increment
  | RstStream _ => modc (process_rst_stream sid)
  | GoAway _ _ _ => st_err NoError
  | _ => st_ret tt
  end.

(** ** [poll_pending_headers] *)

Definition poll_source (e : Env) (s : PendingHeaderSource)
  : Env * (PendingHeaderSource * result (option UpstreamHead) unit) :=
  match s with
  | PHS_Proxy p => let '(e, p, r) := proxy_poll e p in (e, (PHS_Proxy p, r))
  | PHS_FastCgi p => let '(e, p, r) := fastcgi_poll e p in (e, (PHS_FastCgi p, r))
  end.

Definition set_headers (r : HttpResponse) (hs : header_list) : HttpResponse :=
  mkResponse (status r) hs (body_source r) (close_connection r).

(** The response that is queued for an upstream's head. *)
Definition negotiate_compression (pending : PendingHeaderResponse) (h : UpstreamHead)
  : UpstreamHead :=
  let '(response, reader, remaining) := h in
  match reader with
  | Some source =>
      if ph_compress pending && dynamic_response_compressible response then
        (set_headers response (compressed_headers (resp_headers response)),
         Some (gz_encoder source (ph_compression_level pending)), None)
      else h
  | None => h
  end.

Definition poll_one (progressed : bool) : M bool :=
  let! queue := gets pending_header_responses in
  match queue with
  | [] => st_ret progressed
  | pending :: queue =>
      let! _ := modc (set_pending_header_responses queue) in
      let! (source, result) := call (fun e => poll_source e (ph_source pending)) in
      let pending := mkPendingHeaderResponse (ph_stream_id pending) source
                       (ph_compress pending) (ph_compression_level pending) in
      match result with
      | Ok None =>
          let! _ := modc (push_pending_header pending) in st_ret progressed
      | Ok (Some h) =>
          let '(response, reader, remaining) := negotiate_compression pending h in
          let! _ := queue_h2_stream_response (ph_stream_id pending) response
                      (option_map (fun r => PB_Reader r remaining) reader) in
          st_ret true
      | Err _ =>
          let! _ := write_frame (rst_frame (ph_stream_id pending) InternalError) in
          let! _ := modc (finish_stream (ph_stream_id pending)) in
          st_ret true
      end
  end.

Fixpoint poll_rounds (rounds : nat) (progressed : bool) : M bool :=
  match rounds with
  | O => st_ret progressed
  | S n => let! progressed := poll_one progressed in poll_rounds n progressed
  end.

Definition poll_pending_headers : M bool :=
  let! queue := gets pending_header_responses in
  let! progressed := poll_rounds (length queue) false in
  let! _ := if progressed : bool then flush_io else st_ret tt in
  st_ret progressed.

(** ** [schedule_pending_responses] *)

(** What one entry may send in this round. *)
Definition send_amount (quota : Z) (c : Conn) (stream_window : Z) : Z :=
  Z.min (Z.min (Z.min quota (peer_max_frame_size c)) (available (peer_connection_window c)))
    stream_window.

(** A DATA frame with a body chunk: both send windows are charged. *)
Definition send_data (pending : PendingResponse) (data : bytes) (done : bool) : M unit :=
  let sid := pr_stream_id pending in
  let! cw := gets peer_connection_window in
  let! cw := st_res (window_consume cw (as_u32 (len data))) in
  let! _ := modc (set_peer_connection_window cw) in
  let! windows := gets send_stream_windows in
  let! w := st_res (ok_or (windows !! sid) StreamClosed) in
  let! w := st_res (window_consume w (as_u32 (len data))) in
  let! _ := modc (set_send_stream_windows (<[sid := w]> windows)) in
  let! _ := write_frame (data_frame sid data done) in
  if negb done then modc (push_pending_response pending) else modc (finish_stream sid).

(** One entry of the queue; the result is the new value of [sent]. *)
Definition schedule_one (quota : Z) (sent : bool) : M bool :=
  let! c := gets (fun c => c) in
  match pending_responses c with
  | [] => st_ret sent
  | pending :: queue =>
      let sid := pr_stream_id pending in
      let! _ := modc (set_pending_responses queue) in
      match send_stream_windows c !! sid with
      | None => st_ret sent
      | Some w =>
          let stream_window := available w in
          if (stream_window <=? 0) || (available (peer_connection_window c) <=? 0) then
            let! _ := modc (push_pending_response pending) in st_ret sent
          else
            let '(body, read) := read_chunk (send_amount quota c stream_window)
                                   (pr_body pending) in
            let pending := mkPendingResponse sid body in
            match read with
            | Err error_code =>
                let! _ := write_frame (rst_frame sid error_code) in
                let! _ := modc (finish_stream sid) in
                st_ret true
            | Ok BR_Pending =>
                let! _ := modc (push_pending_response pending) in st_ret sent
            | Ok (BR_Data [] false) =>
                let! _ := modc (push_pending_response pending) in st_ret sent
            | Ok BR_Done | Ok (BR_Data [] true) =>
                let! _ := write_frame (data_frame sid [] true) in
                let! _ := modc (finish_stream sid) in
                st_ret true
            | Ok (BR_Data data done) =>
                let! _ := send_data pending data done in
                st_ret true
            end
      end
  end.

Fixpoint schedule_rounds (rounds : nat) (quota : Z) (sent : bool) : M bool :=
  match rounds with
  | O => st_ret sent
  | S n => let! sent := schedule_one quota sent in schedule_rounds n quota sent
  end.

Definition schedule_pending_responses : M bool :=
  let! c := gets (fun c => c) in
  let rounds := len (pending_responses c) in
  if (rounds =? 0) || (available (peer_connection_window c) <=? 0) then st_ret false else
  let quota := Z.max (available (peer_connection_window c) / rounds) 1 in
  let! sent := schedule_rounds (length (pending_responses c)) quota false in
  let! _ := if sent : bool then flush_io else st_ret tt in
  st_ret sent.

(** ** [handle_connection] *)

(** [send_goaway] and [send_server_settings]; the result says whether the
    transport accepted the frame. *)
Definition send_frame (f : Frame) (w : World) : World * bool :=
  let '(i, ok) := io_write (io w) (frame_encode f) in
  let w := mkWorld (conn w) i (env w) in
  if ok : bool then
    let '(i, ok) := io_flush (io w) in (mkWorld (conn w) i (env w), ok)
  else (w, false).

Definition send_goaway (last_stream_id : Z) (error_code : Http2ErrorCode) (w : World)
  : World * bool := send_frame (goaway_frame last_stream_id error_code) w.

Definition send_server_settings (w : World) : World * bool :=
  send_frame (server_settings_frame (conn w)) w.

(** How [handle_connection] returns: [Ok(())] or an I/O error. *)
Inductive ConnResult : Type := ConnClosed | ConnFailed.

(** The loop [while self.read_buffer.len() < n] with a buffer of [chunk]
    bytes.  A read ends it or shortens the peer's script. *)
Inductive FillResult : Type := Filled | FillTimedOut | FillEof | FillFailed.

Definition extend_read_buffer (d : bytes) (c : Conn) : Conn :=
  set_read_buffer (read_buffer c ++ d) c.

Fixpoint fill (fuel : nat) (chunk n : Z) (w : World) : World * FillResult :=
  if len (read_buffer (conn w)) <? n then
    match fuel with
    | O => (w, FillFailed)
    | S f =>
        let '(i, x) := io_read (io w) chunk in
        let w := mkWorld (conn w) i (env w) in
        match x with
        | ReadOk [] => (w, FillEof)
        | ReadOk d => fill f chunk n (mkWorld (extend_read_buffer d (conn w)) (io w) (env w))
        | ReadWouldBlock => (w, FillTimedOut)
        | ReadErr => (w, FillFailed)
        end
    end
  else (w, Filled).

Definition fill_to (chunk n : Z) (w : World) : World * FillResult :=
  fill (S (reader_size (incoming (io w)))) chunk n w.

Definition drain_read_buffer (n : Z) (c : Conn) : Conn :=
  set_read_buffer (drop (Z.to_nat n) (read_buffer c)) c.

(** A round of the main loop either continues or leaves the function. *)
Inductive Round : Type := Next | Leave (r : ConnResult).

(** [let _ = self.send_goaway(..); break] and
    [self.send_goaway(..)?; return Ok(())]. *)
Definition goaway_and_break (err : Http2ErrorCode) (w : World) : World * Round :=
  (fst (send_goaway (last_stream_id (conn w)) err w), Leave ConnClosed).
Definition goaway_and_return (err : Http2ErrorCode) (w : World) : World * Round :=
  let '(w, ok) := send_goaway (last_stream_id (conn w)) err w in
  (w, Leave (if ok : bool then ConnClosed else ConnFailed)).

Definition handle_frame (frame : Frame) (peer_addr : option SocketAddr) (w : World)
  : World * Round :=
  match process_frame frame peer_addr w with
  | (w, Ok _) => (w, Next)
  | (w, Err err) => goaway_and_break err w
  end.

(** Reading one frame from the transport and processing it. *)
Definition read_and_handle (peer_addr : option SocketAddr) (w : World) : World * Round :=
  match fill_to 4096 FRAME_HEADER_SIZE w with
  | (w, FillEof) => (w, Leave ConnClosed)
  | (w, FillFailed) => (w, Leave ConnFailed)
  | (w, FillTimedOut) => (w, Next)
  | (w, Filled) =>
      match frame_header_parse (take (Z.to_nat FRAME_HEADER_SIZE) (read_buffer (conn w))) with
      | Err code => goaway_and_return code w
      | Ok header =>
          if length_ header >? max_frame_size (conn w) then goaway_and_return FrameSizeError w
          else
          let total_frame_len := FRAME_HEADER_SIZE + length_ header in
          match fill_to 4096 total_frame_len w with
          | (w, FillEof) => (w, Leave ConnClosed)
          | (w, FillFailed) => (w, Leave ConnFailed)
          | (w, FillTimedOut) => (w, Next)
          | (w, Filled) =>
              match frame_parse header
                      (slice (read_buffer (conn w)) FRAME_HEADER_SIZE total_frame_len) with
              | Err code => goaway_and_return code w
              | Ok frame =>
                  handle_frame frame peer_addr
                    (mkWorld (drain_read_buffer total_frame_len (conn w)) (io w) (env w))
              end
          end
      end
  end.

(** The body of ['main: loop]. *)
Definition main_round (peer_addr : option SocketAddr) (w : World) : World * Round :=
  match poll_pending_headers w with
  | (w, Ok true) => (w, Next)
  | (w, Err err) => goaway_and_break err w
  | (w, Ok false) =>
      match schedule_pending_responses w with
      | (w, Ok true) => (w, Next)
      | (w, Err err) => goaway_and_break err w
      | (w, Ok false) =>
          match deferred_frames (conn w) with
          | frame :: rest =>
              handle_frame frame peer_addr
                (mkWorld (set_deferred_frames rest (conn w)) (io w) (env w))
          | [] => read_and_handle peer_addr w
          end
      end
  end.

(** [None]: the fuel is used up. *)
Fixpoint main_loop (fuel : nat) (peer_addr : option SocketAddr) (w : World)
  : World * option ConnResult :=
  match fuel with
  | O => (w, None)
  | S f =>
      match main_round peer_addr w with
      | (w, Next) => main_loop f peer_addr w
      | (w, Leave r) => (w, Some r)
      end
  end.

(** "PRI * HTTP/2.0", an empty line, "SM" and an empty line. *)
Definition CLIENT_PREFACE : bytes :=
  str "PRI * HTTP/2.0" ++ [13; 10; 13; 10] ++ str "SM" ++ [13; 10; 13; 10].

(** Everything before the main loop: [Next] enters it. *)
Definition check_preface (initial_buffered : bytes) (w : World) : World * Round :=
  let w := mkWorld (set_read_buffer initial_buffered (conn w)) (io w) (env w) in
  match fill_to 1024 (len CLIENT_PREFACE) w with
  | (w, FillEof) => (w, Leave ConnClosed)
  | (w, FillTimedOut) | (w, FillFailed) => (w, Leave ConnFailed)
  | (w, Filled) =>
      if negb (bytes_eqb (take (length CLIENT_PREFACE) (read_buffer (conn w))) CLIENT_PREFACE)
      then
        let '(w, ok) := send_goaway 0 ProtocolError w in
        (w, Leave (if ok : bool then ConnClosed else ConnFailed))
      else
        let w := mkWorld (drain_read_buffer (len CLIENT_PREFACE) (conn w)) (io w) (env w) in
        match send_server_settings w with
        | (w, false) => (w, Leave ConnFailed)
        | (w, true) => (w, Next)
        end
  end.

Definition handle_connection (fuel : nat) (initial_buffered : bytes)
  (peer_addr : option SocketAddr) (w : World) : World * option ConnResult :=
  match check_preface initial_buffered w with
  | (w, Leave r) => (w, Some r)
  | (w, Next) => main_loop fuel peer_addr w
  end.
End Driver.
