(* ===== verification/ConnInv.v ===== *)
(** * The invariant of a connection

    What holds of an [Http2Connection] between two rounds of the main loop, and
    that every method keeps it. *)

From S2P Require Import Prelude RustStd Io Config Http Frame Hpack Flow Stream H2Headers Wp Connection.

Section Inv.
Context `{UnicodeCase} {B : Backend}.

(** ** Rules for the driver's primitives *)

Lemma wp_gets {A} (f : Conn -> A) Q w : Q w (Ok (f (conn w))) -> wp (gets f) Q w.
Proof. done. Qed.

Lemma wp_modc f Q w :
  Q (mkWorld (f (conn w)) (io w) (env w)) (Ok tt) -> wp (modc f) Q w.
Proof. done. Qed.

Lemma wp_call {A} (f : Env -> Env * A) Q w :
  (forall e a, f (env w) = (e, a) -> Q (mkWorld (conn w) (io w) e) (Ok a)) -> wp (call f) Q w.
Proof. unfold wp, call. destruct (f (env w)) as [e a]. cbn. auto. Qed.

(** Writing: either the whole frame is on the wire, or the call failed. *)
Lemma wp_write_frame f Q w :
  (forall i, wire i = wire (io w) ++ frame_encode f -> incoming i = incoming (io w) ->
     Q (mkWorld (conn w) i (env w)) (Ok tt)) ->
  (forall i, wire (io w) `prefix_of` wire i -> incoming i = incoming (io w) ->
     Q (mkWorld (conn w) i (env w)) (Err InternalError)) ->
  wp (write_frame f) Q w.
Proof.
  unfold wp, write_frame, io_write. intros Hok Herr.
  repeat case_match; simplify_eq; cbn [fst snd]; first [by apply Hok|apply Herr; [|done]].
  by apply prefix_app_r.
Qed.

Lemma wp_flush_io Q w :
  (forall i r, wire i = wire (io w) -> incoming i = incoming (io w) ->
     (r = Ok tt \/ r = Err InternalError) -> Q (mkWorld (conn w) i (env w)) r) ->
  wp flush_io Q w.
Proof.
  unfold wp, flush_io, io_flush. intros HQ.
  repeat case_match; simplify_eq; cbn [fst snd]; apply HQ; auto.
Qed.

Lemma wp_try_write_frame f Q w :
  (forall i, wire (io w) `prefix_of` wire i -> incoming i = incoming (io w) ->
     Q (mkWorld (conn w) i (env w)) (Ok tt)) ->
  wp (try_write_frame f) Q w.
Proof.
  unfold wp, try_write_frame, io_write. intros HQ.
  repeat case_match; simplify_eq; cbn [fst snd]; apply HQ; try done; by apply prefix_app_r.
Qed.

Lemma wp_try_flush Q w :
  (forall i, wire i = wire (io w) -> incoming i = incoming (io w) ->
     Q (mkWorld (conn w) i (env w)) (Ok tt)) ->
  wp try_flush Q w.
Proof.
  unfold wp, try_flush, io_flush. intros HQ.
  repeat case_match; simplify_eq; cbn [fst snd]; by apply HQ.
Qed.
End Inv.

(** One step of symbolic execution. *)
Ltac wp_step :=
  lazymatch goal with
  | |- wp (st_bind _ _) _ _ => apply wp_bind
  | |- wp (st_ret _) _ _ => apply wp_ret
  | |- wp (st_err _) _ _ => apply wp_err
  | |- wp (st_res _) _ _ => apply wp_res; intros
  | |- wp (gets _) _ _ => apply wp_gets
  | |- wp (modc _) _ _ => apply wp_modc
  | |- wp (call _) _ _ => apply wp_call; intros
  | |- wp (write_frame _) _ _ => apply wp_write_frame; intros
  | |- wp (try_write_frame _) _ _ => apply wp_try_write_frame; intros
  | |- wp try_flush _ _ => apply wp_try_flush; intros
  | |- wp flush_io _ _ =>
      apply wp_flush_io; intros ? ? ? ? [->| ->]
  | |- wp (if _ then _ else _) _ _ => apply wp_if; intros
  | |- wp (match ?x with _ => _ end) _ _ => destruct x eqn:?
  | |- wp (let '_ := ?x in _) _ _ => destruct x eqn:?
  end; cbn [conn io env].

Ltac wp_steps := repeat wp_step.

(** ** The invariant *)

Section Invariant.
Context `{UnicodeCase} {B : Backend}.
Context (cfg : ServerConfig).

(** The streams whose response is queued or awaited. *)
Definition pending_ids (c : Conn) : list Z :=
  map pr_stream_id (pending_responses c) ++ map ph_stream_id (pending_header_responses c).

(** A queued body has something left to send and its cursor is in range. *)
Definition body_ok (b : PendingBody) : Prop :=
  match b with
  | PB_Bytes data offset => 0 <= offset < len data
  | PB_File _ remaining => 0 < remaining
  | PB_Reader _ _ => True
  end.

(** A request in progress, stored under [sid]. *)
Record stream_ok (c : Conn) (sid : Z) (st : Stream) : Prop := {
  stream_ok_id : id st = sid;
  stream_ok_body : len (request_body st) <= max_request_size cfg;
  stream_ok_state : state st = Open;
  stream_ok_ended : received_end_stream st = true -> pending_headers_stream_id c = Some sid;
  stream_ok_credit : send_stream_windows c !! sid = Some (send_window st);
  stream_ok_window : window_ok (window st);
}.

Definition closed_limit (c : Conn) : Z :=
  Z.max (saturating_mul_usize (max_concurrent_streams c) 2) 16.

(** The HPACK decoder is consistent and has the limits it was made with. *)
Definition decoder_inv (d : HpackDecoder) : Prop :=
  decoder_ok d /\ max_dynamic_table_size d = 4096 /\
  max_header_block_size d = http2_max_header_block_size cfg.

Lemma decode_keeps_inv d buf d' r :
  decoder_inv d -> bytes_ok buf -> decode_header_block d buf = (d', r) -> decoder_inv d'.
Proof.
  intros (Hd & H1 & H2) Hb Hr. destruct (decode_header_block_keeps _ _ _ _ Hd Hb Hr) as (? & ? & ?).
  unfold decoder_inv. intuition congruence.
Qed.

(** [act] are the requests in progress and [hand] the streams being moved from
    [act] to a response queue; between two frames [act] is [active_streams]
    and [hand] is empty. *)
Record conn_inv (act : gmap Z Stream) (hand : gset Z) (c : Conn) : Prop := {
  inv_config : config c = cfg;
  inv_limit : max_concurrent_streams c = http2_max_concurrent_streams cfg;
  inv_frame_limit : max_frame_size c = http2_max_frame_size cfg;
  inv_frame_size : 16384 <= peer_max_frame_size c <= 16777215;
  inv_count : tracked_stream_count c <= max_concurrent_streams c;
  inv_tracked :
    dom (send_stream_windows c) = dom act ∪ list_to_set (pending_ids c) ∪ hand;
  inv_pending_nodup : NoDup (pending_ids c);
  inv_pending_act : forall sid, sid ∈ pending_ids c -> sid ∉ dom act;
  inv_hand : forall sid, sid ∈ hand -> sid ∉ dom act /\ sid ∉ pending_ids c;
  inv_ids : forall sid, sid ∈ dom (send_stream_windows c) ->
    is_client_initiated sid = true /\ sid <= last_stream_id c;
  inv_streams : map_Forall (stream_ok c) act;
  inv_bodies : Forall (fun p => body_ok (pr_body p)) (pending_responses c);
  inv_windows : map_Forall (fun _ => window_ok) (send_stream_windows c);
  inv_conn_window : window_ok (peer_connection_window c);
  inv_recv_window : window_ok (connection_window (flow_control c));
  inv_pending_headers : forall sid, pending_headers_stream_id c = Some sid ->
    sid ∈ dom act /\ len (pending_header_block c) <= http2_max_header_block_size cfg;
  inv_closed : NoDup (closed_streams c) /\ len (closed_streams c) <= closed_limit c;
  inv_decoder : decoder_inv (hpack_decoder c);
  inv_block_bytes : bytes_ok (pending_header_block c);
  inv_deferred : deferred_frames c = [];
}.

Definition conn_ok (c : Conn) : Prop := conn_inv (active_streams c) ∅ c.

(** The fields that sending does not touch. *)
Definition same_requests (c c' : Conn) : Prop :=
  active_streams c' = active_streams c /\ last_stream_id c' = last_stream_id c /\
  pending_headers_stream_id c' = pending_headers_stream_id c /\
  read_buffer c' = read_buffer c.

Lemma same_requests_refl c : same_requests c c.
Proof. done. Qed.

Lemma same_requests_trans a b c : same_requests a b -> same_requests b c -> same_requests a c.
Proof. unfold same_requests. intuition congruence. Qed.
End Invariant.

(** Compute the fields of an updated connection. *)
Ltac conn_simpl :=
  cbn [config secure hpack_decoder flow_control max_frame_size peer_max_frame_size
       peer_connection_window peer_initial_stream_window_size send_stream_windows
       max_concurrent_streams active_streams last_stream_id pending_headers_stream_id
       pending_header_block read_buffer deferred_frames pending_responses
       pending_header_responses closed_streams
       set_secure set_hpack_decoder set_flow_control set_peer_max_frame_size
       set_peer_connection_window set_peer_initial_stream_window_size set_send_stream_windows
       set_active_streams set_last_stream_id set_pending_headers_stream_id
       set_pending_header_block set_read_buffer set_deferred_frames set_pending_responses
       set_pending_header_responses set_closed_streams
       remove_send_window push_pending_response push_pending_header
       pr_stream_id pr_body ph_stream_id ph_source] in *.

(** The fields of an invariant that an update leaves alone. *)
Ltac inv_same Hinv :=
  destruct Hinv; constructor; unfold tracked_stream_count, closed_limit, pending_ids in *;
  conn_simpl; try done.

(** Facts about stream numbers: the other fields only slow the solver down. *)
Ltac ids_solver :=
  repeat match goal with
  | H : _ |- _ =>
      lazymatch type of H with
      | Forall _ _ => clear H
      | map_Forall _ _ => clear H
      | window_ok _ => clear H
      | decoder_inv _ _ => clear H
      | _ /\ len _ <= _ => clear H
      | _ <= _ => clear H
      | _ <= _ <= _ => clear H
      | _ = Some _ -> _ => clear H
      | forall sid, _ = Some sid -> _ => clear H
      | forall sid, sid ∈ dom (send_stream_windows _) -> _ => clear H
      | ServerConfig => fail
      | _ = _ :> ServerConfig => clear H
      | _ = _ :> Z => clear H
      | deferred_frames _ = _ => clear H
      end
  end; set_solver.

Section Moves.
Context `{UnicodeCase} {B : Backend}.
Context (cfg : ServerConfig).
Implicit Types (c : Conn) (act : gmap Z Stream).
Local Notation conn_inv := (conn_inv cfg).

Lemma trim_front_spec limit l :
  exists n, trim_front limit l = drop n l /\ (0 <= limit -> len (trim_front limit l) <= limit).
Proof.
  induction l as [|x l (n & IHd & IHl)]; cbn [trim_front].
  - exists 0%nat. case_match; [done|]. zbool. done.
  - case_match eqn:E; [exists (S n); split; [done|apply IHl]|].
    exists 0%nat. split; [done|]. zbool. lia.
Qed.

Lemma mark_closed_inv act hand sid c : conn_inv act hand c -> conn_inv act hand (mark_closed_stream sid c).
Proof.
  intros Hinv. unfold mark_closed_stream. case_bool_decide as Hin; [done|].
  inv_same Hinv; conn_simpl.
  - intros i st Hst. destruct (inv_streams0 i st Hst). by constructor.
  - fold (closed_limit c). unfold closed_limit.
    destruct (trim_front_spec (Z.max (saturating_mul_usize (max_concurrent_streams c) 2) 16)
                (closed_streams c ++ [sid])) as (n & Hd & Hl).
    split; [|apply Hl; lia]. rewrite Hd. destruct inv_closed0 as [Hnd _].
    eapply sublist_NoDup; [|apply sublist_drop].
    apply NoDup_app. split_and!; [done|set_solver|apply NoDup_singleton].
Qed.

(** Streams are looked at through their window and the header state only. *)
Lemma stream_ok_mono c c' act :
  (forall sid, sid ∈ dom act -> send_stream_windows c' !! sid = send_stream_windows c !! sid) ->
  pending_headers_stream_id c' = pending_headers_stream_id c ->
  map_Forall (stream_ok cfg c) act -> map_Forall (stream_ok cfg c') act.
Proof.
  intros Hw Hp Hall sid st Hst. destruct (Hall sid st Hst). constructor; try done.
  - by rewrite Hp.
  - rewrite Hw by (by eapply elem_of_dom_2). done.
Qed.

Lemma NoDup_insert_mid (x : Z) a b : NoDup (a ++ b) -> x ∉ a ++ b -> NoDup ((a ++ [x]) ++ b).
Proof. intros Hnd Hx. rewrite <- app_assoc. cbn. rewrite <- Permutation_middle. by constructor. Qed.

(** Taking the first entry of a queue. *)
Lemma pop_response_inv act c p q :
  conn_inv act ∅ c -> pending_responses c = p :: q ->
  conn_inv act {[pr_stream_id p]} (set_pending_responses q c) /\ body_ok (pr_body p).
Proof.
  intros Hinv Hq. pose proof (inv_bodies _ _ _ _ Hinv) as Hb. rewrite Hq in Hb.
  apply Forall_cons in Hb as [Hb Hbs]. split; [|done].
  inv_same Hinv; rewrite Hq in *; cbn [map app] in *; conn_simpl.
  - ids_solver.
  - by inversion inv_pending_nodup0.
  - ids_solver.
  - inversion inv_pending_nodup0. ids_solver.
  - eapply stream_ok_mono, inv_streams0; done.
Qed.

Lemma pop_header_inv act c p q :
  conn_inv act ∅ c -> pending_header_responses c = p :: q ->
  conn_inv act {[ph_stream_id p]} (set_pending_header_responses q c).
Proof.
  intros Hinv Hq.
  inv_same Hinv; rewrite Hq in *; cbn [map app] in *; conn_simpl.
  - ids_solver.
  - rewrite <- Permutation_middle in inv_pending_nodup0. by inversion inv_pending_nodup0.
  - ids_solver.
  - rewrite <- Permutation_middle in inv_pending_nodup0. inversion inv_pending_nodup0. ids_solver.
  - eapply stream_ok_mono, inv_streams0; done.
Qed.

(** Queueing the stream in hand. *)
Lemma push_response_inv act c sid b :
  conn_inv act {[sid]} c -> body_ok b ->
  conn_inv act ∅ (push_pending_response (mkPendingResponse sid b) c).
Proof.
  intros Hinv Hb.
  inv_same Hinv; rewrite ?map_app in *; cbn [map app] in *; conn_simpl.
  - ids_solver.
  - apply NoDup_insert_mid; [done|]. by apply inv_hand0, elem_of_singleton.
  - ids_solver.
  - eapply stream_ok_mono, inv_streams0; done.
  - by apply Forall_app_2; [|constructor].
Qed.

Lemma push_header_inv act c p :
  conn_inv act {[ph_stream_id p]} c -> conn_inv act ∅ (push_pending_header p c).
Proof.
  intros Hinv.
  inv_same Hinv; rewrite ?map_app in *; cbn [map app] in *; conn_simpl.
  - ids_solver.
  - rewrite app_assoc. rewrite <- (app_nil_r (_ ++ [_])). apply NoDup_insert_mid; rewrite app_nil_r.
    + done.
    + by apply inv_hand0, elem_of_singleton.
  - ids_solver.
  - eapply stream_ok_mono, inv_streams0; done.
Qed.

(** Releasing the slot of the stream in hand. *)
Lemma finish_stream_inv act c sid :
  conn_inv act {[sid]} c -> conn_inv act ∅ (finish_stream sid c).
Proof.
  intros Hinv. apply mark_closed_inv.
  inv_same Hinv; conn_simpl.
  - rewrite map_size_delete. unfold Datatypes.id. case_match; lia.
  - rewrite dom_delete_L, inv_tracked0. ids_solver.
  - intros i. rewrite dom_delete_L, elem_of_difference. intros [Hi _]. by apply inv_ids0.
  - eapply stream_ok_mono, inv_streams0; [|done]. intros i Hi. cbn.
    apply lookup_delete_ne. ids_solver.
  - by apply map_Forall_delete.
Qed.

(** Charging the send window of the stream in hand, and of the connection. *)
Lemma set_window_inv act c sid w :
  conn_inv act {[sid]} c -> window_ok w ->
  conn_inv act {[sid]} (set_send_stream_windows (<[sid := w]> (send_stream_windows c)) c).
Proof.
  intros Hinv Hw. assert (Hdom : sid ∈ dom (send_stream_windows c)).
  { rewrite (inv_tracked _ _ _ _ Hinv). ids_solver. }
  inv_same Hinv; conn_simpl.
  - rewrite map_size_insert_Some; [done|]. by apply elem_of_dom.
  - rewrite dom_insert_L, inv_tracked0. ids_solver.
  - intros i. rewrite dom_insert_L, elem_of_union, elem_of_singleton.
    intros [->|Hi]; by apply inv_ids0.
  - eapply stream_ok_mono, inv_streams0; [|done]. intros i Hi. cbn.
    apply lookup_insert_ne. ids_solver.
  - by apply map_Forall_insert_2.
Qed.

Lemma set_conn_window_inv act hand c w :
  conn_inv act hand c -> window_ok w -> conn_inv act hand (set_peer_connection_window w c).
Proof. intros Hinv Hw. inv_same Hinv. eapply stream_ok_mono, inv_streams0; done. Qed.
End Moves.

(** ** Sending keeps the invariant *)

Section Sending.
Context `{UnicodeCase} {B : Backend}.
Context (cfg : ServerConfig).
Implicit Types (c : Conn) (act : gmap Z Stream) (w : World).
Local Notation conn_inv := (conn_inv cfg).

(** A chunk is never larger than asked for; a body that is not done has
    something left. *)
Lemma read_chunk_data max b b' d done :
  0 < max -> body_ok b -> read_chunk max b = (b', Ok (BR_Data d done)) ->
  len d <= max /\ (done = false -> body_ok b').
Proof.
  intros Hmax Hb. destruct b as [data off|f rem|r rem]; cbn [read_chunk body_ok] in *.
  - intros [= <- <- <-]. rewrite slice_length by lia. split; [lia|].
    intros Hd. zbool. cbn. lia.
  - destruct (read f (Z.min rem max)) as [f' x] eqn:Hr.
    destruct x as [[|b d']| |]; intros; simplify_eq.
    apply read_len in Hr; [|lia]. split; [lia|]. intros ?. zbool. cbn. lia.
  - case_match; [done|]. zbool. destruct (read r _) as [r' x] eqn:Hr.
    destruct x as [[|b d']| |]; [by repeat case_match| |done..].
    destruct rem as [left_|]; intros.
    + case_match; simplify_eq. split; [|done].
      destruct (Z.le_gt_cases 0 (Z.min left_ max)) as [Hp|Hn]; [apply read_len in Hr; lia|].
      zbool. rewrite len_cons in *. pose proof (len_nonneg d'). lia.
    + simplify_eq. split; [|done]. apply read_len in Hr; lia.
Qed.

Lemma wp_write_continuations fuel sid max block offset w :
  wp (write_continuations fuel sid max block offset)
    (fun w' _ => conn w' = conn w) w.
Proof.
  revert offset w. induction fuel as [|f IH]; intros offset w; cbn [write_continuations].
  - wp_steps; done.
  - wp_steps; try done. eapply wp_mono; [apply IH|]. intros w' r E. by rewrite E.
Qed.

Lemma wp_pending_body_of src w :
  has_body (mkResponse StatusOk [] src false) None = true ->
  wp (pending_body_of src) (ok_post (fun b w' => body_ok b /\ conn w' = conn w)) w.
Proof.
  unfold pending_body_of, file_call. intros Hb. destruct src; cbn in Hb; wp_steps; cbn; try done; zbool.
  all: split; [|done]; try (zbool; lia).
  destruct data; [done|]. rewrite len_cons. pose proof (len_nonneg data). lia.
Qed.

Definition keeps act (w : World) : World -> Prop := fun w' =>
  conn_inv act ∅ (conn w') /\ same_requests (conn w) (conn w').

Lemma finish_stream_same sid c c' : same_requests c c' -> same_requests c (finish_stream sid c').
Proof. unfold finish_stream, mark_closed_stream. by case_bool_decide. Qed.

Lemma wp_queue_h2_stream_response act sid resp dyn w :
  conn_inv act {[sid]} (conn w) -> (forall b, dyn = Some b -> body_ok b) ->
  wp (queue_h2_stream_response sid resp dyn) (ok_post (fun _ => keeps act w)) w.
Proof.
  intros Hinv Hdyn. unfold queue_h2_stream_response.
  do 4 wp_step; [|done]. apply wp_bind.
  eapply wp_mono; [apply wp_write_continuations|]. intros w1 r1 E1. cbn [conn] in E1.
  destruct r1; [|done]. apply wp_bind. apply wp_if; intros Hbody.
  - wp_step. wp_step; rewrite E1; [|done].
    split; [by apply finish_stream_inv|by apply finish_stream_same].
  - apply wp_bind.
    eapply (wp_mono _ (ok_post (fun b w' => body_ok b /\ conn w' = conn w1))).
    + destruct dyn as [b|]; [apply wp_ret; split; [by apply Hdyn|done]|].
      apply wp_pending_body_of. unfold has_body in *. zbool. by cbn in *.
    + intros w2 r2 Hr2. destruct r2 as [b|]; [|done]. destruct Hr2 as [Hb E2].
      do 2 wp_step; rewrite E2, E1; [|done].
      split; [by apply push_response_inv|done].
Qed.

Lemma wp_dispatch_h2_request act st peer w :
  conn_inv act {[id st]} (conn w) ->
  wp (dispatch_h2_request st peer) (ok_post (fun _ => keeps act w)) w.
Proof.
  intros Hinv. unfold dispatch_h2_request, queue_h2_response, await_upstream.
  wp_steps; try done; cbn.
  all: try (split; [by apply push_header_inv|done]).
  all: eapply wp_mono; [by apply wp_queue_h2_stream_response|done].
Qed.

Lemma keeps_refl act w : conn_inv act ∅ (conn w) -> keeps act w w.
Proof. done. Qed.

Lemma keeps_trans act w1 w2 w3 : keeps act w1 w2 -> keeps act w2 w3 -> keeps act w1 w3.
Proof. intros [_ H1] [H2 H3]. split; [done|]. by eapply same_requests_trans. Qed.

Lemma wp_send_data act sid b d done w :
  conn_inv act {[sid]} (conn w) -> (done = false -> body_ok b) ->
  wp (send_data (mkPendingResponse sid b) d done) (ok_post (fun _ => keeps act w)) w.
Proof.
  intros Hinv Hb. unfold send_data. cbn [pr_stream_id].
  assert (Hpos : 0 <= as_u32 (len d)) by (unfold as_u32; zlia).
  apply wp_bind, wp_gets, wp_bind, wp_res; [|done].
  intros cw [Hcw _]%window_consume_ok; [|by destruct Hinv|done].
  apply wp_bind, wp_modc, wp_bind, wp_gets, wp_bind, wp_res; [|done]. conn_simpl.
  cbn [conn]. conn_simpl. intros sw Hsw. destruct (send_stream_windows (conn w) !! sid) eqn:Hlk; [|done].
  cbn in Hsw. simplify_eq. apply wp_bind, wp_res; [|done].
  intros sw' [Hsw' _]%window_consume_ok; [|by eapply (inv_windows _ _ _ _ Hinv)|done].
  apply wp_bind, wp_modc, wp_bind, wp_write_frame; [|done]. intros i _ _. cbn [conn env].
  apply wp_if; intros Hd; apply wp_modc; cbn [conn]; (split; [|first [done|by apply finish_stream_same]]).
  - zbool. apply push_response_inv; [|auto].
    by apply (set_window_inv cfg act (set_peer_connection_window cw (conn w)) sid), Hsw';
      apply set_conn_window_inv.
  - apply finish_stream_inv.
    by apply (set_window_inv cfg act (set_peer_connection_window cw (conn w)) sid), Hsw';
      apply set_conn_window_inv.
Qed.

Lemma read_chunk_pending max b b' : read_chunk max b = (b', Ok BR_Pending) -> body_ok b'.
Proof.
  unfold read_chunk. destruct b; [done| |]; repeat case_match; intros; by simplify_eq.
Qed.

Lemma wp_schedule_one act quota sent w :
  conn_inv act ∅ (conn w) -> 0 < quota ->
  wp (schedule_one quota sent) (ok_post (fun _ => keeps act w)) w.
Proof.
  intros Hinv Hq. unfold schedule_one. apply wp_bind, wp_gets.
  destruct (pending_responses (conn w)) as [|[sid b] queue] eqn:Hqueue.
  { by apply wp_ret, keeps_refl. }
  destruct (pop_response_inv cfg _ _ _ _ Hinv Hqueue) as [Hpop Hb].
  cbn [pr_stream_id pr_body] in *. apply wp_bind, wp_modc.
  destruct (send_stream_windows (conn w) !! sid) as [sw|] eqn:Hsw.
  2:{ exfalso. apply not_elem_of_dom in Hsw. apply Hsw.
      change (sid ∈ dom (send_stream_windows (set_pending_responses queue (conn w)))).
      rewrite (inv_tracked _ _ _ _ Hpop). set_solver. }
  apply wp_if; intros Hz.
  { apply wp_bind, wp_modc, wp_ret. split; [|done]. by apply push_response_inv. }
  assert (Ham : 0 < send_amount quota (conn w) (available sw)).
  { pose proof (inv_frame_size _ _ _ _ Hinv). zbool. unfold send_amount. lia. }
  destruct (read_chunk _ b) as [b' [[d done| |]|e]] eqn:Hread; cbv iota.
  - destruct (read_chunk_data _ _ _ _ _ Ham Hb Hread) as [_ Hb'].
    destruct d as [|x d]; [destruct done|].
    + wp_steps; [|done]. split; [by apply finish_stream_inv|by apply finish_stream_same].
    + apply wp_bind, wp_modc, wp_ret. split; [|done]. apply push_response_inv; auto.
    + apply wp_bind. eapply wp_mono; [by apply wp_send_data|]. by intros w' [].
  - apply wp_bind, wp_modc, wp_ret. split; [|done]. apply push_response_inv; [done|].
    by eapply read_chunk_pending.
  - wp_steps; [|done]. split; [by apply finish_stream_inv|by apply finish_stream_same].
  - wp_steps; [|done]. split; [by apply finish_stream_inv|by apply finish_stream_same].
Qed.

Lemma wp_schedule_rounds act n quota sent w :
  conn_inv act ∅ (conn w) -> 0 < quota ->
  wp (schedule_rounds n quota sent) (ok_post (fun _ => keeps act w)) w.
Proof.
  revert sent w. induction n as [|n IH]; intros sent w Hinv Hq; [by apply wp_ret|].
  apply wp_bind. eapply wp_mono; [by apply wp_schedule_one|].
  intros w1 [sent1|] Hk; [|done]. eapply wp_mono; [by apply IH; [apply Hk|]|].
  intros w2 [b|] Hk2; [|done]. by eapply keeps_trans.
Qed.

Lemma wp_flush_keeps act (b : bool) w0 w :
  keeps act w0 w ->
  wp (let! _ := if b then flush_io else st_ret tt in st_ret b) (ok_post (fun _ => keeps act w0)) w.
Proof. intros Hk. destruct b; wp_steps; done. Qed.

Lemma wp_schedule_pending_responses act w :
  conn_inv act ∅ (conn w) ->
  wp schedule_pending_responses (ok_post (fun _ => keeps act w)) w.
Proof.
  intros Hinv. apply wp_bind, wp_gets, wp_if; intros Hz; [by apply wp_ret|].
  apply wp_bind. eapply wp_mono; [apply wp_schedule_rounds; [done|lia]|].
  intros w1 [sent|] Hk; [|done]. by apply wp_flush_keeps.
Qed.

Lemma wp_poll_one act progressed w :
  conn_inv act ∅ (conn w) ->
  wp (poll_one progressed) (ok_post (fun _ => keeps act w)) w.
Proof.
  intros Hinv. apply wp_bind, wp_gets.
  destruct (pending_header_responses (conn w)) as [|p queue] eqn:Hq; [by apply wp_ret|].
  pose proof (pop_header_inv cfg _ _ _ _ Hinv Hq) as Hpop.
  apply wp_bind, wp_modc, wp_bind, wp_call. intros e [source res] _.
  destruct res as [[h|]|]; cbv beta iota zeta.
  - match goal with |- context [negotiate_compression ?p h] =>
      destruct (negotiate_compression p h) as [[resp reader] rem] end.
    apply wp_bind. eapply wp_mono;
      [apply wp_queue_h2_stream_response; [exact Hpop|]|].
    + intros b Hb. destruct reader; by simplify_eq/=.
    + by intros w' [].
  - apply wp_bind, wp_modc, wp_ret. split; [by apply push_header_inv|done].
  - wp_steps; [|done]. split; [by apply finish_stream_inv|by apply finish_stream_same].
Qed.

Lemma wp_poll_rounds act n progressed w :
  conn_inv act ∅ (conn w) ->
  wp (poll_rounds n progressed) (ok_post (fun _ => keeps act w)) w.
Proof.
  revert progressed w. induction n as [|n IH]; intros progressed w Hinv; [by apply wp_ret|].
  apply wp_bind. eapply wp_mono; [by apply wp_poll_one|].
  intros w1 [b|] Hk; [|done]. eapply wp_mono; [by apply IH; apply Hk|].
  intros w2 [b2|] Hk2; [|done]. by eapply keeps_trans.
Qed.

Lemma wp_poll_pending_headers act w :
  conn_inv act ∅ (conn w) ->
  wp poll_pending_headers (ok_post (fun _ => keeps act w)) w.
Proof.
  intros Hinv. apply wp_bind, wp_gets, wp_bind. eapply wp_mono; [by apply wp_poll_rounds|].
  intros w1 [b|] Hk; [|done]. by apply wp_flush_keeps.
Qed.
End Sending.

(** ** Processing a frame keeps the invariant *)

Section Processing.
Context `{UnicodeCase} {B : Backend}.
Context (cfg : ServerConfig).
Implicit Types (c : Conn) (act : gmap Z Stream) (w : World).
Local Notation conn_inv := (conn_inv cfg).
Local Notation conn_ok := (conn_ok cfg).

(** The field [active_streams] itself is not looked at. *)
Lemma set_active_inv act hand m c : conn_inv act hand c -> conn_inv act hand (set_active_streams m c).
Proof. intros Hinv. inv_same Hinv. eapply stream_ok_mono, inv_streams0; done. Qed.

Lemma set_decoder_inv act hand d c :
  conn_inv act hand c -> decoder_inv cfg d -> conn_inv act hand (set_hpack_decoder d c).
Proof. intros Hinv Hd. inv_same Hinv. eapply stream_ok_mono, inv_streams0; done. Qed.

Lemma set_flow_inv act hand fc c :
  conn_inv act hand c -> window_ok (connection_window fc) ->
  conn_inv act hand (set_flow_control fc c).
Proof. intros Hinv Hd. inv_same Hinv. eapply stream_ok_mono, inv_streams0; done. Qed.

(** A request leaves or enters the table. *)
Lemma act_to_hand act c sid st :
  conn_inv act ∅ c -> act !! sid = Some st -> pending_headers_stream_id c <> Some sid ->
  conn_inv (delete sid act) {[sid]} c.
Proof.
  intros Hinv Hst Hpend. assert (Hdom : sid ∈ dom act) by (by eapply elem_of_dom_2).
  assert (Hnot : sid ∉ pending_ids c) by (intros Hin; by apply (inv_pending_act _ _ _ _ Hinv) in Hin).
  destruct Hinv. constructor; try done.
  - rewrite inv_tracked0, dom_delete_L, (union_comm_L _ {[sid]}), (union_assoc_L {[sid]}).
    rewrite <- union_difference_singleton_L by done. by rewrite union_empty_r_L.
  - intros i Hi. rewrite dom_delete_L. specialize (inv_pending_act0 i Hi). ids_solver.
  - intros i ->%elem_of_singleton. rewrite dom_delete_L. split; [ids_solver|done].
  - by apply map_Forall_delete.
  - intros i Hi. destruct (inv_pending_headers0 i Hi) as [H1 H2]. split; [|done].
    rewrite dom_delete_L. assert (i <> sid) by congruence. set_solver.
Qed.

Lemma hand_to_act act c sid st :
  conn_inv act {[sid]} c -> stream_ok cfg c sid st -> conn_inv (<[sid := st]> act) ∅ c.
Proof.
  intros Hinv Hst. assert (sid ∉ dom act /\ sid ∉ pending_ids c) as [Hn Hp].
  { by apply (inv_hand _ _ _ _ Hinv), elem_of_singleton. }
  destruct Hinv. constructor; try done.
  - rewrite inv_tracked0, dom_insert_L. ids_solver.
  - intros i Hi. rewrite dom_insert_L. specialize (inv_pending_act0 i Hi).
    assert (i <> sid) by congruence. ids_solver.
  - by apply map_Forall_insert_2.
  - intros i Hi. destruct (inv_pending_headers0 i Hi) as [H1 H2]. split; [|done].
    rewrite dom_insert_L. set_solver.
Qed.

(** The header block of [sid] is complete. *)
Lemma headers_done_inv act c sid st :
  conn_inv act ∅ c -> pending_headers_stream_id c = Some sid -> act !! sid = Some st ->
  conn_inv (delete sid act) {[sid]}
    (set_pending_header_block [] (set_pending_headers_stream_id None c)).
Proof.
  intros Hinv Hp Hst. assert (Hdom : sid ∈ dom act) by (by eapply elem_of_dom_2).
  assert (Hnot : sid ∉ pending_ids c) by (intros Hin; by apply (inv_pending_act _ _ _ _ Hinv) in Hin).
  inv_same Hinv; conn_simpl.
  - rewrite inv_tracked0, dom_delete_L, (union_comm_L _ {[sid]}), (union_assoc_L {[sid]}).
    rewrite <- union_difference_singleton_L by done. by rewrite union_empty_r_L.
  - intros i Hi. rewrite dom_delete_L. specialize (inv_pending_act0 i Hi). ids_solver.
  - intros i ->%elem_of_singleton. rewrite dom_delete_L. split; [ids_solver|done].
  - intros i s [Hne Hs]%lookup_delete_Some. destruct (inv_streams0 i s Hs). constructor; try done.
    cbn. intros He. specialize (stream_ok_ended0 He). congruence.
Qed.

(** The first fragment of a header block, and a further one. *)
Lemma first_fragment_inv act c sid st b :
  let c' := set_pending_header_block b (set_pending_headers_stream_id (Some sid) c) in
  conn_inv act {[sid]} c -> stream_ok cfg c' sid st -> pending_headers_stream_id c = None ->
  bytes_ok b -> len b <= http2_max_header_block_size cfg ->
  conn_inv (<[sid := st]> act) ∅ c'.
Proof.
  intros c' Hinv Hst Hp Hb Hl. assert (sid ∉ dom act /\ sid ∉ pending_ids c) as [Hn Hpi].
  { by apply (inv_hand _ _ _ _ Hinv), elem_of_singleton. }
  unfold c' in *. inv_same Hinv; conn_simpl.
  - rewrite inv_tracked0, dom_insert_L. ids_solver.
  - intros i Hi. rewrite dom_insert_L. specialize (inv_pending_act0 i Hi).
    assert (i <> sid) by congruence. ids_solver.
  - apply map_Forall_insert_2; [done|]. intros i s Hs. destruct (inv_streams0 i s Hs).
    constructor; try done. cbn. intros He. specialize (stream_ok_ended0 He). congruence.
  - intros i [= <-]. rewrite dom_insert_L. split; [set_solver|done].
Qed.

Lemma next_fragment_inv act c b :
  conn_inv act ∅ c -> bytes_ok b -> len b <= http2_max_header_block_size cfg ->
  conn_inv act ∅ (set_pending_header_block b c).
Proof.
  intros Hinv Hb Hl. inv_same Hinv; conn_simpl.
  - eapply stream_ok_mono, inv_streams0; done.
  - intros i Hi. split; [by apply inv_pending_headers0|done].
Qed.

(** Accepting a new stream. *)
Lemma open_inv act c sid n :
  conn_inv act ∅ c -> is_client_initiated sid = true -> last_stream_id c < sid ->
  can_accept_new_stream c = true ->
  conn_inv act {[sid]}
    (set_send_stream_windows (<[sid := window_new n]> (send_stream_windows c))
       (set_last_stream_id sid c)).
Proof.
  intros Hinv Hodd Hlast Hacc. unfold can_accept_new_stream in Hacc. zbool.
  assert (Hnew : sid ∉ dom (send_stream_windows c)).
  { intros Hin. apply (inv_ids _ _ _ _ Hinv) in Hin. lia. }
  pose proof (inv_tracked _ _ _ _ Hinv) as Htr.
  inv_same Hinv; conn_simpl.
  - rewrite map_size_insert_None; [lia|]. by apply not_elem_of_dom.
  - rewrite dom_insert_L, Htr. clear. set_solver.
  - intros i ->%elem_of_singleton. rewrite Htr in Hnew. clear - Hnew. set_solver.
  - intros i. rewrite dom_insert_L, elem_of_union, elem_of_singleton.
    intros [->|Hi]; [done|]. destruct (inv_ids0 i Hi). split; [done|lia].
  - eapply stream_ok_mono, inv_streams0; [|done]. intros i Hi. cbn.
    apply lookup_insert_ne. intros <-. apply Hnew. rewrite Htr. clear - Hi. set_solver.
  - apply map_Forall_insert_2; [apply window_new_ok|done].
Qed.

(** [for x in map.values_mut()]. *)
Lemma update_values_ok {A} (f : A -> result A Http2ErrorCode) l m m' :
  update_values f l m = (m', Ok tt) -> NoDup l.*1 ->
  (forall k a, (k, a) ∈ l -> exists a', f a = Ok a' /\ m' !! k = Some a') /\
  (forall k, k ∉ l.*1 -> m' !! k = m !! k).
Proof.
  revert m. induction l as [|[k a] l IH]; intros m; cbn [update_values].
  - intros [= <-] _. split; [set_solver|done].
  - destruct (f a) as [a'|] eqn:Hf; [|done]. cbn. intros Hu [Hk Hnd]%NoDup_cons.
    destruct (IH _ Hu Hnd) as [H1 H2]. split.
    + intros k2 a2 [E|Hin]%elem_of_cons; [|by apply H1]. simplify_eq.
      exists a'. split; [done|]. rewrite H2 by done. apply lookup_insert_eq.
    + intros k2 Hk2. rewrite H2 by set_solver. apply lookup_insert_ne. set_solver.
Qed.

Lemma update_map_ok {A} (f : A -> result A Http2ErrorCode) (m m' : gmap Z A) :
  update_values f (map_to_list m) m = (m', Ok tt) ->
  dom m' = dom m /\
  (forall k a', m' !! k = Some a' <-> exists a, m !! k = Some a /\ f a = Ok a').
Proof.
  intros Hu. destruct (update_values_ok _ _ _ _ Hu (NoDup_fst_map_to_list m)) as [H1 H2].
  assert (Hiff : forall k a', m' !! k = Some a' <-> exists a, m !! k = Some a /\ f a = Ok a').
  { intros k a'. destruct (m !! k) as [a|] eqn:Hk.
    - destruct (H1 k a) as (a2 & Hf & Hm); [by apply elem_of_map_to_list|]. rewrite Hm.
      split; [intros [= <-]; eauto|]. intros (a3 & [= <-] & E). congruence.
    - rewrite H2, Hk; [naive_solver|]. rewrite list_elem_of_fmap. intros ([k2 a2] & -> & Hin).
      apply elem_of_map_to_list in Hin. cbn in Hk. congruence. }
  split; [|done]. apply set_eq. intros k. rewrite !elem_of_dom. unfold is_Some.
  setoid_rewrite Hiff. split; [naive_solver|]. intros [a Ha].
  destruct (H1 k a) as (a' & ? & ?); [by apply elem_of_map_to_list|]. eauto.
Qed.

Lemma adjust_inv c delta ss ws :
  conn_ok c ->
  update_values (fun s => let? x := window_adjust (send_window s) delta in
                          Ok (with_send_window s x))
    (map_to_list (active_streams c)) (active_streams c) = (ss, Ok tt) ->
  update_values (fun x => window_adjust x delta) (map_to_list (send_stream_windows c))
    (send_stream_windows c) = (ws, Ok tt) ->
  conn_inv ss ∅ (set_send_stream_windows ws (set_active_streams ss c)).
Proof.
  intros Hinv [Hds Hs]%update_map_ok [Hdw Hw]%update_map_ok.
  assert (Hsz : base.size ws = base.size (send_stream_windows c)).
  { by rewrite <- !size_dom, Hdw. }
  unfold conn_ok in Hinv. inv_same Hinv; conn_simpl; rewrite ?Hsz, ?Hds, ?Hdw; try done.
  - intros i s' (s & Hst & Ha)%Hs. destruct (inv_streams0 i s Hst).
    apply rbind_ok in Ha as (w & Ha & [= <-]). constructor; try done.
    cbn. apply Hw. eauto.
  - intros i w' (w & Hlk & Ha)%Hw. by apply window_adjust_ok in Ha as [? _].
Qed.

Lemma wp_apply_setting x w :
  conn_ok (conn w) -> wp (apply_setting x) (ok_post (fun _ w' => conn_ok (conn w'))) w.
Proof.
  intros Hinv. destruct x as [[] v]; cbn [apply_setting]; try (by apply wp_ret).
  - apply wp_if; intros Hv; [done|]. apply wp_bind, wp_gets, wp_bind.
    unfold adjust_send_windows. apply wp_bind, wp_gets.
    destruct (update_values _ _ (active_streams _)) as [ss [[]|]] eqn:Hs;
      apply wp_bind, wp_modc, wp_bind, wp_res; try done.
    intros _ _. apply wp_bind, wp_gets. cbn [conn]. conn_simpl.
    destruct (update_values _ _ (send_stream_windows _)) as [ws [[]|]] eqn:Hw;
      apply wp_bind, wp_modc, wp_res; try done.
    intros _ _. apply wp_modc.
    pose proof (adjust_inv _ _ _ _ Hinv Hs Hw) as Hinv'.
    unfold ConnInv.conn_ok. cbn [conn]. inv_same Hinv'. eapply stream_ok_mono, inv_streams0; done.
  - apply wp_if; intros Hv; [done|]. apply wp_modc. unfold ConnInv.conn_ok in *. cbn [conn].
    zbool. inv_same Hinv; zbool; try lia. eapply stream_ok_mono, inv_streams0; done.
Qed.

Lemma wp_apply_settings l w :
  conn_ok (conn w) -> wp (apply_settings l) (ok_post (fun _ w' => conn_ok (conn w'))) w.
Proof.
  revert w. induction l as [|x l IH]; intros w Hinv; cbn [apply_settings]; [by apply wp_ret|].
  apply wp_bind. eapply wp_mono; [by apply wp_apply_setting|]. intros w' [u|] Hw; [|done].
  by apply IH.
Qed.

Lemma window_update_range x n x' : window_update x n = Ok x' -> window_ok x'.
Proof.
  unfold window_update. intros Hu. do 2 (split_if Hu; [done|]). simplify_eq.
  exact (window_new_ok (available x + n)).
Qed.

Lemma wp_process_window_update sid n w :
  conn_ok (conn w) -> pending_headers_stream_id (conn w) = None ->
  wp (process_window_update sid n) (ok_post (fun _ w' => conn_ok (conn w'))) w.
Proof.
  intros Hinv Hp. apply wp_bind, wp_gets, wp_if; intros Hz.
  { apply wp_bind, wp_res; [|done]. intros x Hx%window_update_range. apply wp_modc.
    by apply set_conn_window_inv. }
  destruct (active_streams (conn w) !! sid) as [st|] eqn:Hst.
  - pose proof (inv_streams _ _ _ _ Hinv sid st Hst) as [? ? ? ? Hcr ?].
    apply wp_bind, wp_res; [|done]. intros x Hx. apply wp_bind, wp_modc, wp_bind, wp_modc.
    rewrite Hcr. apply wp_bind, wp_res; [|done]. intros x' Hx'. rewrite Hx in Hx'. simplify_eq.
    apply window_update_range in Hx. apply wp_modc.
    eapply act_to_hand in Hinv; [|exact Hst|by rewrite Hp].
    apply (set_window_inv cfg _ _ _ x') in Hinv; [|done].
    apply (hand_to_act _ _ _ (with_send_window st x')) in Hinv.
    + rewrite insert_delete_eq in Hinv.
      eapply (set_active_inv _ _ (<[id st := with_send_window st x']> (active_streams (conn w)))) in Hinv.
      exact Hinv.
    + constructor; try done; cbn. apply lookup_insert_eq.
  - destruct (send_stream_windows (conn w) !! sid) as [x|] eqn:Hx.
    + apply wp_bind, wp_res; [|done]. intros x' Hx'%window_update_range. apply wp_modc.
      assert (Hdw : dom (<[sid := x']> (send_stream_windows (conn w)))
                    = dom (send_stream_windows (conn w))).
      { rewrite dom_insert_L. apply elem_of_dom_2 in Hx. set_solver. }
      unfold ConnInv.conn_ok in *. cbn [ok_post conn]. inv_same Hinv; rewrite ?Hdw; try done.
      * rewrite map_size_insert_Some; [done|by eauto].
      * eapply stream_ok_mono, inv_streams0; [|done]. intros i Hi. cbn.
        apply lookup_insert_ne. intros <-. by apply not_elem_of_dom in Hst.
      * by apply map_Forall_insert_2.
    + apply wp_if; intros; done.
Qed.

(** The dispatch of the request in hand and the removal of its entry. *)
Lemma wp_dispatch_remove act st sid peer w :
  conn_inv act {[sid]} (conn w) -> id st = sid -> act = delete sid (active_streams (conn w)) ->
  wp (let! _ := dispatch_h2_request st peer in
      modc (fun c => set_active_streams (delete sid (active_streams c)) c))
    (ok_post (fun _ w' => conn_ok (conn w'))) w.
Proof.
  intros Hinv <- Hact. apply wp_bind. eapply wp_mono; [by apply wp_dispatch_h2_request|].
  intros w' [u|] Hk; [|done]. destruct Hk as [Hinv' (Ha & _)]. apply wp_modc. cbn [ok_post conn].
  unfold ConnInv.conn_ok. conn_simpl. rewrite Ha, <- Hact. by apply set_active_inv.
Qed.

(** A stream with complete headers: [act] are the other requests. *)
Lemma wp_headers_complete act sid st decoded es peer w :
  conn_inv act {[sid]} (conn w) -> delete sid (active_streams (conn w)) = act ->
  id st = sid -> len (request_body st) <= max_request_size cfg -> state st = Open ->
  received_end_stream st = es ->
  send_stream_windows (conn w) !! sid = Some (send_window st) -> window_ok (window st) ->
  wp (headers_complete sid st decoded es peer) (ok_post (fun _ w' => conn_ok (conn w'))) w.
Proof.
  intros Hinv Hact Hid Hbody Hopen Hes Hcr Hwin. unfold headers_complete.
  assert (Hid' : forall b, id (append_request_headers st decoded b) = sid) by done.
  apply wp_if; intros Hend.
  - apply wp_bind, wp_modc. apply (wp_dispatch_remove act).
    + by apply set_active_inv.
    + unfold try_transition, transition_to. cbn [append_request_headers state]. by rewrite Hopen.
    + cbn [conn]. conn_simpl. by rewrite delete_insert_eq.
  - apply wp_modc. cbn [ok_post conn]. unfold ConnInv.conn_ok. conn_simpl.
    rewrite <- insert_delete_eq, Hact. apply set_active_inv, hand_to_act; [done|].
    constructor; try done. cbn. congruence.
Qed.

Lemma wp_process_headers sid block es eh peer w :
  conn_ok (conn w) -> pending_headers_stream_id (conn w) = None -> bytes_ok block ->
  0 <= max_request_size cfg ->
  wp (process_headers sid block es eh peer) (ok_post (fun _ w' => conn_ok (conn w'))) w.
Proof.
  intros Hinv Hp Hb Hmax. apply wp_if; intros Hz; [done|]. zbool.
  apply wp_bind, wp_gets, wp_if; intros Hlast; [done|]. zbool.
  apply wp_bind, wp_modc, wp_bind, wp_gets, wp_if; intros Hacc.
  - (* refused *)
    apply wp_bind, wp_write_frame; [|done]. intros i _ _. apply wp_modc. cbn [ok_post conn].
    apply negb_true_iff in Hacc. unfold ConnInv.conn_ok.
    replace (active_streams _) with (active_streams (conn w)).
    2:{ unfold mark_closed_stream. by case_bool_decide. }
    apply mark_closed_inv. unfold ConnInv.conn_ok in Hinv. inv_same Hinv.
    + intros k Hk. destruct (inv_ids0 k Hk). split; [done|lia].
    + eapply stream_ok_mono, inv_streams0; done.
  - apply negb_false_iff in Hacc. cbn [conn] in Hacc.
    set (n := peer_initial_stream_window_size (conn w)).
    pose proof (open_inv _ _ sid n Hinv ltac:(done) Hlast Hacc) as Hopen.
    assert (Hfresh : active_streams (conn w) !! sid = None).
    { apply not_elem_of_dom. apply (inv_hand _ _ _ _ Hopen). set_solver. }
    apply wp_bind. unfold open_stream.
    apply wp_bind, wp_gets, wp_bind, wp_gets, wp_bind, wp_res; [|done]. intros st Hst.
    unfold stream_new in Hst. split_if Hst; [done|]. injection Hst as <-.
    apply wp_bind, wp_modc, wp_bind, wp_res; [|done]. intros st Hst. injection Hst as <-.
    apply wp_bind, wp_modc, wp_ret. cbn [conn]. conn_simpl. apply wp_if; intros Heh.
    + unfold on_decoder. apply wp_bind, wp_bind, wp_gets. cbn [conn]. conn_simpl.
      destruct (decode_header_block _ block) as [d r] eqn:Hd. apply wp_bind, wp_modc, wp_res; [|done].
      intros decoded _. apply (wp_headers_complete (active_streams (conn w))); try done.
      * cbn [conn]. apply set_decoder_inv; [by apply set_active_inv|].
        eapply decode_keeps_inv; [|done|exact Hd]. by destruct Hinv.
      * cbn [conn]. conn_simpl. by rewrite delete_insert_id.
      * cbn [conn]. conn_simpl. apply lookup_insert_eq.
      * apply window_new_ok.
    + apply wp_bind, wp_gets, wp_if; intros Hl; [done|]. zbool.
      apply wp_bind, wp_modc, wp_modc. cbn [ok_post conn] in *. unfold ConnInv.conn_ok. conn_simpl.
      rewrite (inv_config _ _ _ _ Hinv) in Hl.
      eapply (first_fragment_inv (active_streams (conn w)) _ sid); [|constructor|..]; try done.
      * eapply set_active_inv, Hopen.
      * cbn. apply lookup_insert_eq.
      * apply window_new_ok.
Qed.

Lemma wp_process_continuation sid block eh peer w :
  conn_ok (conn w) -> pending_headers_stream_id (conn w) = Some sid -> bytes_ok block ->
  wp (process_continuation sid block eh peer) (ok_post (fun _ w' => conn_ok (conn w'))) w.
Proof.
  intros Hinv Hp Hb. destruct (inv_pending_headers _ _ _ _ Hinv sid Hp) as [Hdom Hlen].
  apply elem_of_dom in Hdom as [st Hst].
  assert (Hbytes : bytes_ok (pending_header_block (conn w) ++ block)).
  { apply Forall_app_2; [by destruct Hinv|done]. }
  apply wp_bind, wp_gets, wp_bind, wp_gets, wp_if; intros Hz; [done|].
  apply wp_if; intros Hl; [done|]. zbool. rewrite (inv_config _ _ _ _ Hinv), <- len_app in Hl.
  apply wp_bind, wp_modc, wp_if; intros Heh.
  2:{ apply wp_ret. by apply next_fragment_inv. }
  apply wp_bind, wp_modc, wp_bind. unfold on_decoder. apply wp_bind, wp_gets. cbn [conn]. conn_simpl.
  destruct (decode_header_block _ _) as [d r] eqn:Hd. apply wp_bind, wp_modc, wp_res; [|done].
  intros decoded _. apply wp_bind, wp_modc, wp_bind, wp_gets. cbn [conn]. conn_simpl. rewrite Hst.
  apply (decode_keeps_inv cfg) in Hd; [|by destruct Hinv|done].
  destruct (inv_streams _ _ _ _ Hinv sid st Hst).
  apply (wp_headers_complete (delete sid (active_streams (conn w)))); try done.
  change (conn_inv (delete sid (active_streams (conn w))) {[sid]} (set_hpack_decoder d
    (set_pending_header_block [] (set_pending_headers_stream_id None (conn w))))).
  apply set_decoder_inv, Hd. by eapply headers_done_inv.
Qed.

Lemma wp_account_data act hand sid st n w :
  conn_inv act hand (conn w) -> window_ok (window st) -> 0 <= n ->
  wp (account_data sid st n)
    (ok_post (fun st' w' => conn_inv act hand (conn w') /\ same_requests (conn w) (conn w') /\
       send_stream_windows (conn w') = send_stream_windows (conn w) /\
       exists x, window_ok x /\ st' = with_window st x)) w.
Proof.
  intros Hinv Hst Hn. unfold account_data. apply wp_bind, wp_gets.
  do 2 (apply wp_if; intros ?; [done|]).
  apply wp_bind, wp_res; [|done]. intros cw Hcw.
  apply window_consume_ok in Hcw as [Hcw _]; [|by destruct Hinv|done].
  apply wp_bind, wp_modc, wp_bind, wp_res; [|done]. intros sw Hsw.
  apply wp_bind, wp_res; [|done]. intros cw' Hcw'%window_update_range.
  apply wp_bind, wp_modc, wp_bind, wp_res; [|done]. intros sw' Hsw'%window_update_range.
  apply wp_bind, wp_write_frame; [|done]. intros i1 _ _.
  apply wp_bind, wp_write_frame; [|done]. intros i2 _ _.
  apply wp_ret. cbn [ok_post conn]. split_and!; try done; [|by eauto].
  cbn [conn]. repeat (apply set_flow_inv; [|done]). done.
Qed.

Lemma wp_process_data sid data es peer w :
  conn_ok (conn w) -> pending_headers_stream_id (conn w) = None ->
  wp (process_data sid data es peer) (ok_post (fun _ w' => conn_ok (conn w'))) w.
Proof.
  intros Hinv Hp. apply wp_bind, wp_gets.
  destruct (active_streams (conn w) !! sid) as [st|] eqn:Hst; [|done].
  destruct (inv_streams _ _ _ _ Hinv sid st Hst) as [Hid Hbody Hopen Hend Hcr Hwin].
  pose proof (act_to_hand _ _ _ _ Hinv Hst ltac:(by rewrite Hp)) as Hhand.
  apply (set_active_inv _ _ (delete sid (active_streams (conn w)))) in Hhand.
  apply wp_bind, wp_modc, wp_bind.
  eapply (wp_mono _ (ok_post (fun st' w' =>
    conn_inv (delete sid (active_streams (conn w))) {[sid]} (conn w') /\
    same_requests (set_active_streams (delete sid (active_streams (conn w))) (conn w)) (conn w') /\
    send_stream_windows (conn w') = send_stream_windows (conn w) /\
    exists x, window_ok x /\ st' = with_window st x))).
  { apply wp_if; intros Hz.
    - eapply wp_mono; [apply wp_account_data; [exact Hhand|done|unfold as_u32; zlia]|].
      intros w' [st'|]; done.
    - apply wp_ret. cbn [ok_post conn]. split_and!; try done. exists (window st). by destruct st. }
  intros w1 [st'|] Hpost; [|done]. destruct Hpost as (Hinv1 & (Ha & _ & Hpe & _) & Hsw & x & Hx & ->).
  conn_simpl. apply wp_bind, wp_gets, wp_if; intros Hl; [done|]. zbool.
  rewrite (inv_config _ _ _ _ Hinv1) in Hl.
  apply wp_bind, wp_res; [|done]. intros st2 Hst2.
  assert (Hid2 : id st2 = sid).
  { unfold append_request_data in Hst2. destruct es; injection Hst2 as <-; [|done].
    by rewrite try_transition_id. }
  apply wp_if; intros Hes.
  - eapply wp_mono; [apply (wp_dispatch_h2_request cfg (delete sid (active_streams (conn w))))|].
    + by rewrite Hid2.
    + intros w' [u|] Hk; [|done]. destruct Hk as [Hk (Ha' & _)]. cbn [ok_post].
      unfold ConnInv.conn_ok. by rewrite Ha', Ha.
  - apply wp_modc. cbn [ok_post conn]. unfold ConnInv.conn_ok. conn_simpl.
    apply set_active_inv. rewrite Ha. apply hand_to_act; [done|].
    subst es. unfold append_request_data in Hst2. injection Hst2 as <-.
    constructor; cbn; try done.
    + rewrite len_app. unfold saturating_sub_usize in Hl. cbn in Hl.
      pose proof (len_nonneg data). lia.
    + intros He. apply Hend in He. congruence.
    + by rewrite Hsw.
Qed.

Lemma filter_not_sid {A} (key : A -> Z) sid (l : list A) :
  (forall x, x ∈ map key (List.filter (fun p => negb (key p =? sid)) l) <->
             x ∈ map key l /\ x <> sid) /\
  sublist (List.filter (fun p => negb (key p =? sid)) l) l.
Proof.
  induction l as [|a l [IH1 IH2]]; cbn [List.filter map]; [split; [set_solver|done]|].
  destruct (Z.eqb_spec (key a) sid); cbn [negb map].
  - split; [|by constructor]. intros x. rewrite IH1. set_solver.
  - split; [|by constructor]. intros x. rewrite !elem_of_cons, IH1. naive_solver.
Qed.

Lemma process_rst_stream_inv sid c :
  conn_ok c -> pending_headers_stream_id c = None -> conn_ok (process_rst_stream sid c).
Proof.
  intros Hinv Hp. unfold process_rst_stream, ConnInv.conn_ok.
  replace (active_streams (mark_closed_stream _ _)) with (delete sid (active_streams c)).
  2:{ unfold mark_closed_stream. by case_bool_decide. }
  apply mark_closed_inv. unfold ConnInv.conn_ok in Hinv.
  destruct (filter_not_sid pr_stream_id sid (pending_responses c)) as [Hr1 Hr2].
  destruct (filter_not_sid ph_stream_id sid (pending_header_responses c)) as [Hh1 Hh2].
  assert (Hids : forall x, x ∈ pending_ids (set_pending_header_responses
      (List.filter (fun p => negb (ph_stream_id p =? sid)) (pending_header_responses c))
      (set_pending_responses
        (List.filter (fun p => negb (pr_stream_id p =? sid)) (pending_responses c)) c))
      <-> x ∈ pending_ids c /\ x <> sid).
  { intros x. unfold pending_ids. conn_simpl. rewrite !elem_of_app, Hr1, Hh1. naive_solver. }
  unfold pending_ids in Hids. conn_simpl.
  inv_same Hinv; conn_simpl.
  - rewrite map_size_delete. unfold Datatypes.id. case_match; lia.
  - apply set_eq. intros x. rewrite !dom_delete_L, inv_tracked0.
    rewrite !elem_of_union, !elem_of_difference, !elem_of_union, !elem_of_list_to_set, Hids.
    rewrite elem_of_singleton. clear. set_solver.
  - eapply sublist_NoDup; [exact inv_pending_nodup0|].
    apply sublist_app; by apply sublist_map.
  - intros x [Hx _]%Hids. rewrite dom_delete_L. specialize (inv_pending_act0 x Hx). set_solver.
  - intros x. rewrite dom_delete_L, elem_of_difference. intros [Hx _]. by apply inv_ids0.
  - apply map_Forall_lookup_2. intros i s [Hne Hs]%lookup_delete_Some.
    destruct (inv_streams0 i s Hs). constructor; try done. cbn. by rewrite lookup_delete_ne.
  - rewrite List.Forall_forall in *. intros p [Hin _]%filter_In. by apply inv_bodies0.
  - by apply map_Forall_delete.
  - intros i Hi. congruence.
Qed.
End Processing.
