(* ===== verification/ConnReach.v ===== *)
(** * Reachable connections

    Every state the main loop of [handle_connection] reaches satisfies the
    invariant of [ConnInv], whatever the peer sends and however the transport
    and the backend behave; and the consequences of that for the resources a
    peer can take. *)

From S2P Require Import Prelude RustStd Io Config Http Frame Hpack Flow Stream H2Headers Wp Connection ConnInv.

(** ** Frames as they come out of the parser *)

(** The payload has the kind its header announces, and blocks are bytes. *)
Definition frame_typed (f : Frame) : Prop :=
  match payload f with
  | Continuation b _ => frame_type (header f) = FT_Continuation /\ bytes_ok b
  | Headers b _ _ => frame_type (header f) <> FT_Continuation /\ bytes_ok b
  | _ => frame_type (header f) <> FT_Continuation
  end.

Lemma bytes_ok_slice l a b : bytes_ok l -> bytes_ok (slice l a b).
Proof. intros Hl. unfold slice. by apply Forall_take, Forall_drop. Qed.

Lemma frame_parse_typed h bs f : bytes_ok bs -> frame_parse h bs = Ok f -> frame_typed f.
Proof.
  intros Hb. unfold frame_parse. case_match; [done|]. intros (p & Hp & [= <-])%rbind_ok.
  unfold frame_typed. cbn [payload header]. destruct (frame_type h) eqn:Ht; try done.
  - unfold parse_data in Hp. repeat case_match; by simplify_eq.
  - unfold parse_headers in Hp. case_match; [done|].
    apply rbind_ok in Hp as ([off pad] & _ & Hp). apply rbind_ok in Hp as (off' & _ & Hp).
    case_match; simplify_eq. split; [done|by apply bytes_ok_slice].
  - unfold parse_priority in Hp. repeat case_match; by simplify_eq.
  - unfold parse_rst_stream in Hp. repeat case_match; by simplify_eq.
  - unfold parse_settings in Hp. repeat case_match; by simplify_eq.
  - unfold parse_ping in Hp. repeat case_match; by simplify_eq.
  - unfold parse_goaway in Hp. repeat case_match; by simplify_eq.
  - unfold parse_window_update in Hp. repeat case_match; by simplify_eq.
  - unfold parse_continuation in Hp. repeat case_match; by simplify_eq.
  - by simplify_eq.
Qed.

(** What the peer's script delivers is bytes. *)
Definition event_ok (e : ReadEvent) : Prop :=
  match e with RData d => bytes_ok d | _ => True end.

Lemma read_typed r n r' x :
  Forall event_ok r -> read r n = (r', x) ->
  Forall event_ok r' /\ forall d, x = ReadOk d -> bytes_ok d.
Proof.
  intros Hr. unfold read. destruct Hr as [|e r He Hr].
  - intros [= <- <-]. split; [done|]. intros d [= <-]. done.
  - destruct e as [d| |]; [case_match|..]; intros [= <- <-].
    + split; [done|]. by intros d' [= <-].
    + split; [constructor; [by apply Forall_drop|done]|].
      intros d' [= <-]. by apply Forall_take.
    + done.
    + done.
Qed.

Section Reach.
Context `{UnicodeCase} {B : Backend}.
Context (cfg : ServerConfig).
Implicit Types (c : Conn) (w : World).
Local Notation conn_ok := (conn_ok cfg).

Hypothesis request_size : 0 <= max_request_size cfg.

Lemma wp_process_frame f peer w :
  conn_ok (conn w) -> frame_typed f ->
  wp (process_frame f peer) (ok_post (fun _ w' => conn_ok (conn w'))) w.
Proof.
  intros Hinv Hf. apply wp_bind, wp_gets, wp_if; intros Hc; [done|].
  apply negb_false_iff in Hc.
  assert (Hnone : frame_type (header f) <> FT_Continuation ->
                  pending_headers_stream_id (conn w) = None).
  { intros Hne. unfold continuation_allowed in Hc. case_match; [zbool; done|done]. }
  unfold frame_typed in Hf. destruct (payload f).
  - apply wp_process_data; auto.
  - destruct Hf. apply wp_process_headers; auto.
  - by apply wp_ret.
  - apply wp_modc. by apply process_rst_stream_inv; auto.
  - unfold process_settings. case_match; [by apply wp_ret|].
    apply wp_bind. eapply wp_mono; [by apply wp_apply_settings|]. intros w' [u|] Hw; [|done].
    wp_steps. done.
  - by apply wp_ret.
  - unfold process_ping. case_match; [by apply wp_ret|]. wp_steps. done.
  - done.
  - apply wp_process_window_update; auto.
  - destruct Hf as [Ht Hb]. apply wp_process_continuation; try done.
    unfold continuation_allowed in Hc. case_match; zbool; by subst.
  - by apply wp_ret.
Qed.
End Reach.

(** ** What no method undoes *)

Section Grows.
Context `{UnicodeCase} {B : Backend}.
Implicit Types (c : Conn) (w : World).

Record conn_grows (c c' : Conn) : Prop := {
  grows_config : config c' = config c;
  grows_limit : max_concurrent_streams c' = max_concurrent_streams c;
  grows_frame_limit : max_frame_size c' = max_frame_size c;
  grows_buffer : read_buffer c' = read_buffer c;
  grows_deferred : deferred_frames c' = deferred_frames c;
  grows_last : last_stream_id c <= last_stream_id c';
}.

(** The configuration is fixed, input is only consumed by the main loop, the
    highest stream number does not decrease and output is only appended. *)
Record grows (w w' : World) : Prop := {
  grows_conn : conn_grows (conn w) (conn w');
  grows_incoming : incoming (io w') = incoming (io w);
  grows_wire : wire (io w) `prefix_of` wire (io w');
}.

#[global] Instance conn_grows_preorder : PreOrder conn_grows.
Proof.
  split; [by constructor|]. intros x y z [] []. constructor; congruence || lia.
Qed.

#[global] Instance grows_preorder : PreOrder grows.
Proof.
  split; [intros x; by constructor|].
  intros x y z [] []. constructor; [by etransitivity|congruence|by etransitivity].
Qed.

(** Relations between the state before and after that hold of changes to the
    transport and the environment, and compose. *)
Class Growth (R : relation World) : Prop := {
  growth_preorder :: PreOrder R;
  growth_io w i e : wire (io w) `prefix_of` wire i -> incoming i = incoming (io w) ->
    R w (mkWorld (conn w) i e);
}.

#[global] Instance grows_growth : Growth grows.
Proof. split; [apply _|]. by constructor. Qed.

(** Every run of [m], successful or not, ends in a related state. *)
Definition respects (R : relation World) {A} (m : M A) : Prop :=
  forall w, wp m (fun w' _ => R w w') w.

Section Rules.
Context (R : relation World) `{!Growth R}.

Lemma respects_bind {A C} (m : M A) (k : A -> M C) :
  respects R m -> (forall a, respects R (k a)) -> respects R (st_bind m k).
Proof.
  intros Hm Hk w. apply wp_bind. eapply wp_mono; [apply Hm|]. intros w' [a|] Hw; [|done].
  eapply wp_mono; [apply Hk|]. intros. by etransitivity.
Qed.

Lemma respects_ret {A} (a : A) : respects R (st_ret a).
Proof. intros w. apply wp_ret. reflexivity. Qed.

Lemma respects_err {A} e : respects R (A := A) (st_err e).
Proof. intros w. apply wp_err. reflexivity. Qed.

Lemma respects_res {A} (r : result A Http2ErrorCode) : respects R (st_res r).
Proof. intros w. apply wp_res; intros; reflexivity. Qed.

Lemma respects_gets {A} (f : Conn -> A) : respects R (gets f).
Proof. intros w. apply wp_gets. reflexivity. Qed.

Lemma respects_call {A} (f : Env -> Env * A) : respects R (call f).
Proof. intros w. apply wp_call. intros e a _. by apply growth_io. Qed.

Lemma respects_modc f :
  (forall w, R w (mkWorld (f (conn w)) (io w) (env w))) -> respects R (modc f).
Proof. intros Hf w. apply wp_modc, Hf. Qed.

Lemma respects_write_frame f : respects R (write_frame f).
Proof.
  intros w. apply wp_write_frame; intros i Hw Hi; apply growth_io; try done.
  rewrite Hw. by apply prefix_app_r.
Qed.

Lemma respects_try_write_frame f : respects R (try_write_frame f).
Proof. intros w. apply wp_try_write_frame; intros i Hw Hi. by apply growth_io. Qed.

Lemma respects_flush_io : respects R flush_io.
Proof. intros w. apply wp_flush_io; intros i r Hw Hi _. apply growth_io; [by rewrite Hw|done]. Qed.

Lemma respects_try_flush : respects R try_flush.
Proof. intros w. apply wp_try_flush; intros i Hw Hi. apply growth_io; [by rewrite Hw|done]. Qed.

Lemma respects_if {A} (b : bool) (m k : M A) :
  respects R m -> respects R k -> respects R (if b then m else k).
Proof. by destruct b. Qed.
End Rules.
End Grows.

Abbreviation stable := (respects grows).

(** Follow the structure of a method; [auto] uses what is known of its parts. *)
Ltac respects_step :=
  first
    [ lazymatch goal with
      | |- respects ?R (st_ret _) => apply (respects_ret R)
      | |- respects ?R (st_err _) => apply (respects_err R)
      | |- respects ?R (st_res _) => apply (respects_res R)
      | |- respects ?R (gets _) => apply (respects_gets R)
      | |- respects ?R (call _) => apply (respects_call R)
      | |- respects ?R (write_frame _) => apply (respects_write_frame R)
      | |- respects ?R (try_write_frame _) => apply (respects_try_write_frame R)
      | |- respects ?R flush_io => apply (respects_flush_io R)
      | |- respects ?R try_flush => apply (respects_try_flush R)
      end
    | solve [auto with respects nocore]
    | match goal with |- respects ?R (st_bind _ _) => apply (respects_bind R); [|intros ?] end
    | apply respects_if
    | match goal with |- respects ?R (modc _) =>
        apply (respects_modc R); intros ?; by repeat constructor end
    | match goal with |- respects _ (match ?x with _ => _ end) => destruct x end
    | match goal with |- respects _ (let '_ := ?x in _) => destruct x end
    | progress cbv beta iota zeta ].
Ltac stable_tac := repeat respects_step.
Create HintDb respects.

Section Stable.
Context `{UnicodeCase} {B : Backend}.
Implicit Types (c : Conn) (w : World).

Lemma finish_stream_grows sid c : conn_grows c (finish_stream sid c).
Proof. unfold finish_stream, mark_closed_stream. by case_bool_decide; constructor. Qed.

Lemma mark_closed_grows sid c : conn_grows c (mark_closed_stream sid c).
Proof. unfold mark_closed_stream. by case_bool_decide; constructor. Qed.

Lemma stable_finish sid : stable (modc (finish_stream sid)).
Proof. apply (respects_modc grows). intros w. by constructor; [apply finish_stream_grows|..]. Qed.

Lemma stable_mark_closed sid : stable (modc (mark_closed_stream sid)).
Proof. apply (respects_modc grows). intros w. by constructor; [apply mark_closed_grows|..]. Qed.
#[local] Hint Resolve stable_finish stable_mark_closed : respects.

Lemma stable_write_continuations fuel sid max block offset :
  stable (write_continuations fuel sid max block offset).
Proof.
  revert offset. induction fuel; intros offset; cbn [write_continuations]; stable_tac.
Qed.
#[local] Hint Resolve stable_write_continuations : respects.

Lemma stable_queue_h2_stream_response sid resp body :
  stable (queue_h2_stream_response sid resp body).
Proof. unfold queue_h2_stream_response, pending_body_of, file_call. stable_tac. Qed.
#[local] Hint Resolve stable_queue_h2_stream_response : respects.

Lemma stable_dispatch_h2_request st peer : stable (dispatch_h2_request st peer).
Proof. unfold dispatch_h2_request, queue_h2_response, await_upstream. stable_tac. Qed.
#[local] Hint Resolve stable_dispatch_h2_request : respects.

Lemma stable_on_decoder {A} (f : HpackDecoder -> HpackDecoder * result A Http2ErrorCode) :
  stable (on_decoder f).
Proof. unfold on_decoder. stable_tac. Qed.
#[local] Hint Resolve stable_on_decoder : respects.

Lemma stable_poll_rounds n b : stable (poll_rounds n b).
Proof.
  revert b. induction n as [|n IH]; intros b; cbn [poll_rounds]; [stable_tac|].
  apply (respects_bind grows); [unfold poll_one; stable_tac|done].
Qed.
#[local] Hint Resolve stable_poll_rounds : respects.

Lemma stable_poll_pending_headers : stable poll_pending_headers.
Proof. unfold poll_pending_headers. stable_tac. Qed.

Lemma stable_schedule_rounds n quota b : stable (schedule_rounds n quota b).
Proof.
  revert b. induction n as [|n IH]; intros b; cbn [schedule_rounds]; [stable_tac|].
  apply (respects_bind grows); [unfold schedule_one, send_data; stable_tac|done].
Qed.
#[local] Hint Resolve stable_schedule_rounds : respects.

Lemma stable_schedule_pending_responses : stable schedule_pending_responses.
Proof. unfold schedule_pending_responses. stable_tac. Qed.

Lemma stable_apply_settings l : stable (apply_settings l).
Proof.
  induction l as [|s l IH]; cbn [apply_settings]; [stable_tac|].
  apply (respects_bind grows); [|done]. unfold apply_setting, adjust_send_windows. stable_tac.
Qed.
#[local] Hint Resolve stable_apply_settings : respects.

Lemma stable_headers_complete sid st decoded es peer :
  stable (headers_complete sid st decoded es peer).
Proof. unfold headers_complete. stable_tac. Qed.
#[local] Hint Resolve stable_headers_complete : respects.

Lemma stable_process_headers sid block es eh peer :
  stable (process_headers sid block es eh peer).
Proof.
  unfold process_headers, refuse_stream, open_stream. apply respects_if; [stable_tac|].
  intros w. apply wp_bind, wp_gets, wp_if; intros Hl; [done|]. apply wp_bind, wp_modc.
  zbool. set (w1 := mkWorld (set_last_stream_id sid (conn w)) _ _).
  assert (grows w w1) by (constructor; [constructor; cbn; done || lia|done..]).
  match goal with |- wp ?m _ w1 => assert (Hm : stable m) by stable_tac end.
  eapply wp_mono; [apply Hm|]. intros. by etransitivity.
Qed.
#[local] Hint Resolve stable_process_headers : respects.

Lemma stable_process_frame f peer : stable (process_frame f peer).
Proof.
  unfold process_frame, process_settings, process_ping, process_continuation, process_data,
    account_data, process_window_update.
  stable_tac. apply (respects_modc grows). intros w. constructor; [|done..]. unfold process_rst_stream.
  etransitivity; [|apply mark_closed_grows]. by constructor.
Qed.
End Stable.

(** ** Reachable states *)

Section Reachable.
Context `{UnicodeCase} {B : Backend}.
Context (cfg : ServerConfig).
Implicit Types (c : Conn) (w : World).
Local Notation conn_ok := (conn_ok cfg).

Record world_ok (w : World) : Prop := {
  world_conn : conn_ok (conn w);
  world_buffer : bytes_ok (read_buffer (conn w));
  world_incoming : Forall event_ok (incoming (io w));
}.

(** The states at the head of the main loop. *)
Inductive reachable (peer : option SocketAddr) : World -> Prop :=
| reach_enter sec buf i e w :
    bytes_ok buf -> Forall event_ok (incoming i) ->
    check_preface buf (mkWorld (with_secure (conn_new cfg) sec) i e) = (w, Next) ->
    reachable peer w
| reach_round w w' :
    reachable peer w -> main_round peer w = (w', Next) -> reachable peer w'.

Lemma set_read_buffer_ok b c : conn_ok c -> conn_ok (set_read_buffer b c).
Proof.
  unfold ConnInv.conn_ok. intros Hinv. conn_simpl. inv_same Hinv.
  eapply stream_ok_mono; [| |eassumption]; done.
Qed.

Lemma fill_spec fuel chunk n w w' r :
  0 < chunk -> bytes_ok (read_buffer (conn w)) -> Forall event_ok (incoming (io w)) ->
  fill fuel chunk n w = (w', r) ->
  (exists d, conn w' = set_read_buffer (read_buffer (conn w) ++ d) (conn w) /\ bytes_ok d) /\
  Forall event_ok (incoming (io w')) /\
  (r = Filled -> n <= len (read_buffer (conn w'))).
Proof.
  intros Hc. revert w. induction fuel as [|f IH]; intros w Hb Hi; cbn [fill].
  all: assert (Hid : conn w = set_read_buffer (read_buffer (conn w) ++ []) (conn w))
    by (rewrite app_nil_r; by destruct (conn w)).
  all: case_match eqn:Hl; zbool.
  - intros [= <- <-]. split_and!; [by exists []|done|done].
  - intros [= <- <-]. split_and!; [by exists []|done|done].
  - unfold io_read. destruct (read (incoming (io w)) chunk) as [i' x] eqn:Hr.
    destruct (read_typed _ _ _ _ Hi Hr) as [Hi' Hd].
    destruct x as [[|b d]| |]; try (intros [= <- <-]; split_and!; [by exists []|done|done]).
    intros Hf. apply IH in Hf as ((d' & Hc' & Hd') & Hinc & Hfill); cbn [conn io incoming] in *.
    + split_and!; [|done|done]. exists ((b :: d) ++ d'). rewrite Hc'. split.
      * unfold extend_read_buffer. conn_simpl. by rewrite <- app_assoc.
      * apply Forall_app_2; [by apply Hd|done].
    + conn_simpl. apply Forall_app_2; [done|by apply Hd].
    + done.
  - intros [= <- <-]. split_and!; [by exists []|done|done].
Qed.

Lemma fill_to_ok chunk n w w' r :
  0 < chunk -> world_ok w -> fill_to chunk n w = (w', r) ->
  world_ok w' /\ (r = Filled -> n <= len (read_buffer (conn w'))).
Proof.
  intros Hc [H1 H2 H3] Hf. apply fill_spec in Hf as ((d & Ed & Hd) & Hi & Hr); try done.
  split; [|done]. constructor; [|rewrite Ed; conn_simpl; by apply Forall_app_2|done].
  rewrite Ed. by apply set_read_buffer_ok.
Qed.

Lemma conn_new_ok sec :
  0 <= http2_max_concurrent_streams cfg -> conn_ok (with_secure (conn_new cfg) sec).
Proof.
  intros Hn. constructor; cbn; try done; try (apply window_new_ok); try lia.
  - constructor.
  - split; [constructor|]. unfold closed_limit. rewrite len_nil. lia.
Qed.

Lemma send_frame_same f w w' ok :
  send_frame f w = (w', ok) -> conn w' = conn w /\ incoming (io w') = incoming (io w).
Proof.
  unfold send_frame, io_write, io_flush. repeat case_match; intros; by simplify_eq.
Qed.

Lemma world_ok_same w w' :
  world_ok w -> conn w' = conn w -> incoming (io w') = incoming (io w) -> world_ok w'.
Proof. intros [] Hc Hi. constructor; by rewrite ?Hc, ?Hi. Qed.

Lemma drain_ok n w : world_ok w ->
  world_ok (mkWorld (drain_read_buffer n (conn w)) (io w) (env w)).
Proof.
  intros []. constructor; cbn [conn io]; [by apply set_read_buffer_ok| |done].
  by apply Forall_drop.
Qed.

Lemma check_preface_ok buf sec i e w :
  0 <= http2_max_concurrent_streams cfg -> bytes_ok buf -> Forall event_ok (incoming i) ->
  check_preface buf (mkWorld (with_secure (conn_new cfg) sec) i e) = (w, Next) -> world_ok w.
Proof.
  intros Hn Hb Hi. unfold check_preface. cbn [conn io env].
  set (w0 := mkWorld (set_read_buffer buf _) i e).
  assert (H0 : world_ok w0).
  { constructor; [by apply set_read_buffer_ok, conn_new_ok|done|done]. }
  destruct (fill_to 1024 _ w0) as [w1 []] eqn:Hf; try done.
  apply fill_to_ok in Hf as [H1 _]; [|lia|done]. apply (drain_ok (len CLIENT_PREFACE)) in H1.
  case_match; [by destruct (send_goaway _ _ _)|].
  destruct (send_server_settings _) as [w2 []] eqn:Hs; [|done]. intros [= <-].
  apply send_frame_same in Hs as [Hc Hi2]. by eapply world_ok_same.
Qed.

Hypothesis request_size : 0 <= max_request_size cfg.

(** A method that keeps the driver's invariant keeps the world's. *)
Lemma method_ok {A} (m : M A) w w' a :
  world_ok w -> stable m ->
  wp m (ok_post (fun _ w' => conn_ok (conn w'))) w -> m w = (w', Ok a) -> world_ok w'.
Proof.
  intros [H1 H2 H3] Hst Hwp Hm. pose proof (wp_elim _ _ _ _ _ Hm Hwp) as Hc.
  pose proof (wp_elim _ _ _ _ _ Hm (Hst w)) as [[] Hi _]. cbn in Hc.
  constructor; by rewrite ?Hi, ?grows_buffer0, ?grows_buffer.
Qed.

Lemma keeps_conn_ok {A} (m : M A) w :
  conn_ok (conn w) ->
  wp m (ok_post (fun _ => keeps cfg (active_streams (conn w)) w)) w ->
  wp m (ok_post (fun _ w' => conn_ok (conn w'))) w.
Proof.
  intros Hc Hm. eapply wp_mono; [exact Hm|]. intros w' [a|] Hk; [|done].
  destruct Hk as [Hk (Ha & _)]. cbn. unfold ConnInv.conn_ok. by rewrite Ha.
Qed.

Lemma handle_frame_ok f peer w w' :
  world_ok w -> frame_typed f -> handle_frame f peer w = (w', Next) -> world_ok w'.
Proof.
  intros Hw Hf. unfold handle_frame. destruct (process_frame f peer w) as [w1 [u|]] eqn:Hp; [|done].
  intros [= <-]. eapply method_ok; [done|apply stable_process_frame| |exact Hp].
  apply wp_process_frame; [done|by destruct Hw|done].
Qed.

Lemma read_and_handle_ok peer w w' :
  world_ok w -> read_and_handle peer w = (w', Next) -> world_ok w'.
Proof.
  intros Hw. unfold read_and_handle.
  destruct (fill_to 4096 FRAME_HEADER_SIZE w) as [w1 []] eqn:Hf1; try done;
    apply fill_to_ok in Hf1 as [H1 Hl1]; try done; try lia; [|by intros [= <-]].
  destruct (frame_header_parse _) as [h|]; [|unfold goaway_and_return; by repeat case_match].
  case_match; [unfold goaway_and_return; by repeat case_match|].
  destruct (fill_to 4096 _ w1) as [w2 []] eqn:Hf2; try done;
    apply fill_to_ok in Hf2 as [H2 Hl2]; try done; try lia; [|by intros [= <-]].
  destruct (frame_parse _ _) as [f|] eqn:Hp; [|unfold goaway_and_return; by repeat case_match].
  apply frame_parse_typed in Hp; [|apply bytes_ok_slice; by destruct H2].
  apply handle_frame_ok; [by apply drain_ok|done].
Qed.

Lemma main_round_ok peer w w' : world_ok w -> main_round peer w = (w', Next) -> world_ok w'.
Proof.
  intros Hw. unfold main_round.
  destruct (poll_pending_headers w) as [w1 [b1|]] eqn:Hp; [|done].
  eapply method_ok in Hp; [|done|apply stable_poll_pending_headers|].
  2:{ apply keeps_conn_ok, wp_poll_pending_headers; by destruct Hw. }
  destruct b1; [by intros [= <-]|].
  destruct (schedule_pending_responses w1) as [w2 [b2|]] eqn:Hs; [|done].
  eapply method_ok in Hs; [|done|apply stable_schedule_pending_responses|].
  2:{ apply keeps_conn_ok, wp_schedule_pending_responses; by destruct Hp. }
  destruct b2; [by intros [= <-]|].
  rewrite (inv_deferred _ _ _ _ (world_conn _ Hs)). by apply read_and_handle_ok.
Qed.

Lemma reachable_ok peer w :
  0 <= http2_max_concurrent_streams cfg -> reachable peer w -> world_ok w.
Proof.
  intros Hn. induction 1 as [|? ? ? IH]; [by eapply check_preface_ok|by eapply main_round_ok].
Qed.

(** ** What a peer can take *)

(** C1 (invariant): in every reachable state each accepted stream is accounted
    for exactly once, as a request in progress, as a queued response or as a
    response awaited from an upstream, and the number of accepted streams never
    exceeds the configured maximum.  Their numbers are odd, positive and at most
    the last stream number. *)
Theorem stream_accounting peer w :
  0 <= http2_max_concurrent_streams cfg -> reachable peer w ->
  let c := conn w in
  tracked_stream_count c =
    Z.of_nat (base.size (active_streams c)) + len (pending_responses c)
    + len (pending_header_responses c) /\
  tracked_stream_count c <= http2_max_concurrent_streams cfg /\
  NoDup (pending_ids c) /\
  forall sid, sid ∈ dom (send_stream_windows c) ->
    is_client_initiated sid = true /\ 0 < sid <= last_stream_id c.
Proof.
  intros Hn Hr c. pose proof (world_conn _ (reachable_ok _ _ Hn Hr)) as Hinv.
  fold c in Hinv. destruct Hinv as [_ Hlim _ _ Hcount Htr Hnd Hpa _ Hids]. split_and!.
  - unfold tracked_stream_count. rewrite <- size_dom, Htr, union_empty_r_L, size_union.
    + rewrite size_dom, size_list_to_set by done. unfold pending_ids, len.
      rewrite length_app, !length_map. lia.
    + intros x Hx Hp. apply elem_of_list_to_set in Hp. by apply (Hpa x).
  - by rewrite <- Hlim.
  - done.
  - intros sid Hs. destruct (Hids sid Hs) as [Ho Hl]. split; [done|].
    unfold is_client_initiated in Ho. zbool. lia.
Qed.

(** C5 (bounds): in every reachable state the memory a peer can pin is bounded
    by the configuration: a request body by [max_request_size], a header block in
    progress by [http2_max_header_block_size], the HPACK table by 4096 bytes and
    the list of closed streams by twice the stream limit (at least 16). *)
Theorem connection_memory_bounded peer w :
  0 <= http2_max_concurrent_streams cfg -> reachable peer w ->
  let c := conn w in
  (forall sid st, active_streams c !! sid = Some st ->
     len (request_body st) <= max_request_size cfg) /\
  (pending_headers_stream_id c <> None ->
     len (pending_header_block c) <= http2_max_header_block_size cfg) /\
  total_size (entries (dynamic_table (hpack_decoder c))) <= 4096 /\
  len (closed_streams c) <= Z.max (2 * http2_max_concurrent_streams cfg) 16.
Proof.
  intros Hn Hr c. pose proof (world_conn _ (reachable_ok _ _ Hn Hr)) as Hinv. fold c in Hinv.
  split_and!.
  - intros sid st Hst. by destruct (inv_streams _ _ _ _ Hinv sid st Hst).
  - destruct (pending_headers_stream_id c) as [sid|] eqn:Hp; [intros _|done].
    by apply (inv_pending_headers _ _ _ _ Hinv sid).
  - destruct (inv_decoder _ _ _ _ Hinv) as [[[Hsz Hmax] Hm] [Hd _]]. lia.
  - destruct (inv_closed _ _ _ _ Hinv) as [_ Hc]. unfold closed_limit, saturating_mul_usize in Hc.
    rewrite (inv_limit _ _ _ _ Hinv) in Hc. lia.
Qed.

(** C6 (invariant): in every reachable state the two copies the driver keeps of
    a request stream's send credit agree, all credits fit their [i32], every
    stored request is open and stored under its own number, and the frame size
    granted by the peer is in the range of RFC 9113. *)
Theorem send_credit_consistent peer w :
  0 <= http2_max_concurrent_streams cfg -> reachable peer w ->
  let c := conn w in
  (forall sid st, active_streams c !! sid = Some st ->
     id st = sid /\ state st = Open /\
     send_stream_windows c !! sid = Some (send_window st) /\
     (received_end_stream st = true -> pending_headers_stream_id c = Some sid)) /\
  map_Forall (fun _ => window_ok) (send_stream_windows c) /\
  window_ok (peer_connection_window c) /\
  16384 <= peer_max_frame_size c <= 16777215.
Proof.
  intros Hn Hr c. pose proof (world_conn _ (reachable_ok _ _ Hn Hr)) as Hinv. fold c in Hinv.
  split; [|by destruct Hinv]. intros sid st Hst.
  by destruct (inv_streams _ _ _ _ Hinv sid st Hst).
Qed.
End Reachable.

(** ** A run of the model *)

(** A backend without dynamic routes that answers every request with "hello". *)
Definition hello_backend : Backend := {|
  Env := unit;
  H2ProxyPending := unit;
  H2FastCgiPending := unit;
  effective_config e _ := (e, server_config_default);
  handle_request e _ _ := (e, with_body (response_new StatusOk) (str "hello") (str "text/plain"));
  proxy_route_matches_request _ _ := false;
  proxy_begin_h2_response e _ _ _ _ := (e, Ok None);
  proxy_poll e p := (e, p, Ok None);
  fastcgi_route_matches_request _ _ := false;
  fastcgi_begin_h2_response e _ _ _ _ := (e, Ok None);
  fastcgi_poll e p := (e, p, Ok None);
  gz_encoder r _ := r;
  file_op e := (e, true);
|}.

#[local] Existing Instance ascii_case.
#[local] Existing Instance hello_backend.

Definition get_request : header_list :=
  [(str ":method", str "GET"); (str ":scheme", str "https"); (str ":path", str "/")].

(** A client that opens stream 1 with a request whose body is to follow, and
    stream 3 with a complete request. *)
Definition sample_input : bytes :=
  CLIENT_PREFACE
  ++ frame_encode (mkFrame (mkFrameHeader 0 FT_Settings 0 0) (Settings [] false))
  ++ frame_encode (headers_frame 1 (encode_headers get_request) false true)
  ++ frame_encode (headers_frame 3 (encode_headers get_request) true true).

Definition sample_start : World :=
  mkWorld (with_secure (conn_new server_config_default) false) (mkIo [] [] []) tt.

Definition sample_enter : World := fst (check_preface sample_input sample_start).
Definition sample_round (w : World) : World := fst (main_round None w).
Definition sample_world : World := sample_round (sample_round (sample_round sample_enter)).

Lemma pair_fst {A C} (p : A * C) c : snd p = c -> p = (fst p, c).
Proof. by destruct p; intros <-. Qed.

Lemma sample_reachable : reachable server_config_default None sample_world.
Proof.
  assert (Hin : bytes_ok sample_input).
  { apply (bool_decide_unpack _). vm_compute. exact I. }
  unfold sample_world.
  do 3 (eapply reach_round; [|apply pair_fst; vm_compute; reflexivity]).
  eapply (reach_enter (B := hello_backend) _ _ false sample_input (mkIo [] [] []) (tt : @Env hello_backend)); [done|constructor|].
  apply pair_fst. vm_compute. reflexivity.
Qed.

#[local] Opaque sample_world.

Lemma stream_accounting_witness :
  tracked_stream_count (conn sample_world) = 2 /\
  tracked_stream_count (conn sample_world) <= http2_max_concurrent_streams server_config_default.
Proof.
  split; [vm_compute; reflexivity|].
  pose proof (stream_accounting server_config_default ltac:(done) None sample_world
                ltac:(done) sample_reachable) as Hacc.
  cbv zeta in Hacc. exact (proj1 (proj2 Hacc)).
Defined.

Lemma connection_memory_bounded_witness :
  bool_decide (is_Some (active_streams (conn sample_world) !! 1)) = true /\
  forall st, active_streams (conn sample_world) !! 1 = Some st ->
    len (request_body st) <= max_request_size server_config_default.
Proof.
  split; [vm_compute; reflexivity|]. intros st Hst.
  pose proof (connection_memory_bounded server_config_default ltac:(done) None sample_world
                ltac:(done) sample_reachable) as Hmem.
  cbv zeta in Hmem. exact (proj1 Hmem 1 st Hst).
Defined.

Lemma send_credit_consistent_witness :
  bool_decide (is_Some (active_streams (conn sample_world) !! 1)) = true /\
  forall st, active_streams (conn sample_world) !! 1 = Some st ->
    send_stream_windows (conn sample_world) !! 1 = Some (send_window st).
Proof.
  split; [vm_compute; reflexivity|]. intros st Hst.
  pose proof (send_credit_consistent server_config_default ltac:(done) None sample_world
                ltac:(done) sample_reachable) as Hcr.
  cbv zeta in Hcr. exact (proj1 (proj2 (proj2 (proj1 Hcr 1 st Hst)))).
Defined.
