(* ===== verification/Scheduler.v ===== *)
(** * Sending response bodies

    What [read_chunk] and [schedule_pending_responses] put on the wire: whole
    frames within the peer's limits, paid for from both flow-control windows,
    whose payloads are the response bodies in order. *)

From S2P Require Import Prelude RustStd Io Config Http Frame Hpack Flow Stream H2Headers Wp Connection ConnInv ConnReach.

(** ** The content of a body *)

(** What a script delivers before its end of file or its first error. *)
Fixpoint script_bytes (r : Reader) : bytes :=
  match r with
  | RData (b :: d) :: r => (b :: d) ++ script_bytes r
  | RWouldBlock :: r => script_bytes r
  | _ => []
  end.

Definition body_content (b : PendingBody) : bytes :=
  match b with
  | PB_Bytes data offset => drop (Z.to_nat offset) data
  | PB_File f remaining => take (Z.to_nat remaining) (script_bytes f)
  | PB_Reader r (Some remaining) => take (Z.to_nat remaining) (script_bytes r)
  | PB_Reader r None => script_bytes r
  end.

Lemma read_script r n r' x :
  0 < n -> read r n = (r', x) ->
  match x with
  | ReadOk [] => script_bytes r = []
  | ReadOk d => script_bytes r = d ++ script_bytes r'
  | ReadWouldBlock => script_bytes r = script_bytes r'
  | ReadErr => True
  end.
Proof.
  intros Hn. unfold read. destruct r as [|[d| |] r]; [by intros [= <- <-]| |by intros [= <- <-]..].
  destruct (Z.leb_spec (len d) n) as [|Hgt]; intros [= <- <-].
  - by destruct d.
  - destruct d as [|b d]; [rewrite len_nil in Hgt; lia|]. rewrite len_cons in Hgt. unfold len in *.
    destruct (Z.to_nat n) as [|k] eqn:Hk; [lia|]. cbn [take drop]. cbn [script_bytes].
    destruct (drop k d) as [|e f] eqn:Hd.
    + apply (f_equal length) in Hd. rewrite length_drop in Hd. cbn in Hd. lia.
    + cbn [script_bytes]. rewrite <- Hd, app_assoc. f_equal. cbn [app]. by rewrite take_drop.
Qed.

Lemma take_app_len {A} (d l : list A) n :
  len d <= n -> take (Z.to_nat n) (d ++ l) = d ++ take (Z.to_nat (n - len d)) l.
Proof.
  unfold len. intros Hd. rewrite take_app, (take_ge d) by lia. do 2 f_equal. lia.
Qed.

Lemma read_chunk_content max b b' r :
  0 < max -> body_ok b -> read_chunk max b = (b', r) ->
  match r with
  | Ok (BR_Data d done) =>
      body_content b = d ++ body_content b' /\ (done = true -> body_content b' = [])
  | Ok BR_Pending => body_content b = body_content b'
  | Ok BR_Done => body_content b = []
  | Err e => e = InternalError
  end.
Proof.
  intros Hmax Hb. destruct b as [data off|f rem|s rem]; cbn [read_chunk body_ok] in *.
  - intros [= <- <-]. cbn [body_content]. unfold slice. split.
    + rewrite <- (take_drop (Z.to_nat (Z.min (off + max) (len data) - off))
                    (drop (Z.to_nat off) data)) at 1.
      rewrite drop_drop. do 2 f_equal. lia.
    + intros Hd. zbool. apply drop_ge. unfold len in *. lia.
  - destruct (read f _) as [f' x] eqn:Hr.
    pose proof (read_script _ (Z.min rem max) _ _ ltac:(lia) Hr) as Hs.
    destruct x as [[|y d]| |]; intros [= <- <-]; try done. apply read_len in Hr; [|lia].
    cbn [body_content]. rewrite Hs, take_app_len by lia. split; [done|].
    intros Hd. zbool. by replace (rem - len (y :: d)) with 0 by lia.
  - destruct rem as [left_|].
    + case_match eqn:Hw; zbool; [intros [= <- <-]; cbn; by replace left_ with 0 by lia|].
      destruct (read s _) as [s' x] eqn:Hr. destruct (Z.le_gt_cases left_ 0) as [Hneg|Hpos].
      * assert (Hx : forall y d, x <> ReadOk (y :: d)).
        { intros y d ->. unfold read in Hr. destruct s as [|[e| |] s]; try done.
          case_match; simplify_eq; zbool; [rewrite len_cons in *; pose proof (len_nonneg d); lia|].
          by replace (Z.to_nat _) with 0%nat in * by lia. }
        destruct x as [[|y d]| |]; [|by destruct (Hx y d)| |]; intros; simplify_eq; try done.
        -- destruct (Z.eqb_spec left_ 0); [lia|done].
        -- cbn. by replace (Z.to_nat left_) with 0%nat by lia.
      * pose proof (read_script _ (Z.min left_ max) _ _ ltac:(lia) Hr) as Hs.
        destruct x as [[|y d]| |]; intros; simplify_eq; try done.
        -- destruct (Z.eqb_spec left_ 0); [lia|done].
        -- apply read_len in Hr; [|lia].
           destruct (Z.ltb_spec left_ (len (y :: d))); simplify_eq; [lia|].
           cbn [body_content]. rewrite Hs, take_app_len by lia. split; [done|].
           intros Hd. zbool. by replace (left_ - len (y :: d)) with 0 by lia.
        -- cbn. by rewrite Hs.
    + case_match eqn:Hw; zbool; [lia|]. destruct (read s max) as [s' x] eqn:Hr.
      pose proof (read_script _ _ _ _ Hmax Hr) as Hs.
      destruct x as [[|y d]| |]; intros; simplify_eq; try done.
Qed.

(** ** Frames sent *)

Definition frame_sid (f : Frame) : Z := stream_id (header f).

Definition frame_data (f : Frame) : bytes :=
  match payload f with Data d _ => d | _ => [] end.

(** Payload bytes of DATA frames: of all of them, and of one stream. *)
Fixpoint data_total (fs : list Frame) : Z :=
  match fs with [] => 0 | f :: fs => len (frame_data f) + data_total fs end.

Fixpoint data_for (sid : Z) (fs : list Frame) : Z :=
  match fs with
  | [] => 0
  | f :: fs => (if frame_sid f =? sid then len (frame_data f) else 0) + data_for sid fs
  end.

Lemma data_total_app a b : data_total (a ++ b) = data_total a + data_total b.
Proof. induction a; cbn; lia. Qed.

Lemma data_for_app sid a b : data_for sid (a ++ b) = data_for sid a + data_for sid b.
Proof. induction a; cbn; lia. Qed.

Lemma data_for_absent sid fs : sid ∉ map frame_sid fs -> data_for sid fs = 0.
Proof.
  induction fs as [|f fs IH]; cbn [map data_for]; [done|]. rewrite not_elem_of_cons.
  intros [Hne Hn]. rewrite IH by done. by rewrite eqb_neq_false by done.
Qed.

Lemma data_total_nonneg fs : 0 <= data_total fs.
Proof. induction fs as [|f fs IH]; cbn; [lia|]. pose proof (len_nonneg (frame_data f)). lia. Qed.

(** What happened to a queued response [p]: [fs] are the frames sent and [rq]
    the entry that is left in the queue. *)
Inductive outcome (p : PendingResponse) : list Frame -> list PendingResponse -> Prop :=
| out_wait b :
    body_content b = body_content (pr_body p) ->
    outcome p [] [mkPendingResponse (pr_stream_id p) b]
| out_more d b :
    d <> [] -> body_content (pr_body p) = d ++ body_content b ->
    outcome p [data_frame (pr_stream_id p) d false] [mkPendingResponse (pr_stream_id p) b]
| out_last :
    outcome p [data_frame (pr_stream_id p) (body_content (pr_body p)) true] []
| out_reset e :
    outcome p [rst_frame (pr_stream_id p) e] [].

Section Round.
Context `{UnicodeCase} {B : Backend}.
Implicit Types (c : Conn) (w : World).

Definition send_credit (c : Conn) (sid : Z) : option Z :=
  available <$> send_stream_windows c !! sid.

(** One entry [p] was served: [fs] went out and [rq] was put back. *)
Record served (quota : Z) (p : PendingResponse) (w : World) (fs : list Frame)
  (rq : list PendingResponse) (w' : World) : Prop := {
  served_outcome : outcome p fs rq;
  served_wire : wire (io w') = wire (io w) ++ concat (map frame_encode fs);
  served_size : Forall (fun f => len (frame_data f) <= Z.min quota (peer_max_frame_size (conn w))) fs;
  served_total : available (peer_connection_window (conn w')) =
                 available (peer_connection_window (conn w)) - data_total fs;
  served_covered : data_total fs <= Z.max 0 (available (peer_connection_window (conn w)));
  served_others : forall i, i <> pr_stream_id p ->
    send_credit (conn w') i = send_credit (conn w) i;
  served_window : exists x, send_credit (conn w) (pr_stream_id p) = Some x /\
    data_total fs <= Z.max 0 x /\
    send_credit (conn w') (pr_stream_id p) = match rq with [] => None | _ => Some (x - data_total fs) end;
  served_peer : peer_max_frame_size (conn w') = peer_max_frame_size (conn w);
}.

Lemma credit_insert c sid x i :
  send_credit (set_send_stream_windows (<[sid := x]> (send_stream_windows c)) c) i =
  if i =? sid then Some (available x) else send_credit c i.
Proof.
  unfold send_credit. conn_simpl. destruct (Z.eqb_spec i sid) as [->|Hne].
  - by rewrite lookup_insert_eq.
  - by rewrite lookup_insert_ne.
Qed.

Lemma credit_finish c sid i :
  send_credit (finish_stream sid c) i = if i =? sid then None else send_credit c i.
Proof.
  assert (Hm : send_credit (finish_stream sid c) i = send_credit (remove_send_window sid c) i).
  { unfold finish_stream, mark_closed_stream. by case_bool_decide. }
  rewrite Hm. unfold send_credit. conn_simpl. destruct (Z.eqb_spec i sid) as [->|Hne].
  - by rewrite lookup_delete_eq.
  - by rewrite lookup_delete_ne.
Qed.

Lemma finish_fields c sid :
  pending_responses (finish_stream sid c) = pending_responses c /\
  peer_connection_window (finish_stream sid c) = peer_connection_window c /\
  peer_max_frame_size (finish_stream sid c) = peer_max_frame_size c.
Proof. unfold finish_stream, mark_closed_stream. by case_bool_decide. Qed.

Lemma as_u32_small n m : 0 <= n <= m -> m <= 16777215 -> as_u32 n = n.
Proof. intros ? ?. apply as_u32_id. lia. Qed.

(** Entries put back without sending. *)
Lemma served_wait quota p b queue w x :
  pending_responses (conn w) = p :: queue ->
  send_credit (conn w) (pr_stream_id p) = Some x ->
  body_content b = body_content (pr_body p) ->
  served quota p w [] [mkPendingResponse (pr_stream_id p) b]
    (mkWorld (push_pending_response (mkPendingResponse (pr_stream_id p) b)
                (set_pending_responses queue (conn w))) (io w) (env w)).
Proof.
  intros Hq Hx Hb. constructor; cbn [data_total map concat]; try done.
  - by constructor.
  - by rewrite app_nil_r.
  - cbn. lia.
  - lia.
  - exists x. split_and!; [done|lia|]. rewrite Z.sub_0_r. done.
Qed.

(** Entries whose stream ends with the frame [f]. *)
Lemma served_end quota p f queue w x i :
  pending_responses (conn w) = p :: queue -> 0 <= quota -> 0 <= peer_max_frame_size (conn w) ->
  send_credit (conn w) (pr_stream_id p) = Some x ->
  outcome p [f] [] -> frame_data f = [] -> wire i = wire (io w) ++ frame_encode f ->
  served quota p w [f] []
    (mkWorld (finish_stream (pr_stream_id p) (set_pending_responses queue (conn w))) i (env w)).
Proof.
  intros Hq Hquota Hmax Hx Ho Hf Hi. assert (Hl : len (frame_data f) = 0) by (by rewrite Hf).
  destruct (finish_fields (set_pending_responses queue (conn w)) (pr_stream_id p)) as (_ & H2 & H3).
  constructor; cbn [data_total map concat conn io]; rewrite ?Hl, ?app_nil_r; try done.
  - constructor; [|done]. rewrite Hl. lia.
  - rewrite H2. conn_simpl. lia.
  - lia.
  - intros j Hj. rewrite credit_finish, eqb_neq_false by done. done.
  - exists x. split_and!; [done|lia|]. by rewrite credit_finish, Z.eqb_refl.
Qed.

Lemma wp_send_data_served quota p b d (done : bool) queue w x :
  let w1 := mkWorld (set_pending_responses queue (conn w)) (io w) (env w) in
  let rq := if done then [] else [mkPendingResponse (pr_stream_id p) b] in
  send_stream_windows (conn w) !! pr_stream_id p = Some x ->
  window_ok x -> window_ok (peer_connection_window (conn w)) ->
  peer_max_frame_size (conn w) <= 16777215 ->
  len d <= send_amount quota (conn w) (available x) ->
  outcome p [data_frame (pr_stream_id p) d done] rq ->
  wp (send_data (mkPendingResponse (pr_stream_id p) b) d done)
    (ok_post (fun _ w' => served quota p w [data_frame (pr_stream_id p) d done] rq w' /\
                          pending_responses (conn w') = queue ++ rq)) w1.
Proof.
  intros w1 rq Hx Hxok Hcw Hmax Hd Ho. unfold send_data, send_amount in *. cbn [pr_stream_id].
  pose proof (len_nonneg d) as Hdn.
  rewrite (as_u32_small (len d) (peer_max_frame_size (conn w))) by lia.
  apply wp_bind, wp_gets, wp_bind, wp_res; [|done]. unfold w1. cbn [conn]. conn_simpl.
  intros cw (_ & Hcwa & Hcwp)%window_consume_ok; [|done|done].
  apply wp_bind, wp_modc, wp_bind, wp_gets, wp_bind, wp_res; [|done]. cbn [conn]. conn_simpl.
  rewrite Hx. intros x' [= <-]. apply wp_bind, wp_res; [|done].
  intros y (_ & Hya & Hyp)%window_consume_ok; [|done|done].
  apply wp_bind, wp_modc, wp_bind, wp_write_frame; [|done]. intros i Hi _. cbn [conn io env] in *.
  assert (Hcr : send_credit (conn w) (pr_stream_id p) = Some (available x)).
  { unfold send_credit. by rewrite Hx. }
  set (c2 := set_send_stream_windows _ _).
  assert (Hc2 : forall j, send_credit c2 j =
            if j =? pr_stream_id p then Some (available y) else send_credit (conn w) j).
  { intros j. unfold c2. rewrite (credit_insert (set_peer_connection_window cw
      (set_pending_responses queue (conn w)))). done. }
  apply wp_if; intros Hdone; apply wp_modc; cbn [conn io env]; destruct done; try done.
  - split; [|done]. constructor; cbn [data_total map concat conn io frame_data payload data_frame];
      rewrite ?app_nil_r; try done.
    + constructor; [|done]. cbn. lia.
    + unfold c2. conn_simpl. lia.
    + lia.
    + intros j Hj. change (send_credit c2 j = send_credit (conn w) j).
      by rewrite Hc2, eqb_neq_false.
    + exists (available x). split_and!; [done|lia|].
      change (send_credit c2 (pr_stream_id p) = Some (available x - (len d + 0))).
      rewrite Hc2, Z.eqb_refl. f_equal. lia.
  - destruct (finish_fields c2 (pr_stream_id p)) as (H1 & H2 & H3).
    split; [|unfold rq; cbn [conn]; rewrite H1; by rewrite app_nil_r].
    constructor; cbn [data_total map concat conn io frame_data payload data_frame];
      rewrite ?app_nil_r; try done.
    + constructor; [|done]. cbn. lia.
    + rewrite H2. unfold c2. conn_simpl. lia.
    + lia.
    + intros j Hj. by rewrite credit_finish, Hc2, eqb_neq_false.
    + exists (available x). split_and!; [done|lia|]. by rewrite credit_finish, Z.eqb_refl.
Qed.

(** The result of serving the first entry [p] of the queue [p :: queue]. *)
Definition round_post (quota : Z) (sent : bool) (p : PendingResponse)
  (queue : list PendingResponse) (w : World) (sent' : bool) (w' : World) : Prop :=
  exists fs rq, served quota p w fs rq w' /\
    pending_responses (conn w') = queue ++ rq /\
    sent' = sent || negb (bool_decide (fs = [])).

Lemma wp_end_served quota sent p f queue w x :
  pending_responses (conn w) = p :: queue -> 0 <= quota -> 0 <= peer_max_frame_size (conn w) ->
  send_credit (conn w) (pr_stream_id p) = Some x -> outcome p [f] [] -> frame_data f = [] ->
  wp (let! _ := write_frame f in
      let! _ := modc (finish_stream (pr_stream_id p)) in
      st_ret true)
    (ok_post (round_post quota sent p queue w))
    (mkWorld (set_pending_responses queue (conn w)) (io w) (env w)).
Proof.
  intros Hq Hquota Hmax Hx Ho Hf. apply wp_bind, wp_write_frame; [|done].
  intros i Hi _. apply wp_bind, wp_modc, wp_ret. exists [f], [].
  split_and!; [by eapply (served_end quota p f queue w x i)| |by rewrite orb_true_r].
  destruct (finish_fields (set_pending_responses queue (conn w)) (pr_stream_id p)) as [E _].
  cbn [conn]. rewrite E. by rewrite app_nil_r.
Qed.

Lemma wp_wait_served quota sent p b queue w x :
  pending_responses (conn w) = p :: queue -> send_credit (conn w) (pr_stream_id p) = Some x ->
  body_content b = body_content (pr_body p) ->
  wp (let! _ := modc (push_pending_response (mkPendingResponse (pr_stream_id p) b)) in
      st_ret sent)
    (ok_post (round_post quota sent p queue w))
    (mkWorld (set_pending_responses queue (conn w)) (io w) (env w)).
Proof.
  intros Hq Hx Hb. apply wp_bind, wp_modc, wp_ret. exists [], [mkPendingResponse (pr_stream_id p) b].
  split_and!; [by eapply (served_wait quota p b queue w x)|done|by rewrite orb_false_r].
Qed.

Lemma wp_schedule_one_served cfg act quota sent p queue w :
  conn_inv cfg act ∅ (conn w) -> 0 < quota -> pending_responses (conn w) = p :: queue ->
  wp (schedule_one quota sent) (ok_post (round_post quota sent p queue w)) w.
Proof.
  intros Hinv Hq Hqueue. unfold schedule_one. apply wp_bind, wp_gets. rewrite Hqueue.
  destruct (pop_response_inv cfg _ _ _ _ Hinv Hqueue) as [Hpop Hb]. apply wp_bind, wp_modc.
  destruct (send_stream_windows (conn w) !! pr_stream_id p) as [sw|] eqn:Hsw.
  2:{ exfalso. apply not_elem_of_dom in Hsw. apply Hsw.
      change (pr_stream_id p ∈ dom (send_stream_windows (set_pending_responses queue (conn w)))).
      rewrite (inv_tracked _ _ _ _ Hpop). set_solver. }
  assert (Hcr : send_credit (conn w) (pr_stream_id p) = Some (available sw)).
  { unfold send_credit. by rewrite Hsw. }
  pose proof (inv_frame_size _ _ _ _ Hinv) as Hmax. apply wp_if; intros Hz.
  { destruct p as [sid b]. by eapply (wp_wait_served quota sent (mkPendingResponse sid b)). }
  assert (Ham : 0 < send_amount quota (conn w) (available sw)).
  { zbool. unfold send_amount. lia. }
  destruct (read_chunk _ (pr_body p)) as [b' r] eqn:Hread.
  pose proof (read_chunk_content _ _ _ _ Ham Hb Hread) as Hcont.
  destruct r as [[d done| |]|e]; cbv iota.
  - destruct (read_chunk_data _ _ _ _ _ Ham Hb Hread) as [Hlen Hb']. destruct Hcont as [Hc Hdone].
    destruct d as [|y d]; [destruct done|].
    + eapply wp_end_served; try done; try lia. cbn [app] in Hc. rewrite Hdone in Hc by done.
      rewrite <- Hc. constructor.
    + by eapply wp_wait_served.
    + apply wp_bind. eapply wp_mono.
      * eapply (wp_send_data_served quota p b' (y :: d) done queue w sw); try done; try lia.
        -- by eapply (inv_windows _ _ _ _ Hinv).
        -- by destruct Hinv.
        -- destruct done; [|by constructor].
           rewrite Hdone, app_nil_r in Hc by done. rewrite <- Hc. constructor.
      * intros w' [u|] Hpost; [|done]. destruct Hpost as [Hs Hp']. apply wp_ret.
        do 2 eexists. split_and!; [exact Hs|exact Hp'|by rewrite orb_true_r].
  - by eapply wp_wait_served.
  - eapply wp_end_served; try done; try lia. rewrite <- Hcont. constructor.
  - eapply wp_end_served; try done; try lia. constructor.
Qed.
End Round.

(** ** A healthy transport *)

Section Healthy.
Context `{UnicodeCase} {B : Backend}.
Implicit Types (w : World).

(** Every coming write and flush succeeds. *)
Definition healthy (w : World) : Prop := Forall (eq WOk) (faults (io w)).

Definition succeeds {A} : World -> result A Http2ErrorCode -> Prop :=
  fun w r => (exists a, r = Ok a) /\ healthy w.

Lemma succeeds_ok {A} (a : A) w : healthy w -> succeeds w (Ok a : result A Http2ErrorCode).
Proof. split; [by eexists|done]. Qed.

Lemma succeeds_bind {A C} (m : M A) (k : A -> M C) w :
  wp m succeeds w -> (forall a w', m w = (w', Ok a) -> healthy w' -> wp (k a) succeeds w') ->
  wp (st_bind m k) succeeds w.
Proof.
  unfold wp, st_bind. intros [[a Ha] Hw] Hk. destruct (m w) as [w1 r1]. cbn in *. subst r1. by apply Hk.
Qed.

Lemma write_frame_succeeds f w : healthy w -> wp (write_frame f) succeeds w.
Proof.
  unfold healthy, wp, write_frame, io_write. destruct (faults (io w)) as [|[] fs]; cbn.
  - intros _. apply succeeds_ok. by constructor.
  - intros [_ Hfs]%Forall_cons. by apply succeeds_ok.
  - by intros [? _]%Forall_cons.
Qed.

Lemma flush_succeeds w : healthy w -> wp flush_io succeeds w.
Proof.
  unfold wp, flush_io, io_flush. intros Hh. pose proof Hh as Hf. unfold healthy in Hf.
  destruct (faults (io w)) as [|[] fs] eqn:E; cbn.
  - by apply succeeds_ok.
  - apply Forall_cons in Hf as [_ Hfs]. by apply succeeds_ok.
  - by apply Forall_cons in Hf as [? _].
Qed.

Lemma send_data_succeeds quota p d (done : bool) w x :
  healthy w -> send_stream_windows (conn w) !! pr_stream_id p = Some x ->
  peer_max_frame_size (conn w) <= 16777215 -> len d <= send_amount quota (conn w) (available x) ->
  wp (send_data p d done) succeeds w.
Proof.
  intros Hh Hx Hmax Hd. unfold send_data, send_amount in *. pose proof (len_nonneg d) as Hdn.
  rewrite (as_u32_small (len d) (peer_max_frame_size (conn w))) by lia.
  unfold wp, st_bind, gets, st_res, modc. cbn [conn].
  destruct (window_consume_fits (peer_connection_window (conn w)) (len d)) as [cw ->]; [lia|].
  cbn [conn]. conn_simpl. rewrite Hx. cbn [ok_or].
  destruct (window_consume_fits x (len d)) as [sw ->]; [lia|]. cbn [conn io env].
  match goal with |- context [write_frame ?f ?w1] =>
    destruct (write_frame_succeeds f w1 Hh) as [[[] Hok] Hh1]; destruct (write_frame f w1) as [w2 r2] end.
  cbn [fst snd] in Hok, Hh1. subst r2. destruct done; by apply succeeds_ok.
Qed.

Lemma schedule_one_succeeds cfg act quota sent w :
  conn_inv cfg act ∅ (conn w) -> 0 < quota -> healthy w ->
  wp (schedule_one quota sent) succeeds w.
Proof.
  intros Hinv Hq Hh. unfold schedule_one. apply wp_bind, wp_gets.
  destruct (pending_responses (conn w)) as [|p queue] eqn:Hqueue; [by apply wp_ret, succeeds_ok|].
  destruct (pop_response_inv cfg _ _ _ _ Hinv Hqueue) as [_ Hb].
  pose proof (inv_frame_size _ _ _ _ Hinv) as Hmax. apply wp_bind, wp_modc.
  destruct (send_stream_windows (conn w) !! pr_stream_id p) as [sw|] eqn:Hsw;
    [|by apply wp_ret, succeeds_ok].
  apply wp_if; intros Hz; [by apply wp_bind, wp_modc, wp_ret, succeeds_ok|].
  assert (Ham : 0 < send_amount quota (conn w) (available sw)).
  { zbool. unfold send_amount. lia. }
  destruct (read_chunk _ (pr_body p)) as [b' r] eqn:Hread.
  assert (Hend : forall f, wp (let! _ := write_frame f in
      let! _ := modc (finish_stream (pr_stream_id p)) in st_ret true) succeeds
      (mkWorld (set_pending_responses queue (conn w)) (io w) (env w))).
  { intros f. apply succeeds_bind; [by apply write_frame_succeeds|].
    intros _ w1 _ Hw1. by apply wp_bind, wp_modc, wp_ret, succeeds_ok. }
  destruct r as [[[|y d] done| |]|e]; cbv iota; try apply Hend.
  - destruct done; [apply Hend|by apply wp_bind, wp_modc, wp_ret, succeeds_ok].
  - destruct (read_chunk_data _ _ _ _ _ Ham Hb Hread) as [Hlen _].
    apply succeeds_bind; [eapply (send_data_succeeds quota _ _ _ _ sw); [done|exact Hsw|apply Hmax|exact Hlen]|].
    intros _ w1 _ Hw1. by apply wp_ret, succeeds_ok.
  - by apply wp_bind, wp_modc, wp_ret, succeeds_ok.
Qed.

Lemma schedule_rounds_succeeds cfg act n quota sent w :
  conn_inv cfg act ∅ (conn w) -> 0 < quota -> healthy w ->
  wp (schedule_rounds n quota sent) succeeds w.
Proof.
  revert sent w. induction n as [|n IH]; intros sent w Hinv Hq Hh; [by apply wp_ret, succeeds_ok|].
  apply succeeds_bind; [by eapply schedule_one_succeeds|]. intros sent1 w1 Hs Hw1.
  apply IH; try done. by apply (wp_elim _ _ _ _ _ Hs (wp_schedule_one cfg act quota sent w Hinv Hq)).
Qed.

(** The scheduler itself never runs into a flow-control error. *)
Lemma schedule_succeeds cfg w :
  conn_ok cfg (conn w) -> healthy w -> wp schedule_pending_responses succeeds w.
Proof.
  intros Hinv Hh. apply wp_bind, wp_gets, wp_if; intros Hz; [by apply wp_ret, succeeds_ok|].
  apply succeeds_bind; [eapply schedule_rounds_succeeds; [done|lia|done]|]. intros sent w1 _ Hw1.
  apply succeeds_bind; [|by intros _ w2 _ Hw2; apply wp_ret, succeeds_ok].
  destruct sent; [by apply flush_succeeds|by apply wp_ret, succeeds_ok].
Qed.
End Healthy.

(** ** A whole call *)

(** The outcome of every entry, in the order of the queue. *)
Inductive outcomes : list PendingResponse -> list Frame -> list PendingResponse -> Prop :=
| outs_nil : outcomes [] [] []
| outs_cons p fs rq ps fs' rq' :
    outcome p fs rq -> outcomes ps fs' rq' -> outcomes (p :: ps) (fs ++ fs') (rq ++ rq').

Lemma outcome_sids p fs rq : outcome p fs rq -> forall i, i ∈ map frame_sid fs -> i = pr_stream_id p.
Proof. destruct 1; cbn; set_solver. Qed.

Lemma outcomes_sids ps fs rq :
  outcomes ps fs rq -> forall i, i ∈ map frame_sid fs -> i ∈ map pr_stream_id ps.
Proof.
  induction 1 as [|p fs rq ps fs' rq' Ho Hos IH]; intros i; [done|].
  rewrite map_app, elem_of_app. cbn [map]. rewrite elem_of_cons.
  intros [Hi|Hi]; [left; by eapply outcome_sids|right; by apply IH].
Qed.

Lemma outcome_one p fs rq : outcome p fs rq -> data_for (pr_stream_id p) fs = data_total fs.
Proof. destruct 1; cbn [data_for data_total frame_sid header data_frame rst_frame stream_id];
  unfold frame_sid; cbn; rewrite ?Z.eqb_refl; done. Qed.

Section Calls.
Context `{UnicodeCase} {B : Backend}.
Context (cfg : ServerConfig).
Implicit Types (c : Conn) (w : World).

(** The credit of every stream is charged with what was sent on it. *)
Definition charged (c c' : Conn) (fs : list Frame) : Prop :=
  available (peer_connection_window c') = available (peer_connection_window c) - data_total fs /\
  data_total fs <= Z.max 0 (available (peer_connection_window c)) /\
  forall sid,
    (forall y, send_credit c' sid = Some y ->
       exists x, send_credit c sid = Some x /\ y = x - data_for sid fs) /\
    (forall x, send_credit c sid = Some x -> data_for sid fs <= Z.max 0 x) /\
    (send_credit c sid = None -> data_for sid fs = 0).

Lemma served_charged quota p w fs rq w' :
  served quota p w fs rq w' -> charged (conn w) (conn w') fs.
Proof.
  intros [Ho _ _ Ht Hcov Hoth (x & Hx & Hcx & Hx') _]. split_and!; [done..|]. intros sid.
  destruct (decide (sid = pr_stream_id p)) as [->|Hne].
  - rewrite (outcome_one _ _ _ Ho), Hx'. split_and!.
    + intros y Hy. exists x. split; [done|]. destruct rq; by simplify_eq.
    + intros x0 E. rewrite Hx in E. by injection E as <-.
    + congruence.
  - rewrite (Hoth sid Hne). rewrite data_for_absent.
    + split_and!; [intros y Hy; exists y; split; [done|lia]|intros; lia|done].
    + intros Hin. by eapply outcome_sids in Hin.
Qed.

Lemma charged_trans a b c fs gs :
  charged a b fs -> charged b c gs ->
  (forall sid, sid ∈ map frame_sid gs -> is_Some (send_credit b sid)) ->
  (forall sid, sid ∈ map frame_sid fs -> sid ∉ map frame_sid gs) ->
  charged a c (fs ++ gs).
Proof.
  intros (H1 & H2 & H3) (G1 & G2 & G3) Hlive Hdis. unfold charged.
  rewrite data_total_app. pose proof (data_total_nonneg fs). pose proof (data_total_nonneg gs).
  split_and!; [lia..|]. intros sid. rewrite data_for_app.
  destruct (H3 sid) as (A1 & A2 & A3). destruct (G3 sid) as (B1 & B2 & B3). split_and!.
  - intros y Hy. destruct (B1 y Hy) as (z & Hz & ->). destruct (A1 z Hz) as (x & Hx & ->).
    exists x. split; [done|lia].
  - intros x Hx. destruct (decide (sid ∈ map frame_sid gs)) as [Hin|Hn].
    + destruct (Hlive sid Hin) as [z Hz]. destruct (A1 z Hz) as (x' & Hx' & ->).
      rewrite (data_for_absent sid fs) in * by (intros Hf; by apply (Hdis sid)).
      specialize (B2 _ Hz). simplify_eq. lia.
    + rewrite (data_for_absent sid gs) by done. specialize (A2 x Hx). lia.
  - intros Hn. rewrite (A3 Hn). apply B3. destruct (send_credit b sid) as [z|] eqn:Hz; [|done].
    destruct (A1 z eq_refl) as (? & ? & _). congruence.
Qed.

Lemma pending_credit act c p :
  conn_inv cfg act ∅ c -> p ∈ pending_responses c -> is_Some (send_credit c (pr_stream_id p)).
Proof.
  intros Hinv Hp. unfold send_credit. apply fmap_is_Some, elem_of_dom.
  rewrite (inv_tracked _ _ _ _ Hinv). apply elem_of_union_l, elem_of_union_r, elem_of_list_to_set.
  unfold pending_ids. apply elem_of_app. left. by apply (list_elem_of_fmap_2 pr_stream_id).
Qed.

(** The result of serving the entries [ps] in turn; [rq0] are further back. *)
Record batch (quota : Z) (ps rq0 : list PendingResponse) (w : World) (fs : list Frame)
  (rq : list PendingResponse) (w' : World) : Prop := {
  batch_outcomes : outcomes ps fs rq;
  batch_wire : wire (io w') = wire (io w) ++ concat (map frame_encode fs);
  batch_size : Forall (fun f => len (frame_data f) <= Z.min quota (peer_max_frame_size (conn w))) fs;
  batch_charged : charged (conn w) (conn w') fs;
  batch_queue : pending_responses (conn w') = rq0 ++ rq;
}.

Lemma charged_refl c : charged c c [].
Proof.
  split_and!; cbn; [lia..|]. intros sid. split_and!; [|intros; lia|done].
  intros y Hy. exists y. split; [done|lia].
Qed.

Lemma wp_schedule_rounds_batch act quota ps rq0 sent w :
  conn_inv cfg act ∅ (conn w) -> 0 < quota -> pending_responses (conn w) = ps ++ rq0 ->
  wp (schedule_rounds (length ps) quota sent)
    (ok_post (fun sent' w' => exists fs rq, batch quota ps rq0 w fs rq w' /\
       sent' = sent || negb (bool_decide (fs = [])))) w.
Proof.
  revert rq0 sent w. induction ps as [|p ps IH]; intros rq0 sent w Hinv Hq Hqueue; cbn [length schedule_rounds].
  { apply wp_ret. exists [], []. split; [|by rewrite orb_false_r]. constructor; try done.
    - constructor.
    - by rewrite app_nil_r.
    - apply charged_refl.
    - by rewrite app_nil_r. }
  apply wp_bind. cbn [app] in Hqueue.
  eapply wp_mono; [apply wp_and;
    [by apply (wp_schedule_one_served cfg act)|by apply (wp_schedule_one cfg act)]|].
  intros w1 [sent1|] Hpost; [|done]. cbn in Hpost.
  destruct Hpost as ((fs & rq & Hserved & Hq1 & ->) & Hinv1 & _).
  assert (Hq1' : pending_responses (conn w1) = ps ++ (rq0 ++ rq)) by (by rewrite app_assoc).
  eapply wp_mono; [by apply (IH (rq0 ++ rq))|].
  intros w2 [sent2|] Hpost; [|done]. cbn in Hpost.
  destruct Hpost as (gs & rq' & [Ho Hw Hsz Hch Hqu] & ->).
  assert (Hnd : pr_stream_id p ∉ map pr_stream_id ps).
  { pose proof (inv_pending_nodup _ _ _ _ Hinv) as Hnd. unfold pending_ids in Hnd.
    rewrite Hqueue in Hnd. cbn [map app] in Hnd. apply NoDup_cons in Hnd as [Hnd _].
    intros Hin. apply Hnd. rewrite map_app. set_solver. }
  exists (fs ++ gs), (rq ++ rq'). split.
  2:{ cbn. destruct fs; cbn; [by rewrite orb_false_r|by rewrite orb_true_r]. }
  constructor.
  - by constructor; [apply (served_outcome _ _ _ _ _ _ Hserved)|].
  - rewrite Hw, (served_wire _ _ _ _ _ _ Hserved), map_app, concat_app. by rewrite app_assoc.
  - apply Forall_app_2; [apply (served_size _ _ _ _ _ _ Hserved)|].
    by rewrite <- (served_peer _ _ _ _ _ _ Hserved).
  - eapply charged_trans; [by eapply served_charged|done|..].
    + intros sid Hsid. apply (outcomes_sids _ _ _ Ho) in Hsid.
      apply (list_elem_of_fmap_1 pr_stream_id) in Hsid as (p' & -> & Hp').
      eapply pending_credit; [done|]. rewrite Hq1'. set_solver.
    + intros sid Hsid Hgs. apply (outcomes_sids _ _ _ Ho) in Hgs.
      apply (outcome_sids _ _ _ (served_outcome _ _ _ _ _ _ Hserved)) in Hsid. congruence.
  - by rewrite Hqu, app_assoc.
Qed.

Lemma outcomes_wait ps : outcomes ps [] ps.
Proof.
  induction ps as [|[sid b] ps IH]; [constructor|].
  apply (outs_cons (mkPendingResponse sid b) [] [mkPendingResponse sid b]); [|done].
  by apply (out_wait (mkPendingResponse sid b)).
Qed.

Lemma schedule_batch w w' sent :
  conn_ok cfg (conn w) -> schedule_pending_responses w = (w', Ok sent) ->
  exists fs rq,
    batch (Z.max (available (peer_connection_window (conn w)) / len (pending_responses (conn w))) 1)
      (pending_responses (conn w)) [] w fs rq w' /\
    sent = negb (bool_decide (fs = [])).
Proof.
  intros Hinv Hs. set (quota := Z.max _ 1).
  enough (Hwp : wp schedule_pending_responses (ok_post (fun sent w' => exists fs rq,
    batch quota (pending_responses (conn w)) [] w fs rq w' /\
    sent = negb (bool_decide (fs = [])))) w) by exact (wp_elim _ _ _ _ _ Hs Hwp).
  apply wp_bind, wp_gets, wp_if; intros Hz.
  { apply wp_ret. exists [], (pending_responses (conn w)). split; [|done].
    constructor; try done; [apply outcomes_wait|by rewrite app_nil_r|apply charged_refl]. }
  apply wp_bind. eapply wp_mono; [apply (wp_schedule_rounds_batch (active_streams (conn w)) _ _ []);
    [exact Hinv|lia|by rewrite app_nil_r]|].
  intros w1 [sent1|] Hpost; [|done]. cbn in Hpost. destruct Hpost as (fs & rq & Hb & ->).
  fold quota in Hb. destruct Hb.
  destruct (negb _) eqn:E; wp_steps; try done; exists fs, rq; (split; [|by rewrite E]);
    constructor; try done; cbn [io]; congruence.
Qed.

(** C3 (functional, safety): a call of the scheduler writes whole frames and
    nothing else; for every queued response it either sends the next bytes of
    its body as one DATA frame and keeps the rest queued, or sends the last
    bytes with END_STREAM, or resets the stream, or leaves the entry as it is.
    Bytes are neither lost, repeated nor reordered, no DATA frame is larger
    than the peer's maximum frame size, and each response gets at most its
    share of the connection window. *)
Theorem schedule_sends_bodies w w' sent :
  conn_ok cfg (conn w) -> schedule_pending_responses w = (w', Ok sent) ->
  let c := conn w in
  let share := Z.max (available (peer_connection_window c) / len (pending_responses c)) 1 in
  exists fs,
    wire (io w') = wire (io w) ++ concat (map frame_encode fs) /\
    outcomes (pending_responses c) fs (pending_responses (conn w')) /\
    Forall (fun f => len (frame_data f) <= Z.min share (peer_max_frame_size c)) fs /\
    sent = negb (bool_decide (fs = [])).
Proof.
  intros Hinv Hs c share. destruct (schedule_batch _ _ _ Hinv Hs) as (fs & rq & [Ho Hw Hsz _ Hq] & ->).
  exists fs. cbn [app] in Hq. rewrite Hq. done.
Qed.

(** C4 (safety): flow control.  The bytes a call of the scheduler sends are
    taken from the connection's send window and, stream by stream, from the
    streams' send windows; they never exceed what either window offered.  The
    sizes are chosen so that the charge always succeeds: while the transport
    accepts the frames, no call ends in a flow-control error. *)
Theorem schedule_respects_windows w :
  conn_ok cfg (conn w) ->
  (forall w' sent, schedule_pending_responses w = (w', Ok sent) ->
     exists fs,
       wire (io w') = wire (io w) ++ concat (map frame_encode fs) /\
       charged (conn w) (conn w') fs) /\
  (healthy w -> exists sent, snd (schedule_pending_responses w) = Ok sent).
Proof.
  intros Hinv. split; [|intros Hh; apply (schedule_succeeds cfg w Hinv Hh)].
  intros w' sent Hs. destruct (schedule_batch _ _ _ Hinv Hs) as (fs & rq & [_ Hw _ Hch _] & _). eauto.
Qed.
End Calls.

(** ** A run *)

Section Sample.
#[local] Existing Instance ascii_case.
#[local] Existing Instance hello_backend.

Lemma sample_conn_ok : conn_ok server_config_default (conn sample_world).
Proof.
  apply world_conn, (reachable_ok server_config_default ltac:(done) None); [done|].
  apply sample_reachable.
Qed.

#[local] Opaque sample_world.

Lemma schedule_sends_bodies_witness :
  snd (schedule_pending_responses sample_world) = Ok true /\
  exists fs, outcomes (pending_responses (conn sample_world)) fs
               (pending_responses (conn (fst (schedule_pending_responses sample_world)))).
Proof.
  assert (Hs : snd (schedule_pending_responses sample_world) = Ok true)
    by (vm_compute; reflexivity).
  split; [exact Hs|].
  destruct (schedule_sends_bodies server_config_default sample_world
              (fst (schedule_pending_responses sample_world)) true
              sample_conn_ok (pair_fst _ _ Hs)) as (fs & _ & Ho & _).
  exists fs. exact Ho.
Defined.

Lemma schedule_respects_windows_witness :
  exists fs, charged (conn sample_world) (conn (fst (schedule_pending_responses sample_world))) fs.
Proof.
  assert (Hs : snd (schedule_pending_responses sample_world) = Ok true)
    by (vm_compute; reflexivity).
  destruct (schedule_respects_windows server_config_default sample_world sample_conn_ok) as [Hw _].
  destruct (Hw (fst (schedule_pending_responses sample_world)) true (pair_fst _ _ Hs))
    as (fs & _ & Hc).
  exists fs. exact Hc.
Defined.
End Sample.
