(* ===== verification/Responses.v ===== *)
(** * Requests and responses on a connection

    How a header block travels: cut into HEADERS and CONTINUATION frames on the
    way out, reassembled on the way in; and the request a well-formed header
    list stands for. *)

From S2P Require Import Prelude RustStd Io Config Http Frame Hpack Flow Stream H2Headers Wp Connection ConnInv ConnReach.

(** ** Outgoing header blocks *)

(** [block] cut into CONTINUATION frames of at most [max] bytes, the last of
    which, and only that one, ends the headers. *)
Inductive continuations (sid max : Z) : bytes -> list Frame -> Prop :=
| conts_nil : continuations sid max [] []
| conts_cons b rest fs :
    0 < len b <= max -> continuations sid max rest fs ->
    continuations sid max (b ++ rest)
      (continuation_frame sid b (bool_decide (rest = [])) :: fs).

Section Outgoing.
Context `{UnicodeCase} {B : Backend}.
Implicit Types (w : World).

Lemma drop_slice l a b :
  0 <= a <= b -> b <= len l -> drop (Z.to_nat a) l = slice l a b ++ drop (Z.to_nat b) l.
Proof.
  intros Ha Hb. unfold slice.
  rewrite <- (take_drop (Z.to_nat (b - a)) (drop (Z.to_nat a) l)) at 1.
  rewrite drop_drop. do 2 f_equal. lia.
Qed.

Lemma drop_nil_iff (l : bytes) n :
  0 <= n <= len l -> bool_decide (drop (Z.to_nat n) l = []) = (n =? len l).
Proof.
  intros Hn. destruct (Z.eqb_spec n (len l)) as [->|Hne]; case_bool_decide as Hd; try done.
  - exfalso. apply Hd, drop_ge. unfold len. lia.
  - apply (f_equal length) in Hd. rewrite length_drop in Hd. cbn in Hd. unfold len in *. lia.
Qed.

Lemma wp_continuations fuel sid max block offset w :
  0 < max -> 0 <= offset <= len block ->
  wp (write_continuations fuel sid max block offset)
    (ok_post (fun _ w' => exists fs,
       continuations sid max (drop (Z.to_nat offset) block) fs /\
       wire (io w') = wire (io w) ++ concat (map frame_encode fs))) w.
Proof.
  intros Hmax. revert offset w. induction fuel as [|f IH]; intros offset w Ho;
    cbn [write_continuations]; apply wp_if; intros Hlt; zbool; try done.
  1,3: apply wp_ret; exists []; rewrite drop_ge by (unfold len in *; lia);
    split; [constructor|by rewrite app_nil_r].
  set (e := Z.min (offset + max) (len block)).
  assert (He : offset < e <= len block /\ e <= offset + max) by lia.
  apply wp_bind, wp_write_frame; [|done]. intros i Hi _.
  eapply wp_mono; [apply IH; lia|]. intros w' [u|] Hpost; [|done].
  destruct Hpost as (fs & Hfs & Hw). cbn [io] in *.
  exists (continuation_frame sid (slice block offset e) (e =? len block) :: fs). split.
  - rewrite (drop_slice block offset e), <- drop_nil_iff by lia.
    constructor; [|done]. rewrite slice_length; lia.
  - cbn [map concat]. by rewrite Hw, Hi, <- app_assoc.
Qed.

Lemma first_fragment block max :
  0 < max -> let e := Z.min (len block) max in
  block = slice block 0 e ++ drop (Z.to_nat e) block /\ len (slice block 0 e) <= max /\
  bool_decide (drop (Z.to_nat e) block = []) = (e =? len block).
Proof.
  intros Hmax e. pose proof (len_nonneg block).
  assert (He : 0 <= e <= len block /\ e <= max) by lia. split_and!.
  - rewrite <- (drop_slice block 0 e) by lia. by rewrite drop_0.
  - rewrite slice_length; lia.
  - apply drop_nil_iff. lia.
Qed.

(** The length of the block is enough fuel for the loop. *)
Lemma write_continuations_fuel sid max block f1 f2 offset w :
  0 < max -> 0 <= offset <= len block ->
  (length block <= f1 + Z.to_nat offset)%nat -> (length block <= f2 + Z.to_nat offset)%nat ->
  write_continuations f1 sid max block offset w = write_continuations f2 sid max block offset w.
Proof.
  intros Hmax. revert f2 offset w. induction f1 as [|f1 IH]; intros [|f2] offset w Ho H1 H2;
    cbn [write_continuations]; try done.
  1,2: destruct (Z.ltb_spec offset (len block)); [unfold len in *; lia|done].
  destruct (Z.ltb_spec offset (len block)) as [Hlt|]; [|done]. unfold st_bind.
  destruct (write_frame _ w) as [w1 [u|]]; [|done]. unfold len in *. apply IH; lia.
Qed.

#[local] Opaque encode_headers.

(** C8 (functional): a response's header list is encoded once and leaves as one
    HEADERS frame followed by CONTINUATION frames, none larger than the peer's
    maximum, whose fragments put together are the encoded list; exactly the
    last frame ends the headers, and the HEADERS frame ends the stream exactly
    when there is no body.  The loop's fuel is never what stops it. *)
Theorem response_headers_framed sid resp dyn w w' :
  0 < peer_max_frame_size (conn w) ->
  queue_h2_stream_response sid resp dyn w = (w', Ok tt) ->
  let max := peer_max_frame_size (conn w) in
  let block := encode_headers (response_fields resp) in
  (exists first rest fs,
     block = first ++ rest /\ len first <= max /\ continuations sid max rest fs /\
     wire (io w') = wire (io w)
       ++ frame_encode (headers_frame sid first (negb (has_body resp dyn)) (bool_decide (rest = [])))
       ++ concat (map frame_encode fs)) /\
  (forall fuel w1, (length block <= fuel)%nat ->
     write_continuations fuel sid max block (Z.min (len block) max) w1 =
     write_continuations (length block) sid max block (Z.min (len block) max) w1).
Proof.
  intros Hmax Hq max block. split.
  2:{ intros fuel w1 Hf. pose proof (len_nonneg block). apply write_continuations_fuel; lia. }
  set (e := Z.min (len block) max). pose proof (len_nonneg block) as Hlb.
  enough (Hwp : wp (queue_h2_stream_response sid resp dyn) (ok_post (fun _ w' => exists fs,
      continuations sid max (drop (Z.to_nat e) block) fs /\
      wire (io w') = wire (io w)
        ++ frame_encode (headers_frame sid (slice block 0 e) (negb (has_body resp dyn))
                           (e =? len block))
        ++ concat (map frame_encode fs))) w).
  { destruct (wp_elim _ _ _ _ _ Hq Hwp) as (fs & Hfs & Hw).
    destruct (first_fragment block max Hmax) as (H1 & H2 & H3). fold e in H1, H2, H3.
    exists (slice block 0 e), (drop (Z.to_nat e) block), fs. rewrite H3. done. }
  unfold queue_h2_stream_response. apply wp_bind, wp_gets, wp_bind, wp_write_frame; [|done].
  intros i Hi _. apply wp_bind. eapply wp_mono; [apply wp_continuations; [done|fold block; lia]|].
  intros w1 [u|] Hpost; [|done]. destruct Hpost as (fs & Hfs & Hw1). cbn [io] in Hw1.
  eapply (wp_mono _ (ok_post (fun _ w' => wire (io w') = wire (io w1)))).
  { unfold pending_body_of, file_call. wp_steps; done. }
  intros w2 [v|] Hw2; [|done]. cbn in Hw2. exists fs. split; [done|].
  rewrite Hw2, Hw1, Hi. by rewrite <- app_assoc.
Qed.
End Outgoing.

(** ** Incoming header blocks *)

Section Incoming.
Context `{UnicodeCase} {B : Backend}.
Implicit Types (w : World).

Fixpoint run_frames (fs : list Frame) (peer : option SocketAddr) : M unit :=
  match fs with
  | [] => st_ret tt
  | f :: fs => let! _ := process_frame f peer in run_frames fs peer
  end.

(** CONTINUATION frames with the given fragments. *)
Fixpoint fragment_frames (sid : Z) (bs : list bytes) : list Frame :=
  match bs with
  | [] => []
  | [b] => [continuation_frame sid b true]
  | b :: bs => continuation_frame sid b false :: fragment_frames sid bs
  end.

Lemma run_one f peer w : run_frames [f] peer w = process_frame f peer w.
Proof.
  cbn [run_frames]. unfold st_bind, st_ret. by destruct (process_frame f peer w) as [w' [[]|]].
Qed.

(** A fragment that does not end the headers is only stored. *)
Lemma process_fragment sid b peer w :
  pending_headers_stream_id (conn w) = Some sid ->
  len (pending_header_block (conn w)) + len b <= http2_max_header_block_size (config (conn w)) ->
  http2_max_header_block_size (config (conn w)) <= USIZE_MAX ->
  process_frame (continuation_frame sid b false) peer w =
  (mkWorld (set_pending_header_block (pending_header_block (conn w) ++ b) (conn w)) (io w) (env w),
   Ok tt).
Proof.
  intros Hp Hl Hm. unfold process_frame, process_continuation, st_bind, gets, modc, st_ret.
  cbn [continuation_frame header payload stream_id frame_type conn io env].
  rewrite Hp. cbn [continuation_allowed stream_id]. rewrite Z.eqb_refl. cbn [andb frame_type].
  rewrite bool_decide_true by done. cbn [negb].
  replace (_ >? USIZE_MAX) with false by (symmetry; rewrite Z.gtb_ltb; apply Z.ltb_ge; lia).
  replace (_ >? http2_max_header_block_size _) with false
    by (symmetry; rewrite Z.gtb_ltb; apply Z.ltb_ge; lia). done.
Qed.

(** The last fragment completes the block. *)
Lemma process_last_fragment sid b peer w :
  pending_headers_stream_id (conn w) = Some sid ->
  len (pending_header_block (conn w)) + len b <= http2_max_header_block_size (config (conn w)) ->
  http2_max_header_block_size (config (conn w)) <= USIZE_MAX ->
  process_frame (continuation_frame sid b true) peer w =
  (let! decoded :=
     on_decoder (fun d => decode_header_block d (pending_header_block (conn w) ++ b)) in
   let! _ := modc (set_pending_header_block []) in
   let! streams := gets active_streams in
   match streams !! sid with
   | Some st => headers_complete sid st decoded (received_end_stream st) peer
   | None => st_ret tt
   end)
  (mkWorld (set_pending_headers_stream_id None
     (set_pending_header_block (pending_header_block (conn w) ++ b) (conn w))) (io w) (env w)).
Proof.
  intros Hp Hl Hm. unfold process_frame, process_continuation. unfold st_bind at 1 2 3.
  unfold gets at 1 2 3.
  cbn [continuation_frame header payload stream_id frame_type conn io env].
  rewrite Hp. cbn [continuation_allowed stream_id]. rewrite Z.eqb_refl. cbn [andb frame_type].
  rewrite bool_decide_true by done. cbn [negb].
  replace (_ >? USIZE_MAX) with false by (symmetry; rewrite Z.gtb_ltb; apply Z.ltb_ge; lia).
  replace (_ >? http2_max_header_block_size _) with false
    by (symmetry; rewrite Z.gtb_ltb; apply Z.ltb_ge; lia). reflexivity.
Qed.

Lemma last_fragment sid a b peer w :
  let w1 := mkWorld (set_pending_header_block (pending_header_block (conn w) ++ a) (conn w))
              (io w) (env w) in
  pending_headers_stream_id (conn w) = Some sid ->
  len (pending_header_block (conn w)) + len (a ++ b)
    <= http2_max_header_block_size (config (conn w)) ->
  http2_max_header_block_size (config (conn w)) <= USIZE_MAX ->
  process_frame (continuation_frame sid b true) peer w1 =
  process_frame (continuation_frame sid (a ++ b) true) peer w.
Proof.
  intros w1 Hp Hl Hm. rewrite len_app in Hl. rewrite !process_last_fragment; try done.
  - unfold w1. cbn [conn io env]. conn_simpl. by rewrite app_assoc.
  - rewrite len_app. lia.
  - unfold w1. cbn [conn]. conn_simpl. rewrite len_app. lia.
Qed.

Lemma run_fragments sid bs b peer w :
  pending_headers_stream_id (conn w) = Some sid ->
  len (pending_header_block (conn w)) + len (concat (b :: bs))
    <= http2_max_header_block_size (config (conn w)) ->
  http2_max_header_block_size (config (conn w)) <= USIZE_MAX ->
  run_frames (fragment_frames sid (b :: bs)) peer w =
  process_frame (continuation_frame sid (concat (b :: bs)) true) peer w.
Proof.
  revert b w. induction bs as [|b' bs IH]; intros b w Hp Hl Hm.
  - cbn [fragment_frames concat]. by rewrite app_nil_r, run_one.
  - change (fragment_frames sid (b :: b' :: bs)) with
      (continuation_frame sid b false :: fragment_frames sid (b' :: bs)).
    cbn [run_frames]. unfold st_bind. cbn [concat] in Hl. rewrite len_app in Hl.
    pose proof (len_nonneg (concat (b' :: bs))). cbn [concat] in *.
    rewrite process_fragment by (done || lia). rewrite IH; cbn [conn]; conn_simpl; try done.
    + apply last_fragment; [done| |done]. rewrite len_app. cbn [concat]. lia.
    + rewrite len_app. cbn [concat]. lia.
Qed.

(** The stream an accepted HEADERS frame opens, and the state it leaves. *)
Definition opened_stream (c : Conn) (sid : Z) (es : bool) : Stream :=
  mkStream sid Open (window_new (initial_stream_window_size (flow_control c)))
    (window_new (peer_initial_stream_window_size c)) [] [] es false.

Definition opened (w : World) (sid : Z) (es : bool) : World :=
  let c := conn w in
  mkWorld (set_active_streams (<[sid := opened_stream c sid es]> (active_streams c))
    (set_send_stream_windows
       (<[sid := window_new (peer_initial_stream_window_size c)]> (send_stream_windows c))
       (set_last_stream_id sid c))) (io w) (env w).

Definition acceptable (w : World) (sid : Z) : Prop :=
  pending_headers_stream_id (conn w) = None /\ is_client_initiated sid = true /\
  last_stream_id (conn w) < sid /\ can_accept_new_stream (conn w) = true.

Lemma process_accepted sid blk es eh peer w :
  acceptable w sid ->
  process_frame (headers_frame sid blk es eh) peer w =
  (if eh then
     let! decoded := on_decoder (fun d => decode_header_block d blk) in
     headers_complete sid (opened_stream (conn w) sid es) decoded es peer
   else if len blk >? http2_max_header_block_size (config (conn w)) then st_err EnhanceYourCalm
   else
     let! _ := modc (set_pending_headers_stream_id (Some sid)) in
     modc (set_pending_header_block blk)) (opened w sid es).
Proof.
  intros (Hp & Hodd & Hlast & Hacc). unfold process_frame, process_headers, open_stream.
  unfold is_client_initiated in Hodd. apply andb_true_iff in Hodd as [Hpos Hmod].
  assert (Hz : (sid =? 0) = false) by (apply Z.eqb_neq; zbool; lia).
  assert (Hle : (sid <=? last_stream_id (conn w)) = false) by (apply Z.leb_gt; lia).
  apply negb_true_iff in Hmod.
  cbn [headers_frame header payload stream_id].
  unfold st_bind, gets, modc, st_res, st_ret. cbn [conn io env]. rewrite Hp.
  cbn [continuation_allowed frame_type]. rewrite bool_decide_false by done. cbn [negb].
  unfold is_client_initiated. rewrite Hz, Hpos, Hmod. cbn [orb negb andb]. conn_simpl. rewrite Hle.
  change (can_accept_new_stream (set_last_stream_id sid (conn w)))
    with (can_accept_new_stream (conn w)). rewrite Hacc. cbn [negb].
  unfold stream_new. rewrite Hz, Hmod. cbn [orb conn io env]. conn_simpl.
  cbn [transition_to with_send_window state with_state with_received_end_stream].
  destruct eh; [done|]. cbn [conn]. conn_simpl. by destruct (_ >? _).
Qed.

(** The fragment buffer, which no one reads after an error, is left out. *)
Definition clear_block {A} (x : World * A) : World * A :=
  (mkWorld (set_pending_header_block [] (conn (fst x))) (io (fst x)) (env (fst x)), snd x).

(** C7 (equivalence): how a client cuts a header block into fragments makes no
    difference, for a new stream the connection has room for and a block within
    http2_max_header_block_size.  A HEADERS frame followed by any number of
    CONTINUATION frames has the effect of a single HEADERS frame with the whole
    block, on the state, the output and the result.  (Of a stream there is no room
    for the block is not decoded, [refused_stream_not_decoded]; the limit is
    checked only of a block in fragments.) *)
Theorem fragmentation_invisible sid b bs es peer w :
  acceptable w sid -> pending_header_block (conn w) = [] -> bs <> [] ->
  len (b ++ concat bs) <= http2_max_header_block_size (config (conn w)) ->
  http2_max_header_block_size (config (conn w)) <= USIZE_MAX ->
  clear_block (run_frames (headers_frame sid b es false :: fragment_frames sid bs) peer w) =
  clear_block (process_frame (headers_frame sid (b ++ concat bs) es true) peer w).
Proof.
  intros Hacc Hblk Hne Hl Hm. destruct bs as [|b1 bs]; [done|]. rewrite len_app in Hl.
  pose proof (len_nonneg (concat (b1 :: bs))) as Hrest. destruct Hacc as (Hp & Hacc).
  cbn [run_frames]. unfold st_bind at 1. rewrite !process_accepted by done.
  replace (len b >? _) with false by (symmetry; rewrite Z.gtb_ltb; apply Z.ltb_ge; lia).
  unfold st_bind at 1, modc at 1 2. cbn [conn io env opened].
  rewrite run_fragments, process_last_fragment; cbn [conn]; conn_simpl; try done.
  unfold st_bind, on_decoder, st_bind, gets, modc, st_res. cbn [conn io env opened]. conn_simpl.
  destruct (decode_header_block _ _) as [d [decoded|e]]; cbn [conn io env]; conn_simpl.
  - rewrite lookup_insert_eq. cbn [received_end_stream opened_stream]. f_equal. f_equal.
    destruct w as [c i e]. destruct c. cbn in *. by subst.
  - unfold clear_block. cbn [fst snd conn io env]. do 2 f_equal.
    destruct w as [c i e']. destruct c. cbn in *. by subst.
Qed.

(** A stream refused for lack of room is answered with
    RST_STREAM(REFUSED_STREAM), but its header block is not decoded: the HPACK
    state stays as it was and no CONTINUATION is expected, so that a refused
    request in several fragments ends the connection with PROTOCOL_ERROR. *)
Theorem refused_stream_not_decoded sid block es eh peer w w' :
  pending_headers_stream_id (conn w) = None -> is_client_initiated sid = true ->
  last_stream_id (conn w) < sid -> can_accept_new_stream (conn w) = false ->
  process_frame (headers_frame sid block es eh) peer w = (w', Ok tt) ->
  wire (io w') = wire (io w) ++ frame_encode (rst_frame sid RefusedStream) /\
  hpack_decoder (conn w') = hpack_decoder (conn w) /\
  active_streams (conn w') = active_streams (conn w) /\
  send_stream_windows (conn w') = send_stream_windows (conn w) /\
  forall b end_headers, snd (process_frame (continuation_frame sid b end_headers) peer w')
                        = Err ProtocolError.
Proof.
  intros Hp Hodd Hlast Hacc Hrun.
  enough (Hwp : wp (process_frame (headers_frame sid block es eh) peer) (ok_post (fun _ w' =>
    wire (io w') = wire (io w) ++ frame_encode (rst_frame sid RefusedStream) /\
    hpack_decoder (conn w') = hpack_decoder (conn w) /\
    active_streams (conn w') = active_streams (conn w) /\
    send_stream_windows (conn w') = send_stream_windows (conn w) /\
    pending_headers_stream_id (conn w') = None)) w).
  { destruct (wp_elim _ _ _ _ _ Hrun Hwp) as (H1 & H2 & H3 & H4 & H5). split_and!; try done.
    intros b end_headers. unfold process_frame, st_bind, gets. rewrite H5.
    cbn [continuation_frame header frame_type continuation_allowed].
    by rewrite bool_decide_true by done. }
  apply wp_bind, wp_gets. rewrite Hp. apply wp_if; intros _; [done|]. apply wp_if; intros _; [done|].
  apply wp_bind, wp_gets, wp_if; intros Hle; [done|]. apply wp_bind, wp_modc, wp_bind, wp_gets.
  change (can_accept_new_stream _) with (can_accept_new_stream (conn w)). rewrite Hacc.
  apply wp_bind, wp_write_frame; [|done]. intros i Hi _. apply wp_modc. cbn [ok_post conn io] in *.
  unfold mark_closed_stream. by case_bool_decide.
Qed.
End Incoming.

(** ** The request a header list stands for *)

Section Requests.
Context `{UnicodeCase} {B : Backend}.

(** The value of the pseudo-header [name] in a list, or a default. *)
Definition pseudo_value {A} (f : bytes -> A) (default : A) (name : bytes) (ps : header_list)
  (x : A) : Prop :=
  (forall v, (name, v) ∈ ps -> x = f v) /\ (name ∉ map fst ps -> x = default).

Lemma pseudo_value_cons {A} (f : bytes -> A) d name n v ps x :
  n ∉ map fst ps ->
  pseudo_value f (if bytes_eqb n name then f v else d) name ps x ->
  pseudo_value f d name ((n, v) :: ps) x.
Proof.
  intros Hn [H1 H2]. destruct (bytes_eqb n name) eqn:E.
  - apply bytes_eqb_eq in E as ->. split.
    + intros v' [E|Hin]%elem_of_cons; [simplify_eq; by apply H2|by apply H1].
    + cbn. intros Hc. set_solver.
  - apply bytes_eqb_neq in E. split.
    + intros v' [E'|Hin]%elem_of_cons; [by simplify_eq|by apply H1].
    + cbn. intros Hc. apply H2. set_solver.
Qed.

Lemma fold_pseudo ps p0 :
  Forall pseudo_ok ps -> NoDup (map fst ps) ->
  let p := fold_left request_part ps p0 in
  parts_headers p = parts_headers p0 /\
  pseudo_value method_from (parts_method p0) (str ":method") ps (parts_method p) /\
  pseudo_value (fun v => v) (parts_uri p0) (str ":path") ps (parts_uri p) /\
  pseudo_value Some (parts_authority p0) (str ":authority") ps (parts_authority p).
Proof.
  intros Hps. revert p0. induction Hps as [|[n v] ps [_ Hk] _ IH]; intros p0 Hnd.
  - cbn. split_and!; try done; (split; [set_solver|done]).
  - cbn [map fst] in Hnd. apply NoDup_cons in Hnd as [Hn Hnd]. cbn [fold_left fst] in *.
    destruct (IH (request_part p0 (n, v)) Hnd) as (H1 & H2 & H3 & H4).
    rewrite H1. unfold KNOWN_PSEUDO in Hk. rewrite !elem_of_cons, elem_of_nil in Hk.
    split_and!.
    + destruct_or! Hk; by subst n.
    + apply pseudo_value_cons; [done|]. destruct_or! Hk; by subst n.
    + apply pseudo_value_cons; [done|]. destruct_or! Hk; by subst n.
    + apply pseudo_value_cons; [done|]. destruct_or! Hk; by subst n.
Qed.

Lemma request_part_regular p h :
  starts_with (fst h) (str ":") = false ->
  request_part p h =
  mkParts (parts_method p) (parts_uri p) (parts_headers p ++ [h]) (parts_authority p).
Proof.
  destruct h as [n v]. cbn [fst]. intros Hc. unfold request_part.
  repeat match goal with |- context [bytes_eqb n ?lit] =>
    destruct (bytes_eqb n lit) eqn:E; [apply bytes_eqb_eq in E; subst n; discriminate Hc|clear E]
  end. by rewrite Hc.
Qed.

Lemma fold_regular rs p :
  Forall regular_ok rs ->
  fold_left request_part rs p =
  mkParts (parts_method p) (parts_uri p) (parts_headers p ++ rs) (parts_authority p).
Proof.
  intros Hrs. revert p. induction Hrs as [|h rs (_ & Hc & _) _ IH]; intros p; cbn [fold_left].
  - rewrite app_nil_r. by destruct p.
  - rewrite request_part_regular by done. rewrite IH. cbn. by rewrite <- app_assoc.
Qed.

(** C9 (functional): the request handed to the handlers is the one the header
    list describes: method and target are the values of [:method] and [:path]
    ("/" when absent), the regular fields follow in order, [:authority] becomes
    the [Host] field and no other pseudo-header remains; the body is the
    stream's body. *)
Theorem h2_request_faithful st :
  well_formed_request (request_headers st) ->
  exists ps rs, request_headers st = ps ++ rs /\ Forall pseudo_ok ps /\ Forall regular_ok rs /\
    (forall m, (str ":method", m) ∈ ps -> method (h2_request st) = method_from m) /\
    pseudo_value (fun v => v) (str "/") (str ":path") ps (uri (h2_request st)) /\
    pseudo_value (fun a => rs ++ [(str "Host", a)]) rs (str ":authority") ps
      (headers (h2_request st)) /\
    body (h2_request st) = request_body st /\ version (h2_request st) = str "HTTP/2.0".
Proof.
  intros (ps & rs & Hhs & Hps & Hrs & Hnd & _). exists ps, rs. split_and!; try done;
    unfold h2_request; rewrite Hhs, fold_left_app, fold_regular by done;
    cbn [parts_method parts_uri parts_headers parts_authority method uri headers];
    destruct (fold_pseudo ps (mkParts Get (str "/") [] None) Hps Hnd) as (H1 & [H2 _] & H3 & [H4 H5]).
  - done.
  - done.
  - rewrite H1. split.
    + intros a Ha. by rewrite (H4 a Ha).
    + intros Ha. by rewrite (H5 Ha), app_nil_r.
Qed.
End Requests.

(** ** Runs *)

Section Samples.
#[local] Existing Instance ascii_case.
#[local] Existing Instance hello_backend.

Definition hello_response : HttpResponse :=
  with_body (response_new StatusOk) (str "hello") (str "text/plain").

Lemma response_headers_framed_witness :
  exists first rest fs,
    encode_headers (response_fields hello_response) = first ++ rest /\
    continuations 5 (peer_max_frame_size (conn sample_enter)) rest fs.
Proof.
  assert (Hq : snd (queue_h2_stream_response 5 hello_response None sample_enter) = Ok tt)
    by (vm_compute; reflexivity).
  destruct (response_headers_framed 5 hello_response None sample_enter
              (fst (queue_h2_stream_response 5 hello_response None sample_enter)))
    as [(first & rest & fs & H1 & _ & H3 & _) _]; [vm_compute; reflexivity|exact (pair_fst _ _ Hq)|].
  exists first, rest, fs. split; [exact H1|exact H3].
Defined.

Lemma fragmentation_invisible_witness :
  let block := encode_headers get_request in
  clear_block (run_frames (headers_frame 1 (take 1 block) true false
     :: fragment_frames 1 [take 1 (drop 1 block); drop 2 block]) None sample_enter) =
  clear_block (process_frame (headers_frame 1
     (take 1 block ++ concat [take 1 (drop 1 block); drop 2 block]) true true) None sample_enter).
Proof.
  intros block. apply (fragmentation_invisible 1 (take 1 block)
    [take 1 (drop 1 block); drop 2 block] true None sample_enter).
  - split_and!; vm_compute; reflexivity.
  - vm_compute; reflexivity.
  - discriminate.
  - vm_compute. discriminate.
  - vm_compute. discriminate.
Defined.

(** A connection that accepts no stream. *)
Definition full_world : World :=
  mkWorld (mkConn server_config_default false (hpack_decoder_new 4096 65536)
             (flow_control_new 65535) 16384 16384 (window_new 65535) 65535 ∅ 0 ∅ 0 None []
             [] [] [] [] []) (mkIo [] [] []) tt.

Lemma refused_stream_not_decoded_witness :
  hpack_decoder (conn (fst (process_frame (headers_frame 1 (encode_headers get_request) true false)
                              None full_world))) = hpack_decoder (conn full_world).
Proof.
  assert (Hq : snd (process_frame (headers_frame 1 (encode_headers get_request) true false)
                      None full_world) = Ok tt) by (vm_compute; reflexivity).
  eapply (refused_stream_not_decoded 1 (encode_headers get_request) true false None full_world);
    [reflexivity|reflexivity|reflexivity|reflexivity|exact (pair_fst _ _ Hq)].
Defined.

Lemma get_request_ok : well_formed_request get_request.
Proof.
  exists get_request, []. rewrite app_nil_r. split_and!; [done| |constructor| |].
  - repeat constructor; try (apply (bool_decide_unpack _); exact I); try done;
      apply name_ok_spec; reflexivity.
  - apply (bool_decide_unpack _). exact I.
  - exists (str "GET"). split; [apply (bool_decide_unpack _); exact I|]. right. split.
    + exists (str "https"). apply (bool_decide_unpack _). exact I.
    + exists (str "/"). apply (bool_decide_unpack _). exact I.
Qed.

Lemma h2_request_faithful_witness :
  let st := mkStream 1 HalfClosedRemote (window_new 1) (window_new 1) get_request [] true true in
  exists ps rs, get_request = ps ++ rs /\
    pseudo_value (fun v => v) (str "/") (str ":path") ps (uri (h2_request st)).
Proof.
  intros st. destruct (h2_request_faithful st get_request_ok) as (ps & rs & H1 & _ & _ & _ & H2 & _).
  exists ps, rs. split; [exact H1|exact H2].
Defined.
End Samples.
