(* ===== verification/Termination.v ===== *)
(** * The main loop ends

    [handle_connection] loops until the peer closes, an error occurs or the
    transport fails.  Against a peer whose script is finite every round makes
    progress, so the loop returns: a round consumes input, or starts an awaited
    response, or finishes a queued one, or spends send window. *)

From S2P Require Import Prelude RustStd Io Config Http Frame Hpack Flow Stream H2Headers Wp Connection ConnInv ConnReach Scheduler.

Section Termination.
Context `{UnicodeCase} {B : Backend}.
Implicit Types (c : Conn) (w : World).

(** ** Reading *)

(** Input not yet processed. *)
Definition input_left (w : World) : nat :=
  (reader_size (incoming (io w)) + length (read_buffer (conn w)))%nat.

Lemma read_size_exact r n r' x :
  read r n = (r', x) ->
  match x with
  | ReadOk d => (reader_size r' + length d <= reader_size r)%nat
  | ReadWouldBlock => (reader_size r' < reader_size r)%nat
  | ReadErr => (reader_size r' <= reader_size r)%nat
  end.
Proof.
  unfold read. destruct r as [|[d| |] r]; [by intros [= <- <-]| |by intros [= <- <-]; cbn; lia..].
  destruct (Z.leb_spec (len d) n); intros [= <- <-]; cbn; [lia|].
  rewrite length_drop, length_take. lia.
Qed.

(** Reading moves input, and a time-out uses some of it up. *)
Lemma fill_input fuel chunk n w w' r :
  fill fuel chunk n w = (w', r) ->
  (input_left w' <= input_left w)%nat /\ (r = FillTimedOut -> (input_left w' < input_left w)%nat).
Proof.
  revert w. induction fuel as [|f IH]; intros w; cbn [fill]; (case_match; [|by intros [= <- <-]]).
  - by intros [= <- <-].
  - unfold io_read. destruct (read (incoming (io w)) chunk) as [i x] eqn:Hr.
    apply read_size_exact in Hr. unfold input_left.
    destruct x as [[|b d]| |].
    + intros [= <- <-]. cbn in *. split; [lia|done].
    + intros [Hle Hlt]%IH. unfold input_left, extend_read_buffer in *. cbn [conn io incoming] in *.
      conn_simpl. rewrite length_app in *. split; [lia|]. intros E. specialize (Hlt E). lia.
    + intros [= <- <-]. cbn in *. split; [lia|intros; lia].
    + intros [= <- <-]. cbn in *. split; [lia|done].
Qed.

(** The size of the peer's script is enough fuel for the loop. *)
Lemma fill_fuel f1 f2 chunk n w :
  0 < chunk -> (reader_size (incoming (io w)) < f1)%nat -> (reader_size (incoming (io w)) < f2)%nat ->
  fill f1 chunk n w = fill f2 chunk n w.
Proof.
  intros Hc. revert f2 w. induction f1 as [|f1 IH]; intros [|f2] w H1 H2; [lia..|].
  cbn [fill]. destruct (_ <? n); [|done]. unfold io_read.
  destruct (read (incoming (io w)) chunk) as [i x] eqn:Hr.
  destruct (read_size _ _ _ _ Hc Hr) as [E|Hlt].
  - rewrite E in Hr. cbn in Hr. by simplify_eq.
  - destruct x as [[|b d]| |]; try done. apply IH; cbn; lia.
Qed.

(** ** Awaited responses *)

Definition awaiting (w : World) : nat := length (pending_header_responses (conn w)).

(** Sending leaves the awaited responses alone. *)
Definition same_awaited (w w' : World) : Prop :=
  pending_header_responses (conn w') = pending_header_responses (conn w).

#[local] Instance same_awaited_growth : Growth same_awaited.
Proof. split; [|done]. split; [done|]. intros x y z. unfold same_awaited. congruence. Qed.

Lemma awaited_finish sid : respects same_awaited (modc (finish_stream sid)).
Proof.
  apply (respects_modc same_awaited). intros w. unfold same_awaited, finish_stream, mark_closed_stream.
  by case_bool_decide.
Qed.
#[local] Hint Resolve awaited_finish : respects.

Lemma awaited_continuations fuel sid max block offset :
  respects same_awaited (write_continuations fuel sid max block offset).
Proof. revert offset. induction fuel; intros offset; cbn [write_continuations]; stable_tac. Qed.
#[local] Hint Resolve awaited_continuations : respects.

Lemma awaited_queue sid resp body :
  respects same_awaited (queue_h2_stream_response sid resp body).
Proof. unfold queue_h2_stream_response, pending_body_of, file_call. stable_tac. Qed.

Lemma awaited_schedule : respects same_awaited schedule_pending_responses.
Proof.
  assert (Hrounds : forall n quota b, respects same_awaited (schedule_rounds n quota b)).
  { induction n as [|n IH]; intros quota b; cbn [schedule_rounds]; [stable_tac|].
    apply (respects_bind same_awaited); [unfold schedule_one, send_data; stable_tac|intros; apply IH]. }
  unfold schedule_pending_responses. stable_tac.
Qed.

(** What a poll does to the queues: progress removes an awaited response, and
    without progress nothing has changed but the state of the sources. *)
Definition polled (b b' : bool) (w w' : World) : Prop :=
  (awaiting w' <= awaiting w)%nat /\
  (b' = true -> b = true \/ (awaiting w' < awaiting w)%nat) /\
  (b' = false -> awaiting w' = awaiting w /\
                 pending_responses (conn w') = pending_responses (conn w)) /\
  (b = true -> b' = true).

Lemma wp_poll_one_polled b w : wp (poll_one b) (ok_post (fun b' w' => polled b b' w w')) w.
Proof.
  apply wp_bind, wp_gets. unfold polled, awaiting.
  destruct (pending_header_responses (conn w)) as [|p queue] eqn:Hq.
  { apply wp_ret. cbn [ok_post]. rewrite Hq. split_and!; [done|by left|done|done]. }
  apply wp_bind, wp_modc, wp_bind, wp_call. intros e [source res] _.
  destruct res as [[h|]|]; cbv beta iota zeta.
  - match goal with |- context [negotiate_compression ?p h] =>
      destruct (negotiate_compression p h) as [[resp reader] rem] end.
    apply wp_bind. eapply wp_mono; [apply awaited_queue|]. intros w' [u|] Hs; [|done].
    apply wp_ret. unfold same_awaited in Hs. cbn [ok_post conn] in *. rewrite Hs. conn_simpl.
    cbn [length]. split_and!; [lia|right; lia|done|done].
  - apply wp_bind, wp_modc, wp_ret. cbn [ok_post conn]. conn_simpl. rewrite length_app.
    cbn [length]. split_and!; [lia|by left|intros _; split; [lia|done]|done].
  - apply wp_bind, wp_write_frame; [|done]. intros i _ _. apply wp_bind.
    eapply wp_mono; [apply awaited_finish|]. intros w' [u|] Hs; [|done].
    apply wp_ret. unfold same_awaited in Hs. cbn [ok_post conn] in *. rewrite Hs. conn_simpl.
    cbn [length]. split_and!; [lia|right; lia|done|done].
Qed.

Lemma polled_trans b1 b2 b3 w1 w2 w3 :
  polled b1 b2 w1 w2 -> polled b2 b3 w2 w3 -> polled b1 b3 w1 w3.
Proof.
  intros (L1 & T1 & F1 & M1) (L2 & T2 & F2 & M2). split_and!; [lia|..].
  - intros E. destruct (T2 E) as [->|Hlt]; [|right; lia].
    destruct (T1 eq_refl) as [->|Hlt]; [by left|right; lia].
  - intros ->. destruct (F2 eq_refl) as [E2 Q2].
    destruct b2; [by specialize (M2 eq_refl)|]. destruct (F1 eq_refl). split; congruence.
  - auto.
Qed.

Lemma poll_polled w w' b : poll_pending_headers w = (w', Ok b) -> polled false b w w'.
Proof.
  assert (Hrounds : forall n b w, wp (poll_rounds n b) (ok_post (fun b' w' => polled b b' w w')) w).
  { induction n as [|n IH]; intros b0 w0; cbn [poll_rounds].
    - apply wp_ret. unfold polled. cbn. split_and!; [done|by left|done|done].
    - apply wp_bind. eapply wp_mono; [apply wp_poll_one_polled|]. intros w1 [b1|] H1; [|done].
      eapply wp_mono; [apply IH|]. intros w2 [b2|] H2; [|done]. by eapply polled_trans. }
  intros Hp. eapply (wp_elim _ (ok_post (fun b' w' => polled false b' w w')) _ _ _ Hp).
  apply wp_bind, wp_gets, wp_bind. eapply wp_mono; [apply Hrounds|].
  intros w1 [b1|] H1; [|done]. destruct b1; wp_steps; done.
Qed.

(** ** Queued responses *)

Lemma outcomes_progress ps fs rq :
  outcomes ps fs rq ->
  (length rq <= length ps)%nat /\
  (fs <> [] -> (length rq < length ps)%nat \/ 0 < data_total fs).
Proof.
  induction 1 as [|p fs rq ps fs' rq' Ho _ [IH1 IH2]]; [done|].
  rewrite length_app, data_total_app. cbn [length].
  pose proof (data_total_nonneg fs). pose proof (data_total_nonneg fs').
  destruct Ho as [b _|d b Hd _| |e]; cbn [length app data_total].
  - split; [lia|]. intros Hne. destruct (IH2 Hne); [left; lia|right; lia].
  - split; [lia|]. intros _. right. cbn [frame_data payload data_frame].
    destruct d; [done|]. rewrite len_cons. pose proof (len_nonneg d). lia.
  - split; [lia|]. intros _. left. lia.
  - split; [lia|]. intros _. left. lia.
Qed.

Definition queued (w : World) : nat := length (pending_responses (conn w)).
Definition credit (w : World) : nat := Z.to_nat (available (peer_connection_window (conn w))).

Lemma schedule_progress cfg w w' b :
  conn_ok cfg (conn w) -> schedule_pending_responses w = (w', Ok b) ->
  awaiting w' = awaiting w /\
  (b = true -> (queued w' < queued w)%nat \/
               queued w' = queued w /\ (credit w' < credit w)%nat).
Proof.
  intros Hok Hs. split.
  { pose proof (wp_elim _ _ _ _ _ Hs (awaited_schedule w)) as E. unfold awaiting. by rewrite E. }
  intros ->. destruct (schedule_batch _ _ _ _ Hok Hs) as (fs & rq & [Ho _ _ (Ht & Hc & _) Hq] & Hfs).
  assert (Hne : fs <> []) by (intros ->; done). unfold queued, credit. rewrite Hq. cbn [app].
  destruct (outcomes_progress _ _ _ Ho) as [Hle Hp]. specialize (Hp Hne).
  assert (length rq < length (pending_responses (conn w)) \/
          length rq = length (pending_responses (conn w)))%nat as [|Heq] by lia; [by left|].
  right. split; [done|]. destruct Hp; lia.
Qed.

(** Polling does not spend send window. *)
Definition same_window (w w' : World) : Prop :=
  peer_connection_window (conn w') = peer_connection_window (conn w).

#[local] Instance same_window_growth : Growth same_window.
Proof. split; [|done]. split; [done|]. intros x y z. unfold same_window. congruence. Qed.

Lemma window_finish sid : respects same_window (modc (finish_stream sid)).
Proof.
  apply (respects_modc same_window). intros w. unfold same_window, finish_stream, mark_closed_stream.
  by case_bool_decide.
Qed.
#[local] Hint Resolve window_finish : respects.

Lemma window_continuations fuel sid max block offset :
  respects same_window (write_continuations fuel sid max block offset).
Proof. revert offset. induction fuel; intros offset; cbn [write_continuations]; stable_tac. Qed.
#[local] Hint Resolve window_continuations : respects.

Lemma window_poll : respects same_window poll_pending_headers.
Proof.
  assert (Hrounds : forall n b, respects same_window (poll_rounds n b)).
  { induction n as [|n IH]; intros b; cbn [poll_rounds]; [stable_tac|].
    apply (respects_bind same_window); [|intros; apply IH].
    unfold poll_one, queue_h2_stream_response, pending_body_of, file_call. stable_tac. }
  unfold poll_pending_headers. stable_tac.
Qed.

(** ** The measure *)

Lemma stable_input {A} (m : M A) w w' r : stable m -> m w = (w', r) -> input_left w' = input_left w.
Proof.
  intros Hs Hm. destruct (wp_elim _ _ _ _ _ Hm (Hs w)) as [Hg Hi _].
  unfold input_left. by rewrite Hi, (grows_buffer _ _ Hg).
Qed.

Lemma handle_frame_input f peer w w' :
  handle_frame f peer w = (w', Next) -> input_left w' = input_left w.
Proof.
  unfold handle_frame. destruct (process_frame f peer w) as [w1 [u|]] eqn:Hp; [|done].
  intros [= <-]. eapply stable_input; [apply stable_process_frame|exact Hp].
Qed.

Lemma goaway_leaves e w w' : goaway_and_return e w <> (w', Next).
Proof. unfold goaway_and_return. by destruct (send_goaway _ _ _). Qed.

Lemma read_and_handle_input cfg peer w w' :
  world_ok cfg w -> read_and_handle peer w = (w', Next) -> (input_left w' < input_left w)%nat.
Proof.
  intros Hw. unfold read_and_handle.
  destruct (fill_to 4096 FRAME_HEADER_SIZE w) as [w1 r1] eqn:Hf1.
  destruct (fill_to_ok cfg 4096 _ _ _ _ eq_refl Hw Hf1) as [Hw1 _].
  apply fill_input in Hf1 as [Hle1 Hlt1].
  destruct r1; try done; [|intros [= <-]; by apply Hlt1].
  destruct (frame_header_parse _) as [h|]; [|intros E; by apply goaway_leaves in E].
  case_match; [intros E; by apply goaway_leaves in E|].
  destruct (fill_to 4096 _ w1) as [w2 r2] eqn:Hf2.
  destruct (fill_to_ok cfg 4096 _ _ _ _ eq_refl Hw1 Hf2) as [Hw2 Hlen].
  apply fill_input in Hf2 as [Hle2 Hlt2].
  destruct r2; try done; [|intros [= <-]; specialize (Hlt2 eq_refl); lia].
  destruct (frame_parse _ _) as [f|] eqn:Hp; [|intros E; by apply goaway_leaves in E].
  intros ->%handle_frame_input. specialize (Hlen eq_refl).
  assert (Hpos : 0 <= length_ h).
  { unfold frame_parse in Hp. split_if Hp; [done|]. zbool. rewrite <- E. apply len_nonneg. }
  unfold input_left, drain_read_buffer in *. cbn [conn io]. conn_simpl. rewrite length_drop.
  unfold FRAME_HEADER_SIZE, len in *. lia.
Qed.

(** Lexicographic: input, awaited responses, queued responses, send window. *)
Definition smaller (w' w : World) : Prop :=
  (input_left w' < input_left w)%nat \/ input_left w' = input_left w /\
  ((awaiting w' < awaiting w)%nat \/ awaiting w' = awaiting w /\
   ((queued w' < queued w)%nat \/ queued w' = queued w /\ (credit w' < credit w)%nat)).

Lemma smaller_wf : well_founded smaller.
Proof.
  intros w. remember (input_left w) as a eqn:Ha. revert w Ha.
  induction a as [a IHa] using lt_wf_ind. intros w Ha.
  remember (awaiting w) as b eqn:Hb. revert w Ha Hb.
  induction b as [b IHb] using lt_wf_ind. intros w Ha Hb.
  remember (queued w) as q eqn:Hq. revert w Ha Hb Hq.
  induction q as [q IHq] using lt_wf_ind. intros w Ha Hb Hq.
  remember (credit w) as d eqn:Hd. revert w Ha Hb Hq Hd.
  induction d as [d IHd] using lt_wf_ind. intros w Ha Hb Hq Hd.
  constructor. intros w' [H1|[E1 [H2|[E2 [H3|[E3 H4]]]]]].
  - by eapply IHa; [|reflexivity]; rewrite Ha.
  - eapply (IHb (awaiting w')); [by rewrite Hb|congruence|done].
  - eapply (IHq (queued w')); [by rewrite Hq|congruence|congruence|done].
  - eapply (IHd (credit w')); [by rewrite Hd|congruence|congruence|congruence|done].
Qed.

Context (cfg : ServerConfig).
Hypothesis request_size : 0 <= max_request_size cfg.

Lemma main_round_smaller peer w w' :
  world_ok cfg w -> main_round peer w = (w', Next) -> smaller w' w.
Proof.
  intros Hw. unfold main_round, smaller.
  destruct (poll_pending_headers w) as [w1 [b1|]] eqn:Hp; [|done].
  pose proof (stable_input _ _ _ _ stable_poll_pending_headers Hp) as Hi1.
  pose proof (wp_elim _ _ _ _ _ Hp (window_poll w)) as Hcw.
  destruct (poll_polled _ _ _ Hp) as (_ & Ht & Hf & _).
  eapply (method_ok cfg) in Hp; [|done|apply stable_poll_pending_headers|
    apply keeps_conn_ok, wp_poll_pending_headers; by destruct Hw].
  destruct b1; [intros [= <-]; right; split; [done|]; left; by destruct (Ht eq_refl)|].
  destruct (Hf eq_refl) as [Ha Hq].
  destruct (schedule_pending_responses w1) as [w2 [b2|]] eqn:Hs; [|done].
  pose proof (stable_input _ _ _ _ stable_schedule_pending_responses Hs) as Hi2.
  destruct (schedule_progress cfg _ _ _ (world_conn _ _ Hp) Hs) as [Ha2 Hpr].
  eapply (method_ok cfg) in Hs; [|done|apply stable_schedule_pending_responses|
    apply keeps_conn_ok, wp_schedule_pending_responses; by destruct Hp].
  destruct b2.
  - intros [= <-]. right. split; [lia|]. right. split; [lia|].
    specialize (Hpr eq_refl). unfold queued, credit in *. by rewrite Hq, Hcw in Hpr.
  - rewrite (inv_deferred _ _ _ _ (world_conn _ _ Hs)). intros Hr.
    apply (read_and_handle_input cfg) in Hr; [|done]. left. lia.
Qed.

Lemma main_loop_ends peer w :
  world_ok cfg w ->
  exists fuel r w', forall f, (fuel <= f)%nat -> main_loop f peer w = (w', Some r).
Proof.
  induction w as [w IH] using (well_founded_induction smaller_wf). intros Hw.
  destruct (main_round peer w) as [w1 [|r]] eqn:Hr.
  - destruct (IH w1) as (fuel & r & w' & Hf).
    + by eapply main_round_smaller.
    + by eapply main_round_ok.
    + exists (S fuel), r, w'. intros [|f] Hle; [lia|]. cbn [main_loop]. rewrite Hr. apply Hf. lia.
  - exists 1%nat, r, w1. intros [|f] Hle; [lia|]. cbn [main_loop]. by rewrite Hr.
Qed.

(** C2 (termination): [handle_connection] returns.  Whatever bytes the peer
    sends, however the transport splits, delays or refuses them and whatever
    the backend answers, once the peer's script is used up the function has
    returned: from some fuel on, the result no longer depends on the fuel. *)
Theorem handle_connection_returns sec buf i e peer :
  0 <= http2_max_concurrent_streams cfg -> bytes_ok buf -> Forall event_ok (incoming i) ->
  exists fuel r w', forall f, (fuel <= f)%nat ->
    handle_connection f buf peer (mkWorld (with_secure (conn_new cfg) sec) i e) = (w', Some r).
Proof.
  intros Hn Hb Hi. unfold handle_connection.
  destruct (check_preface buf _) as [w [|r]] eqn:Hp.
  - apply check_preface_ok in Hp; try done. by apply main_loop_ends.
  - by exists 0%nat, r, w.
Qed.
End Termination.

Lemma handle_connection_returns_witness :
  exists fuel r w', forall f, (fuel <= f)%nat ->
    @handle_connection ascii_case hello_backend f sample_input None sample_start = (w', Some r).
Proof.
  apply (@handle_connection_returns ascii_case hello_backend server_config_default ltac:(done)
           false sample_input (mkIo [] [] []) tt None).
  - done.
  - apply (bool_decide_unpack _). vm_compute. exact I.
  - constructor.
Defined.
