(* ===== verification/Limits.v ===== *)
(** * Admission control (src/server/limits.rs)

    The per-address limiter: a table of buckets with a token count for requests
    and a count of open connections.  A call locks the table for its whole
    duration, so calls are atomic steps; the clock ([Instant::now]) is an
    argument in nanoseconds, and [f64] is IEEE binary64 as the Standard
    Library's [SpecFloat] computes it. *)

From S2P Require Import Prelude.
From Stdlib Require Import Floats.SpecFloat.

(** ** [f64] *)

Abbreviation f64 := spec_float.

Definition f64_add : f64 -> f64 -> f64 := SFadd 53 1024.
Definition f64_sub : f64 -> f64 -> f64 := SFsub 53 1024.
Definition f64_mul : f64 -> f64 -> f64 := SFmul 53 1024.
Definition f64_div : f64 -> f64 -> f64 := SFdiv 53 1024.
(** [n as f64], rounded to nearest even. *)
Definition f64_of_int (n : Z) : f64 := binary_normalize 53 1024 n 0 false.

(** [f64::min]: a NaN loses. *)
Definition f64_min (a b : f64) : f64 :=
  match a, b with
  | S754_nan, _ => b
  | _, S754_nan => a
  | _, _ => if SFltb b a then b else a
  end.

Definition NANOS_PER_SEC : Z := 1000000000.

(** [Duration::as_secs_f64]. *)
Definition as_secs_f64 (nanos : Z) : f64 :=
  f64_add (f64_of_int (nanos / NANOS_PER_SEC))
    (f64_div (f64_of_int (nanos mod NANOS_PER_SEC)) (f64_of_int NANOS_PER_SEC)).

(** [a.duration_since(b)], zero when [b] is later. *)
Definition duration_since (a b : Z) : Z := Z.max 0 (a - b).

Definition from_secs (s : Z) : Z := s * NANOS_PER_SEC.

(** ** The limiter *)

Definition MAX_ENTRIES : Z := 4096.

Record Bucket : Type := mkBucket {
  tokens : f64;
  updated : Z;
  connections : Z;
  last_seen : Z;
}.

(** [HashMap<IpAddr, Bucket>], keyed by the octets of the address. *)
Abbreviation Buckets := (gmap bytes Bucket).

Definition keep_bucket (now : Z) (bucket : Bucket) : bool :=
  ((connections bucket >? 0) && (duration_since now (last_seen bucket) <? from_secs 300))
  || (duration_since now (last_seen bucket) <? from_secs 60).

Definition evict_old (buckets : Buckets) (now : Z) : Buckets :=
  filter (fun kb => keep_bucket now (snd kb) = true) buckets.

(** The check and the [entry(ip).or_insert_with(..)] both operations start
    with; [None] when the table is full. *)
Definition entry (buckets : Buckets) (now : Z) (ip : bytes) (initial : f64)
  : Buckets * option Bucket :=
  let buckets := evict_old buckets now in
  match buckets !! ip with
  | Some bucket => (buckets, Some bucket)
  | None =>
      if Z.of_nat (base.size buckets) >=? MAX_ENTRIES then (buckets, None)
      else let bucket := mkBucket initial now 0 now in
           (<[ip := bucket]> buckets, Some bucket)
  end.

Definition allow_request (buckets : Buckets) (now : Z) (ip : bytes) (rate burst : Z)
  : Buckets * bool :=
  if (rate =? 0) || (burst =? 0) then (buckets, true) else
  match entry buckets now ip (f64_of_int burst) with
  | (buckets, None) => (buckets, false)
  | (buckets, Some bucket) =>
      let elapsed := as_secs_f64 (duration_since now (updated bucket)) in
      let available := f64_min (f64_add (tokens bucket) (f64_mul elapsed (f64_of_int rate)))
                         (f64_of_int burst) in
      if SFltb available (f64_of_int 1) then
        (<[ip := mkBucket available now (connections bucket) now]> buckets, false)
      else
        (<[ip := mkBucket (f64_sub available (f64_of_int 1)) now (connections bucket) now]>
           buckets, true)
  end.

Definition try_connection (buckets : Buckets) (now : Z) (ip : bytes) (max : Z)
  : Buckets * bool :=
  if max =? 0 then (buckets, true) else
  match entry buckets now ip (f64_of_int 0) with
  | (buckets, None) => (buckets, false)
  | (buckets, Some bucket) =>
      if connections bucket >=? max then (buckets, false) else
      (<[ip := mkBucket (tokens bucket) (updated bucket) (connections bucket + 1) now]> buckets,
       true)
  end.

Definition release_connection (buckets : Buckets) (now : Z) (ip : bytes) : Buckets :=
  match buckets !! ip with
  | Some bucket =>
      <[ip := mkBucket (tokens bucket) (updated bucket)
                (saturating_sub_usize (connections bucket) 1) now]> buckets
  | None => buckets
  end.

(** The crate's own test of the token bucket: a burst of two, then a refusal,
    then a token back after 1.1 seconds. *)
Example token_bucket_run :
  let ip := [127; 0; 0; 1] in
  let '(b, r1) := allow_request ∅ 0 ip 1 2 in
  let '(b, r2) := allow_request b 1000 ip 1 2 in
  let '(b, r3) := allow_request b 2000 ip 1 2 in
  let '(b, r4) := allow_request b 1100002000 ip 1 2 in
  [r1; r2; r3; r4] = [true; true; false; true].
Proof. vm_compute. reflexivity. Qed.

(** ** Connection accounting *)

(** The connections the limiter believes an address has. *)
Definition count (buckets : Buckets) (ip : bytes) : Z :=
  match buckets !! ip with Some b => connections b | None => 0 end.

Definition bump (live : bytes -> Z) (ip : bytes) (d : Z) : bytes -> Z :=
  fun i => if bool_decide (i = ip) then live i + d else live i.

(** No address with open connections has been silent for 300 seconds. *)
Definition all_recent (buckets : Buckets) (live : bytes -> Z) (now : Z) : Prop :=
  forall ip b, buckets !! ip = Some b -> 0 < live ip ->
    duration_since now (last_seen b) < from_secs 300.

(** The life of a limiter: [live] counts the connections that were admitted and
    not yet released.  A release comes from the guard of an admitted
    connection, as in [IpConnectionGuard]. *)
Inductive session (max : Z) : Buckets -> (bytes -> Z) -> Prop :=
| session_start : session max ∅ (fun _ => 0)
| session_try buckets live now ip buckets' ok :
    session max buckets live -> all_recent buckets live now ->
    try_connection buckets now ip max = (buckets', ok) ->
    session max buckets' (bump live ip (if ok then 1 else 0))
| session_release buckets live now ip :
    session max buckets live -> 0 < live ip ->
    session max (release_connection buckets now ip) (bump live ip (-1))
| session_request buckets live now ip rate burst :
    session max buckets live -> all_recent buckets live now ->
    session max (fst (allow_request buckets now ip rate burst)) live.

Record accounted (max : Z) (buckets : Buckets) (live : bytes -> Z) : Prop := {
  acc_count : forall ip, count buckets ip = live ip;
  acc_range : forall ip, 0 <= live ip <= max;
  acc_size : Z.of_nat (base.size buckets) <= MAX_ENTRIES;
}.

Lemma evict_lookup buckets now ip :
  evict_old buckets now !! ip =
  match buckets !! ip with
  | Some b => if keep_bucket now b then Some b else None
  | None => None
  end.
Proof.
  unfold evict_old. destruct (buckets !! ip) as [b|] eqn:Hb.
  - destruct (keep_bucket now b) eqn:Hk.
    + by apply map_lookup_filter_Some.
    + apply map_lookup_filter_None. right. intros x Hx Hk2. cbn [snd] in Hk2. simplify_eq. congruence.
  - apply map_lookup_filter_None. by left.
Qed.

Lemma evict_size buckets now : (base.size (evict_old buckets now) <= base.size buckets)%nat.
Proof. apply map_subseteq_size, map_filter_subseteq. Qed.

(** Eviction only drops addresses without open connections. *)
Lemma evict_accounted max buckets live now :
  accounted max buckets live -> all_recent buckets live now ->
  accounted max (evict_old buckets now) live.
Proof.
  intros [Hc Hr Hs] Hrec. constructor; [|done|].
  - intros ip. rewrite <- Hc. specialize (Hc ip). specialize (Hr ip). specialize (Hrec ip).
    unfold count in *. rewrite evict_lookup. destruct (buckets !! ip) as [b|]; [|done].
    specialize (Hrec b eq_refl). unfold keep_bucket. rewrite Hc.
    destruct (Z.gtb_spec (live ip) 0) as [Hpos|Hz]; cbn [andb orb].
    + by rewrite (proj2 (Z.ltb_lt _ _) (Hrec ltac:(lia))).
    + destruct (duration_since _ _ <? _); cbn; lia.
  - pose proof (evict_size buckets now). lia.
Qed.

(** Writing back a bucket. *)
Lemma set_bucket_accounted max buckets live ip b d :
  accounted max buckets live -> is_Some (buckets !! ip) ->
  connections b = live ip + d -> 0 <= live ip + d <= max ->
  accounted max (<[ip := b]> buckets) (bump live ip d).
Proof.
  intros [Hc Hr Hs] Hin Hb Hd. constructor.
  - intros i. specialize (Hc i). unfold count, bump in *. destruct (decide (i = ip)) as [->|Hne].
    + by rewrite lookup_insert_eq, bool_decide_true.
    + by rewrite lookup_insert_ne, bool_decide_false by done.
  - intros i. unfold bump. case_bool_decide; [by subst|apply Hr].
  - by rewrite map_size_insert_Some.
Qed.

Lemma bump_0 max buckets live ip :
  accounted max buckets (bump live ip 0) <-> accounted max buckets live.
Proof.
  unfold bump. split; intros [Hc Hr Hs]; constructor; try done; intros i; specialize (Hc i);
    specialize (Hr i); case_bool_decide; rewrite ?Z.add_0_r in *; done.
Qed.

Lemma entry_accounted max buckets live now ip initial buckets' o :
  accounted max buckets live -> all_recent buckets live now ->
  entry buckets now ip initial = (buckets', o) ->
  accounted max buckets' live /\
  match o with
  | Some b => buckets' !! ip = Some b /\ connections b = live ip
  | None => True
  end.
Proof.
  intros Hacc Hrec. pose proof (evict_accounted _ _ _ _ Hacc Hrec) as [Hc Hr Hs].
  unfold entry. destruct (evict_old buckets now !! ip) as [b|] eqn:Hb.
  - intros [= <- <-]. split; [done|]. split; [done|]. specialize (Hc ip). unfold count in Hc.
    by rewrite Hb in Hc.
  - case_match eqn:Hfull; intros [= <- <-]; [done|]. rewrite Z.geb_leb in Hfull. zbool. split.
    + constructor; [|done|].
      * intros i. specialize (Hc i). unfold count in *. destruct (decide (i = ip)) as [->|Hne].
        -- rewrite lookup_insert_eq. by rewrite Hb in Hc.
        -- by rewrite lookup_insert_ne.
      * rewrite map_size_insert_None by done. lia.
    + rewrite lookup_insert_eq. split; [done|]. specialize (Hc ip). unfold count in Hc.
      by rewrite Hb in Hc.
Qed.

Lemma session_accounted max buckets live :
  0 < max -> session max buckets live -> accounted max buckets live.
Proof.
  intros Hmax. induction 1 as [|buckets live now ip buckets' ok _ IH Hrec Htry
    |buckets live now ip _ IH Hlive|buckets live now ip rate burst _ IH Hrec].
  - constructor; [done|intros; lia|]. rewrite map_size_empty. done.
  - unfold try_connection in Htry. rewrite eqb_neq_false in Htry by lia.
    destruct (entry _ _ _ _) as [b1 [b|]] eqn:He;
      destruct (entry_accounted _ _ _ _ _ _ _ _ IH Hrec He) as [Hacc Hb].
    + destruct Hb as [Hlk Hcb]. case_match eqn:Hfull; rewrite Z.geb_leb in Hfull; zbool; simplify_eq.
      * by apply bump_0.
      * apply set_bucket_accounted; cbn; [done|by eauto|lia|].
        destruct Hacc as [_ Hr _]. specialize (Hr ip). lia.
    + simplify_eq. by apply bump_0.
  - destruct IH as [Hc Hr Hs]. unfold release_connection.
    pose proof (Hc ip) as Hcip. pose proof (Hr ip) as Hrip. unfold count in Hcip.
    destruct (buckets !! ip) as [b|] eqn:Hb; [|lia].
    apply set_bucket_accounted; cbn; [done|by eauto|unfold saturating_sub_usize; lia|lia].
  - unfold allow_request. case_match; [done|].
    destruct (entry _ _ _ _) as [b1 [b|]] eqn:He;
      destruct (entry_accounted _ _ _ _ _ _ _ _ IH Hrec He) as [Hacc Hb]; [|done].
    destruct Hb as [Hlk Hcb]. pose proof (acc_range _ _ _ Hacc ip).
    case_match; cbn [fst]; apply (bump_0 _ _ _ ip), set_bucket_accounted; cbn; (done || by eauto || lia).
Qed.

(** As long as no address with open connections stays silent
    for 300 seconds, the limiter's count for every address is the number of its
    admitted connections that are still open, it never exceeds the limit, and
    the table never holds more than 4096 addresses. *)
Theorem connection_limit_exact max buckets live :
  0 < max -> session max buckets live ->
  (forall ip, count buckets ip = live ip /\ 0 <= live ip <= max) /\
  Z.of_nat (base.size buckets) <= MAX_ENTRIES.
Proof.
  intros Hmax Hs. destruct (session_accounted _ _ _ Hmax Hs). done.
Qed.

Definition localhost : bytes := [127; 0; 0; 1].

Lemma connection_limit_exact_witness :
  exists buckets live, session 2 buckets live /\ live localhost = 1 /\
    count buckets localhost = live localhost.
Proof.
  assert (Hs : session 2 (fst (try_connection ∅ 5 localhost 2)) (bump (fun _ => 0) localhost 1)).
  { eapply (session_try 2 ∅ (fun _ => 0) 5 localhost _ true).
    - constructor.
    - intros ip b Hb. discriminate Hb.
    - reflexivity. }
  eexists _, _. split; [exact Hs|]. split; [reflexivity|].
  destruct (connection_limit_exact 2 _ _ ltac:(lia) Hs) as [H _]. exact (proj1 (H localhost)).
Defined.

(** The proviso is needed.  A connection that stays open while its
    address is silent for 300 seconds loses its bucket when any other address
    connects, so that with a limit of one connection an address can hold two. *)
Theorem connection_limit_bypassed :
  let first := try_connection ∅ 0 localhost 1 in
  let early := try_connection (fst first) (from_secs 299) localhost 1 in
  let other := try_connection (fst first) (from_secs 300) [10; 0; 0; 1] 1 in
  let second := try_connection (fst other) (from_secs 300) localhost 1 in
  snd first = true /\ snd early = false /\ snd other = true /\ snd second = true.
Proof. vm_compute. done. Qed.
