(* ===== verification/ThreadPool.v ===== *)
(** * The worker pool (src/server/threadpool.rs)

    A channel of jobs behind a mutex, shared by the workers.  The state of the
    pool and of every worker is explicit; [execute], dropping the sender, and
    the three actions of a worker's loop (lock, receive, run) are executable
    operations, and the interleavings of the threads are the steps of
    [pool_step].  A job is opaque; all the pool sees of it is whether it panics.

    The fields [submitted], [started] and [finished] record history: they are
    written and never read by the operations. *)

From S2P Require Import Prelude RustStd.

Record Job : Type := mkJob { job_id : Z; job_panics : bool }.

#[global] Instance Job_eq_dec : EqDecision Job.
Proof. solve_decision. Defined.

(** A worker is about to lock the receiver, holds the lock inside [recv], runs
    a job, or has left its loop. *)
Inductive WorkerState : Type :=
| Waiting
| Receiving
| Running (job : Job)
| Exited.

#[global] Instance WorkerState_eq_dec : EqDecision WorkerState.
Proof. solve_decision. Defined.

Record ThreadPool : Type := mkPool {
  workers : list WorkerState;
  sender : bool;               (* [Option<Sender>] is [Some] *)
  channel : list Job;
  lock : option nat;           (* the worker that holds the receiver's mutex *)
  panics : list nat;           (* workers that logged a caught panic *)
  submitted : list Job;
  started : list Job;
  finished : list Job;
}.

(** [ThreadPool::with_error_log]. *)
Definition pool_new (size : nat) : result ThreadPool bytes :=
  match size with
  | O => Err (str "ThreadPool size must be greater than 0")
  | S _ => Ok (mkPool (repeat Waiting size) true [] None [] [] [] [])
  end.

(** The receiver is shared by the workers and dropped with the last of them. *)
Definition receiver_alive (p : ThreadPool) : bool :=
  existsb (fun w => negb (bool_decide (w = Exited))) (workers p).

Definition execute (p : ThreadPool) (job : Job) : ThreadPool * result unit bytes :=
  if sender p then
    if receiver_alive p then
      (mkPool (workers p) (sender p) (channel p ++ [job]) (lock p) (panics p)
         (submitted p ++ [job]) (started p) (finished p), Ok tt)
    else (p, Err (str "Failed to send job to ThreadPool channel"))
  else (p, Err (str "ThreadPool is shut down")).

(** [drop(self.sender.take())], the first half of [shutdown]; the second half
    joins the workers, that is, waits until they have exited. *)
Definition drop_sender (p : ThreadPool) : ThreadPool :=
  mkPool (workers p) false (channel p) (lock p) (panics p) (submitted p) (started p) (finished p).

Definition joined (p : ThreadPool) : bool :=
  forallb (fun w => bool_decide (w = Exited)) (workers p).

(** [receiver.lock()]: enabled while the mutex is free.  Nothing panics while
    it is held, so it is never poisoned. *)
Definition acquire (p : ThreadPool) (i : nat) : option ThreadPool :=
  match workers p !! i, lock p with
  | Some Waiting, None =>
      Some (mkPool (<[i := Receiving]> (workers p)) (sender p) (channel p) (Some i) (panics p)
              (submitted p) (started p) (finished p))
  | _, _ => None
  end.

(** [guard.recv()] returns and the guard is dropped: the first job, or an error
    when the channel is empty and its sender gone; it blocks otherwise. *)
Definition receive (p : ThreadPool) (i : nat) : option ThreadPool :=
  match workers p !! i with
  | Some Receiving =>
      match channel p with
      | job :: rest =>
          Some (mkPool (<[i := Running job]> (workers p)) (sender p) rest None (panics p)
                  (submitted p) (started p ++ [job]) (finished p))
      | [] =>
          if sender p then None
          else Some (mkPool (<[i := Exited]> (workers p)) (sender p) [] None (panics p)
                       (submitted p) (started p) (finished p))
      end
  | _ => None
  end.

(** [catch_unwind(job)] returns; a panic is logged and the loop goes on. *)
Definition run_job (p : ThreadPool) (i : nat) : option ThreadPool :=
  match workers p !! i with
  | Some (Running job) =>
      Some (mkPool (<[i := Waiting]> (workers p)) (sender p) (channel p) (lock p)
              (if job_panics job then panics p ++ [i] else panics p)
              (submitted p) (started p) (finished p ++ [job]))
  | _ => None
  end.

(** ** Interleavings *)

Inductive worker_step (p p' : ThreadPool) : Prop :=
| step_acquire i : acquire p i = Some p' -> worker_step p p'
| step_receive i : receive p i = Some p' -> worker_step p p'
| step_run i : run_job p i = Some p' -> worker_step p p'.

Inductive pool_step (p p' : ThreadPool) : Prop :=
| step_worker : worker_step p p' -> pool_step p p'
| step_execute job : p' = fst (execute p job) -> pool_step p p'
| step_shutdown : p' = drop_sender p -> pool_step p p'.

Inductive pool_reachable : ThreadPool -> Prop :=
| pool_start size p : pool_new size = Ok p -> pool_reachable p
| pool_next p p' : pool_reachable p -> pool_step p p' -> pool_reachable p'.

(** ** Invariant *)

Definition running_of (w : WorkerState) : list Job :=
  match w with Running job => [job] | _ => [] end.

Definition running (p : ThreadPool) : list Job := concat (map running_of (workers p)).

Record pool_ok (p : ThreadPool) : Prop := {
  ok_fifo : submitted p = started p ++ channel p;
  ok_once : started p ≡ₚ finished p ++ running p;
  ok_lock : forall i, workers p !! i = Some Receiving <-> lock p = Some i;
  ok_exited : forall i, workers p !! i = Some Exited -> sender p = false /\ channel p = [];
  ok_some : workers p <> [];
}.

(** Replacing the state of one worker. *)
Lemma running_insert ws i w w' :
  ws !! i = Some w ->
  concat (map running_of (<[i := w']> ws)) ++ running_of w ≡ₚ
  concat (map running_of ws) ++ running_of w'.
Proof.
  revert i. induction ws as [|x ws IH]; intros [|i]; [done..| |].
  - intros [= ->]. cbn. rewrite <- !app_assoc.
    rewrite (Permutation_app_comm (running_of w')), <- app_assoc.
    rewrite Permutation_app_comm, <- app_assoc.
    rewrite (Permutation_app_comm (running_of w')). by rewrite app_assoc, Permutation_app_comm.
  - intros Hi. cbn. rewrite <- !app_assoc. by rewrite (IH i Hi).
Qed.

Lemma insert_lookup (ws : list WorkerState) i w w' j :
  ws !! i = Some w -> <[i := w']> ws !! j = if bool_decide (j = i) then Some w' else ws !! j.
Proof.
  intros Hi. case_bool_decide as E.
  - subst j. apply list_lookup_insert_eq. by eapply lookup_lt_Some.
  - by apply list_lookup_insert_ne.
Qed.

Lemma insert_nonempty {A} (l : list A) i x : l <> [] -> <[i := x]> l <> [].
Proof. destruct l, i; done. Qed.

Lemma worker_step_ok p p' : pool_ok p -> worker_step p p' -> pool_ok p'.
Proof.
  intros [Hf Ho Hl He Hs]. destruct 1 as [i Hi|i Hi|i Hi].
  - unfold acquire in Hi. destruct (workers p !! i) as [[]|] eqn:Hw; try done.
    destruct (lock p) eqn:Hlock; [done|]. injection Hi as <-.
    constructor; cbn; [done| | | |by apply insert_nonempty].
    + rewrite Ho. unfold running. cbn [workers]. f_equiv.
      pose proof (running_insert _ _ _ Receiving Hw) as Hp. by rewrite !app_nil_r in Hp.
    + intros j. rewrite (insert_lookup _ _ _ _ _ Hw). case_bool_decide; [naive_solver|].
      rewrite Hl. naive_solver.
    + intros j. rewrite (insert_lookup _ _ _ _ _ Hw). case_bool_decide; [done|apply He].
  - unfold receive in Hi. destruct (workers p !! i) as [[]|] eqn:Hw; try done.
    assert (Hlk : lock p = Some i) by (by apply Hl).
    destruct (channel p) as [|job rest] eqn:Hc.
    + destruct (sender p) eqn:Hsd; [done|]. injection Hi as <-.
      constructor; cbn; [done| | | |by apply insert_nonempty].
      * rewrite Ho. unfold running. cbn [workers]. f_equiv.
        pose proof (running_insert _ _ _ Exited Hw) as Hp. by rewrite !app_nil_r in Hp.
      * intros j. rewrite (insert_lookup _ _ _ _ _ Hw). case_bool_decide; [naive_solver|].
        rewrite Hl, Hlk. naive_solver.
      * done.
    + injection Hi as <-. constructor; cbn; [| | | |by apply insert_nonempty].
      * by rewrite Hf, <- app_assoc.
      * rewrite Ho, <- app_assoc. unfold running. cbn [workers]. f_equiv.
        pose proof (running_insert _ _ _ (Running job) Hw) as Hp. by rewrite app_nil_r in Hp.
      * intros j. rewrite (insert_lookup _ _ _ _ _ Hw). case_bool_decide; [naive_solver|].
        rewrite Hl, Hlk. naive_solver.
      * intros j. rewrite (insert_lookup _ _ _ _ _ Hw). case_bool_decide; [done|].
        intros Hj. by destruct (He j Hj).
  - unfold run_job in Hi. destruct (workers p !! i) as [[| |job|]|] eqn:Hw; try done.
    injection Hi as <-. constructor; cbn; [done| | | |by apply insert_nonempty].
    + rewrite Ho, <- app_assoc. unfold running. cbn [workers]. f_equiv.
      pose proof (running_insert _ _ _ Waiting Hw) as Hp. rewrite app_nil_r in Hp. cbn in Hp.
      by rewrite <- Hp, Permutation_app_comm.
    + intros j. rewrite (insert_lookup _ _ _ _ _ Hw). case_bool_decide as E; [|apply Hl].
      subst j. split; [done|]. intros Hj. apply Hl in Hj. congruence.
    + intros j. rewrite (insert_lookup _ _ _ _ _ Hw). case_bool_decide; [done|apply He].
Qed.

Lemma pool_step_ok p p' : pool_ok p -> pool_step p p' -> pool_ok p'.
Proof.
  intros Hok. destruct 1 as [Hw|job ->| ->]; [by eapply worker_step_ok|..].
  - unfold execute. destruct (sender p) eqn:Hsd; [|done]. case_match; [|done].
    destruct Hok as [Hf Ho Hl He Hs]. constructor; cbn; try done.
    + by rewrite Hf, <- app_assoc.
    + intros i Hi. destruct (He i Hi). congruence.
  - destruct Hok as [Hf Ho Hl He Hs]. constructor; cbn; try done. intros i Hi. by destruct (He i Hi).
Qed.

Lemma pool_reachable_ok p : pool_reachable p -> pool_ok p.
Proof.
  induction 1 as [n p Hn|]; [|by eapply pool_step_ok].
  destruct n as [|n]; [done|]. injection Hn as <-.
  assert (Hrep : forall i w, repeat Waiting (S n) !! i = Some w -> w = Waiting).
  { intros i w Hi. apply list_elem_of_lookup_2, list_elem_of_In, repeat_spec in Hi. done. }
  constructor; cbn [submitted started channel finished workers sender lock]; try done.
  - assert (Hrun : forall k, concat (map running_of (repeat Waiting k)) = []) by (by induction k).
    pose proof (Hrun (S n)) as E. unfold running. cbn in *. by rewrite E.
  - intros i. split; [|done]. intros Hi. by apply Hrep in Hi.
  - intros i Hi. by apply Hrep in Hi.
Qed.

(** In every interleaving jobs leave the channel in the order
    they were submitted, and each job that left it is being run by exactly one
    worker or has been run exactly once; a panic in a job does not change
    this.  At most one worker is inside [recv], the one that holds the lock. *)
Theorem jobs_run_once p :
  pool_reachable p ->
  submitted p = started p ++ channel p /\
  started p ≡ₚ finished p ++ running p /\
  (forall i j, workers p !! i = Some Receiving -> workers p !! j = Some Receiving -> i = j).
Proof.
  intros [Hf Ho Hl _ _]%pool_reachable_ok. split_and!; [done|done|].
  intros i j Hi%Hl Hj%Hl. congruence.
Qed.

(** When all workers have exited nothing is left. *)
Lemma pool_drained p :
  pool_ok p -> joined p = true ->
  sender p = false /\ channel p = [] /\ running p = [] /\ finished p ≡ₚ submitted p.
Proof.
  intros [Hf Ho _ He Hs] Hj. unfold joined in Hj. rewrite forallb_forall in Hj.
  assert (Hall : forall i w, workers p !! i = Some w -> w = Exited).
  { intros i w Hi%list_elem_of_lookup_2%list_elem_of_In. apply Hj in Hi. by zbool. }
  destruct (workers p) as [|w ws] eqn:Hw; [done|].
  destruct (He 0%nat) as [Hsd Hc]; [cbn; f_equal; by apply (Hall 0%nat)|].
  assert (Hr : running p = []).
  { unfold running. rewrite Hw. clear - Hall. revert Hall. generalize (w :: ws) as l.
    induction l as [|x l IH]; intros Hall; [done|]. cbn.
    rewrite (Hall 0%nat x) by done. apply IH. intros i y Hy. by apply (Hall (S i)). }
  split_and!; [done..|]. by rewrite Hf, Hc, app_nil_r, Ho, Hr, app_nil_r.
Qed.

(** When [shutdown] has joined all workers, every submitted job has
    been run. *)
Theorem shutdown_drains p :
  pool_reachable p -> joined p = true ->
  sender p = false /\ channel p = [] /\ finished p ≡ₚ submitted p.
Proof. intros Hp%pool_reachable_ok Hj. destruct (pool_drained _ Hp Hj) as (? & ? & _ & ?). done. Qed.

(** ** Shutdown ends *)

Definition weight (w : WorkerState) : nat :=
  match w with Running _ => 3 | Waiting => 2 | Receiving => 1 | Exited => 0 end.

Fixpoint weights (ws : list WorkerState) : nat :=
  match ws with [] => 0 | w :: ws => weight w + weights ws end.

(** What the workers still have to do once nothing is submitted any more. *)
Definition work_left (p : ThreadPool) : nat := (3 * length (channel p) + weights (workers p))%nat.

Lemma weights_insert ws i w w' :
  ws !! i = Some w -> (weights (<[i := w']> ws) + weight w = weights ws + weight w')%nat.
Proof.
  revert i. induction ws as [|x ws IH]; intros [|i]; [done..| |].
  - intros [= ->]. change (<[0%nat := w']> (w :: ws)) with (w' :: ws). cbn [weights]. lia.
  - intros Hi. change (<[S i := w']> (x :: ws)) with (x :: <[i := w']> ws). cbn [weights].
    specialize (IH i Hi). lia.
Qed.

Lemma worker_step_work p p' :
  worker_step p p' -> (work_left p' < work_left p)%nat /\ sender p' = sender p.
Proof.
  unfold work_left. destruct 1 as [i Hi|i Hi|i Hi].
  - unfold acquire in Hi. destruct (workers p !! i) as [[]|] eqn:Hw; try done.
    destruct (lock p); [done|]. injection Hi as <-. cbn [channel workers sender length].
    pose proof (weights_insert _ _ _ Receiving Hw). cbn [weight] in *. split; [lia|done].
  - unfold receive in Hi. destruct (workers p !! i) as [[]|] eqn:Hw; try done.
    destruct (channel p) as [|job rest].
    + destruct (sender p) eqn:Hs; [done|]. injection Hi as <-. cbn [channel workers sender length].
      pose proof (weights_insert _ _ _ Exited Hw). cbn [weight] in *. split; [lia|done].
    + injection Hi as <-. cbn [channel workers sender length]. pose proof (weights_insert _ _ _ (Running job) Hw). cbn [weight] in *. split; [lia|done].
  - unfold run_job in Hi. destruct (workers p !! i) as [[| |job|]|] eqn:Hw; try done.
    injection Hi as <-. cbn [channel workers sender length]. pose proof (weights_insert _ _ _ Waiting Hw). cbn [weight] in *. split; [lia|done].
Qed.

Lemma forallb_false_elem {A} (f : A -> bool) l :
  forallb f l = false -> exists x, x ∈ l /\ f x = false.
Proof.
  induction l as [|y l IH]; cbn [forallb]; [done|]. destruct (f y) eqn:Hy; cbn [andb].
  - intros (x & Hx & Hf)%IH. exists x. split; [by right|done].
  - intros _. exists y. split; [by left|done].
Qed.

Lemma worker_enabled p :
  pool_ok p -> sender p = false -> joined p = false -> exists p', worker_step p p'.
Proof.
  intros [_ _ Hl _ _] Hs Hj. destruct (lock p) as [i|] eqn:Hlk.
  - assert (Hi : workers p !! i = Some Receiving) by (by apply Hl).
    assert (exists p', receive p i = Some p') as [p' Hp'].
    { unfold receive. rewrite Hi, Hs. destruct (channel p); eauto. }
    exists p'. by eapply step_receive.
  - destruct (forallb_false_elem _ _ Hj) as (w & Hw & Hne). zbool.
    apply list_elem_of_lookup_1 in Hw as [i Hi]. destruct w as [| |job|]; [| | |done].
    + eexists. apply (step_acquire _ _ i). unfold acquire. by rewrite Hi, Hlk.
    + apply Hl in Hi. done.
    + eexists. apply (step_run _ _ i). unfold run_job. by rewrite Hi.
Qed.

(** Once the sender is dropped the workers are never
    stuck before all have exited, and every interleaving of their actions is at
    most [work_left] steps long, so that the joins of [shutdown] return (jobs
    themselves being assumed to return). *)
Theorem shutdown_terminates p :
  pool_reachable p -> sender p = false ->
  (joined p = false -> exists p', worker_step p p') /\
  (forall n p', nsteps worker_step n p p' -> (n <= work_left p)%nat).
Proof.
  intros Hok%pool_reachable_ok Hs. split; [by apply worker_enabled|].
  intros n p' Hn. enough (n + work_left p' <= work_left p)%nat by lia.
  clear Hok Hs. induction Hn as [|n x y z Hxy _ IH]; [lia|].
  apply worker_step_work in Hxy as [Hlt _]. lia.
Qed.

(** ** A run: two workers, one job that panics, shutdown *)

Definition pool_acquire i p := match acquire p i with Some p' => p' | None => p end.
Definition pool_receive i p := match receive p i with Some p' => p' | None => p end.
Definition pool_run i p := match run_job p i with Some p' => p' | None => p end.

Definition sample_pool_0 : ThreadPool := mkPool [Waiting; Waiting] true [] None [] [] [] [].
Definition sample_pool_1 : ThreadPool := fst (execute sample_pool_0 (mkJob 7 true)).
Definition sample_pool_2 : ThreadPool :=
  drop_sender (pool_run 1 (pool_receive 1 (pool_acquire 1 sample_pool_1))).
Definition sample_pool : ThreadPool :=
  pool_receive 1 (pool_acquire 1 (pool_receive 0 (pool_acquire 0 sample_pool_2))).

Lemma reach_worker p :
  pool_reachable p ->
  forall i, pool_reachable (pool_acquire i p) /\ pool_reachable (pool_receive i p) /\
            pool_reachable (pool_run i p).
Proof.
  intros Hp i. unfold pool_acquire, pool_receive, pool_run.
  destruct (acquire p i) eqn:Ha, (receive p i) eqn:Hr, (run_job p i) eqn:Hj; split_and!; try done;
    eapply pool_next; try done; apply step_worker;
    first [by eapply step_acquire|by eapply step_receive|by eapply step_run].
Qed.

Lemma sample_pool_2_reachable : pool_reachable sample_pool_2.
Proof.
  eapply pool_next; [|by apply step_shutdown].
  do 3 apply reach_worker. eapply pool_next; [by apply (pool_start 2)|].
  by eapply step_execute.
Qed.

Lemma sample_pool_reachable : pool_reachable sample_pool.
Proof. do 4 apply reach_worker. apply sample_pool_2_reachable. Qed.

Lemma jobs_run_once_witness :
  panics sample_pool_2 = [1%nat] /\
  submitted sample_pool_2 = started sample_pool_2 ++ channel sample_pool_2.
Proof.
  split; [reflexivity|]. apply (jobs_run_once sample_pool_2), sample_pool_2_reachable.
Defined.

Lemma shutdown_drains_witness : finished sample_pool ≡ₚ submitted sample_pool.
Proof.
  apply (shutdown_drains sample_pool); [apply sample_pool_reachable|reflexivity].
Defined.

Lemma shutdown_terminates_witness : exists p', worker_step sample_pool_2 p'.
Proof.
  apply (shutdown_terminates sample_pool_2); [apply sample_pool_2_reachable|reflexivity..].
Defined.
