(* ===== verification/Text.v ===== *)
(** * Text, addresses and paths of Rust's standard library

    What the configuration parser and the request handler use beyond
    [RustStd]: iteration over the characters of a string, [lines],
    [split_whitespace], the parser of IP addresses and [std::path].  A character
    is the byte sequence of its UTF-8 encoding. *)

From S2P Require Import Prelude RustStd.

(** ** Characters *)

(** [str::chars] on valid UTF-8: the lead byte gives the length. *)
Fixpoint chars (l : bytes) : list bytes :=
  match l with
  | [] => []
  | b0 :: r0 =>
      if b0 <? 192 then [b0] :: chars r0 else
      match r0 with
      | [] => [[b0]]
      | b1 :: r1 =>
          if b0 <? 224 then [b0; b1] :: chars r1 else
          match r1 with
          | [] => [[b0; b1]]
          | b2 :: r2 =>
              if b0 <? 240 then [b0; b1; b2] :: chars r2 else
              match r2 with
              | [] => [[b0; b1; b2]]
              | b3 :: r3 => [b0; b1; b2; b3] :: chars r3
              end
          end
      end
  end.

(** An ASCII character literal. *)
Definition is_char (c : bytes) (b : Z) : bool := bytes_eqb c [b].

(** [char::is_whitespace]. *)
Definition is_whitespace (c : bytes) : bool :=
  match c with
  | [b0] => ws1 b0
  | [b0; b1] => ws2 b0 b1
  | [b0; b1; b2] => ws3 b0 b1 b2
  | _ => false
  end.

Definition contains_char (c : Z) (l : bytes) : bool := existsb (Z.eqb c) l.

(** ** Splitting *)

(** [std::mem::take] of a word that is not empty. *)
Definition flush_word (word : bytes) (rest : list bytes) : list bytes :=
  match word with [] => rest | _ => word :: rest end.

Fixpoint words (cs : list bytes) (current : bytes) : list bytes :=
  match cs with
  | [] => flush_word current []
  | c :: cs =>
      if is_whitespace c then flush_word current (words cs []) else words cs (current ++ c)
  end.
Definition split_whitespace (l : bytes) : list bytes := words (chars l) [].

Definition ends_with (l p : bytes) : bool := starts_with (rev l) (rev p).
Definition strip_suffix (l p : bytes) : option bytes :=
  if ends_with l p then Some (take (length l - length p) l) else None.

(** [str::lines]: a line ends at a line feed; a carriage return before it goes
    too; an empty last line is not yielded. *)
Definition strip_cr (l : bytes) : bytes :=
  match strip_suffix l [13] with Some l => l | None => l end.
Fixpoint line_list (segments : list bytes) : list bytes :=
  match segments with
  | [] => []
  | [last] => flush_word last []
  | s :: rest => strip_cr s :: line_list rest
  end.
Definition lines (l : bytes) : list bytes := line_list (split_on 10 l).

Definition rsplit_once (c : Z) (l : bytes) : option (bytes * bytes) :=
  match split_once c (rev l) with
  | Some (y, x) => Some (rev x, rev y)
  | None => None
  end.

(** [str::trim_matches(c)]. *)
Fixpoint trim_start_char (c : Z) (l : bytes) : bytes :=
  match l with [] => [] | b :: r => if b =? c then trim_start_char c r else l end.
Definition trim_matches (c : Z) (l : bytes) : bytes :=
  rev (trim_start_char c (rev (trim_start_char c l))).

(** [\[T\]::join]. *)
Fixpoint join_with (sep : bytes) (l : list bytes) : bytes :=
  match l with
  | [] => []
  | [x] => x
  | x :: rest => x ++ sep ++ join_with sep rest
  end.

(** [str::replace] of a character. *)
Definition replace_char (c : Z) (by_ : bytes) (l : bytes) : bytes :=
  concat (map (fun b => if b =? c then by_ else [b]) l).

(** [{:0w}] formatting of a decimal number. *)
Definition pad (w : nat) (n : Z) : bytes :=
  let s := to_string n in repeat 48 (w - length s) ++ s.

Definition U8_MAX : Z := 255.
Definition U16_MAX : Z := 65535.
Definition U32_MAX : Z := 4294967295.
Definition parse_u8 : bytes -> option Z := parse_unsigned U8_MAX.
Definition parse_u16 : bytes -> option Z := parse_unsigned U16_MAX.
Definition parse_u32 : bytes -> option Z := parse_unsigned U32_MAX.
Definition parse_u64 : bytes -> option Z := parse_unsigned U64_MAX.

Definition checked_mul_u64 (a b : Z) : option Z :=
  if a * b <=? U64_MAX then Some (a * b) else None.

(** ** IP addresses ([core::net::parser])

    An address is its numeric value, as [u32::from] and [u128::from] give it. *)

Inductive IpAddr : Type := V4 (a : Z) | V6 (a : Z).

#[global] Instance IpAddr_eq_dec : EqDecision IpAddr.
Proof. solve_decision. Defined.

Definition is_ipv4 (ip : IpAddr) : bool := match ip with V4 _ => true | V6 _ => false end.

Definition to_digit (radix b : Z) : option Z :=
  let d := if is_ascii_digit b then Some (b - 48)
           else if between 97 b 122 then Some (b - 87)
           else if between 65 b 90 then Some (b - 55) else None in
  match d with Some d => if d <? radix then Some d else None | None => None end.

(** [read_number]: up to [max_digits] digits; a leading zero is refused unless
    allowed.  A parser returns its value and what is left of the input. *)
Fixpoint read_digits (radix : Z) (fuel : nat) (l : bytes) (acc : Z) (count : nat)
  : option (Z * nat * bytes) :=
  match l with
  | [] => Some (acc, count, [])
  | b :: r =>
      match to_digit radix b with
      | None => Some (acc, count, l)
      | Some d =>
          match fuel with
          | O => None
          | S f => read_digits radix f r (acc * radix + d) (S count)
          end
      end
  end.
Definition read_number (radix : Z) (max_digits : nat) (max_value : Z) (allow_zero_prefix : bool)
  (l : bytes) : option (Z * bytes) :=
  match read_digits radix max_digits l 0 0 with
  | Some (v, count, rest) =>
      if (count =? 0)%nat then None
      else if negb allow_zero_prefix && starts_with l [48] && (1 <? count)%nat then None
      else if v <=? max_value then Some (v, rest) else None
  | None => None
  end.

Definition read_given_char (c : Z) (l : bytes) : option bytes :=
  match l with b :: r => if b =? c then Some r else None | [] => None end.

Definition read_separator {A} (sep : Z) (index : nat) (inner : bytes -> option (A * bytes))
  (l : bytes) : option (A * bytes) :=
  match index with
  | O => inner l
  | S _ => match read_given_char sep l with Some l => inner l | None => None end
  end.

Fixpoint read_octets (n i : nat) (l : bytes) (acc : Z) : option (Z * bytes) :=
  match n with
  | O => Some (acc, l)
  | S n =>
      match read_separator 46 i (read_number 10 3 U8_MAX false) l with
      | Some (g, l) => read_octets n (S i) l (acc * 256 + g)
      | None => None
      end
  end.
Definition read_ipv4_addr (l : bytes) : option (Z * bytes) := read_octets 4 0 l 0.

(** [read_groups]: the 16-bit groups read, whether they end in an embedded
    IPv4 address, and the rest of the input. *)
Fixpoint read_groups (limit i : nat) (l : bytes) : list Z * bool * bytes :=
  match limit with
  | O => ([], false, l)
  | S limit' =>
      let embedded := match limit' with
                      | O => None
                      | S _ => read_separator 58 i read_ipv4_addr l
                      end in
      match embedded with
      | Some (v4, l) => ([v4 / 65536; v4 mod 65536], true, l)
      | None =>
          match read_separator 58 i (read_number 16 4 U16_MAX true) l with
          | Some (g, l) =>
              let '(gs, v4, l) := read_groups limit' (S i) l in (g :: gs, v4, l)
          | None => ([], false, l)
          end
      end
  end.
Definition groups_value (gs : list Z) : Z := fold_left (fun acc g => acc * 65536 + g) gs 0.
Definition read_ipv6_addr (l : bytes) : option (Z * bytes) :=
  let '(head, head_ipv4, l) := read_groups 8 0 l in
  if (length head =? 8)%nat then Some (groups_value head, l) else
  if head_ipv4 then None else
  match read_given_char 58 l with
  | None => None
  | Some l =>
      match read_given_char 58 l with
      | None => None
      | Some l =>
          let '(tail, _, l) := read_groups (8 - (length head + 1)) 0 l in
          Some (groups_value (head ++ repeat 0 (8 - length head - length tail) ++ tail), l)
      end
  end.

(** [str::parse::<IpAddr>]: the whole input must be used. *)
Definition parse_ip (l : bytes) : option IpAddr :=
  match read_ipv4_addr l with
  | Some (a, rest) => match rest with [] => Some (V4 a) | _ => None end
  | None =>
      match read_ipv6_addr l with
      | Some (a, []) => Some (V6 a)
      | _ => None
      end
  end.

(** ** Paths ([std::path] on Unix)

    A [Path] is its byte sequence. *)

Inductive Component : Type := RootDir | CurDir | ParentDir | Normal (name : bytes).

#[global] Instance Component_eq_dec : EqDecision Component.
Proof. solve_decision. Defined.

(** A segment between separators; empty ones and "." disappear. *)
Definition segment_component (s : bytes) : list Component :=
  if bytes_eqb s [] || bytes_eqb s (str ".") then []
  else if bytes_eqb s (str "..") then [ParentDir] else [Normal s].

Definition components (p : bytes) : list Component :=
  let segments := split_on 47 p in
  (if starts_with p [47] then [RootDir]
   else match segments with s :: _ => if bytes_eqb s (str ".") then [CurDir] else [] | [] => [] end)
  ++ concat (map segment_component segments).

(** The names of the normal components. *)
Definition normal_names (p : bytes) : list bytes :=
  omap (fun c => match c with Normal n => Some n | _ => None end) (components p).

(** [PathBuf::push] (and [Path::join]). *)
Definition path_push (p q : bytes) : bytes :=
  if starts_with q [47] then q
  else match p with
       | [] => q
       | _ => if ends_with p [47] then p ++ q else p ++ [47] ++ q
       end.

(** [Path::file_name] and [Path::extension]. *)
Definition file_name (p : bytes) : option bytes :=
  match last (components p) with Some (Normal n) => Some n | _ => None end.
Definition extension (p : bytes) : option bytes :=
  match file_name p with
  | None => None
  | Some name =>
      match rsplit_once 46 name with
      | Some ([], _) => None
      | Some (_, ext) => Some ext
      | None => None
      end
  end.

(** ** Lemmas *)

Lemma flush_word_cons w rest : w <> [] -> flush_word w rest = w :: rest.
Proof. by destruct w. Qed.
