(* ===== verification/Paths.v ===== *)
(** * Request paths (src/router/handler.rs)

    Percent decoding, the normalisation of a request path to a relative path
    inside the document root, the tests for hidden and protected names, MIME
    types by extension, and the escapers of the directory listing and the log. *)

From S2P Require Import Prelude RustStd Text.

(** ** Percent encoding *)

(** [u8::from_str_radix(s, 16)] on two bytes: a leading plus sign is
    accepted. *)
Definition hex_pair (h1 h2 : Z) : option Z :=
  if negb (utf8_valid [h1; h2]) then None else
  if h1 =? 43 then to_digit 16 h2 else
  match to_digit 16 h1, to_digit 16 h2 with
  | Some a, Some b => Some (a * 16 + b)
  | _, _ => None
  end.

Fixpoint percent_decode_bytes (l : bytes) : option bytes :=
  match l with
  | [] => Some []
  | b :: r =>
      if b =? 37 then
        match r with
        | h1 :: h2 :: r =>
            match hex_pair h1 h2, percent_decode_bytes r with
            | Some d, Some rest => Some (d :: rest)
            | _, _ => None
            end
        | _ => None
        end
      else match percent_decode_bytes r with Some rest => Some (b :: rest) | None => None end
  end.

Definition percent_decode_single (input : bytes) : option bytes :=
  match percent_decode_bytes input with
  | Some l => if utf8_valid l then Some l else None
  | None => None
  end.

Fixpoint percent_decode_rounds (n : nat) (decoded : bytes) : option bytes :=
  match n with
  | O => Some decoded
  | S n =>
      if negb (contains_char 37 decoded) then Some decoded else
      match percent_decode_single decoded with
      | None => None
      | Some next =>
          if bytes_eqb next decoded then Some decoded else percent_decode_rounds n next
      end
  end.
Definition percent_decode_recursive (input : bytes) : option bytes :=
  percent_decode_rounds 4 input.

Definition upper_hex_digit (d : Z) : Z := if d <? 10 then d + 48 else d + 55.

Definition url_encode_byte (b : Z) : bytes :=
  if is_ascii_alphanumeric b || existsb (Z.eqb b) [45; 95; 46; 126] then [b]
  else [37; upper_hex_digit (b / 16); upper_hex_digit (b mod 16)].
Definition url_encode_path (value : bytes) : bytes := concat (map url_encode_byte value).

(** ** Normalisation *)

(** The [PathBuf] under construction is the stack of its names. *)
Fixpoint normalize_components (cs : list Component) (names : list bytes)
  : result (list bytes) unit :=
  match cs with
  | [] => Ok names
  | RootDir :: cs | CurDir :: cs => normalize_components cs names
  | ParentDir :: cs =>
      match names with
      | [] => Err tt
      | _ => normalize_components cs (removelast names)
      end
  | Normal c :: cs => normalize_components cs (names ++ [c])
  end.

Definition normalize_relative_path (uri : bytes) : result bytes unit :=
  let? names := normalize_components (components uri) [] in
  Ok (join_with [47] names).

Definition has_hidden_component (rel_path : bytes) : bool :=
  existsb (fun name => starts_with name [46]) (normal_names rel_path).

Definition is_protected_rule_path (path : bytes) : bool :=
  existsb (fun name => bytes_eqb name (str ".veysrule")) (normal_names path).

(** The path of a request target: what comes before the query and the
    fragment. *)
Definition clean_path (decoded_uri : bytes) : bytes :=
  let first_part c l := hd l (split_on c l) in
  first_part 35 (first_part 63 decoded_uri).

Section Mime.
Context `{UnicodeCase}.

Definition get_mime_type (path : bytes) : bytes :=
  match option_map to_lowercase (extension path) with
  | None => str "application/octet-stream"
  | Some ext =>
      let ext_is s := bytes_eqb ext (str s) in
      if ext_is "html" || ext_is "htm" then str "text/html; charset=utf-8"
      else if ext_is "css" then str "text/css; charset=utf-8"
      else if ext_is "js" then str "application/javascript"
      else if ext_is "json" then str "application/json"
      else if ext_is "txt" then str "text/plain; charset=utf-8"
      else if ext_is "xml" then str "application/xml"
      else if ext_is "svg" then str "image/svg+xml"
      else if ext_is "png" then str "image/png"
      else if ext_is "jpg" || ext_is "jpeg" then str "image/jpeg"
      else if ext_is "gif" then str "image/gif"
      else if ext_is "webp" then str "image/webp"
      else if ext_is "ico" then str "image/x-icon"
      else if ext_is "wasm" then str "application/wasm"
      else str "application/octet-stream"
  end.
End Mime.

(** ** Escapers *)

Definition html_escape (value : bytes) : bytes :=
  replace_char 34 (str "&quot;")
    (replace_char 62 (str "&gt;")
       (replace_char 60 (str "&lt;") (replace_char 38 (str "&amp;") value))).

(** [char::is_control]: U+0000..U+001F and U+007F..U+009F. *)
Definition is_control (c : bytes) : bool :=
  match c with
  | [b] => (b <? 32) || (b =? 127)
  | [b0; b1] => (b0 =? 194) && between 128 b1 159
  | _ => false
  end.
Definition control_code (c : bytes) : Z :=
  match c with [b0; b1] => b1 | [b] => b | _ => 0 end.
Definition hex4 (n : Z) : bytes :=
  [48; 48; digit_char (n / 16); digit_char (n mod 16)].

Definition json_escape_char (c : bytes) : bytes :=
  if is_char c 34 then [92; 34]
  else if is_char c 92 then [92; 92]
  else if is_char c 10 then str "\n"
  else if is_char c 13 then str "\r"
  else if is_char c 9 then str "\t"
  else if is_control c then str "\u" ++ hex4 (control_code c)
  else c.
Definition json_escape (value : bytes) : bytes := concat (map json_escape_char (chars value)).

(** ** Splitting and joining *)

Lemma split_on_cons c l : exists s ss, split_on c l = s :: ss.
Proof.
  induction l as [|b l (s & ss & IH)]; cbn [split_on]; [by eexists _, _|].
  rewrite IH. destruct (b =? c); by eexists _, _.
Qed.

Lemma split_on_segments c l : Forall (fun s => c ∉ s) (split_on c l).
Proof.
  induction l as [|b l IH]; cbn [split_on]; [repeat constructor; set_solver|].
  destruct (Z.eqb_spec b c) as [|Hne]; [constructor; [set_solver|done]|].
  destruct (split_on_cons c l) as (s & ss & E). rewrite E in *. cbn [cons_head].
  apply Forall_cons in IH as [Hs Hss]. constructor; [set_solver|done].
Qed.

Lemma split_on_plain c l : c ∉ l -> split_on c l = [l].
Proof.
  induction l as [|b l IH]; [done|]. rewrite not_elem_of_cons. intros [Hb Hl]. cbn [split_on].
  rewrite (eqb_neq_false b c) by congruence. by rewrite IH.
Qed.

Lemma split_on_app c s l : c ∉ s -> split_on c (s ++ c :: l) = s :: split_on c l.
Proof.
  induction s as [|b s IH]; cbn [app split_on]; [by rewrite Z.eqb_refl|].
  rewrite not_elem_of_cons. intros [Hb Hs]. rewrite (eqb_neq_false b c) by congruence.
  by rewrite IH.
Qed.

Lemma split_on_join c ss :
  ss <> [] -> Forall (fun s => c ∉ s) ss -> split_on c (join_with [c] ss) = ss.
Proof.
  intros Hne Hss. induction Hss as [|s ss Hs Hss IH]; [done|].
  destruct ss as [|s' ss]; [by apply split_on_plain|].
  change (join_with [c] (s :: s' :: ss)) with (s ++ c :: join_with [c] (s' :: ss)).
  rewrite split_on_app by done. by rewrite IH.
Qed.

(** ** Components *)

(** A name that stands for one entry of the directory it is looked up in. *)
Definition safe_name (n : bytes) : Prop :=
  n <> [] /\ 47 ∉ n /\ n <> str "." /\ n <> str "..".

Lemma segment_component_safe s n : 47 ∉ s -> Normal n ∈ segment_component s -> safe_name n.
Proof.
  unfold segment_component, safe_name. intros Hs.
  destruct (bytes_eqb s [] || _) eqn:E; [set_solver|]. zbool. rewrite !bytes_eqb_neq in *.
  destruct (bytes_eqb s (str "..")) eqn:E2; [set_solver|]. apply bytes_eqb_neq in E2.
  rewrite list_elem_of_singleton. intros [= ->]. done.
Qed.

Lemma safe_segment n : safe_name n -> segment_component n = [Normal n].
Proof.
  unfold safe_name, segment_component. intros (H1 & _ & H2 & H3).
  apply bytes_eqb_neq in H1, H2, H3. by rewrite H1, H2, H3.
Qed.

Lemma components_safe p n : Normal n ∈ components p -> safe_name n.
Proof.
  unfold components. rewrite elem_of_app. intros [H|H].
  - repeat case_match; set_solver.
  - apply list_elem_of_In, in_concat in H as (x & Hx & Hn). apply in_map_iff in Hx as (s & <- & Hs).
    eapply segment_component_safe; [|by apply list_elem_of_In].
    eapply (Forall_forall (fun s => 47 ∉ s)); [apply split_on_segments|by apply list_elem_of_In].
Qed.

Lemma components_join names :
  Forall safe_name names -> components (join_with [47] names) = map Normal names.
Proof.
  intros Hn. destruct names as [|n names]; [done|].
  assert (Hseg : Forall (fun s => 47 ∉ s) (n :: names)).
  { eapply Forall_impl; [exact Hn|]. by intros ? (_ & ? & _). }
  unfold components. rewrite split_on_join by done.
  assert (Hstart : starts_with (join_with [47] (n :: names)) [47] = false).
  { apply Forall_cons in Hn as [(Hne & H47 & _) _]. destruct n as [|b n]; [done|].
    apply not_elem_of_cons in H47 as [Hb _].
    destruct names; cbn [join_with app starts_with]; by rewrite (eqb_neq_false 47 b). }
  rewrite Hstart. replace (bytes_eqb n (str ".")) with false.
  2:{ apply Forall_cons in Hn as [(_ & _ & Hd & _) _]. symmetry. by apply bytes_eqb_neq. }
  cbn [app]. clear Hstart Hseg. induction Hn as [|m ms Hm _ IH]; [done|].
  cbn [map concat]. rewrite safe_segment by done. cbn [app]. by rewrite IH.
Qed.

Lemma omap_normal names :
  omap (fun c => match c with Normal n => Some n | _ => None end) (map Normal names) = names.
Proof. induction names as [|n names IH]; [done|]. cbn. by f_equal. Qed.

Lemma normal_names_join names : Forall safe_name names -> normal_names (join_with [47] names) = names.
Proof. intros H. unfold normal_names. rewrite components_join by done. apply omap_normal. Qed.

(** ** The normalised path *)

(** Some prefix of the path has more parent steps than names: it leaves the
    directory it starts in. *)
Fixpoint height (cs : list Component) : Z :=
  match cs with
  | [] => 0
  | Normal _ :: cs => 1 + height cs
  | ParentDir :: cs => height cs - 1
  | _ :: cs => height cs
  end.
Definition escapes (cs : list Component) : Prop :=
  exists cs1 cs2, cs = cs1 ++ cs2 /\ height cs1 < 0.

Lemma height_app a b : height (a ++ b) = height a + height b.
Proof. induction a as [|[] a IH]; cbn [app height]; lia. Qed.

Lemma normalize_components_app cs1 cs2 names :
  normalize_components (cs1 ++ cs2) names =
  rbind (normalize_components cs1 names) (normalize_components cs2).
Proof.
  revert names. induction cs1 as [|[] cs1 IH]; intros names; cbn; rewrite ?IH; try done.
  destruct names; by rewrite ?IH.
Qed.

Lemma normalize_components_height cs names names' :
  normalize_components cs names = Ok names' -> len names' = len names + height cs.
Proof.
  revert names. induction cs as [|[] cs IH]; intros names; cbn [normalize_components height].
  - intros [= <-]. lia.
  - apply IH.
  - apply IH.
  - destruct names as [|n names _] using rev_ind; [done|].
    destruct (names ++ [n]) eqn:E; [by destruct names|]. rewrite <- E. rewrite removelast_last.
    intros Hr%IH. rewrite Hr. autorewrite with veys_len. lia.
  - intros Hr%IH. rewrite Hr. autorewrite with veys_len. lia.
Qed.

(** A path that climbs out is refused, whatever comes after. *)
Lemma normalize_components_ok cs names names' :
  normalize_components cs names = Ok names' ->
  forall cs1 cs2, cs = cs1 ++ cs2 -> 0 <= len names + height cs1.
Proof.
  intros Hn cs1 cs2 ->. rewrite normalize_components_app in Hn.
  apply rbind_ok in Hn as (names1 & H1 & _). apply normalize_components_height in H1.
  pose proof (len_nonneg names1). lia.
Qed.

Lemma normalize_components_err cs names e :
  normalize_components cs names = Err e ->
  exists cs1 cs2, cs = cs1 ++ cs2 /\ len names + height cs1 < 0.
Proof.
  revert names. induction cs as [|c cs IH]; intros names; [done|]. cbn [normalize_components].
  destruct c as [| | |n].
  - intros (cs1 & cs2 & -> & Hh)%IH. exists (RootDir :: cs1), cs2. done.
  - intros (cs1 & cs2 & -> & Hh)%IH. exists (CurDir :: cs1), cs2. done.
  - destruct names as [|n names _] using rev_ind.
    { intros _. exists [ParentDir], cs. done. }
    destruct (names ++ [n]) eqn:E; [by destruct names|]. rewrite <- E, removelast_last.
    intros (cs1 & cs2 & -> & Hh)%IH. exists (ParentDir :: cs1), cs2. split; [done|].
    autorewrite with veys_len. cbn [height]. lia.
  - intros (cs1 & cs2 & -> & Hh)%IH. exists (Normal n :: cs1), cs2. split; [done|].
    autorewrite with veys_len in Hh. cbn [height]. lia.
Qed.

Lemma normalize_components_names cs names names' (P : bytes -> Prop) :
  normalize_components cs names = Ok names' ->
  (forall n, Normal n ∈ cs -> P n) -> Forall P names -> Forall P names'.
Proof.
  revert names. induction cs as [|c cs IH]; intros names Hn Hcs Hnames; cbn in Hn; [by simplify_eq|].
  destruct c as [| | |n]; try (eapply IH; [exact Hn|set_solver|done]).
  - destruct names as [|m names _] using rev_ind; [done|].
    destruct (names ++ [m]) eqn:E; [by destruct names|]. rewrite <- E, removelast_last in Hn.
    eapply IH; [exact Hn|set_solver|]. rewrite <- E in Hnames. by apply Forall_app in Hnames as [? _].
  - eapply IH; [exact Hn|set_solver|]. apply Forall_app. split; [done|].
    constructor; [apply Hcs; set_solver|constructor].
Qed.

Lemma normalize_components_normal names names0 :
  normalize_components (map Normal names) names0 = Ok (names0 ++ names).
Proof.
  revert names0. induction names as [|n names IH]; intros names0; cbn [map normalize_components].
  - by rewrite app_nil_r.
  - rewrite IH. by rewrite <- app_assoc.
Qed.

Lemma normalize_safe uri p :
  normalize_relative_path uri = Ok p ->
  exists names, normalize_components (components uri) [] = Ok names /\
    p = join_with [47] names /\ Forall safe_name names.
Proof.
  unfold normalize_relative_path. intros (names & Hn & [= <-])%rbind_ok. exists names.
  split_and!; [done..|]. eapply normalize_components_names; [exact Hn|apply components_safe|constructor].
Qed.

(** ** What the path denotes

    A tree of directories: [lookup] finds an entry and [parent] goes back. *)
Section Walk.
Context {node : Type} (root : node) (lookup : node -> bytes -> option node) (parent : node -> node).

Fixpoint walk (cs : list Component) (n : node) : option node :=
  match cs with
  | [] => Some n
  | RootDir :: cs | CurDir :: cs => walk cs n
  | ParentDir :: cs => walk cs (parent n)
  | Normal c :: cs => match lookup n c with Some m => walk cs m | None => None end
  end.

Lemma walk_app cs1 cs2 n :
  walk (cs1 ++ cs2) n = match walk cs1 n with Some m => walk cs2 m | None => None end.
Proof.
  revert n. induction cs1 as [|[| | |c] cs1 IH]; intros n; cbn; rewrite ?IH; try done.
  destruct (lookup n c); by rewrite ?IH.
Qed.

Hypothesis lookup_parent : forall n c m, lookup n c = Some m -> parent m = n.

Lemma walk_normalize cs names names' n m :
  walk (map Normal names) root = Some n -> normalize_components cs names = Ok names' ->
  walk cs n = Some m -> walk (map Normal names') root = Some m.
Proof.
  revert names n. induction cs as [|c cs IH]; intros names n Hw Hn Hm; cbn in Hn, Hm; [by simplify_eq|].
  destruct c as [| | |c]; [by eapply IH..| |].
  - destruct names as [|c names _] using rev_ind; [done|].
    destruct (names ++ [c]) eqn:E; [by destruct names|]. rewrite <- E, removelast_last in Hn.
    rewrite <- E, map_app, walk_app in Hw. destruct (walk (map Normal names) root) as [k|] eqn:Hk; [|done].
    cbn in Hw. destruct (lookup k c) as [k'|] eqn:Hl; [|done]. simplify_eq.
    eapply IH; [exact Hk|done|]. by rewrite (lookup_parent _ _ _ Hl) in Hm.
  - destruct (lookup n c) as [k|] eqn:Hl; [|done]. eapply IH; [|done|exact Hm].
    rewrite map_app, walk_app, Hw. cbn. by rewrite Hl.
Qed.
End Walk.

(** C14 (safety): normalisation confines a request path to the document root.
    A path is refused exactly when some prefix of it climbs above its start.
    An accepted one becomes a sequence of plain names (not empty, no separator,
    neither "." nor ".."), a second normalisation changes nothing, and in every
    directory tree it denotes the node the original path denotes. *)
Theorem normalize_relative_path_spec uri :
  match normalize_relative_path uri with
  | Ok p =>
      Forall safe_name (normal_names p) /\ components p = map Normal (normal_names p) /\
      normalize_relative_path p = Ok p /\ ~ escapes (components uri) /\
      forall node (root : node) lookup parent,
        (forall n c m, lookup n c = Some m -> parent m = n) ->
        forall m, walk lookup parent (components uri) root = Some m ->
                  walk lookup parent (components p) root = Some m
  | Err _ => escapes (components uri)
  end.
Proof.
  destruct (normalize_relative_path uri) as [p|e] eqn:Hn.
  - apply normalize_safe in Hn as (names & Hn & -> & Hs).
    rewrite components_join, normal_names_join by done. split_and!; try done.
    + unfold normalize_relative_path. rewrite components_join by done.
      by rewrite normalize_components_normal.
    + intros (cs1 & cs2 & Hc & Hh). pose proof (normalize_components_ok _ _ _ Hn _ _ Hc) as Hp.
      unfold len in Hp. cbn [length] in Hp. lia.
    + intros node root lookup parent Hpar m Hm. by eapply (walk_normalize root lookup parent Hpar _ []).
  - unfold normalize_relative_path in Hn.
    destruct (normalize_components (components uri) []) as [names|e'] eqn:Hc; [done|].
    by apply normalize_components_err in Hc.
Qed.

(** ** Percent decoding *)

Lemma to_digit_upper d : 0 <= d < 16 -> to_digit 16 (upper_hex_digit d) = Some d.
Proof.
  intros Hd. unfold upper_hex_digit, to_digit, is_ascii_digit, between.
  destruct (Z.ltb_spec d 10).
  - replace ((48 <=? d + 48) && (d + 48 <=? 57)) with true by lia.
    replace (d + 48 - 48) with d by lia. by replace (d <? 16) with true by lia.
  - replace ((48 <=? d + 55) && (d + 55 <=? 57)) with false by lia.
    replace ((97 <=? d + 55) && (d + 55 <=? 122)) with false by lia.
    replace ((65 <=? d + 55) && (d + 55 <=? 90)) with true by lia.
    replace (d + 55 - 55) with d by lia. by replace (d <? 16) with true by lia.
Qed.

Lemma hex_pair_upper b :
  is_byte b -> hex_pair (upper_hex_digit (b / 16)) (upper_hex_digit (b mod 16)) = Some b.
Proof.
  unfold is_byte. intros Hb. assert (Hq : 0 <= b / 16 < 16) by zlia. assert (Hr : 0 <= b mod 16 < 16) by zlia.
  assert (Ha : forall d, 0 <= d < 16 -> 48 <= upper_hex_digit d <= 70).
  { intros d Hd. unfold upper_hex_digit. destruct (Z.ltb_spec d 10); lia. }
  unfold hex_pair. rewrite ascii_utf8_valid.
  2:{ pose proof (Ha _ Hq). pose proof (Ha _ Hr).
      apply Forall_cons. split; [lia|]. apply Forall_cons. split; [lia|constructor]. }
  cbn [negb]. rewrite (eqb_neq_false (upper_hex_digit (b / 16)) 43) by (pose proof (Ha _ Hq); lia).
  rewrite !to_digit_upper by done. f_equal. zlia.
Qed.

Lemma percent_decode_bytes_app b l rest :
  is_byte b -> percent_decode_bytes l = Some rest ->
  percent_decode_bytes (url_encode_byte b ++ l) = Some (b :: rest).
Proof.
  intros Hb Hl. unfold url_encode_byte. destruct (_ || _) eqn:E; cbn [app percent_decode_bytes].
  - destruct (Z.eqb_spec b 37) as [->|]; [done|]. by rewrite Hl.
  - rewrite Z.eqb_refl. by rewrite hex_pair_upper, Hl.
Qed.

Lemma percent_decode_encode v : bytes_ok v -> percent_decode_bytes (url_encode_path v) = Some v.
Proof.
  unfold url_encode_path. induction 1 as [|b v Hb _ IH]; [done|]. cbn [map concat].
  by apply percent_decode_bytes_app.
Qed.

(** Decoding never lengthens a string, and shortens it when there is an
    escape. *)
Lemma percent_decode_bytes_length n l d :
  (length l <= n)%nat -> percent_decode_bytes l = Some d ->
  (length d <= length l)%nat /\ (contains_char 37 l = true -> length d < length l)%nat.
Proof.
  revert l d. induction n as [|n IH]; intros l d Hn Hd.
  { destruct l; [|cbn in Hn; lia]. cbn in Hd. by simplify_eq. }
  destruct l as [|b l]; [cbn in Hd; by simplify_eq|]. cbn [percent_decode_bytes] in Hd.
  cbn [length contains_char existsb] in *. destruct (Z.eqb_spec b 37) as [->|Hb].
  - destruct l as [|h1 [|h2 l]]; try done. destruct (hex_pair h1 h2); [|done].
    destruct (percent_decode_bytes l) as [r|] eqn:Hr; [|done]. simplify_eq.
    cbn [length] in *. apply IH in Hr as [Hr _]; [|lia]. lia.
  - destruct (percent_decode_bytes l) as [r|] eqn:Hr; [|done]. simplify_eq. cbn [length].
    rewrite (eqb_neq_false 37 b) by congruence. cbn [orb].
    apply IH in Hr as [Hr1 Hr2]; [|lia]. fold (contains_char 37 l). split; [lia|]. intros H%Hr2. lia.
Qed.

Lemma percent_decode_single_shrinks l d :
  percent_decode_single l = Some d -> contains_char 37 l = true -> (length d < length l)%nat.
Proof.
  unfold percent_decode_single. destruct (percent_decode_bytes l) as [d'|] eqn:Hd; [|done].
  case_match; [|done]. intros [= <-] Hc. by eapply percent_decode_bytes_length in Hd as [_ Hs]; [apply Hs|].
Qed.

(** [k] rounds of decoding. *)
Fixpoint decoded_times (k : nat) (l d : bytes) : Prop :=
  match k with
  | O => d = l
  | S k => contains_char 37 l = true /\
           exists l', percent_decode_single l = Some l' /\ decoded_times k l' d
  end.

Lemma percent_decode_rounds_spec n l d :
  percent_decode_rounds n l = Some d ->
  exists k, (k <= n)%nat /\ decoded_times k l d /\ ((k < n)%nat -> contains_char 37 d = false).
Proof.
  revert l. induction n as [|n IH]; intros l Hd; cbn in Hd.
  { simplify_eq. exists 0%nat. split_and!; [lia|done|lia]. }
  destruct (contains_char 37 l) eqn:Hc; cbn in Hd.
  2:{ simplify_eq. exists 0%nat. split_and!; [lia|done|done]. }
  destruct (percent_decode_single l) as [l'|] eqn:Hs; [|done].
  destruct (bytes_eqb l' l) eqn:He.
  { apply bytes_eqb_eq in He as ->. apply percent_decode_single_shrinks in Hs; [lia|done]. }
  apply IH in Hd as (k & Hk & Ht & Hl). exists (S k). split_and!; [lia| |intros; apply Hl; lia].
  split; [done|]. by exists l'.
Qed.

(** Decoding inverts the encoding of directory
    listings on every string, and the repeated decoding of a request target is
    [k] successive decodings for some [k] up to four, fewer than four only when
    no escape is left; each of them yields valid UTF-8 or the request is
    refused. *)
Theorem percent_decoding_spec :
  (forall v, utf8_valid v = true -> percent_decode_single (url_encode_path v) = Some v) /\
  (forall l d, percent_decode_recursive l = Some d ->
     exists k, (k <= 4)%nat /\ decoded_times k l d /\ ((k < 4)%nat -> contains_char 37 d = false)) /\
  (forall l, percent_decode_recursive l = None ->
     exists k d, (k < 4)%nat /\ decoded_times k l d /\ contains_char 37 d = true /\
                 percent_decode_single d = None).
Proof.
  split_and!.
  - intros v Hv. unfold percent_decode_single. rewrite percent_decode_encode by (by apply utf8_bytes_ok).
    by rewrite Hv.
  - intros l d. apply percent_decode_rounds_spec.
  - unfold percent_decode_recursive. generalize 4%nat. intros n.
    induction n as [|n IH]; intros l Hd; cbn in Hd; [done|].
    destruct (contains_char 37 l) eqn:Hc; cbn in Hd; [|done].
    destruct (percent_decode_single l) as [l'|] eqn:Hs.
    + destruct (bytes_eqb l' l); [done|]. apply IH in Hd as (k & d & Hk & Ht & Hcd & Hn).
      exists (S k), d. split_and!; [lia| |done..]. split; [done|]. by exists l'.
    + exists 0%nat, l. split_and!; [lia|done..].
Qed.
