(* ===== verification/Conditional.v ===== *)
(** * Dates, entity tags and byte ranges (src/router/handler.rs)

    The HTTP date of a time stamp and back, and the [Range] header.  Arithmetic
    is on [u64]; where it can overflow the wrapped result is taken, as in a
    release build.  A [SystemTime] is the number of seconds since the epoch. *)

From S2P Require Import Prelude RustStd Http Text Paths.

Definition generate_etag (mtime_secs file_size : Z) : bytes :=
  [34] ++ to_hex mtime_secs ++ [45] ++ to_hex file_size ++ [34].

(** ** Dates *)

Definition wdays : list bytes :=
  [str "Sun"; str "Mon"; str "Tue"; str "Wed"; str "Thu"; str "Fri"; str "Sat"].
Definition months : list bytes :=
  [str "Jan"; str "Feb"; str "Mar"; str "Apr"; str "May"; str "Jun";
   str "Jul"; str "Aug"; str "Sep"; str "Oct"; str "Nov"; str "Dec"].

(** The calendar date of a day number: year, month and day. *)
Definition civil_date (days_since_epoch : Z) : Z * Z * Z :=
  let l := days_since_epoch + 68569 + 2440588 in
  let n := (4 * l) / 146097 in
  let l := l - (146097 * n + 3) / 4 in
  let i := (4000 * (l + 1)) / 1461001 in
  let l := l - (1461 * i) / 4 + 31 in
  let j := (80 * l) / 2447 in
  let day := l - (2447 * j) / 80 in
  let l := j / 11 in
  let month := j + 2 - 12 * l in
  let year := 100 * (n - 49) + i + l in
  (year, month, day).

(** [duration_since(UNIX_EPOCH).unwrap_or_default().as_secs()]. *)
Definition since_epoch (st : Z) : Z := Z.max st 0.

Definition format_http_date (st : Z) : bytes :=
  let secs := since_epoch st in
  let days_since_epoch := secs / 86400 in
  let secs_of_day := secs mod 86400 in
  let hours := secs_of_day / 3600 in
  let minutes := (secs_of_day mod 3600) / 60 in
  let seconds := secs_of_day mod 60 in
  let wday_idx := (days_since_epoch + 4) mod 7 in
  let '(year, month, day) := civil_date days_since_epoch in
  nth (Z.to_nat wday_idx) wdays [] ++ str ", " ++ pad 2 day ++ str " "
  ++ nth (Z.to_nat (month - 1)) months [] ++ str " " ++ pad 4 year ++ str " "
  ++ pad 2 hours ++ str ":" ++ pad 2 minutes ++ str ":" ++ pad 2 seconds ++ str " GMT".

Fixpoint position {A} (f : A -> bool) (l : list A) : option Z :=
  match l with
  | [] => None
  | x :: r => if f x then Some 0 else option_map (Z.add 1) (position f r)
  end.

(** The Julian day number of a date. *)
Definition julian_day (year month_idx day : Z) : Z :=
  let a := (14 - month_idx) / 12 in
  let y := as_u64 (year + 4800 - a) in
  let m := month_idx + 12 * a - 3 in
  as_u64 (day + (153 * m + 2) / 5 + 365 * y + y / 4 - y / 100 + y / 400 - 32045).

Definition parse_http_date (s : bytes) : option Z :=
  let parts := split_whitespace s in
  let part i := nth i parts [] in
  if (length parts <? 5)%nat then None else
  let '(day_str, month_str, year_str, time_str) :=
    if (length parts =? 6)%nat then (part 1%nat, part 2%nat, part 3%nat, part 4%nat)
    else (part 0%nat, part 1%nat, part 2%nat, part 3%nat) in
  match parse_u64 (trim_matches 44 day_str), parse_u64 year_str,
        position (fun m => eq_ignore_ascii_case m month_str) months with
  | Some day, Some year, Some idx =>
      match map parse_u64 (split_on 58 time_str) with
      | [Some hour; Some min; Some sec] =>
          let jdn := julian_day year (idx + 1) day in
          if jdn <? 2440588 then None else
          let days := jdn - 2440588 in
          Some (as_u64 (days * 86400 + hour * 3600 + min * 60 + sec))
      | _ => None
      end
  | _, _, _ => None
  end.

(** ** Ranges *)

Record RangeSpec : Type := mkRangeSpec { range_start : Z; range_end : Z }.

Definition parse_range_header (header : bytes) (file_size : Z)
  : result (option RangeSpec) unit :=
  if negb (starts_with header (str "bytes=")) then Ok None else
  if file_size =? 0 then Err tt else
  let spec := trim (drop 6 header) in
  if contains_char 44 spec then Ok None else
  match split_on 45 spec with
  | [p0; p1] =>
      match trim p0, trim p1 with
      | [], [] => Ok None
      | [], end_str =>
          let? suffix_len := ok_or (parse_u64 end_str) tt in
          if suffix_len =? 0 then Err tt else
          Ok (Some (mkRangeSpec (Z.max (file_size - suffix_len) 0) (file_size - 1)))
      | start_str, [] =>
          let? start := ok_or (parse_u64 start_str) tt in
          if file_size <=? start then Err tt else
          Ok (Some (mkRangeSpec start (file_size - 1)))
      | start_str, end_str =>
          let? start := ok_or (parse_u64 start_str) tt in
          let? end_ := ok_or (parse_u64 end_str) tt in
          if (file_size <=? start) || (end_ <? start) then Err tt else
          Ok (Some (mkRangeSpec start (Z.min end_ (file_size - 1))))
      end
  | _ => Ok None
  end.

(** ** The calendar *)

(** The month and day phase: [r] days after the first of March. *)
Lemma month_phase r j :
  0 <= r <= 365 -> j = (80 * (r + 31)) / 2447 ->
  1 <= j <= 12 /\ 1 <= r + 31 - (2447 * j) / 80 <= 31 /\
  (2447 * j) / 80 = (153 * (j - 1) + 2) / 5 + 30.
Proof.
  intros Hr Hj. assert (Hb : 1 <= j <= 12) by zlia. split; [done|].
  assert (Hc : j = 1 \/ j = 2 \/ j = 3 \/ j = 4 \/ j = 5 \/ j = 6 \/ j = 7 \/ j = 8 \/ j = 9 \/
               j = 10 \/ j = 11 \/ j = 12) by lia.
  clear Hb. repeat destruct Hc as [->|Hc]; [..|subst j]; split; try reflexivity; zlia.
Qed.

Lemma year_phase l i :
  0 <= l <= 36524 -> i = (4000 * (l + 1)) / 1461001 ->
  0 <= i <= 99 /\ 0 <= l - (1461 * i) / 4 <= 365.
Proof. intros Hl Hi. zlia. Qed.

Lemma century_phase l n :
  n = (4 * l) / 146097 -> 0 <= l - (146097 * n + 3) / 4 <= 36524.
Proof. intros Hn. zlia. Qed.

(** The date of a day has that day as its Julian day number. *)
Lemma civil_date_julian d :
  0 <= d < 2 ^ 48 ->
  let '(year, month, day) := civil_date d in
  1900 <= year < 2 ^ 60 /\ 1 <= month <= 12 /\ 1 <= day <= 31 /\
  julian_day year month day = d + 2440588.
Proof.
  intros Hd. unfold civil_date. cbv zeta.
  set (l := d + 68569 + 2440588). remember ((4 * l) / 146097) as n eqn:Hn.
  pose proof (century_phase l n Hn) as Hc. set (l1 := l - (146097 * n + 3) / 4) in *.
  remember ((4000 * (l1 + 1)) / 1461001) as i eqn:Hi.
  destruct (year_phase l1 i Hc Hi) as [Hi99 Hr]. set (r := l1 - (1461 * i) / 4) in *.
  remember ((80 * (r + 31)) / 2447) as j eqn:Hj.
  destruct (month_phase r j Hr Hj) as (Hj12 & Hday & Hdays).
  assert (Hn49 : 68 <= n < 2 ^ 48) by (unfold l in Hn; zlia).
  assert (Hjl : j / 11 = if 11 <=? j then 1 else 0) by (destruct (Z.leb_spec 11 j); zlia).
  assert (Hm : (14 - (j + 2 - 12 * (j / 11))) / 12 = j / 11)
    by (rewrite Hjl; destruct (Z.leb_spec 11 j); zlia).
  assert (Hl3 : 0 <= j / 11 <= 1) by (rewrite Hjl; destruct (Z.leb_spec 11 j); lia).
  assert (Hm12 : 1 <= j + 2 - 12 * (j / 11) <= 12) by (rewrite Hjl; destruct (Z.leb_spec 11 j); lia).
  split_and!; try lia. unfold julian_day, as_u64. rewrite Hm.
  replace (100 * (n - 49) + i + j / 11 + 4800 - j / 11) with (100 * (n - 1) + i) by lia.
  rewrite (Z.mod_small (100 * (n - 1) + i)) by lia.
  replace (j + 2 - 12 * (j / 11) + 12 * (j / 11) - 3) with (j - 1) by lia.
  assert (Hl : l = (146097 * n + 3) / 4 + (1461 * i) / 4 + r) by (unfold r, l1; lia).
  assert (Hy : 365 * (100 * (n - 1) + i) + (100 * (n - 1) + i) / 4 - (100 * (n - 1) + i) / 100
               + (100 * (n - 1) + i) / 400
               = (146097 * n + 3) / 4 + (1461 * i) / 4 - 36525) by (clear - Hi99; zlia).
  rewrite Z.mod_small; unfold l in *; lia.
Qed.

(** ** The text of a date *)

(** Printable ASCII without spaces. *)
Definition plain (w : bytes) : Prop := w <> [] /\ Forall (fun b => 33 <= b < 127) w.

Lemma words_plain w rest current :
  Forall (fun b => 33 <= b < 127) w ->
  words (chars (w ++ rest)) current = words (chars rest) (current ++ w).
Proof.
  intros Hw. revert current. induction Hw as [|b w Hb _ IH]; intros current.
  { by rewrite app_nil_r. }
  cbn [app chars]. replace (b <? 192) with true by lia. cbn [words is_whitespace].
  replace (ws1 b) with false by (unfold ws1, between; lia). rewrite IH.
  by rewrite <- app_assoc.
Qed.

Lemma split_whitespace_join ws :
  Forall plain ws -> split_whitespace (join_with [32] ws) = ws.
Proof.
  unfold split_whitespace. induction 1 as [|w ws [Hne Hw] Hws IH]; [done|].
  destruct ws as [|w' ws].
  - cbn [join_with]. rewrite <- (app_nil_r w) at 1. rewrite words_plain by done. cbn.
    by apply flush_word_cons.
  - change (join_with [32] (w :: w' :: ws)) with (w ++ [32] ++ join_with [32] (w' :: ws)).
    rewrite words_plain by done. cbn [app chars]. change (32 <? 192) with true.
    cbn [words is_whitespace app]. change (ws1 32) with true. cbv iota.
    rewrite flush_word_cons by done. by rewrite IH.
Qed.

Lemma to_string_digits n :
  Forall (fun c => is_ascii_digit c = true) (to_string n) /\ to_string n <> [].
Proof.
  unfold to_string. destruct (radix_digits_app 10 19 n []) as (ds & -> & Hne & Hd).
  rewrite app_nil_r. split; [|done]. eapply Forall_impl; [apply Hd; lia|].
  intros c (d & Hr & ->). by apply digit_char_decimal.
Qed.

Lemma parse_digits_zeros max k l : 0 <= max -> parse_digits max (repeat 48 k ++ l) 0 = parse_digits max l 0.
Proof.
  intros Hm. induction k as [|k IH]; [done|]. cbn [repeat app parse_digits].
  change (is_ascii_digit 48) with true. change (0 * 10 + (48 - 48)) with 0.
  by replace (0 <=? max) with true by lia.
Qed.

Lemma pad_spec w n :
  0 <= n <= U64_MAX ->
  Forall (fun c => is_ascii_digit c = true) (pad w n) /\ pad w n <> [] /\
  parse_u64 (pad w n) = Some n.
Proof.
  intros Hn. destruct (to_string_digits n) as [Hd Hne]. unfold pad.
  assert (Hall : Forall (fun c => is_ascii_digit c = true)
                   (repeat 48 (w - length (to_string n)) ++ to_string n)).
  { apply Forall_app. split; [|done]. by apply Forall_forall; intros x ->%list_elem_of_In%repeat_spec. }
  assert (Hnz : repeat 48 (w - length (to_string n)) ++ to_string n <> []).
  { intros [_ E]%app_nil. done. }
  assert (Hplus : forall l, Forall (fun c => is_ascii_digit c = true) l -> l <> [] ->
            parse_u64 l = parse_digits U64_MAX l 0).
  { intros l Hl Hl0. unfold parse_u64, parse_unsigned. destruct l as [|c l]; [done|].
    apply Forall_inv in Hl. unfold is_ascii_digit in Hl. zbool. by rewrite eqb_neq_false by lia. }
  split_and!; [done..|]. rewrite Hplus, parse_digits_zeros by (done || unfold U64_MAX; lia).
  rewrite <- (Hplus (to_string n)) by done. by apply parse_usize_to_string.
Qed.

Lemma digits_plain l : Forall (fun c => is_ascii_digit c = true) l -> Forall (fun b => 33 <= b < 127) l.
Proof. intros H. eapply Forall_impl; [exact H|]. cbn. unfold is_ascii_digit. intros. zbool. lia. Qed.

Lemma digits_trim l : Forall (fun c => is_ascii_digit c = true) l -> trim_matches 44 l = l.
Proof.
  assert (Hs : forall l, Forall (fun c => is_ascii_digit c = true) l -> trim_start_char 44 l = l).
  { intros k Hk. destruct k as [|c k]; [done|]. apply Forall_inv in Hk. unfold is_ascii_digit in Hk.
    zbool. cbn. by rewrite eqb_neq_false by lia. }
  intros Hl. unfold trim_matches. rewrite (Hs l), Hs; [apply rev_involutive| |done].
  by apply Forall_rev.
Qed.

Lemma digits_no_colon l : Forall (fun c => is_ascii_digit c = true) l -> 58 ∉ l.
Proof. intros H Hin. by pose proof (proj1 (Forall_forall _ _) H 58 Hin). Qed.

Lemma month_position m :
  1 <= m <= 12 ->
  Forall (fun b => 33 <= b < 127) (nth (Z.to_nat (m - 1)) months []) /\
  nth (Z.to_nat (m - 1)) months [] <> [] /\
  position (fun x => eq_ignore_ascii_case x (nth (Z.to_nat (m - 1)) months [])) months = Some (m - 1).
Proof.
  intros Hm. assert (Hc : exists k, (k < 12)%nat /\ m = Z.of_nat k + 1) by (exists (Z.to_nat (m - 1)); lia).
  destruct Hc as (k & Hk & ->). replace (Z.of_nat k + 1 - 1) with (Z.of_nat k) by lia. rewrite Nat2Z.id.
  do 12 (destruct k as [|k]; [split_and!; [apply (bool_decide_unpack _); by vm_compute|done|reflexivity]|]).
  lia.
Qed.

Lemma wday_plain k : (k < 7)%nat -> plain (nth k wdays [] ++ [44]).
Proof.
  intros Hk. do 7 (destruct k as [|k]; [split; [done|]; apply (bool_decide_unpack _); by vm_compute|]). lia.
Qed.

Lemma time_plain h m c :
  h <> [] -> Forall (Forall (fun c => is_ascii_digit c = true)) [h; m; c] ->
  plain (join_with [58] [h; m; c]).
Proof.
  rewrite !Forall_cons. intros Hne (Hh & Hm & Hc & _).
  split; [by destruct h|]. cbn [join_with].
  repeat apply Forall_app_2; try by apply digits_plain. all: by apply (bool_decide_unpack _).
Qed.

Lemma http_date_read_back secs :
  0 <= secs < 2 ^ 63 -> parse_http_date (format_http_date secs) = Some secs.
Proof.
  intros Hs. unfold format_http_date, since_epoch. rewrite Z.max_l by lia. cbv zeta.
  assert (Hd : 0 <= secs / 86400 < 2 ^ 48) by zlia.
  pose proof (civil_date_julian _ Hd) as Hc.
  destruct (civil_date (secs / 86400)) as [[year month] day]. destruct Hc as (Hy & Hm & Hday & Hj).
  set (sod := secs mod 86400). assert (Hsod : 0 <= sod < 86400) by (unfold sod; zlia).
  destruct (pad_spec 2 day) as (Dd & Nd & Pd); [unfold U64_MAX; lia|].
  destruct (pad_spec 4 year) as (Dy & Ny & Py); [unfold U64_MAX; lia|].
  destruct (pad_spec 2 (sod / 3600)) as (Dh & Nh & Ph); [unfold U64_MAX; zlia|].
  destruct (pad_spec 2 (sod mod 3600 / 60)) as (Dn & Nn & Pn); [unfold U64_MAX; zlia|].
  destruct (pad_spec 2 (sod mod 60)) as (Dc & Nc & Pc); [unfold U64_MAX; zlia|].
  destruct (month_position month Hm) as (Mp & Mn & Mi).
  set (wd := Z.to_nat ((secs / 86400 + 4) mod 7)).
  set (time := join_with [58] [pad 2 (sod / 3600); pad 2 (sod mod 3600 / 60); pad 2 (sod mod 60)]).
  assert (Dall := Forall_cons_2 _ _ _ Dh (Forall_cons_2 _ _ _ Dn (Forall_cons_2 _ _ _ Dc (Forall_nil_2 _)))).
  match goal with |- parse_http_date ?t = _ => replace t with (join_with [32]
    [nth wd wdays [] ++ [44]; pad 2 day; nth (Z.to_nat (month - 1)) months []; pad 4 year; time; str "GMT"]) end.
  2:{ unfold time. cbn [join_with str map]. rewrite <- ?app_assoc. reflexivity. }
  unfold parse_http_date. rewrite split_whitespace_join.
  2:{ repeat apply Forall_cons_2; try by (split; [|apply digits_plain]).
      - apply wday_plain. unfold wd. zlia.
      - by split.
      - exact (time_plain _ _ _ Nh Dall).
      - by apply (bool_decide_unpack _).
      - constructor. }
  cbn [length Nat.ltb Nat.leb Nat.eqb nth]. rewrite digits_trim, Pd, Py, Mi by done.
  unfold time. rewrite (split_on_join 58 [_; _; _]); [|discriminate|exact (Forall_impl _ _ _ Dall digits_no_colon)].
  cbn [map]. rewrite Ph, Pn, Pc. replace (month - 1 + 1) with month by lia. rewrite Hj.
  replace (secs / 86400 + 2440588 <? 2440588) with false by lia. f_equal. unfold as_u64.
  rewrite Z.mod_small; unfold sod; zlia.
Qed.

(** The date written for a time stamp is read back as the
    same second, for every time from the epoch on: [If-Modified-Since] with the
    server's own [Last-Modified] compares equal. *)
Theorem http_date_round_trip secs :
  0 <= secs < 2 ^ 63 -> parse_http_date (format_http_date secs) = Some secs.
Proof. exact (http_date_read_back secs). Qed.

Lemma http_date_round_trip_witness :
  parse_http_date (format_http_date 784111777) = Some 784111777.
Proof. apply (http_date_round_trip 784111777). lia. Defined.

(** ** Byte ranges *)

Lemma trim_plain l : Forall (fun b => 33 <= b < 127) l -> trim l = l.
Proof.
  intros Hl.
  assert (Hs : trim_start l = l).
  { destruct Hl as [|b0 r0 H0 Hr0]; [done|]. cbn [trim_start].
    replace (ws1 b0) with false by (unfold ws1, between; lia). destruct r0 as [|b1 r1]; [done|].
    replace (ws2 b0 b1) with false by (unfold ws2; lia). destruct r1 as [|b2 r2]; [done|].
    by replace (ws3 b0 b1 b2) with false by (unfold ws3, between; lia). }
  unfold trim. rewrite Hs. unfold trim_end. apply Forall_rev in Hl.
  replace (trim_start_rev (rev l)) with (rev l); [by rewrite rev_involutive|].
  destruct Hl as [|b0 r0 H0 Hr0]; [done|]. cbn [trim_start_rev].
  replace (ws1 b0) with false by (unfold ws1, between; lia). destruct r0 as [|b1 r1]; [done|].
  replace (ws2 b1 b0) with false by (unfold ws2; lia). destruct r1 as [|b2 r2]; [done|].
  by replace (ws3 b2 b1 b0) with false by (unfold ws3, between; lia).
Qed.

Lemma digits_trim_ws l : Forall (fun c => is_ascii_digit c = true) l -> trim l = l.
Proof. intros H. by apply trim_plain, digits_plain. Qed.

Lemma digits_not_in c l :
  is_ascii_digit c = false -> Forall (fun c => is_ascii_digit c = true) l -> c ∉ l.
Proof. intros Hc H Hin. pose proof (proj1 (Forall_forall _ _) H c Hin). cbn in *. congruence. Qed.

Lemma not_contains_char c l : c ∉ l -> contains_char c l = false.
Proof.
  unfold contains_char. induction l as [|b l IH]; [done|]. rewrite not_elem_of_cons.
  intros [Hb Hl]. cbn [existsb]. rewrite (eqb_neq_false c b) by congruence. by apply IH.
Qed.

(** A range of two digit strings, either of which may be empty. *)
Lemma range_parts s e fs :
  Forall (fun c => is_ascii_digit c = true) s -> Forall (fun c => is_ascii_digit c = true) e ->
  0 < fs ->
  parse_range_header (str "bytes=" ++ s ++ [45] ++ e) fs =
  match s, e with
  | [], [] => Ok None
  | [], _ =>
      let? n := ok_or (parse_u64 e) tt in
      if n =? 0 then Err tt else Ok (Some (mkRangeSpec (Z.max (fs - n) 0) (fs - 1)))
  | _, [] =>
      let? a := ok_or (parse_u64 s) tt in
      if fs <=? a then Err tt else Ok (Some (mkRangeSpec a (fs - 1)))
  | _, _ =>
      let? a := ok_or (parse_u64 s) tt in
      let? b := ok_or (parse_u64 e) tt in
      if (fs <=? a) || (b <? a) then Err tt else
      Ok (Some (mkRangeSpec a (Z.min b (fs - 1))))
  end.
Proof.
  intros Hs He Hfs. unfold parse_range_header.
  replace (starts_with _ (str "bytes=")) with true by done. cbn [negb].
  rewrite (eqb_neq_false fs 0) by lia. change (drop 6 (str "bytes=" ++ s ++ [45] ++ e)) with (s ++ [45] ++ e).
  rewrite trim_plain.
  2:{ apply Forall_app_2; [by apply digits_plain|]. apply Forall_cons_2; [lia|by apply digits_plain]. }
  rewrite not_contains_char.
  2:{ rewrite !elem_of_app, list_elem_of_singleton. intros [H|[H|H]]; [|done|];
        revert H; by apply digits_not_in. }
  cbn [app]. rewrite split_on_app by (by apply digits_not_in).
  rewrite split_on_plain by (by apply digits_not_in). rewrite !digits_trim_ws by done. by destruct s, e.
Qed.

Lemma parse_u64_to_string n : 0 <= n <= U64_MAX -> parse_u64 (to_string n) = Some n.
Proof. apply parse_usize_to_string. Qed.

Lemma parse_u64_range s n : parse_u64 s = Some n -> 0 <= n.
Proof. intros H. apply parse_unsigned_bound in H; [lia|done]. Qed.

(** A satisfiable range lies inside the file, and the
    three forms of a single byte range are answered as RFC 9110 asks: clipped
    to the file, the last [n] bytes for a suffix, refused when it starts beyond
    the end or is empty. *)
Theorem range_header_spec :
  (forall header file_size r, 0 <= file_size -> parse_range_header header file_size = Ok (Some r) ->
     0 <= range_start r <= range_end r /\ range_end r < file_size) /\
  (forall a b file_size, 0 <= a <= U64_MAX -> 0 <= b <= U64_MAX -> 0 < file_size ->
     parse_range_header (str "bytes=" ++ to_string a ++ [45] ++ to_string b) file_size =
     if (a <? file_size) && (a <=? b)
     then Ok (Some (mkRangeSpec a (Z.min b (file_size - 1)))) else Err tt) /\
  (forall a file_size, 0 <= a <= U64_MAX -> 0 < file_size ->
     parse_range_header (str "bytes=" ++ to_string a ++ [45]) file_size =
     if a <? file_size then Ok (Some (mkRangeSpec a (file_size - 1))) else Err tt) /\
  (forall n file_size, 0 <= n <= U64_MAX -> 0 < file_size ->
     parse_range_header (str "bytes=-" ++ to_string n) file_size =
     if 0 <? n then Ok (Some (mkRangeSpec (Z.max (file_size - n) 0) (file_size - 1))) else Err tt).
Proof.
  split_and!.
  - intros header fs r Hfs H. unfold parse_range_header in H.
    repeat case_match; simplify_eq; zbool; unfold rbind, ok_or in *;
      repeat case_match; simplify_eq; zbool; cbn [range_start range_end];
      repeat match goal with Hp : parse_u64 _ = Some _ |- _ => apply parse_u64_range in Hp end; lia.
  - intros a b fs Ha Hb Hfs. destruct (to_string_digits a) as [Da Na]. destruct (to_string_digits b) as [Db Nb].
    rewrite range_parts by done. rewrite !parse_u64_to_string by done.
    destruct (to_string a); [done|]. destruct (to_string b); [done|]. cbn [ok_or rbind].
    replace ((fs <=? a) || (b <? a)) with (negb ((a <? fs) && (a <=? b))) by lia.
    by destruct ((a <? fs) && (a <=? b)).
  - intros a fs Ha Hfs. destruct (to_string_digits a) as [Da Na].
    rewrite (range_parts _ []) by done. rewrite parse_u64_to_string by done.
    destruct (to_string a); [done|]. cbn [ok_or rbind].
    replace (fs <=? a) with (negb (a <? fs)) by lia. by destruct (a <? fs).
  - intros n fs Hn Hfs. destruct (to_string_digits n) as [Dn Nn].
    change (str "bytes=-" ++ to_string n) with (str "bytes=" ++ [] ++ [45] ++ to_string n).
    rewrite range_parts by done. rewrite parse_u64_to_string by done.
    destruct (to_string n); [done|]. cbn [ok_or rbind].
    replace (n =? 0) with (negb (0 <? n)) by lia. by destruct (0 <? n).
Qed.
