(* ===== verification/Rules.v ===== *)
(** * Directory rules (src/config/veysrule.rs)

    The data of a [.veysrule] file that concerns a directory, the merge of a
    child directory's rules into its parent's, the tokenizer and the
    whitespace-separated directives.  An error is its message. *)

From S2P Require Import Prelude RustStd Text.

Definition MAX_RULE_FILE_BYTES : Z := 262144.
Definition MAX_REWRITE_RULES : Z := 128.

(** ** Networks *)

Record Cidr : Type := mkCidr { address : IpAddr; prefix : Z (* u8 *) }.

#[global] Instance Cidr_eq_dec : EqDecision Cidr.
Proof. solve_decision. Defined.

(** [MAX << (w - prefix)] at width [w]. *)
Definition net_mask (w prefix : Z) : Z :=
  if prefix =? 0 then 0 else Z.shiftl (Z.ones w) (w - prefix) mod 2 ^ w.

Definition cidr_contains (c : Cidr) (candidate : IpAddr) : bool :=
  match address c, candidate with
  | V4 network, V4 value =>
      let mask := net_mask 32 (prefix c) in Z.land network mask =? Z.land value mask
  | V6 network, V6 value =>
      let mask := net_mask 128 (prefix c) in Z.land network mask =? Z.land value mask
  | _, _ => false
  end.

Definition parse_cidr (value : bytes) : result Cidr bytes :=
  let? (addr, pre) := ok_or (split_once 47 value) (str "CIDR must use address/prefix notation") in
  let? addr := ok_or (parse_ip addr) (str "invalid IP address") in
  let? pre := ok_or (parse_u8 pre) (str "invalid CIDR prefix") in
  let max := if is_ipv4 addr then 32 else 128 in
  if pre >? max then Err (str "CIDR prefix must be between 0 and " ++ to_string max)
  else Ok (mkCidr addr pre).

(** ** The rules of a directory *)

Record RedirectRule : Type := mkRedirectRule {
  redirect_source : bytes;
  redirect_target : bytes;
  redirect_status : Z;
}.
Record RewriteRule : Type := mkRewriteRule {
  rewrite_pattern : bytes;
  rewrite_replacement : bytes;
  rewrite_status : option Z;
}.

Record DirectoryConfig : Type := mkDirectoryConfig {
  deny_ips : list IpAddr;
  allow_networks : list Cidr;
  deny_networks : list Cidr;
  dir_headers : list (bytes * bytes);
  add_headers : list (bytes * bytes);
  remove_headers : list bytes;
  redirect_404 : option bytes;
  redirect : option RedirectRule;
  rewrites : list RewriteRule;
  methods : option (list bytes);
  index_files : option (list bytes);
  autoindex : option bool;
  cache : option bool;
  expires : option Z;
  mime_types : list (bytes * bytes);
  error_pages : list (Z * bytes);
  dir_deny_hidden_files : option bool;
}.

Definition directory_config_default : DirectoryConfig :=
  mkDirectoryConfig [] [] [] [] [] [] None None [] None None None None None [] [] None.

(** *** Field updates *)

Definition put_deny_ips (v : list IpAddr) (c : DirectoryConfig) : DirectoryConfig :=
  mkDirectoryConfig v (allow_networks c) (deny_networks c) (dir_headers c) (add_headers c)
    (remove_headers c) (redirect_404 c) (redirect c) (rewrites c) (methods c) (index_files c)
    (autoindex c) (cache c) (expires c) (mime_types c) (error_pages c) (dir_deny_hidden_files c).
Definition put_allow_networks (v : list Cidr) (c : DirectoryConfig) : DirectoryConfig :=
  mkDirectoryConfig (deny_ips c) v (deny_networks c) (dir_headers c) (add_headers c)
    (remove_headers c) (redirect_404 c) (redirect c) (rewrites c) (methods c) (index_files c)
    (autoindex c) (cache c) (expires c) (mime_types c) (error_pages c) (dir_deny_hidden_files c).
Definition put_deny_networks (v : list Cidr) (c : DirectoryConfig) : DirectoryConfig :=
  mkDirectoryConfig (deny_ips c) (allow_networks c) v (dir_headers c) (add_headers c)
    (remove_headers c) (redirect_404 c) (redirect c) (rewrites c) (methods c) (index_files c)
    (autoindex c) (cache c) (expires c) (mime_types c) (error_pages c) (dir_deny_hidden_files c).
Definition put_dir_headers (v : list (bytes * bytes)) (c : DirectoryConfig) : DirectoryConfig :=
  mkDirectoryConfig (deny_ips c) (allow_networks c) (deny_networks c) v (add_headers c)
    (remove_headers c) (redirect_404 c) (redirect c) (rewrites c) (methods c) (index_files c)
    (autoindex c) (cache c) (expires c) (mime_types c) (error_pages c) (dir_deny_hidden_files c).
Definition put_add_headers (v : list (bytes * bytes)) (c : DirectoryConfig) : DirectoryConfig :=
  mkDirectoryConfig (deny_ips c) (allow_networks c) (deny_networks c) (dir_headers c) v
    (remove_headers c) (redirect_404 c) (redirect c) (rewrites c) (methods c) (index_files c)
    (autoindex c) (cache c) (expires c) (mime_types c) (error_pages c) (dir_deny_hidden_files c).
Definition put_remove_headers (v : list bytes) (c : DirectoryConfig) : DirectoryConfig :=
  mkDirectoryConfig (deny_ips c) (allow_networks c) (deny_networks c) (dir_headers c)
    (add_headers c) v (redirect_404 c) (redirect c) (rewrites c) (methods c) (index_files c)
    (autoindex c) (cache c) (expires c) (mime_types c) (error_pages c) (dir_deny_hidden_files c).
Definition put_redirect_404 (v : option bytes) (c : DirectoryConfig) : DirectoryConfig :=
  mkDirectoryConfig (deny_ips c) (allow_networks c) (deny_networks c) (dir_headers c)
    (add_headers c) (remove_headers c) v (redirect c) (rewrites c) (methods c) (index_files c)
    (autoindex c) (cache c) (expires c) (mime_types c) (error_pages c) (dir_deny_hidden_files c).
Definition put_redirect (v : option RedirectRule) (c : DirectoryConfig) : DirectoryConfig :=
  mkDirectoryConfig (deny_ips c) (allow_networks c) (deny_networks c) (dir_headers c)
    (add_headers c) (remove_headers c) (redirect_404 c) v (rewrites c) (methods c)
    (index_files c) (autoindex c) (cache c) (expires c) (mime_types c) (error_pages c)
    (dir_deny_hidden_files c).
Definition put_rewrites (v : list RewriteRule) (c : DirectoryConfig) : DirectoryConfig :=
  mkDirectoryConfig (deny_ips c) (allow_networks c) (deny_networks c) (dir_headers c)
    (add_headers c) (remove_headers c) (redirect_404 c) (redirect c) v (methods c)
    (index_files c) (autoindex c) (cache c) (expires c) (mime_types c) (error_pages c)
    (dir_deny_hidden_files c).
Definition put_methods (v : option (list bytes)) (c : DirectoryConfig) : DirectoryConfig :=
  mkDirectoryConfig (deny_ips c) (allow_networks c) (deny_networks c) (dir_headers c)
    (add_headers c) (remove_headers c) (redirect_404 c) (redirect c) (rewrites c) v
    (index_files c) (autoindex c) (cache c) (expires c) (mime_types c) (error_pages c)
    (dir_deny_hidden_files c).
Definition put_index_files (v : option (list bytes)) (c : DirectoryConfig) : DirectoryConfig :=
  mkDirectoryConfig (deny_ips c) (allow_networks c) (deny_networks c) (dir_headers c)
    (add_headers c) (remove_headers c) (redirect_404 c) (redirect c) (rewrites c) (methods c) v
    (autoindex c) (cache c) (expires c) (mime_types c) (error_pages c) (dir_deny_hidden_files c).
Definition put_autoindex (v : option bool) (c : DirectoryConfig) : DirectoryConfig :=
  mkDirectoryConfig (deny_ips c) (allow_networks c) (deny_networks c) (dir_headers c)
    (add_headers c) (remove_headers c) (redirect_404 c) (redirect c) (rewrites c) (methods c)
    (index_files c) v (cache c) (expires c) (mime_types c) (error_pages c)
    (dir_deny_hidden_files c).
Definition put_cache (v : option bool) (c : DirectoryConfig) : DirectoryConfig :=
  mkDirectoryConfig (deny_ips c) (allow_networks c) (deny_networks c) (dir_headers c)
    (add_headers c) (remove_headers c) (redirect_404 c) (redirect c) (rewrites c) (methods c)
    (index_files c) (autoindex c) v (expires c) (mime_types c) (error_pages c)
    (dir_deny_hidden_files c).
Definition put_expires (v : option Z) (c : DirectoryConfig) : DirectoryConfig :=
  mkDirectoryConfig (deny_ips c) (allow_networks c) (deny_networks c) (dir_headers c)
    (add_headers c) (remove_headers c) (redirect_404 c) (redirect c) (rewrites c) (methods c)
    (index_files c) (autoindex c) (cache c) v (mime_types c) (error_pages c)
    (dir_deny_hidden_files c).
Definition put_mime_types (v : list (bytes * bytes)) (c : DirectoryConfig) : DirectoryConfig :=
  mkDirectoryConfig (deny_ips c) (allow_networks c) (deny_networks c) (dir_headers c)
    (add_headers c) (remove_headers c) (redirect_404 c) (redirect c) (rewrites c) (methods c)
    (index_files c) (autoindex c) (cache c) (expires c) v (error_pages c)
    (dir_deny_hidden_files c).
Definition put_error_pages (v : list (Z * bytes)) (c : DirectoryConfig) : DirectoryConfig :=
  mkDirectoryConfig (deny_ips c) (allow_networks c) (deny_networks c) (dir_headers c)
    (add_headers c) (remove_headers c) (redirect_404 c) (redirect c) (rewrites c) (methods c)
    (index_files c) (autoindex c) (cache c) (expires c) (mime_types c) v
    (dir_deny_hidden_files c).
Definition put_dir_deny_hidden_files (v : option bool) (c : DirectoryConfig) : DirectoryConfig :=
  mkDirectoryConfig (deny_ips c) (allow_networks c) (deny_networks c) (dir_headers c)
    (add_headers c) (remove_headers c) (redirect_404 c) (redirect c) (rewrites c) (methods c)
    (index_files c) (autoindex c) (cache c) (expires c) (mime_types c) (error_pages c) v.

(** *** Merging *)

(** [if !self.contains(&x) { self.push(x) }] for every [x]. *)
Definition push_new {A} (same : A -> A -> bool) (self child : list A) : list A :=
  fold_left (fun self x => if existsb (same x) self then self else self ++ [x]) child self.

(** Assign to the first entry with the same key, or append. *)
Fixpoint assign_first {K V} (same : K -> K -> bool) (k : K) (v : V) (l : list (K * V))
  : list (K * V) :=
  match l with
  | [] => [(k, v)]
  | (k', v') :: r => if same k' k then (k', v) :: r else (k', v') :: assign_first same k v r
  end.
Definition assign_all {K V} (same : K -> K -> bool) (self child : list (K * V)) : list (K * V) :=
  fold_left (fun self '(k, v) => assign_first same k v self) child self.

Definition same_header (a b : bytes * bytes) : bool :=
  eq_ignore_ascii_case (fst a) (fst b) && bytes_eqb (snd a) (snd b).

(** [retain(|(n, _)| !n.eq_ignore_ascii_case(name))] for every removed name. *)
Definition drop_names (names : list bytes) (l : list (bytes * bytes)) : list (bytes * bytes) :=
  fold_left (fun l name => List.filter (fun h => negb (eq_ignore_ascii_case (fst h) name)) l) names l.

(** [if child.x.is_some() { self.x = child.x }]. *)
Definition override {A} (self child : option A) : option A :=
  match child with Some _ => child | None => self end.

Definition merge (self child : DirectoryConfig) : DirectoryConfig :=
  let headers := assign_all eq_ignore_ascii_case (dir_headers self) (dir_headers child) in
  let added := push_new same_header (add_headers self) (add_headers child) in
  mkDirectoryConfig
    (push_new (fun a b => bool_decide (a = b)) (deny_ips self) (deny_ips child))
    (push_new (fun a b => bool_decide (a = b)) (allow_networks self) (allow_networks child))
    (push_new (fun a b => bool_decide (a = b)) (deny_networks self) (deny_networks child))
    (drop_names (remove_headers child) headers)
    (drop_names (remove_headers child) added)
    (push_new eq_ignore_ascii_case (remove_headers self) (remove_headers child))
    (override (redirect_404 self) (redirect_404 child))
    (override (redirect self) (redirect child))
    (match rewrites child with
     | [] => rewrites self
     | _ => take (Z.to_nat MAX_REWRITE_RULES) (rewrites self ++ rewrites child)
     end)
    (override (methods self) (methods child))
    (override (index_files self) (index_files child))
    (override (autoindex self) (autoindex child))
    (override (cache self) (cache child))
    (override (expires self) (expires child))
    (assign_all eq_ignore_ascii_case (mime_types self) (mime_types child))
    (assign_all Z.eqb (error_pages self) (error_pages child))
    (override (dir_deny_hidden_files self) (dir_deny_hidden_files child)).

(** ** Reading a line *)

(** The value of an escaped character in quotes. *)
Definition unescape (ch : bytes) : bytes :=
  if is_char ch 110 then [10] else if is_char ch 114 then [13] else if is_char ch 116 then [9] else ch.

Definition cons_token (tok : bytes) (r : result (list bytes) bytes) : result (list bytes) bytes :=
  let? tokens := r in Ok (tok :: tokens).

Fixpoint tokenize (cs : list bytes) (current : bytes) (quoted escaped : bool)
  : result (list bytes) bytes :=
  match cs with
  | [] =>
      if escaped then Err (str "trailing escape")
      else if quoted then Err (str "unterminated quoted string")
      else Ok (flush_word current [])
  | ch :: cs =>
      if escaped then tokenize cs (current ++ unescape ch) quoted false else
      if is_char ch 92 && quoted then tokenize cs current quoted true else
      if is_char ch 34 then tokenize cs current (negb quoted) false else
      if is_char ch 35 && negb quoted then Ok (flush_word current []) else
      if is_whitespace ch && negb quoted then
        match current with
        | [] => tokenize cs [] quoted false
        | _ => cons_token current (tokenize cs [] quoted false)
        end
      else tokenize cs (current ++ ch) quoted false
  end.
Definition tokenize_rule_line (line : bytes) : result (list bytes) bytes :=
  tokenize (chars line) [] false false.

(** The characters before an unquoted [#]. *)
Fixpoint before_comment (cs : list bytes) (quoted escaped : bool) : list bytes :=
  match cs with
  | [] => []
  | ch :: cs =>
      if escaped then ch :: before_comment cs quoted false else
      if is_char ch 92 && quoted then ch :: before_comment cs quoted true else
      if is_char ch 34 then ch :: before_comment cs (negb quoted) false else
      if is_char ch 35 && negb quoted then [] else ch :: before_comment cs quoted false
  end.
Definition strip_rule_comment (line : bytes) : bytes :=
  concat (before_comment (chars line) false false).

Fixpoint unquoted_equals (cs : list bytes) (quoted escaped : bool) : bool :=
  match cs with
  | [] => false
  | ch :: cs =>
      if escaped then unquoted_equals cs quoted false else
      if is_char ch 92 && quoted then unquoted_equals cs quoted true else
      if is_char ch 34 then unquoted_equals cs (negb quoted) false else
      if is_char ch 61 && negb quoted then true else unquoted_equals cs quoted false
  end.
Definition has_unquoted_equals (line : bytes) : bool := unquoted_equals (chars line) false false.

(** ** Values *)

Definition valid_header_name (name : bytes) : bool :=
  negb (bytes_eqb name []) &&
  forallb (fun b => is_ascii_alphanumeric b
                    || existsb (Z.eqb b) [33; 35; 36; 37; 38; 39; 42; 43; 45; 46; 94; 95; 96; 124; 126])
    name.

(** CR, LF or NUL. *)
Definition is_line_control (b : Z) : bool := (b =? 13) || (b =? 10) || (b =? 0).
Definition valid_header_value (value : bytes) : bool := negb (existsb is_line_control value).

Definition valid_front_controller_path (value : bytes) : bool :=
  starts_with value [47] && (1 <? len value)
  && negb (existsb (fun b => is_line_control b || (b =? 63) || (b =? 35) || (b =? 37)) value)
  && forallb (fun c => negb (bytes_eqb c []) && negb (bytes_eqb c (str "."))
                       && negb (bytes_eqb c (str ".."))) (tl (split_on 47 value))
  && negb (ends_with value [47]).

(** [value.split_at(value.len() - 1)] must not cut a character: [None] is the
    panic. *)
Definition parse_duration (value : bytes) : option (result Z bytes) :=
  match last value with
  | None => Some (Err (str "duration cannot be empty"))
  | Some suffix =>
      if cont suffix then None else Some (
      let? amount := ok_or (parse_u64 (removelast value)) (str "invalid duration") in
      let? multiplier :=
        (if suffix =? 115 then Ok 1
         else if suffix =? 109 then Ok 60
         else if suffix =? 104 then Ok (60 * 60)
         else if suffix =? 100 then Ok (24 * 60 * 60)
         else if suffix =? 119 then Ok (7 * 24 * 60 * 60)
         else Err (str "duration suffix must be s, m, h, d, or w")) in
      ok_or (checked_mul_u64 amount multiplier) (str "duration overflow"))
  end.

Definition parse_status (value : bytes) : result Z bytes :=
  let? status := ok_or (parse_u16 value) (str "invalid HTTP status") in
  if between 100 status 599 then Ok status
  else Err (str "HTTP status must be between 100 and 599").

(** Brackets must balance; a backslash hides the next character. *)
Fixpoint balanced (cs : list bytes) (escaped : bool) (stack : list Z) : bool :=
  match cs with
  | [] => negb escaped && bool_decide (stack = [])
  | ch :: cs =>
      if escaped then balanced cs false stack else
      if is_char ch 92 then balanced cs true stack else
      let close open :=
        match stack with
        | top :: stack => if top =? open then balanced cs false stack else false
        | [] => false
        end in
      if is_char ch 40 then balanced cs false (40 :: stack)
      else if is_char ch 91 then balanced cs false (91 :: stack)
      else if is_char ch 123 then balanced cs false (123 :: stack)
      else if is_char ch 41 then close 40
      else if is_char ch 93 then close 91
      else if is_char ch 125 then close 123
      else balanced cs false stack
  end.
Definition validate_rewrite_pattern (pattern : bytes) : result unit bytes :=
  if balanced (chars pattern) false [] then Ok tt else Err (str "unbalanced rewrite pattern").

(** ** Whitespace-separated directives *)

(** A [Result] that may panic instead: [None]. *)
Definition checked (A : Type) : Type := option (result A bytes).
Definition checked_bind {A B} (m : checked A) (k : A -> checked B) : checked B :=
  match m with Some (Ok a) => k a | Some (Err e) => Some (Err e) | None => None end.

Definition header_directive (tokens : list bytes) (config : DirectoryConfig)
  : result DirectoryConfig bytes :=
  match tokens with
  | [t0; name; value] =>
      if negb (valid_header_name name) then Err (str "invalid header name") else
      if negb (valid_header_value value)
      then Err (str "header value contains forbidden control characters") else
      if bytes_eqb t0 (str "header")
      then Ok (put_dir_headers (dir_headers config ++ [(name, value)]) config)
      else Ok (put_add_headers (add_headers config ++ [(name, value)]) config)
  | _ => Err (hd [] tokens ++ str " requires <name> <value>")
  end.

Definition remove_header_directive (tokens : list bytes) (config : DirectoryConfig)
  : result DirectoryConfig bytes :=
  let error := Err (str "remove_header requires a valid header name") in
  match tokens with
  | [_; name] =>
      if valid_header_name name
      then Ok (put_remove_headers (remove_headers config ++ [name]) config) else error
  | _ => error
  end.

Definition redirect_directive (tokens : list bytes) (config : DirectoryConfig)
  : result DirectoryConfig bytes :=
  match tokens with
  | [_; source; target; status] =>
      let? status := parse_status status in
      if negb (between 300 status 399) then Err (str "redirect status must be between 300 and 399") else
      if existsb is_line_control source || existsb is_line_control target
      then Err (str "redirect paths contain forbidden control characters") else
      Ok (put_redirect (Some (mkRedirectRule source target status)) config)
  | _ => Err (str "redirect requires <source> <target> <status>")
  end.

Definition rewrite_directive (tokens : list bytes) (config : DirectoryConfig)
  : result DirectoryConfig bytes :=
  if (len tokens <? 3) || (len tokens >? 4)
  then Err (str "rewrite requires <pattern> <replacement> [status]") else
  let pattern := nth 1 tokens [] in
  let replacement := nth 2 tokens [] in
  if (len pattern >? 4096) || (len replacement >? 4096) || contains_char 0 pattern
  then Err (str "rewrite pattern or replacement is too large or contains NUL") else
  let? _ := validate_rewrite_pattern pattern in
  if existsb is_line_control replacement
  then Err (str "rewrite replacement contains forbidden control characters") else
  let? status := (if len tokens =? 4 then let? s := parse_status (nth 3 tokens []) in Ok (Some s)
                  else Ok None) in
  if len (rewrites config) >=? MAX_REWRITE_RULES
  then Err (str "at most " ++ to_string MAX_REWRITE_RULES ++ str " rewrite directives are allowed") else
  Ok (put_rewrites (rewrites config ++ [mkRewriteRule pattern replacement status]) config).

Definition network_directive (tokens : list bytes) (config : DirectoryConfig)
  : result DirectoryConfig bytes :=
  let error := Err (hd [] tokens ++ str " requires ip <CIDR>") in
  match tokens with
  | [t0; kind; value] =>
      if negb (bytes_eqb kind (str "ip")) then error else
      let? cidr := parse_cidr value in
      if bytes_eqb t0 (str "allow")
      then Ok (put_allow_networks (allow_networks config ++ [cidr]) config)
      else Ok (put_deny_networks (deny_networks config ++ [cidr]) config)
  | _ => error
  end.

(** The closure [need]. *)
Definition need (tokens : list bytes) (n : Z) : result unit bytes :=
  if len tokens <? n
  then Err (hd [] tokens ++ str " requires at least " ++ to_string (n - 1) ++ str " arguments")
  else Ok tt.

Fixpoint collect_methods (l acc : list bytes) : result (list bytes) bytes :=
  match l with
  | [] => Ok acc
  | m :: l =>
      if negb (forallb (fun b => is_ascii_uppercase b || is_ascii_digit b || (b =? 45)) m)
      then Err (str "methods must be uppercase HTTP tokens")
      else collect_methods l (if existsb (bytes_eqb m) acc then acc else acc ++ [m])
  end.

Definition methods_directive (tokens : list bytes) (config : DirectoryConfig)
  : result DirectoryConfig bytes :=
  let? _ := need tokens 2 in
  let? ms := collect_methods (tl tokens) [] in
  Ok (put_methods (Some ms) config).

Definition index_directive (tokens : list bytes) (config : DirectoryConfig)
  : result DirectoryConfig bytes :=
  let? _ := need tokens 2 in
  if existsb (fun f => bytes_eqb f [] || contains_char 47 f || bytes_eqb f (str ".")
                       || bytes_eqb f (str "..")) (tl tokens)
  then Err (str "index names must be simple file names")
  else Ok (put_index_files (Some (tl tokens)) config).

Definition switch_directive (tokens : list bytes) (config : DirectoryConfig)
  : result DirectoryConfig bytes :=
  match tokens with
  | [t0; value] =>
      let? value := (if bytes_eqb value (str "on") then Ok true
                     else if bytes_eqb value (str "off") then Ok false
                     else Err (str "value must be on or off")) in
      if bytes_eqb t0 (str "autoindex") then Ok (put_autoindex (Some value) config)
      else Ok (put_cache (Some value) config)
  | _ => Err (hd [] tokens ++ str " requires on or off")
  end.

Definition expires_directive (tokens : list bytes) (config : DirectoryConfig)
  : checked DirectoryConfig :=
  match tokens with
  | [_; value] =>
      checked_bind (parse_duration value) (fun d => Some (Ok (put_expires (Some d) config)))
  | _ => Some (Err (str "expires requires a duration"))
  end.

Definition mime_directive (tokens : list bytes) (config : DirectoryConfig)
  : result DirectoryConfig bytes :=
  let error := Err (str "mime requires <.extension> <mime-type>") in
  match tokens with
  | [_; ext; mime] =>
      if negb (starts_with ext [46]) || (len ext =? 1) || negb (valid_header_value mime) then error else
      if negb (contains_char 47 mime) then Err (str "invalid MIME type") else
      Ok (put_mime_types (mime_types config ++ [(to_ascii_lowercase ext, mime)]) config)
  | _ => error
  end.

Definition error_page_directive (tokens : list bytes) (config : DirectoryConfig)
  : result DirectoryConfig bytes :=
  match tokens with
  | [_; status; path] =>
      let? status := parse_status status in
      if negb (starts_with path [47]) || contains_sub path (str "..")
      then Err (str "error page path must be an absolute URL path without traversal")
      else Ok (put_error_pages (error_pages config ++ [(status, path)]) config)
  | _ => Err (str "error_page requires <status> <path>")
  end.

(** Every arm writes to the configuration last, so an error leaves it as it
    was. *)
Definition parse_native_directive (line : bytes) (config : DirectoryConfig)
  : checked DirectoryConfig :=
  match tokenize_rule_line line with
  | Err e => Some (Err e)
  | Ok [] => Some (Ok config)
  | Ok (t0 :: rest) =>
      let tokens := t0 :: rest in
      let kw s := bytes_eqb t0 (str s) in
      if kw "header"%string || kw "add_header"%string then Some (header_directive tokens config)
      else if kw "remove_header"%string then Some (remove_header_directive tokens config)
      else if kw "redirect"%string then Some (redirect_directive tokens config)
      else if kw "rewrite"%string then Some (rewrite_directive tokens config)
      else if kw "allow"%string || kw "deny"%string then Some (network_directive tokens config)
      else if kw "methods"%string then Some (methods_directive tokens config)
      else if kw "index"%string then Some (index_directive tokens config)
      else if kw "autoindex"%string || kw "cache"%string then Some (switch_directive tokens config)
      else if kw "expires"%string then expires_directive tokens config
      else if kw "mime"%string then Some (mime_directive tokens config)
      else if kw "error_page"%string then Some (error_page_directive tokens config)
      else Some (Err (str "unknown directive '" ++ t0 ++ str "'"))
  end.

(** ** Characters and strings *)

(** A complete UTF-8 sequence: the lead byte and its continuation bytes. *)
Definition wf_char (c : bytes) : Prop :=
  match c with
  | [b0] => b0 < 192
  | [b0; b1] => 192 <= b0 < 224 /\ 128 <= b1
  | [b0; b1; b2] => 224 <= b0 < 240 /\ 128 <= b1 /\ 128 <= b2
  | [b0; b1; b2; b3] => 240 <= b0 /\ 128 <= b1 /\ 128 <= b2 /\ 128 <= b3
  | _ => False
  end.

Lemma chars_cons c l : wf_char c -> chars (c ++ l) = c :: chars l.
Proof.
  intros Hc. destruct c as [|b0 [|b1 [|b2 [|b3 [|b4 c]]]]]; try done; cbn in Hc; cbn [app chars].
  - by replace (b0 <? 192) with true by lia.
  - replace (b0 <? 192) with false by lia. by replace (b0 <? 224) with true by lia.
  - replace (b0 <? 192) with false by lia. replace (b0 <? 224) with false by lia.
    by replace (b0 <? 240) with true by lia.
  - replace (b0 <? 192) with false by lia. replace (b0 <? 224) with false by lia.
    by replace (b0 <? 240) with false by lia.
Qed.

Lemma chars_concat l : Forall wf_char l -> chars (concat l) = l.
Proof. induction 1 as [|c l Hc _ IH]; [done|]. cbn [concat]. rewrite chars_cons by done. by f_equal. Qed.

Ltac wf_bytes :=
  cbn [wf_char]; unfold utf8_second3, utf8_second4, cont, between in *;
  repeat case_match; zbool; lia.

Lemma chars_wf n l :
  (length l <= n)%nat -> utf8_valid l = true -> Forall wf_char (chars l) /\ concat (chars l) = l.
Proof.
  revert l. induction n as [|n IH]; intros l Hn Hv; [by destruct l; [|cbn in Hn; lia]|].
  destruct l as [|b0 r0]; [done|]. cbn [utf8_valid chars] in *. cbn [length] in Hn.
  destruct (between 0 b0 127) eqn:E0; unfold between in *; zbool.
  { replace (b0 <? 192) with true by lia. destruct (IH r0) as [Hw Hcc]; [lia|done|].
    split; [constructor; [cbn; lia|done]|]. cbn [concat app]. by rewrite Hcc. }
  destruct r0 as [|b1 r1]; [done|]. cbn [length] in Hn.
  destruct ((194 <=? b0) && (b0 <=? 223)) eqn:E1; zbool.
  { replace (b0 <? 192) with false by lia. replace (b0 <? 224) with true by lia.
    destruct (IH r1) as [Hw Hcc]; [lia|done|]. split; [constructor; [wf_bytes|done]|].
    cbn [concat app]. by rewrite Hcc. }
  destruct r1 as [|b2 r2]; [done|]. cbn [length] in Hn.
  destruct ((224 <=? b0) && (b0 <=? 239)) eqn:E2; zbool.
  { replace (b0 <? 192) with false by lia. replace (b0 <? 224) with false by lia.
    replace (b0 <? 240) with true by lia.
    destruct (IH r2) as [Hw Hcc]; [lia|done|]. split; [constructor; [wf_bytes|done]|].
    cbn [concat app]. by rewrite Hcc. }
  destruct r2 as [|b3 r3]; [done|]. cbn [length] in Hn. zbool.
  replace (b0 <? 192) with false by lia. replace (b0 <? 224) with false by lia.
  replace (b0 <? 240) with false by lia.
  destruct (IH r3) as [Hw Hcc]; [lia|done|]. split; [constructor; [wf_bytes|done]|].
  cbn [concat app]. by rewrite Hcc.
Qed.

Lemma utf8_chars l : utf8_valid l = true -> Forall wf_char (chars l) /\ concat (chars l) = l.
Proof. by apply (chars_wf (length l)). Qed.

(** ** The tokenizer *)

Lemma tokenize_before_comment cs current quoted escaped :
  tokenize (before_comment cs quoted escaped) current quoted escaped = tokenize cs current quoted escaped.
Proof.
  revert current quoted escaped. induction cs as [|ch cs IH]; intros current quoted escaped; [done|].
  cbn [before_comment tokenize]. destruct escaped; [by cbn [tokenize]; rewrite IH|].
  destruct (is_char ch 92 && quoted) eqn:E1; [by cbn [tokenize]; rewrite E1, IH|].
  destruct (is_char ch 34) eqn:E2; [by cbn [tokenize]; rewrite E1, E2, IH|].
  destruct (is_char ch 35 && negb quoted) eqn:E3.
  { zbool. by destruct quoted. }
  cbn [tokenize]. rewrite E1, E2, E3, !IH. done.
Qed.

Lemma before_comment_wf cs quoted escaped :
  Forall wf_char cs -> Forall wf_char (before_comment cs quoted escaped).
Proof.
  intros H. revert quoted escaped. induction H as [|ch cs Hc _ IH]; intros quoted escaped; [constructor|].
  cbn [before_comment]. repeat case_match; (constructor || idtac); done.
Qed.

(** A token in double quotes, with line breaks, quotes and backslashes
    escaped. *)
Definition quote_char (c : bytes) : list bytes :=
  if is_char c 10 then [[92]; [110]]
  else if is_char c 13 then [[92]; [114]]
  else if is_char c 34 || is_char c 92 then [[92]; c] else [c].
Definition quote_chars (t : bytes) : list bytes :=
  [[34]] ++ concat (map quote_char (chars t)) ++ [[34]].
Definition quote (t : bytes) : bytes := concat (quote_chars t).

Lemma is_char_eq c b : is_char c b = true -> c = [b].
Proof. apply bytes_eqb_eq. Qed.

Lemma tokenize_quote_char c rest current :
  tokenize (quote_char c ++ rest) current true false = tokenize rest (current ++ c) true false.
Proof.
  unfold quote_char. destruct (is_char c 10) eqn:E1; [by apply is_char_eq in E1 as ->|].
  destruct (is_char c 13) eqn:E2; [by apply is_char_eq in E2 as ->|].
  destruct (is_char c 34 || is_char c 92) eqn:E3.
  - apply orb_true_iff in E3 as [->%is_char_eq | ->%is_char_eq]; done.
  - apply orb_false_iff in E3 as [E3 E4]. cbn [app tokenize].
    by rewrite E3, E4, !andb_false_r.
Qed.

Lemma tokenize_quoted cs rest current :
  tokenize (concat (map quote_char cs) ++ rest) current true false =
  tokenize rest (current ++ concat cs) true false.
Proof.
  revert current. induction cs as [|c cs IH]; intros current; cbn [map concat app].
  - by rewrite app_nil_r.
  - rewrite <- app_assoc, tokenize_quote_char, IH. by rewrite <- app_assoc.
Qed.

Lemma tokenize_quote t rest current :
  utf8_valid t = true ->
  tokenize (quote_chars t ++ rest) current false false = tokenize rest (current ++ t) false false.
Proof.
  intros [_ Ht]%utf8_chars. unfold quote_chars. rewrite <- !app_assoc. cbn [app tokenize].
  change (is_char [34] 92) with false. change (is_char [34] 34) with true. cbn [andb negb].
  rewrite tokenize_quoted, Ht. cbn [app tokenize]. done.
Qed.

Lemma quote_chars_wf t : utf8_valid t = true -> Forall wf_char (quote_chars t).
Proof.
  intros [Ht _]%utf8_chars. unfold quote_chars.
  apply Forall_cons_2; [done|]. apply Forall_app_2; [|by repeat constructor].
  induction Ht as [|c cs Hc _ IH]; [constructor|]. cbn [map concat]. apply Forall_app_2; [|done].
  unfold quote_char. repeat case_match; by repeat constructor.
Qed.

(** The tokens of a line, quoted and separated by blanks. *)
Definition quoted_line (ts : list bytes) : bytes := join_with [32] (map quote ts).

Lemma tokenize_quoted_line ts :
  Forall (fun t => t <> [] /\ utf8_valid t = true) ts -> tokenize_rule_line (quoted_line ts) = Ok ts.
Proof.
  unfold tokenize_rule_line, quoted_line. induction 1 as [|t ts [Hne Ht] Hts IH]; [done|].
  assert (Hq : chars (quote t) = quote_chars t) by (by apply chars_concat, quote_chars_wf).
  assert (Happ : forall l, chars (quote t ++ l) = quote_chars t ++ chars l).
  { intros l. unfold quote. pose proof (quote_chars_wf t Ht) as Hw. clear Hq. revert Hw.
    generalize (quote_chars t). induction 1 as [|c cs Hc _ IHc]; [done|]. cbn [concat app].
    rewrite <- app_assoc, chars_cons by done. by rewrite IHc. }
  destruct ts as [|t' ts].
  - cbn [map join_with]. rewrite Hq, <- (app_nil_r (quote_chars t)), tokenize_quote by done.
    cbn. by rewrite flush_word_cons.
  - change (join_with [32] (map quote (t :: t' :: ts)))
      with (quote t ++ [32] ++ join_with [32] (map quote (t' :: ts))).
    rewrite Happ, tokenize_quote by done. rewrite (chars_cons [32]) by done. cbn [tokenize app].
    change (is_whitespace [32]) with true. cbn [is_char bytes_eqb andb negb].
    change (is_char [32] 92) with false. change (is_char [32] 34) with false.
    change (is_char [32] 35) with false. cbn [andb negb]. rewrite IH. by destruct t.
Qed.

Lemma wf_char_break c b : wf_char c -> b < 128 -> b ∈ c -> c = [b].
Proof.
  intros Hw Hb Hin. destruct c as [|b0 [|b1 [|b2 [|b3 [|b4 c]]]]]; try done; cbn in Hw.
  - by apply list_elem_of_singleton in Hin as ->.
  - set_unfold. lia.
  - set_unfold. lia.
  - set_unfold. lia.
Qed.

Lemma quote_char_breaks c b : wf_char c -> b = 10 \/ b = 13 -> b ∉ concat (quote_char c).
Proof.
  intros Hc Hb Hin. unfold quote_char in Hin. destruct (is_char c 10) eqn:E1; [cbn in Hin; set_solver by lia|].
  destruct (is_char c 13) eqn:E2; [cbn in Hin; set_solver by lia|].
  assert (Hbc : b ∉ c).
  { intros ->%wf_char_break; [|done|lia]. destruct Hb as [-> | ->]; done. }
  destruct (_ || _); cbn [concat] in Hin; rewrite ?app_nil_r in Hin; [|done].
  apply elem_of_cons in Hin as [->|Hin]; [lia|]. done.
Qed.

Lemma quoted_line_breaks ts b :
  Forall (fun t => utf8_valid t = true) ts -> b = 10 \/ b = 13 -> b ∉ quoted_line ts.
Proof.
  intros Hts Hb.
  assert (Hq : forall t, utf8_valid t = true -> b ∉ quote t).
  { intros t [Hw _]%utf8_chars. unfold quote, quote_chars. rewrite !concat_app. cbn [concat app].
    rewrite elem_of_cons, elem_of_app, list_elem_of_singleton. intros [->|[Hin| ->]]; [lia| |lia].
    revert Hin. generalize dependent (chars t). induction 1 as [|c cs Hc _ IH]; [by intros ?%elem_of_nil|].
    cbn [map concat]. rewrite concat_app, elem_of_app. intros [Hin|Hin]; [|by apply IH].
    by apply (quote_char_breaks c b). }
  unfold quoted_line. induction Hts as [|t ts Ht Hts IH]; [by intros ?%elem_of_nil|].
  destruct ts as [|t' ts]; [by apply Hq|].
  change (b ∉ quote t ++ [32] ++ join_with [32] (map quote (t' :: ts))).
  rewrite !elem_of_app, list_elem_of_singleton. intros [Hin|[->|Hin]]; [by eapply Hq|lia|by apply IH].
Qed.

(** Every list of non-empty tokens can be
    written on one line of a rule file and is read back exactly, whatever
    characters the tokens hold; and cutting the comment off first, as the file
    reader does, changes nothing: the tokenizer ends at the same place. *)
Theorem tokenizer_spec :
  (forall ts, Forall (fun t => t <> [] /\ utf8_valid t = true) ts ->
     tokenize_rule_line (quoted_line ts) = Ok ts /\ 10 ∉ quoted_line ts /\ 13 ∉ quoted_line ts) /\
  (forall line, utf8_valid line = true ->
     tokenize_rule_line (strip_rule_comment line) = tokenize_rule_line line).
Proof.
  split.
  - intros ts Hts. split; [by apply tokenize_quoted_line|].
    assert (Hu : Forall (fun t => utf8_valid t = true) ts) by (eapply Forall_impl; [exact Hts|by intros ? [_ ?]]).
    split; apply quoted_line_breaks; auto.
  - intros line [Hw _]%utf8_chars. unfold tokenize_rule_line, strip_rule_comment.
    rewrite chars_concat by (by apply before_comment_wf). apply tokenize_before_comment.
Qed.

(** ** Networks *)

Lemma net_mask_testbit w p i :
  0 <= p <= w -> 0 <= i -> Z.testbit (net_mask w p) i = (w - p <=? i) && (i <? w).
Proof.
  intros Hp Hi. unfold net_mask. destruct (Z.eqb_spec p 0) as [->|Hp0].
  { rewrite Z.bits_0. lia. }
  destruct (Z.ltb_spec i w).
  - rewrite Z.mod_pow2_bits_low, Z.shiftl_spec, Z.testbit_ones by lia. lia.
  - rewrite Z.mod_pow2_bits_high by lia. lia.
Qed.

Lemma land_net_mask w p a b :
  0 < w -> 0 <= p <= w -> 0 <= a < 2 ^ w -> 0 <= b < 2 ^ w ->
  Z.land a (net_mask w p) = Z.land b (net_mask w p) <-> a / 2 ^ (w - p) = b / 2 ^ (w - p).
Proof.
  intros Hw Hp Ha Hb. rewrite <- !Z.shiftr_div_pow2 by lia. split; intros H; apply Z.bits_inj'; intros i Hi.
  - apply (f_equal (fun z => Z.testbit z (i + (w - p)))) in H.
    rewrite !Z.land_spec, !net_mask_testbit in H by lia. rewrite !Z.shiftr_spec by lia.
    destruct (Z.ltb_spec (i + (w - p)) w).
    + replace (w - p <=? i + (w - p)) with true in H by lia. by rewrite !andb_true_r in H.
    + rewrite !Z.bits_above_log2; try lia.
      * destruct (Z.eq_dec b 0) as [->|]; [cbn; lia|]. assert (Z.log2 b < w) by (apply Z.log2_lt_pow2; lia). lia.
      * destruct (Z.eq_dec a 0) as [->|]; [cbn; lia|]. assert (Z.log2 a < w) by (apply Z.log2_lt_pow2; lia). lia.
  - rewrite !Z.land_spec, !net_mask_testbit by lia.
    destruct (Z.leb_spec (w - p) i); cbn [andb]; [|by rewrite !andb_false_r].
    apply (f_equal (fun z => Z.testbit z (i - (w - p)))) in H. rewrite !Z.shiftr_spec in H by lia.
    replace (i - (w - p) + (w - p)) with i in H by lia. by rewrite H.
Qed.

(** The number of bits of an address and its value. *)
Definition ip_width (ip : IpAddr) : Z := if is_ipv4 ip then 32 else 128.
Definition ip_value (ip : IpAddr) : Z := match ip with V4 a | V6 a => a end.
Definition ip_ok (ip : IpAddr) : Prop := 0 <= ip_value ip < 2 ^ ip_width ip.

Lemma parse_cidr_prefix value c : parse_cidr value = Ok c -> 0 <= prefix c <= ip_width (address c).
Proof.
  unfold parse_cidr. intros ([addr pre] & _ & H)%rbind_ok.
  apply rbind_ok in H as (a & _ & H). apply rbind_ok in H as (n & Hn & H).
  destruct (parse_u8 pre) as [m|] eqn:Hm; [|done]. cbn in Hn. simplify_eq.
  apply parse_unsigned_bound in Hm; [|done]. split_if H; [done|]. simplify_eq. cbn [prefix address].
  unfold ip_width. destruct (is_ipv4 a); zbool; lia.
Qed.

(** An address belongs to a network exactly when it is of the
    same family and agrees with the network address in the leading [prefix]
    bits; the networks the parser yields always have a prefix that fits. *)
Theorem cidr_contains_spec :
  (forall c ip, 0 <= prefix c <= ip_width (address c) -> ip_ok (address c) -> ip_ok ip ->
     cidr_contains c ip = true <->
     is_ipv4 ip = is_ipv4 (address c) /\
     ip_value ip / 2 ^ (ip_width ip - prefix c) = ip_value (address c) / 2 ^ (ip_width ip - prefix c)) /\
  (forall value c, parse_cidr value = Ok c -> 0 <= prefix c <= ip_width (address c)).
Proof.
  split.
  - intros [[a|a] p] [b|b]; cbn [address prefix ip_width ip_value is_ipv4 ip_ok]; intros Hp Ha Hb;
      cbn [cidr_contains address prefix is_ipv4]; try (split; [done|by intros []]);
      unfold ip_ok in *; cbn [ip_value ip_width is_ipv4] in *;
      rewrite Z.eqb_eq, land_net_mask by lia; split; [by intros ->|by intros [_ ->]|by intros ->|by intros [_ ->]].
  - apply parse_cidr_prefix.
Qed.

(** ** Merging *)

(** The first entry with a key. *)
Fixpoint find_key {K V} (same : K -> K -> bool) (k : K) (l : list (K * V)) : option V :=
  match l with
  | [] => None
  | (k', v) :: r => if same k' k then Some v else find_key same k r
  end.

Section Keys.
Context {K V : Type} (same : K -> K -> bool).
Context {Hsame : Equivalence (fun a b => same a b = true)}.
Implicit Types (l child : list (K * V)) (k : K).

Lemma same_sym a b : same a b = true -> same b a = true.
Proof. apply (Equivalence_Symmetric (R := fun a b => same a b = true)). Qed.
Lemma same_trans a b c : same a b = true -> same b c = true -> same a c = true.
Proof. apply (Equivalence_Transitive (R := fun a b => same a b = true)). Qed.

Lemma same_trans_eq a b c : same a b = true -> same b c = same a c.
Proof.
  intros Hab. destruct (same a c) eqn:Hac.
  - eapply same_trans; [by apply same_sym|done].
  - destruct (same b c) eqn:Hbc; [|done]. rewrite <- Hac. symmetry. by eapply same_trans.
Qed.

Lemma find_assign_first k k' v l :
  find_key same k (assign_first same k' v l) = if same k' k then Some v else find_key same k l.
Proof.
  induction l as [|[k0 v0] l IH]; cbn [assign_first find_key]; [done|].
  destruct (same k0 k') eqn:E; cbn [find_key].
  - rewrite <- (same_trans_eq k0 k' k E). by destruct (same k' k).
  - rewrite IH. destruct (same k0 k) eqn:E1; [|done].
    destruct (same k' k) eqn:E2; [|done]. exfalso. enough (same k0 k' = true) by congruence.
    eapply same_trans; [exact E1|by apply same_sym].
Qed.

Lemma find_key_app k l1 l2 :
  find_key same k (l1 ++ l2) = match find_key same k l1 with Some v => Some v | None => find_key same k l2 end.
Proof. induction l1 as [|[k0 v0] l1 IH]; [done|]. cbn. by destruct (same k0 k). Qed.

(** The last assignment wins. *)
Lemma find_assign_all k l child :
  find_key same k (assign_all same l child) =
  match find_key same k (rev child) with Some v => Some v | None => find_key same k l end.
Proof.
  unfold assign_all. revert l. induction child as [|[k0 v0] child IH]; intros l; cbn [fold_left rev]; [done|].
  rewrite IH, find_assign_first, find_key_app. cbn [find_key].
  destruct (find_key same k (rev child)); [done|]. by destruct (same k0 k).
Qed.
End Keys.

#[global] Instance eqb_equivalence : Equivalence (fun a b : Z => (a =? b) = true).
Proof.
  split; [intros a; apply Z.eqb_refl|intros a b; by rewrite Z.eqb_sym|].
  intros a b c. rewrite !Z.eqb_eq. congruence.
Qed.

Lemma find_drop_names k names l :
  find_key eq_ignore_ascii_case k (drop_names names l) =
  if existsb (eq_ignore_ascii_case k) names then None else find_key eq_ignore_ascii_case k l.
Proof.
  unfold drop_names. revert l. induction names as [|n names IH]; intros l; cbn [fold_left existsb]; [done|].
  rewrite IH. destruct (existsb _ names); [by rewrite orb_true_r|]. rewrite orb_false_r. clear IH.
  induction l as [|[k0 v0] l IH]; cbn [List.filter find_key fst]; [by destruct (eq_ignore_ascii_case k n)|].
  destruct (eq_ignore_ascii_case k0 n) eqn:E; cbn [negb].
  - rewrite IH. destruct (eq_ignore_ascii_case k n) eqn:E1; [done|].
    destruct (eq_ignore_ascii_case k0 k) eqn:E2; [|done]. exfalso.
    rewrite <- (same_trans_eq eq_ignore_ascii_case _ _ n E2) in E. congruence.
  - cbn [find_key]. destruct (eq_ignore_ascii_case k0 k) eqn:E2; [|done].
    by rewrite (same_trans_eq eq_ignore_ascii_case _ _ n E2), E.
Qed.

Lemma elem_of_push_new {A} (same : A -> A -> bool) (self child : list A) x :
  (forall a b, same a b = true <-> a = b) ->
  x ∈ push_new same self child <-> x ∈ self \/ x ∈ child.
Proof.
  intros Hs. unfold push_new. revert self. induction child as [|c child IH]; intros self; cbn [fold_left]; [set_solver|].
  rewrite IH. destruct (existsb (same c) self) eqn:E; [|set_solver].
  apply existsb_exists in E as (y & Hy & ->%Hs). apply list_elem_of_In in Hy. set_solver.
Qed.

Lemma push_new_nodup {A} (same : A -> A -> bool) (self child : list A) :
  (forall a b, same a b = true <-> a = b) -> NoDup self -> NoDup (push_new same self child).
Proof.
  intros Hs. unfold push_new. revert self. induction child as [|c child IH]; intros self Hn; cbn [fold_left]; [done|].
  apply IH. destruct (existsb (same c) self) eqn:E; [done|]. apply NoDup_app. split_and!; [done| |apply NoDup_singleton].
  intros x Hx ->%list_elem_of_singleton. apply (f_equal negb) in E. cbn in E.
  apply negb_true_iff in E. assert (existsb (same c) self = true); [|congruence].
  apply existsb_exists. exists c. split; [by apply list_elem_of_In|by apply Hs].
Qed.

Lemma decide_eqb {A} `{EqDecision A} (a b : A) : bool_decide (a = b) = true <-> a = b.
Proof. apply bool_decide_eq_true. Qed.

(** What a child directory's rules do to its parent's.
    Access lists grow (an address denied by either stays denied) without
    duplicates; a response header, MIME type or error page has the child's last
    value if it sets one and otherwise the parent's, and is gone when the child
    removes it, whatever the case of its name; a setting is the child's if
    present; the rewrites stay bounded; and rules that say nothing change
    nothing. *)
Theorem merge_spec p c :
  let m := merge p c in
  (forall ip, ip ∈ deny_ips m <-> ip ∈ deny_ips p \/ ip ∈ deny_ips c) /\
  (forall n, n ∈ deny_networks m <-> n ∈ deny_networks p \/ n ∈ deny_networks c) /\
  (forall n, n ∈ allow_networks m <-> n ∈ allow_networks p \/ n ∈ allow_networks c) /\
  (NoDup (deny_ips p) -> NoDup (deny_ips m)) /\
  (forall name, find_key eq_ignore_ascii_case name (dir_headers m) =
     if existsb (eq_ignore_ascii_case name) (remove_headers c) then None
     else match find_key eq_ignore_ascii_case name (rev (dir_headers c)) with
          | Some v => Some v
          | None => find_key eq_ignore_ascii_case name (dir_headers p)
          end) /\
  (forall ext, find_key eq_ignore_ascii_case ext (mime_types m) =
     match find_key eq_ignore_ascii_case ext (rev (mime_types c)) with
     | Some v => Some v
     | None => find_key eq_ignore_ascii_case ext (mime_types p)
     end) /\
  (forall status, find_key Z.eqb status (error_pages m) =
     match find_key Z.eqb status (rev (error_pages c)) with
     | Some v => Some v
     | None => find_key Z.eqb status (error_pages p)
     end) /\
  len (rewrites m) <= Z.max MAX_REWRITE_RULES (len (rewrites p)) /\
  methods m = override (methods p) (methods c) /\
  dir_deny_hidden_files m = override (dir_deny_hidden_files p) (dir_deny_hidden_files c) /\
  merge p directory_config_default = p.
Proof.
  cbv zeta. split_and!.
  - intros ip. apply elem_of_push_new. intros. apply decide_eqb.
  - intros n. apply elem_of_push_new. intros. apply decide_eqb.
  - intros n. apply elem_of_push_new. intros. apply decide_eqb.
  - apply push_new_nodup. intros. apply decide_eqb.
  - intros name. cbn [merge dir_headers]. rewrite find_drop_names. by rewrite (find_assign_all eq_ignore_ascii_case).
  - intros ext. apply find_assign_all. apply _.
  - intros status. apply find_assign_all. apply _.
  - cbn [merge rewrites]. destruct (rewrites c); [lia|]. unfold len at 1. rewrite length_take.
    unfold MAX_REWRITE_RULES. lia.
  - done.
  - done.
  - by destruct p.
Qed.
