(* ===== verification/RuleFile.v ===== *)
(** * Rule files (src/config/veysrule.rs, [parse_veysrule_content])

    A file is read line by line.  A line without an unquoted [=] is a directive
    for the directory; the others assign a key, most of which only the root file
    may set.  Every arm of the parser either stores a value or reports one
    error and stores nothing, so an arm is a function to the new configurations
    or an error message. *)

From S2P Require Import Prelude RustStd Config ConfigSet Text Rules.

(** ** Checks on values *)

Definition valid_route_prefix (prefix : bytes) : bool :=
  starts_with prefix [47]
  && negb (existsb is_line_control prefix)
  && negb (existsb (fun component => bytes_eqb component (str "..")) (split_on 47 prefix)).

(** The characters a network location must not contain. *)
Definition is_location_break (b : Z) : bool :=
  (b =? 47) || (b =? 63) || (b =? 35) || (b =? 64) || is_line_control b.

(** host:port. *)
Definition valid_location (rest : bytes) : bool :=
  match rsplit_once 58 rest with
  | None => false
  | Some (host, port) =>
      negb (bytes_eqb rest []) && negb (bytes_eqb host [])
      && negb (existsb is_location_break rest)
      && match parse_u16 port with Some _ => true | None => false end
  end.

Definition valid_single_upstream (upstream : bytes) : bool :=
  match strip_prefix upstream (str "http://") with
  | None => false
  | Some rest => valid_location rest
  end.

(** The candidates of a list hold no comma, so the recursion is one level
    deep. *)
Definition valid_upstream (upstream : bytes) : bool :=
  if contains_char 44 upstream
  then forallb (fun candidate => valid_single_upstream (trim candidate)) (split_on 44 upstream)
  else valid_single_upstream upstream.

Definition valid_fastcgi_endpoint (endpoint : bytes) : bool :=
  match strip_prefix endpoint (str "unix:") with
  | Some path =>
      negb (bytes_eqb path []) && (len path <=? 4096) && negb (existsb is_line_control path)
  | None =>
      match strip_prefix endpoint (str "tcp://") with
      | None => false
      | Some rest => valid_location rest
      end
  end.

(** ** Keys of the root file *)

(** A key whose value is a number. *)
Definition number_key (key val : bytes) (parse : bytes -> option Z)
  (store : Z -> ServerConfig -> ServerConfig) (s : ServerConfig) : result ServerConfig bytes :=
  match parse val with
  | Some n => Ok (store n s)
  | None => Err (str "invalid " ++ key)
  end.

Definition port_key (val : bytes) (s : ServerConfig) : result ServerConfig bytes :=
  let error := Err (str "PORT must be between 1 and 65535") in
  match parse_u16 val with
  | Some p => if 0 <? p then Ok (set_port p s) else error
  | None => error
  end.

(** A key whose value must not be empty. *)
Definition path_key (key val : bytes) (store : bytes -> ServerConfig -> ServerConfig)
  (s : ServerConfig) : result ServerConfig bytes :=
  match val with
  | [] => Err (key ++ str " cannot be empty")
  | _ => Ok (store val s)
  end.

Definition log_format_key (val : bytes) (s : ServerConfig) : result ServerConfig bytes :=
  let lower := to_ascii_lowercase val in
  if bytes_eqb lower (str "text") || bytes_eqb lower (str "json") then Ok (set_log_format lower s)
  else Err (str "LOG_FORMAT must be text or json").

Definition log_key (key val : bytes) (s : ServerConfig) : result ServerConfig bytes :=
  if bytes_eqb val (str "stdout") || bytes_eqb val (str "stderr")
     || (starts_with val [47] && (len val <=? 4096))
  then Ok (if bytes_eqb key (str "ACCESS_LOG") then set_access_log val s else set_error_log val s)
  else Err (str "invalid " ++ key ++ str " destination").

Definition compression_enabled_key (val : bytes) (s : ServerConfig) : result ServerConfig bytes :=
  let lower := to_ascii_lowercase val in
  if bytes_eqb lower (str "on") || bytes_eqb lower (str "true") then Ok (set_compression_enabled true s)
  else if bytes_eqb lower (str "off") || bytes_eqb lower (str "false")
  then Ok (set_compression_enabled false s)
  else Err (str "COMPRESSION_ENABLED must be on or off").

Definition compression_level_key (val : bytes) (s : ServerConfig) : result ServerConfig bytes :=
  match parse_u32 val with
  | Some level =>
      if level <=? 9 then Ok (set_compression_level level s)
      else Err (str "COMPRESSION_LEVEL must be 0..9")
  | None => Err (str "invalid COMPRESSION_LEVEL")
  end.

Definition compression_mime_key (val : bytes) (s : ServerConfig) : result ServerConfig bytes :=
  if contains_char 47 val && negb (existsb is_line_control val)
  then Ok (set_compression_mime_types (compression_mime_types s ++ [to_ascii_lowercase val]) s)
  else Err (str "invalid COMPRESSION_MIME").

Definition health_key (key val : bytes) (s : ServerConfig) : result ServerConfig bytes :=
  match parse_u64 val with
  | Some value =>
      if value =? 0 then Err (key ++ str " must be greater than zero")
      else if bytes_eqb key (str "UPSTREAM_HEALTH_INTERVAL")
      then Ok (set_upstream_health_interval (Z.min value 86400) s)
      else if bytes_eqb key (str "UPSTREAM_HEALTH_TIMEOUT")
      then Ok (set_upstream_health_timeout (Z.min value 300) s)
      else if bytes_eqb key (str "UPSTREAM_HEALTH_FAILURES")
      then Ok (set_upstream_health_failures (as_u32 (Z.min value U32_MAX)) s)
      else Ok (set_upstream_health_recovery (as_u32 (Z.min value U32_MAX)) s)
  | None => Err (str "invalid " ++ key)
  end.

Definition security_key (key val : bytes) (s : ServerConfig) : result ServerConfig bytes :=
  if negb (valid_header_value val) then Err (str "invalid " ++ key ++ str " value")
  else if bytes_eqb key (str "SECURITY_X_CONTENT_TYPE_OPTIONS")
  then Ok (set_security_x_content_type_options (Some val) s)
  else if bytes_eqb key (str "SECURITY_REFERRER_POLICY")
  then Ok (set_security_referrer_policy (Some val) s)
  else if bytes_eqb key (str "SECURITY_X_FRAME_OPTIONS")
  then Ok (set_security_x_frame_options (Some val) s)
  else Ok (set_security_content_security_policy (Some val) s).

(** true/1/yes and false/0/no. *)
Definition parse_switch (lower : bytes) : option bool :=
  if bytes_eqb lower (str "true") || bytes_eqb lower (str "1") || bytes_eqb lower (str "yes")
  then Some true
  else if bytes_eqb lower (str "false") || bytes_eqb lower (str "0") || bytes_eqb lower (str "no")
  then Some false else None.

Definition tls_enabled_key (val : bytes) (s : ServerConfig) : result ServerConfig bytes :=
  match parse_switch (to_ascii_lowercase val) with
  | Some b => Ok (set_tls_enabled b s)
  | None => Err (str "TLS_ENABLED must be boolean (true/false)")
  end.

Definition vhost_key (val : bytes) (s : ServerConfig) : result ServerConfig bytes :=
  let fields := split_whitespace val in
  let host := nth 0 fields [] in
  if (len fields <? 2) || (len fields >? 5) || contains_char 47 host || contains_char 58 host
  then Err (str "VHOST expects host root [rule-file]")
  else Ok (set_vhosts (vhosts s ++ [mkVhostConfig (to_ascii_lowercase host) (nth 1 fields [])
                                      (fields !! 2%nat) (fields !! 3%nat) (fields !! 4%nat)]) s).

Definition proxy_key (val : bytes) (s : ServerConfig) : result ServerConfig bytes :=
  let error := Err (str "PROXY expects host prefix http://host:port") in
  match split_whitespace val with
  | [host; prefix; upstream] =>
      if negb (valid_route_prefix prefix) || negb (valid_upstream upstream) then error else
      Ok (set_proxy_routes
            (proxy_routes s ++ [mkProxyRoute (to_ascii_lowercase host) prefix upstream]) s)
  | _ => error
  end.

Definition fastcgi_key (val : bytes) (s : ServerConfig) : result ServerConfig bytes :=
  let error := Err (str "FASTCGI expects host prefix unix:/path|tcp://host:port document-root") in
  match split_whitespace val with
  | [host; prefix; endpoint; document_root] =>
      if negb (valid_route_prefix prefix) || negb (valid_fastcgi_endpoint endpoint)
         || bytes_eqb document_root [] then error else
      Ok (set_fastcgi_routes
            (fastcgi_routes s ++ [mkFastCgiRoute (to_ascii_lowercase host) prefix endpoint
                                    document_root]) s)
  | _ => error
  end.

Definition front_controller_key (val : bytes) (s : ServerConfig) : result ServerConfig bytes :=
  if negb (valid_front_controller_path val)
  then Err (str "FRONT_CONTROLLER must be a safe absolute URL path")
  else Ok (set_front_controller (Some val) s).

(** The keys of the root file, in the order of the source; [None] for any other
    key. *)
Definition root_key (key val : bytes) (s : ServerConfig) : option (result ServerConfig bytes) :=
  let k name := bytes_eqb key (str name) in
  let number parse store := Some (number_key key val parse store s) in
  if k "PORT"%string then Some (port_key val s)
  else if k "ROOT_DIR"%string then Some (path_key key val set_root_dir s)
  else if k "MAX_REQUEST_SIZE"%string then number parse_usize set_max_request_size
  else if k "MAX_HEADER_SIZE"%string then number parse_usize set_max_header_size
  else if k "MAX_HEADERS"%string then number parse_usize set_max_headers
  else if k "MAX_HEADER_LINE"%string then number parse_usize set_max_header_line
  else if k "MAX_URI_LENGTH"%string then number parse_usize set_max_uri_length
  else if k "READ_TIMEOUT"%string then number parse_u64 set_read_timeout
  else if k "WRITE_TIMEOUT"%string then number parse_u64 set_write_timeout
  else if k "KEEP_ALIVE_TIMEOUT"%string then number parse_u64 set_keep_alive_timeout
  else if k "MAX_CONNECTIONS"%string then number parse_usize set_max_connections
  else if k "MAX_REQUESTS_PER_CONNECTION"%string then number parse_usize set_max_requests_per_connection
  else if k "LOG_FORMAT"%string then Some (log_format_key val s)
  else if k "ACCESS_LOG"%string || k "ERROR_LOG"%string then Some (log_key key val s)
  else if k "COMPRESSION_ENABLED"%string then Some (compression_enabled_key val s)
  else if k "COMPRESSION_LEVEL"%string then Some (compression_level_key val s)
  else if k "COMPRESSION_MIN_SIZE"%string then number parse_u64 set_compression_min_size
  else if k "COMPRESSION_MIME"%string then Some (compression_mime_key val s)
  else if k "UPSTREAM_HEALTH_INTERVAL"%string || k "UPSTREAM_HEALTH_TIMEOUT"%string
          || k "UPSTREAM_HEALTH_FAILURES"%string || k "UPSTREAM_HEALTH_RECOVERY"%string
  then Some (health_key key val s)
  else if k "RATE_LIMIT_PER_SECOND"%string then number parse_u32 set_rate_limit_per_second
  else if k "RATE_LIMIT_BURST"%string then number parse_u32 set_rate_limit_burst
  else if k "MAX_CONNECTIONS_PER_IP"%string then number parse_usize set_max_connections_per_ip
  else if k "SECURITY_X_CONTENT_TYPE_OPTIONS"%string || k "SECURITY_REFERRER_POLICY"%string
          || k "SECURITY_X_FRAME_OPTIONS"%string || k "SECURITY_CONTENT_SECURITY_POLICY"%string
  then Some (security_key key val s)
  else if k "TLS_ENABLED"%string then Some (tls_enabled_key val s)
  else if k "TLS_CERTIFICATE"%string
  then Some (path_key key val (fun v => set_tls_certificate (Some v)) s)
  else if k "TLS_PRIVATE_KEY"%string
  then Some (path_key key val (fun v => set_tls_private_key (Some v)) s)
  else if k "VHOST"%string then Some (vhost_key val s)
  else if k "PROXY"%string then Some (proxy_key val s)
  else if k "FASTCGI"%string then Some (fastcgi_key val s)
  else if k "FRONT_CONTROLLER"%string then Some (front_controller_key val s)
  else None.

(** ** Keys of every file *)

Section Keys.
Context `{UnicodeCase}.

Definition deny_hidden_key (is_root : bool) (val : bytes) (s : ServerConfig) (d : DirectoryConfig)
  : result (ServerConfig * DirectoryConfig) bytes :=
  match parse_switch (to_lowercase val) with
  | Some b =>
      Ok (if is_root then set_deny_hidden_files b s else s, put_dir_deny_hidden_files (Some b) d)
  | None => Err (str "DENY_HIDDEN_FILES must be boolean (true/false)")
  end.

Definition deny_ip_key (val : bytes) (d : DirectoryConfig) : result DirectoryConfig bytes :=
  match parse_ip val with
  | Some ip => Ok (put_deny_ips (deny_ips d ++ [ip]) d)
  | None => Err (str "invalid IP address")
  end.

Definition header_key (val : bytes) (d : DirectoryConfig) : result DirectoryConfig bytes :=
  let error := Err (str "invalid HEADER format, expected Name: Value") in
  match split_once 58 val with
  | None => error
  | Some (name, value) =>
      if bytes_eqb (trim name) [] then error else
      let value := replace_char 10 [] (replace_char 13 [] (trim value)) in
      Ok (put_dir_headers (dir_headers d ++ [(trim name, value)]) d)
  end.

Definition redirect_404_key (val : bytes) (d : DirectoryConfig) : result DirectoryConfig bytes :=
  match val with
  | [] => Err (str "REDIRECT_404 path cannot be empty")
  | _ => Ok (put_redirect_404 (Some val) d)
  end.

Definition assign_key (is_root : bool) (key val : bytes) (s : ServerConfig) (d : DirectoryConfig)
  : result (ServerConfig * DirectoryConfig) bytes :=
  match root_key key val s with
  | Some r =>
      if negb is_root then Err (key ++ str " is a root-only directive")
      else let? s := r in Ok (s, d)
  | None =>
      let dir r := let? d := r in Ok (s, d) in
      if bytes_eqb key (str "DENY_HIDDEN_FILES") then deny_hidden_key is_root val s d
      else if bytes_eqb key (str "DENY_IP") then dir (deny_ip_key val d)
      else if bytes_eqb key (str "HEADER") then dir (header_key val d)
      else if bytes_eqb key (str "REDIRECT_404") then dir (redirect_404_key val d)
      else Err (str "unknown directive '" ++ key ++ str "'")
  end.

(** ** Files *)

Record ConfigParseError : Type := mkConfigParseError {
  error_file_name : bytes;
  line_number : Z;
  message : bytes;
}.

(** One line: [None] is the panic of [parse_duration]. *)
Definition parse_line (is_root : bool) (line : bytes) (s : ServerConfig) (d : DirectoryConfig)
  : checked (ServerConfig * DirectoryConfig) :=
  let trimmed := trim (strip_rule_comment line) in
  if bytes_eqb trimmed [] then Some (Ok (s, d)) else
  if negb (has_unquoted_equals trimmed) then
    checked_bind (parse_native_directive trimmed d) (fun d => Some (Ok (s, d)))
  else
    match split_once 61 trimmed with
    | None => Some (Err (str "invalid directive"))
    | Some (key, val) => Some (assign_key is_root (trim key) (trim val) s d)
    end.

Fixpoint parse_lines (is_root : bool) (file_name : bytes) (ls : list bytes) (line_num : Z)
  (s : ServerConfig) (d : DirectoryConfig) (errors : list ConfigParseError)
  : option (ServerConfig * DirectoryConfig * list ConfigParseError) :=
  match ls with
  | [] => Some (s, d, errors)
  | line :: ls =>
      match parse_line is_root line s d with
      | None => None
      | Some (Ok (s, d)) => parse_lines is_root file_name ls (line_num + 1) s d errors
      | Some (Err msg) =>
          parse_lines is_root file_name ls (line_num + 1) s d
            (errors ++ [mkConfigParseError file_name line_num msg])
      end
  end.

Definition parse_veysrule_content (content file_name : bytes) (is_root : bool)
  : option (ServerConfig * DirectoryConfig * list ConfigParseError) :=
  parse_lines is_root file_name (lines content) 1 server_config_default directory_config_default [].

(** [fs::read_to_string] gives the content, or [None] when it fails. *)
Definition parse_veysrule_file (file_name : bytes) (content : option bytes) (is_root : bool)
  : option (ServerConfig * DirectoryConfig * list ConfigParseError) :=
  match content with
  | None => Some (server_config_default, directory_config_default, [])
  | Some content =>
      if len content >? MAX_RULE_FILE_BYTES then
        Some (server_config_default, directory_config_default,
              [mkConfigParseError file_name 1
                 (str "rule file exceeds " ++ to_string MAX_RULE_FILE_BYTES ++ str " bytes")])
      else parse_veysrule_content content file_name is_root
  end.
End Keys.
