(* ===== verification/RuleProps.v ===== *)
(** * What a rule file can set

    The configurations a parsed file yields are well formed, a file that is not
    the root's cannot touch the server, and an erroneous line has no effect but
    its error. *)

From Stdlib Require Import Sorting.Sorted.
From S2P Require Import Prelude RustStd Config ConfigSet Text Paths Rules RuleFile.

(** ** Well-formed configurations *)

Definition no_line_control (v : bytes) : Prop := existsb is_line_control v = false.

Record server_ok (s : ServerConfig) : Prop := {
  ok_port : 1 <= port s <= U16_MAX;
  ok_root : root_dir s <> [];
  ok_sizes : Forall (fun n => 0 <= n <= USIZE_MAX)
    [max_request_size s; max_header_size s; max_headers s; max_header_line s; max_uri_length s;
     max_connections s; max_requests_per_connection s; max_connections_per_ip s];
  ok_times : Forall (fun n => 0 <= n <= U64_MAX)
    [read_timeout s; write_timeout s; keep_alive_timeout s; compression_min_size s];
  ok_rates : Forall (fun n => 0 <= n <= U32_MAX)
    [rate_limit_per_second s; rate_limit_burst s; upstream_health_failures s;
     upstream_health_recovery s];
  ok_health : 0 <= upstream_health_interval s <= 86400 /\ 1 <= upstream_health_timeout s <= 300;
  ok_level : 0 <= compression_level s <= 9;
  ok_log : log_format s = str "text" \/ log_format s = str "json";
  ok_security : Forall (fun v => forall x, v = Some x -> no_line_control x)
    [security_x_content_type_options s; security_referrer_policy s; security_x_frame_options s;
     security_content_security_policy s];
  ok_proxy : Forall (fun r => valid_route_prefix (proxy_prefix r) = true /\
                              valid_upstream (proxy_upstream r) = true) (proxy_routes s);
  ok_fastcgi : Forall (fun r => valid_route_prefix (fcgi_prefix r) = true /\
                                valid_fastcgi_endpoint (fcgi_endpoint r) = true /\
                                fcgi_document_root r <> []) (fastcgi_routes s);
  ok_front : forall p, front_controller s = Some p -> valid_front_controller_path p = true;
}.

(** Only lines that are not touched by any key of the file. *)
Definition fixed_fields (s : ServerConfig) : Prop :=
  host s = host server_config_default /\ workers s = workers server_config_default /\
  http2_max_concurrent_streams s = http2_max_concurrent_streams server_config_default /\
  dev_mode s = dev_mode server_config_default /\ config_file s = config_file server_config_default.

Record dir_ok (d : DirectoryConfig) : Prop := {
  ok_headers : Forall (fun h => 13 ∉ snd h /\ 10 ∉ snd h) (dir_headers d);
  ok_added : Forall (fun h => valid_header_name (fst h) = true /\ no_line_control (snd h))
               (add_headers d);
  ok_redirect : forall r, redirect d = Some r ->
    300 <= redirect_status r <= 399 /\ no_line_control (redirect_source r) /\
    no_line_control (redirect_target r);
  ok_rewrites : len (rewrites d) <= MAX_REWRITE_RULES;
  ok_networks : Forall (fun c => 0 <= prefix c <= ip_width (address c))
                  (allow_networks d ++ deny_networks d);
  ok_index : forall names, index_files d = Some names -> names <> [] /\ Forall safe_name names;
  ok_expires : forall n, expires d = Some n -> 0 <= n <= U64_MAX;
  ok_mime : Forall (fun m => no_line_control (snd m)) (mime_types d);
  ok_pages : Forall (fun e => 100 <= fst e <= 599) (error_pages d);
}.

Lemma server_default_ok : server_ok server_config_default.
Proof.
  constructor; try (by apply (bool_decide_unpack _)); try done; try (cbn; unfold U16_MAX; lia).
  repeat constructor; intros x [= <-]; done.
Qed.

Lemma dir_default_ok : dir_ok directory_config_default.
Proof. constructor; cbn; try done; try constructor. Qed.

(** ** Keys *)

Ltac config_field :=
  match goal with
  | H : server_ok ?s |- server_ok _ => destruct H
  | H : dir_ok ?d |- dir_ok _ => destruct H
  end; constructor; try done.

Lemma server_number (f : Z -> ServerConfig -> ServerConfig) key val parse max s s' :
  number_key key val parse f s = Ok s' -> (forall v n, parse v = Some n -> 0 <= n <= max) ->
  exists n, s' = f n s /\ 0 <= n <= max.
Proof.
  unfold number_key. intros H Hp. destruct (parse val) as [n|] eqn:E; [|done]. simplify_eq.
  exists n. split; [done|by eapply Hp].
Qed.

Lemma parse_usize_max v n : parse_usize v = Some n -> 0 <= n <= USIZE_MAX.
Proof. by apply parse_unsigned_bound. Qed.
Lemma parse_u64_max v n : parse_u64 v = Some n -> 0 <= n <= U64_MAX.
Proof. by apply parse_unsigned_bound. Qed.
Lemma parse_u32_max v n : parse_u32 v = Some n -> 0 <= n <= U32_MAX.
Proof. by apply parse_unsigned_bound. Qed.
Lemma parse_u16_max v n : parse_u16 v = Some n -> 0 <= n <= U16_MAX.
Proof. by apply parse_unsigned_bound. Qed.
#[global] Hint Resolve parse_usize_max parse_u64_max parse_u32_max parse_u16_max : veys.

Lemma port_key_ok val s s' : server_ok s -> port_key val s = Ok s' -> server_ok s'.
Proof.
  unfold port_key. intros Hs. destruct (parse_u16 val) as [p|] eqn:E; [|done].
  apply parse_u16_max in E. case_match; [|done]. intros [= <-]. zbool. config_field. cbn. lia.
Qed.

Lemma path_key_inv key val f s s' : path_key key val f s = Ok s' -> val <> [] /\ s' = f val s.
Proof. unfold path_key. destruct val; [done|]. by intros [= <-]. Qed.

Lemma log_keys_ok key val s s' :
  server_ok s -> log_format_key val s = Ok s' \/ log_key key val s = Ok s' -> server_ok s'.
Proof.
  unfold log_format_key, log_key. intros Hs [H|H]; split_if H; try done; simplify_eq.
  - apply orb_true_iff in E as [E|E]; apply bytes_eqb_eq in E; config_field; cbn; auto.
  - case_match; config_field.
Qed.

Lemma compression_keys_ok val s s' :
  server_ok s ->
  compression_enabled_key val s = Ok s' \/ compression_level_key val s = Ok s' \/
  compression_mime_key val s = Ok s' -> server_ok s'.
Proof.
  unfold compression_enabled_key, compression_level_key, compression_mime_key. intros Hs [H|[H|H]].
  - repeat (split_if H; [simplify_eq; config_field|]). done.
  - destruct (parse_u32 val) as [n|] eqn:E; [|done]. apply parse_u32_max in E.
    case_match; [|done]. simplify_eq. zbool. config_field. cbn. lia.
  - split_if H; [|done]. simplify_eq. config_field.
Qed.

Lemma health_key_ok key val s s' : server_ok s -> health_key key val s = Ok s' -> server_ok s'.
Proof.
  unfold health_key. intros Hs. destruct (parse_u64 val) as [n|] eqn:E; [|done].
  apply parse_u64_max in E. destruct (Z.eqb_spec n 0); [done|].
  assert (Hu : 0 <= as_u32 (Z.min n U32_MAX) <= U32_MAX) by (unfold as_u32, U32_MAX; zlia).
  repeat (case_match; [intros [= <-]; config_field; first [cbn; lia | rewrite !Forall_cons in *; cbn; tauto]|]).
  intros [= <-]. config_field. rewrite !Forall_cons in *. cbn. tauto.
Qed.

Lemma security_key_ok key val s s' : server_ok s -> security_key key val s = Ok s' -> server_ok s'.
Proof.
  unfold security_key, valid_header_value. intros Hs.
  destruct (existsb is_line_control val) eqn:E; [done|]. cbn [negb].
  assert (Hv : forall x, Some val = Some x -> no_line_control x) by (by intros x [= <-]).
  repeat case_match; intros [= <-]; config_field; rewrite !Forall_cons in *; cbn; tauto.
Qed.

Lemma route_keys_ok val s s' :
  server_ok s -> proxy_key val s = Ok s' \/ fastcgi_key val s = Ok s' \/
  front_controller_key val s = Ok s' -> server_ok s'.
Proof.
  intros Hs [H|[H|H]].
  - unfold proxy_key in H. repeat case_match; simplify_eq. zbool. config_field.
    cbn. by apply Forall_app_2; repeat constructor.
  - unfold fastcgi_key in H. repeat case_match; simplify_eq. zbool. rewrite bytes_eqb_neq in *. config_field.
    cbn. by apply Forall_app_2; repeat constructor.
  - unfold front_controller_key in H. split_if H; [done|]. simplify_eq. zbool. config_field.
    cbn. by intros p [= <-].
Qed.

Lemma other_keys_ok val s s' :
  server_ok s -> tls_enabled_key val s = Ok s' \/ vhost_key val s = Ok s' -> server_ok s'.
Proof.
  unfold tls_enabled_key, vhost_key. intros Hs [H|H].
  - case_match; [|done]. simplify_eq. config_field.
  - split_if H; [done|]. simplify_eq. config_field.
Qed.

Ltac number_field H :=
  eapply server_number in H as (n & -> & Hn); [|by eauto with veys];
  config_field; rewrite !Forall_cons in *; cbn; tauto.

Lemma root_key_ok key val s s' : server_ok s -> root_key key val s = Some (Ok s') -> server_ok s'.
Proof.
  intros Hs H. unfold root_key in H.
  repeat (split_if H; [apply (inj Some) in H; first
    [ by eapply port_key_ok | by eapply (log_keys_ok key val); eauto | by eapply compression_keys_ok; eauto
    | by eapply health_key_ok | by eapply security_key_ok | by eapply route_keys_ok; eauto
    | by eapply other_keys_ok; eauto
    | apply path_key_inv in H as [? ->]; by config_field
    | number_field H ]|]).
  done.
Qed.

Lemma root_key_fixed key val s s' :
  fixed_fields s -> root_key key val s = Some (Ok s') -> fixed_fields s'.
Proof.
  intros Hs H. unfold root_key in H.
  repeat (split_if H; [apply (inj Some) in H;
    unfold port_key, path_key, number_key, log_format_key, log_key, compression_enabled_key,
      compression_level_key, compression_mime_key, health_key, security_key, tls_enabled_key,
      vhost_key, proxy_key, fastcgi_key, front_controller_key in H;
    repeat case_match; simplify_eq; exact Hs|]).
  done.
Qed.

(** ** Directory directives *)

Lemma valid_value_control v : valid_header_value v = true -> no_line_control v.
Proof. unfold valid_header_value. by intros ?%negb_true_iff. Qed.

Lemma no_control_breaks v : no_line_control v -> 13 ∉ v /\ 10 ∉ v.
Proof.
  unfold no_line_control. intros H.
  assert (Hb : forall b, b ∈ v -> is_line_control b = false).
  { intros b Hin. destruct (is_line_control b) eqn:E; [|done]. rewrite <- H. symmetry.
    apply existsb_exists. exists b. split; [by apply list_elem_of_In|done]. }
  split; intros Hin%Hb; done.
Qed.

Lemma parse_status_range v n : parse_status v = Ok n -> 100 <= n <= 599.
Proof.
  unfold parse_status. intros (m & _ & H)%rbind_ok. unfold between in H. split_if H; [|done]. simplify_eq.
  zbool. lia.
Qed.

Lemma header_directive_ok ts d d' : dir_ok d -> header_directive ts d = Ok d' -> dir_ok d'.
Proof.
  unfold header_directive. intros Hd H. repeat case_match; simplify_eq; zbool.
  all: match goal with Hv : valid_header_value _ = true |- _ => apply valid_value_control in Hv end.
  - config_field. cbn. apply Forall_app_2; [done|]. repeat constructor; by apply no_control_breaks.
  - config_field. cbn. apply Forall_app_2; [done|]. by repeat constructor.
Qed.

Lemma simple_directives_ok ts d d' :
  dir_ok d ->
  remove_header_directive ts d = Ok d' \/ methods_directive ts d = Ok d' \/
  switch_directive ts d = Ok d' -> dir_ok d'.
Proof.
  intros Hd [H|[H|H]].
  - unfold remove_header_directive in H. repeat case_match; simplify_eq; config_field.
  - unfold methods_directive in H. apply rbind_ok in H as (? & _ & H). apply rbind_ok in H as (? & _ & H).
    simplify_eq. config_field.
  - unfold switch_directive in H. repeat case_match; try done; cbn [rbind] in H; simplify_eq; config_field.
Qed.

Lemma redirect_directive_ok ts d d' : dir_ok d -> redirect_directive ts d = Ok d' -> dir_ok d'.
Proof.
  unfold redirect_directive. intros Hd H. destruct ts as [|t0 [|t1 [|t2 [|t3 [|]]]]]; try done.
  apply rbind_ok in H as (st & Hst & H). unfold between in H. do 2 (split_if H; [done|]). simplify_eq. zbool.
  config_field. cbn. intros r [= <-]. cbn. split_and!; try done; lia.
Qed.

Lemma rewrite_directive_ok ts d d' : dir_ok d -> rewrite_directive ts d = Ok d' -> dir_ok d'.
Proof.
  unfold rewrite_directive. intros Hd H. do 2 (split_if H; [done|]).
  apply rbind_ok in H as (? & _ & H). split_if H; [done|]. apply rbind_ok in H as (st & _ & H).
  split_if H; [done|]. simplify_eq. unfold MAX_REWRITE_RULES in *. rewrite Z.geb_leb in *. zbool.
  config_field. cbn. autorewrite with veys_len. unfold MAX_REWRITE_RULES. lia.
Qed.

Lemma network_directive_ok ts d d' : dir_ok d -> network_directive ts d = Ok d' -> dir_ok d'.
Proof.
  unfold network_directive. intros Hd H. destruct ts as [|t0 [|t1 [|t2 [|]]]]; try done.
  split_if H; [done|].
  apply rbind_ok in H as (c & Hc & H). apply parse_cidr_prefix in Hc.
  split_if H; simplify_eq; config_field; cbn; rewrite !Forall_app, ?Forall_singleton in *; tauto.
Qed.

Lemma index_directive_ok ts d d' : dir_ok d -> index_directive ts d = Ok d' -> dir_ok d'.
Proof.
  unfold index_directive. intros Hd H. apply rbind_ok in H as (? & Hn & H). split_if H; [done|]. simplify_eq.
  config_field. cbn. intros names [= <-]. split.
  - unfold need in Hn. split_if Hn; [done|]. zbool. destruct ts as [|t [|t' ts]]; try done.
  - apply Forall_forall. intros f Hf.
    destruct (bytes_eqb f [] || contains_char 47 f || bytes_eqb f (str ".") || bytes_eqb f (str "..")) eqn:Ef.
    + exfalso. enough (Ht : existsb (fun f => bytes_eqb f [] || contains_char 47 f || bytes_eqb f (str ".")
        || bytes_eqb f (str "..")) (tl ts) = true) by congruence.
      apply existsb_exists. exists f. split; [by apply list_elem_of_In|done].
    + zbool. rewrite bytes_eqb_neq in *. split_and!; try done. intros Hin.
      enough (contains_char 47 f = true) by congruence. apply existsb_exists. exists 47.
      split; [by apply list_elem_of_In|done].
Qed.

Lemma value_directives_ok ts d d' :
  dir_ok d -> mime_directive ts d = Ok d' \/ error_page_directive ts d = Ok d' -> dir_ok d'.
Proof.
  intros Hd [H|H].
  - unfold mime_directive in H. repeat case_match; simplify_eq; zbool.
    match goal with Hv : valid_header_value _ = true |- _ => apply valid_value_control in Hv end.
    config_field. cbn. apply Forall_app_2; [done|]. by repeat constructor.
  - unfold error_page_directive in H. destruct ts as [|t0 [|t1 [|t2 [|]]]]; try done.
    apply rbind_ok in H as (st & Hst & H). apply parse_status_range in Hst. split_if H; [done|]. simplify_eq.
    config_field. cbn. apply Forall_app_2; [done|]. repeat constructor; cbn; lia.
Qed.

Lemma parse_duration_range v n : parse_duration v = Some (Ok n) -> 0 <= n <= U64_MAX.
Proof.
  unfold parse_duration. destruct (last v) as [b|]; [|done]. destruct (cont b); [done|].
  intros [= Hr]. apply rbind_ok in Hr as (a & Ha & Hr). apply rbind_ok in Hr as (m & Hm & Hr).
  destruct (parse_u64 _) as [a'|] eqn:Ea in Ha; [|done]. cbn in Ha. simplify_eq. apply parse_u64_max in Ea.
  assert (0 <= m) by (repeat case_match; simplify_eq; lia).
  unfold checked_mul_u64 in Hr. split_if Hr; [|done]. cbn in Hr. simplify_eq. zbool. split; [|lia].
  apply Z.mul_nonneg_nonneg; lia.
Qed.

Lemma expires_directive_ok ts d d' : dir_ok d -> expires_directive ts d = Some (Ok d') -> dir_ok d'.
Proof.
  unfold expires_directive. intros Hd H. destruct ts as [|t0 [|t1 [|]]]; try done. unfold checked_bind in H.
  destruct (parse_duration _) as [[n|]|] eqn:E; try done. apply parse_duration_range in E. simplify_eq.
  config_field. cbn. by intros m [= <-].
Qed.

Lemma native_directive_ok line d d' :
  dir_ok d -> parse_native_directive line d = Some (Ok d') -> dir_ok d'.
Proof.
  unfold parse_native_directive. intros Hd H. destruct (tokenize_rule_line line) as [[|t0 ts]|]; try done.
  { by simplify_eq. }
  repeat (split_if H; [first
    [ by eapply expires_directive_ok
    | apply (inj Some) in H; first
      [ by eapply header_directive_ok | by eapply simple_directives_ok; eauto
      | by eapply redirect_directive_ok | by eapply rewrite_directive_ok | by eapply network_directive_ok
      | by eapply index_directive_ok | by eapply value_directives_ok; eauto ] ]|]).
  done.
Qed.

(** ** Lines *)

Section Lines.
Context `{UnicodeCase}.

Lemma replace_char_elem c b l : b ∈ replace_char c [] l -> b ∈ l /\ b <> c.
Proof.
  unfold replace_char. induction l as [|x l IH]; cbn [map concat]; [by intros ?%elem_of_nil|].
  rewrite elem_of_app. destruct (Z.eqb_spec x c) as [->|Hx]; intros [Hin|Hin]; try by apply elem_of_nil in Hin.
  - apply IH in Hin as [? ?]. split; [by right|done].
  - apply list_elem_of_singleton in Hin as ->. split; [by left|done].
  - apply IH in Hin as [? ?]. split; [by right|done].
Qed.

Lemma header_key_ok val d d' : dir_ok d -> header_key val d = Ok d' -> dir_ok d'.
Proof.
  unfold header_key. intros Hd Hk. destruct (split_once 58 val) as [[name value]|]; [|done].
  split_if Hk; [done|]. simplify_eq. config_field. cbn. apply Forall_app_2; [done|]. apply Forall_singleton.
  cbn [snd]. split; intros [Hin Hne]%replace_char_elem; [|done]. by apply replace_char_elem in Hin as [_ ?].
Qed.

Lemma assign_key_ok is_root key val s d s' d' :
  server_ok s -> dir_ok d -> assign_key is_root key val s d = Ok (s', d') ->
  server_ok s' /\ dir_ok d' /\ (fixed_fields s -> fixed_fields s') /\ (is_root = false -> s' = s).
Proof.
  intros Hs Hd Hk. unfold assign_key in Hk. destruct (root_key key val s) as [r|] eqn:Hr.
  { destruct is_root; [|done]. destruct r as [s1|]; [|done]. cbn in Hk. simplify_eq.
    split_and!; try done; [by eapply root_key_ok|]. intros Hf. by eapply root_key_fixed. }
  repeat (split_if Hk; [|]); try done.
  - unfold deny_hidden_key in Hk. case_match; [|done]. simplify_eq.
    split_and!; [destruct is_root; [config_field|done]|config_field|by destruct is_root|by destruct is_root].
  - unfold deny_ip_key in Hk. case_match; [|done]. cbn in Hk. simplify_eq. split_and!; try done. config_field.
  - destruct (header_key val d) as [d1|] eqn:Ehk; [|done]. cbn in Hk. simplify_eq. split_and!; try done.
    by eapply header_key_ok.
  - unfold redirect_404_key in Hk. case_match; [done|]. cbn in Hk. simplify_eq. split_and!; try done. config_field.
Qed.

Lemma parse_line_ok is_root line s d s' d' :
  server_ok s -> dir_ok d -> parse_line is_root line s d = Some (Ok (s', d')) ->
  server_ok s' /\ dir_ok d' /\ (fixed_fields s -> fixed_fields s') /\ (is_root = false -> s' = s).
Proof.
  unfold parse_line. intros Hs Hd Hp. split_if Hp; [by simplify_eq|]. split_if Hp.
  - unfold checked_bind in Hp. destruct (parse_native_directive _ d) as [[d1|]|] eqn:E1; try done. simplify_eq.
    split_and!; try done. by eapply native_directive_ok.
  - destruct (split_once 61 _) as [[k v]|]; [|done]. apply (inj Some) in Hp. by eapply assign_key_ok.
Qed.

Lemma parse_lines_ok is_root file ls n s d errs s' d' errs' :
  server_ok s -> dir_ok d -> parse_lines is_root file ls n s d errs = Some (s', d', errs') ->
  server_ok s' /\ dir_ok d' /\ (fixed_fields s -> fixed_fields s') /\ (is_root = false -> s' = s).
Proof.
  revert n s d errs. induction ls as [|line ls IH]; intros n s d errs Hs Hd Hp; cbn [parse_lines] in Hp.
  { by simplify_eq. }
  destruct (parse_line is_root line s d) as [[[s1 d1]|]|] eqn:Hl; [| |done].
  - destruct (parse_line_ok _ _ _ _ _ _ Hs Hd Hl) as (Hs1 & Hd1 & Hf & Hr).
    destruct (IH _ _ _ _ Hs1 Hd1 Hp) as (? & ? & Hf' & Hr'). split_and!; try done; [by auto|].
    intros Hroot. rewrite Hr' by done. by apply Hr.
  - by eapply IH.
Qed.

(** The same of a file, read or not, as the root configuration. *)
Lemma root_file_ok file content s d errs :
  parse_veysrule_file file content true = Some (s, d, errs) -> server_ok s /\ fixed_fields s.
Proof.
  unfold parse_veysrule_file. assert (Hd : server_ok server_config_default /\ fixed_fields server_config_default).
  { split; [exact server_default_ok|done]. }
  destruct content as [content|]; [|by intros [= <- _ _]]. case_match; [by intros [= <- _ _]|].
  intros Hp. destruct (parse_lines_ok _ _ _ _ _ _ _ _ _ _ server_default_ok dir_default_ok Hp) as (Hs & _ & Hf & _).
  split; [done|by apply Hf].
Qed.

(** C33 (type, invariant): whatever the text of a rule file, the
    configurations it yields are well formed: ports, sizes, levels and times in
    range, no line break or NUL in a header value or redirect that reaches a response
    head, networks with a prefix that fits, index names that name one
    directory entry, at most 128 rewrites, routes with valid prefixes and
    endpoints.  The bound address, the number of workers, the limits of HTTP/2
    and the mode stay at their defaults, and a file that is not the root's leaves the
    server's configuration alone. *)
Theorem rule_file_well_formed content file is_root s d errs :
  parse_veysrule_content content file is_root = Some (s, d, errs) ->
  server_ok s /\ dir_ok d /\ fixed_fields s /\ (is_root = false -> s = server_config_default).
Proof.
  intros Hp. destruct (parse_lines_ok _ _ _ _ _ _ _ _ _ _ server_default_ok dir_default_ok Hp)
    as (Hs & Hd & Hf & Hr). split_and!; try done. by apply Hf.
Qed.

(** ** Errors *)

(** The lines without those at the given numbers. *)
Fixpoint without_lines (nums : list Z) (ls : list bytes) (n : Z) : list bytes :=
  match ls with
  | [] => []
  | l :: ls =>
      if existsb (Z.eqb n) nums then without_lines nums ls (n + 1) else l :: without_lines nums ls (n + 1)
  end.

Lemma parse_lines_errors is_root file ls n s d errs s' d' errs' :
  parse_lines is_root file ls n s d errs = Some (s', d', errs') ->
  exists new, errs' = errs ++ new /\
    Forall (fun e => error_file_name e = file /\ n <= line_number e < n + len ls) new /\
    Sorted Z.lt (map line_number new) /\
    forall m, parse_lines is_root file (without_lines (map line_number new) ls n) m s d [] = Some (s', d', []).
Proof.
  revert n s d errs. induction ls as [|line ls IH]; intros n s d errs Hp; cbn [parse_lines] in Hp.
  { simplify_eq. exists []. split_and!; [by rewrite app_nil_r|constructor|constructor|done]. }
  assert (Hskip : forall new, Forall (fun e => error_file_name e = file /\ n + 1 <= line_number e < n + 1 + len ls) new ->
            existsb (Z.eqb n) (map line_number new) = false).
  { induction 1 as [|e new [_ He] _ IHn]; [done|]. cbn. by rewrite IHn, eqb_neq_false by lia. }
  destruct (parse_line is_root line s d) as [[[s1 d1]|msg]|] eqn:Hl; [| |done].
  - apply IH in Hp as (new & -> & Hn & Hs & Hw). exists new. split_and!; try done.
    + eapply Forall_impl; [exact Hn|]. cbn beta. rewrite len_cons. intros e [? ?]. split; [done|lia].
    + intros m. cbn [without_lines]. rewrite Hskip by done. cbn [parse_lines]. rewrite Hl. apply Hw.
  - apply IH in Hp as (new & -> & Hn & Hs & Hw).
    exists (mkConfigParseError file n msg :: new). split_and!.
    + by rewrite <- app_assoc.
    + constructor; [cbn; rewrite len_cons; pose proof (len_nonneg ls); split; [done|lia]|].
      eapply Forall_impl; [exact Hn|]. cbn beta. rewrite len_cons. intros e [? ?]. split; [done|lia].
    + cbn [map]. constructor; [done|]. destruct new as [|e new]; [constructor|]. cbn [map].
      constructor. apply Forall_inv in Hn. cbn. lia.
    + intros m. cbn [map without_lines existsb line_number]. rewrite Z.eqb_refl. cbn [orb].
      assert (Hwl : forall ls k, n < k -> without_lines (n :: map line_number new) ls k =
                 without_lines (map line_number new) ls k).
      { clear. induction ls as [|l ls IHl]; intros k Hk; [done|]. cbn [without_lines existsb].
        rewrite (eqb_neq_false k n) by lia. cbn [orb]. by rewrite !IHl by lia. }
      rewrite Hwl by lia. apply Hw.
Qed.

(** Errors are reported once per offending line, in order and with
    the right file and line number, and have no other effect: the result is
    that of the file without the offending lines, which parses without
    errors. *)
Theorem rule_errors_isolated content file is_root s d errs :
  parse_veysrule_content content file is_root = Some (s, d, errs) ->
  Forall (fun e => error_file_name e = file /\ 1 <= line_number e <= len (lines content)) errs /\
  Sorted Z.lt (map line_number errs) /\
  parse_lines is_root file (without_lines (map line_number errs) (lines content) 1) 1
    server_config_default directory_config_default [] = Some (s, d, []).
Proof.
  intros Hp. apply parse_lines_errors in Hp as (new & -> & Hn & Hs & Hw). cbn [app]. split_and!; try done.
  eapply Forall_impl; [exact Hn|]. cbn beta. intros e [? ?]. split; [done|lia].
Qed.
(** ** Panics *)

Lemma chars_incl n l b : (length l <= n)%nat -> b ∈ concat (chars l) -> b ∈ l.
Proof.
  revert l. induction n as [|n IH]; intros l Hn; [by destruct l; [|cbn in Hn; lia]|].
  destruct l as [|b0 [|b1 [|b2 [|b3 l]]]]; cbn [chars length] in *; repeat case_match; cbn [concat app];
    rewrite ?elem_of_cons; intros Hin;
    repeat match goal with
    | Hx : _ \/ _ |- _ => destruct Hx
    | Hx : _ ∈ concat (chars ?k) |- _ => apply IH in Hx; [|cbn [length] in *; lia]
    end; rewrite ?elem_of_cons, ?elem_of_nil in *; tauto.
Qed.

Lemma before_comment_incl cs q e b : b ∈ concat (before_comment cs q e) -> b ∈ concat cs.
Proof.
  revert q e. induction cs as [|c cs IH]; intros q e; [done|]. cbn [before_comment concat].
  repeat case_match; cbn [concat]; rewrite ?elem_of_app; try (by intros ?%elem_of_nil);
    intros [Hin|Hin]; eauto.
Qed.

Lemma trim_start_incl n l b : (length l <= n)%nat -> b ∈ trim_start l -> b ∈ l.
Proof.
  revert l. induction n as [|n IH]; intros l Hn; [by destruct l; [|cbn in Hn; lia]|].
  destruct l as [|b0 [|b1 [|b2 l]]]; cbn [trim_start length] in *; repeat case_match;
    rewrite ?elem_of_cons; intros Hin; auto; try (apply IH in Hin; [|cbn [length] in *; lia]);
    rewrite ?elem_of_cons in Hin; tauto.
Qed.

Lemma trim_start_rev_incl n l b : (length l <= n)%nat -> b ∈ trim_start_rev l -> b ∈ l.
Proof.
  revert l. induction n as [|n IH]; intros l Hn; [by destruct l; [|cbn in Hn; lia]|].
  destruct l as [|b0 [|b1 [|b2 l]]]; cbn [trim_start_rev length] in *; repeat case_match;
    rewrite ?elem_of_cons; intros Hin; auto; try (apply IH in Hin; [|cbn [length] in *; lia]);
    rewrite ?elem_of_cons in Hin; tauto.
Qed.

Lemma elem_of_rev (l : bytes) b : b ∈ rev l <-> b ∈ l.
Proof. rewrite !list_elem_of_In, <- in_rev. done. Qed.

Lemma trim_incl l b : b ∈ trim l -> b ∈ l.
Proof.
  unfold trim, trim_end. rewrite elem_of_rev. intros Hin%(trim_start_rev_incl _ _ _ (le_n _)).
  rewrite elem_of_rev in Hin. by apply (trim_start_incl _ _ _ (le_n _)) in Hin.
Qed.

Lemma split_on_incl c l s b : s ∈ split_on c l -> b ∈ s -> b ∈ l.
Proof.
  revert s. induction l as [|x l IH]; intros s; cbn [split_on].
  { intros ->%list_elem_of_singleton. done. }
  destruct (x =? c).
  - intros [->|Hin]%elem_of_cons Hb; [by apply elem_of_nil in Hb|]. right. by eapply IH.
  - destruct (split_on_cons c l) as (h & t & E). rewrite E in *. cbn [cons_head].
    intros [->|Hin]%elem_of_cons Hb.
    + apply elem_of_cons in Hb as [->|Hb]; [by left|]. right. eapply IH; [by left|done].
    + right. eapply IH; [by right|done].
Qed.

Lemma lines_incl l s b : s ∈ lines l -> b ∈ s -> b ∈ l.
Proof.
  assert (Hll : forall segs, s ∈ line_list segs -> b ∈ s -> exists g, g ∈ segs /\ b ∈ g).
  { induction segs as [|g [|g' segs] IH]; [by intros ?%elem_of_nil| |].
    - cbn [line_list]. destruct g as [|x g]; [by intros ?%elem_of_nil|].
      intros ->%list_elem_of_singleton Hb. eexists. split; [by left|done].
    - intros [->|Hin]%elem_of_cons Hb.
      + exists g. split; [by left|]. unfold strip_cr, strip_suffix in Hb. repeat case_match; simplify_eq; try done.
        rewrite <- (take_drop (length g - length [13]) g). apply elem_of_app. by left.
      + destruct (IH Hin Hb) as (k & Hk & ?). exists k. split; [by right|done]. }
  unfold lines. intros Hs Hb. destruct (Hll _ Hs Hb) as (g & Hg & Hbg). by eapply split_on_incl.
Qed.

Lemma tokenize_bytes (P : Z -> Prop) cs current q e ts :
  P 9 -> P 10 -> P 13 -> Forall P current -> Forall (Forall P) cs ->
  tokenize cs current q e = Ok ts -> Forall (Forall P) ts.
Proof.
  intros H9 H10 H13 Hc Hcs. revert current q e ts Hc.
  assert (Hf : forall w, Forall P w -> Forall (Forall P) (flush_word w [])).
  { intros [|x w] Hw; cbn [flush_word]; [constructor|apply Forall_cons_2; [done|constructor]]. }
  induction Hcs as [|ch cs Hch Hcs IH]; intros current q e ts Hc Ht; cbn [tokenize] in Ht.
  { destruct e; [done|]. destruct q; [done|]. simplify_eq. by apply Hf. }
  destruct e.
  { eapply IH; [|exact Ht]. apply Forall_app_2; [done|]. unfold unescape.
    repeat case_match; try done; by repeat constructor. }
  destruct (is_char ch 92 && q); [by eapply IH|]. destruct (is_char ch 34); [by eapply IH|].
  destruct (is_char ch 35 && negb q); [simplify_eq; by apply Hf|].
  destruct (is_whitespace ch && negb q); [|eapply IH; [|exact Ht]; by apply Forall_app_2].
  destruct current as [|x w]; [by eapply IH; [|exact Ht]|]. unfold cons_token in Ht.
  apply rbind_ok in Ht as (ts' & Ht & [= <-]). constructor; [done|]. eapply IH; [|exact Ht]. constructor.
Qed.

Lemma duration_panic v : parse_duration v = None -> exists b, b ∈ v /\ 128 <= b.
Proof.
  unfold parse_duration. destruct (last v) as [b|] eqn:Hl; [|done]. destruct (cont b) eqn:Hc; [|done].
  intros _. exists b. split; [by eapply last_Some_elem_of|]. unfold cont in Hc. zbool. lia.
Qed.

Lemma native_panic line d :
  parse_native_directive line d = None -> exists b, b ∈ line /\ 128 <= b.
Proof.
  unfold parse_native_directive. intros Hp. destruct (tokenize_rule_line line) as [[|t0 ts]|] eqn:Ht; try done.
  repeat (split_if Hp; [try done|]); try done.
  destruct ts as [|v [|]]; try done. unfold expires_directive, checked_bind in Hp.
  destruct (parse_duration v) as [[]|] eqn:Hd; try done. apply duration_panic in Hd as (b & Hb & H128).
  exists b. split; [|done].
  assert (Hall : Forall (Forall (fun x => x ∈ line \/ x < 128)) [t0; v]).
  { eapply (tokenize_bytes _ _ [] false false); [right; lia..|constructor| |exact Ht].
    apply Forall_forall. intros c Hc. apply Forall_forall. intros x Hx. left.
    apply (chars_incl _ _ _ (le_n _)). apply list_elem_of_In, in_concat. exists c.
    split; by apply list_elem_of_In. }
  apply Forall_cons in Hall as [_ [Hv _]%Forall_cons].
  destruct (proj1 (Forall_forall _ _) Hv b Hb); [done|lia].
Qed.

Lemma parse_lines_panic is_root file ls n s d errs :
  parse_lines is_root file ls n s d errs = None -> exists line b, line ∈ ls /\ b ∈ line /\ 128 <= b.
Proof.
  revert n s d errs. induction ls as [|line ls IH]; intros n s d errs Hp; cbn [parse_lines] in Hp; [done|].
  destruct (parse_line is_root line s d) as [[[s1 d1]|msg]|] eqn:Hl.
  - apply IH in Hp as (l & b & ? & ?). exists l, b. split; [by right|done].
  - apply IH in Hp as (l & b & ? & ?). exists l, b. split; [by right|done].
  - unfold parse_line in Hl. split_if Hl; [done|]. split_if Hl; [|by destruct (split_once 61 _) as [[]|]].
    unfold checked_bind in Hl. destruct (parse_native_directive _ d) as [[]|] eqn:Hn; try done.
    apply native_panic in Hn as (b & Hb & H128). exists line, b. split_and!; [by left| |done].
    apply trim_incl, before_comment_incl, (chars_incl _ _ _ (le_n _)) in Hb. done.
Qed.

(** Reading a rule file always yields a result when the file is
    ASCII; with other text it can panic, because the unit of an [expires]
    duration is split off as the last byte. *)
Theorem rule_file_total file is_root :
  (forall content, is_ascii content -> parse_veysrule_content content file is_root <> None) /\
  (exists content, utf8_valid content = true /\ parse_veysrule_content content file is_root = None).
Proof.
  split.
  - intros content Ha Hp. apply parse_lines_panic in Hp as (line & b & Hl & Hb & H128).
    pose proof (lines_incl _ _ _ Hl Hb) as Hin. pose proof (proj1 (Forall_forall _ _) Ha b Hin). cbn in *. lia.
  - exists (str "expires 5" ++ [195; 169]). by destruct is_root.
Qed.
End Lines.

Lemma rule_file_well_formed_witness :
  exists s d errs, @parse_veysrule_content ascii_case
      (str "PORT = 70000" ++ [10] ++ str "PORT = 9000" ++ [10] ++ str "index home.html # start")
      (str "r") true = Some (s, d, errs) /\
    server_ok s /\ dir_ok d /\ port s = 9000 /\ len errs = 1.
Proof.
  do 3 eexists. split; [vm_compute; reflexivity|].
  destruct (@rule_file_well_formed ascii_case
      (str "PORT = 70000" ++ [10] ++ str "PORT = 9000" ++ [10] ++ str "index home.html # start")
      (str "r") true _ _ _ ltac:(vm_compute; reflexivity)) as (Hs & Hd & _).
  split_and!; [exact Hs|exact Hd|reflexivity|reflexivity].
Defined.

Lemma rule_errors_isolated_witness :
  exists s d errs, @parse_veysrule_content ascii_case
      (str "PORT = 70000" ++ [10] ++ str "PORT = 9000") (str "r") true = Some (s, d, errs) /\
    Sorted Z.lt (map line_number errs) /\ map line_number errs = [1].
Proof.
  do 3 eexists. split; [vm_compute; reflexivity|].
  destruct (@rule_errors_isolated ascii_case (str "PORT = 70000" ++ [10] ++ str "PORT = 9000")
      (str "r") true _ _ _ ltac:(vm_compute; reflexivity)) as (_ & Hs & _).
  split; [exact Hs|reflexivity].
Defined.
