(* ===== verification/Fs.v ===== *)
(** * Files beneath a root directory (src/router/handler.rs, src/config/veysrule.rs)

    The operating system's files are a parameter: the results of the system
    calls the code makes, as functions on descriptors of an arbitrary type.  The
    code of the two no-follow walks is modelled over it: a path is opened one
    component at a time, each relative to the descriptor of its directory and
    without following symbolic links.  A file system does not change during one
    call of the functions here. *)

From S2P Require Import Prelude RustStd Text Paths.

Record Metadata : Type := mkMetadata {
  meta_is_dir : bool;
  meta_len : Z;
  meta_modified : option Z; (* seconds since the epoch *)
}.

(** What [lstat] says of a path. *)
Inductive FileKind : Type := KindFile | KindDir | KindSymlink.

Section Fs.
Context {Fd : Type}.

Record FileSystem : Type := mkFileSystem {
  canonicalize : bytes -> option bytes;
  file_open : bytes -> option Fd;
  (** [openat(dirfd, name, O_RDONLY | O_CLOEXEC | O_NOFOLLOW [| O_DIRECTORY])] *)
  openat : Fd -> bytes -> bool -> option Fd;
  metadata : Fd -> option Metadata;
  read_all : Fd -> option bytes;
  list_dir : Fd -> option (list (bytes * option bool)); (* entries and whether directories *)
  symlink_metadata : bytes -> option FileKind;
  path_metadata : bytes -> option Metadata;
  read_file : bytes -> option bytes;
  read_dir : bytes -> option (list bytes);
}.

Implicit Types (fs : FileSystem) (fd : Fd).

(** [CString::new] refuses a NUL. *)
Definition open_component fs fd (name : bytes) (directory : bool) : option Fd :=
  if contains_char 0 name then None else openat fs fd name directory.

(** All components but the last must be directories. *)
Fixpoint open_walk fs fd (names : list bytes) : option Fd :=
  match names with
  | [] => None
  | [name] => open_component fs fd name false
  | name :: names =>
      match open_component fs fd name true with
      | Some fd => open_walk fs fd names
      | None => None
      end
  end.

Fixpoint open_directories fs fd (names : list bytes) : option Fd :=
  match names with
  | [] => Some fd
  | name :: names =>
      match open_component fs fd name true with
      | Some fd => open_directories fs fd names
      | None => None
      end
  end.

Definition open_beneath_directory fs (root relative : bytes) : option Fd :=
  match file_open fs root with
  | Some fd => open_directories fs fd (normal_names relative)
  | None => None
  end.

(** The first index file that opens. *)
Fixpoint first_some {A B} (f : A -> option B) (l : list A) : option B :=
  match l with
  | [] => None
  | x :: l => match f x with Some y => Some y | None => first_some f l end
  end.

(** A directory is answered by its index, which may again be a directory; the
    fuel bounds that descent. *)
Fixpoint open_beneath_with_index (fuel : nat) fs (root relative : bytes) (index_files : list bytes)
  : option (Fd * bytes) :=
  match file_open fs root with
  | None => None
  | Some root_fd =>
      match open_walk fs root_fd (normal_names relative) with
      | None => None
      | Some file =>
          match metadata fs file with
          | None => None
          | Some meta =>
              if meta_is_dir meta then
                match fuel with
                | O => None
                | S fuel =>
                    first_some (fun index =>
                      open_beneath_with_index fuel fs root (path_push relative index) index_files)
                      index_files
                end
              else Some (file, path_push root relative)
          end
      end
  end.

Definition open_beneath (fuel : nat) fs (root relative : bytes) : option (Fd * bytes) :=
  open_beneath_with_index fuel fs root relative [str "index.html"].

Definition secure_script_path (fuel : nat) fs (root relative : bytes) : option bytes :=
  option_map snd (open_beneath_with_index fuel fs root relative []).

(** [read_rule_file_beneath]: only normal components, the content as UTF-8 and
    the time stamp. *)
Definition read_rule_file_beneath fs (root relative : bytes) : option (bytes * option Z) :=
  match canonicalize fs root with
  | None => None
  | Some canonical_root =>
      match file_open fs canonical_root with
      | None => None
      | Some root_fd =>
          if negb (forallb (fun c => match c with Normal _ => true | _ => false end) (components relative))
          then None else
          match open_walk fs root_fd (normal_names relative) with
          | None => None
          | Some file =>
              let mtime := match metadata fs file with Some m => meta_modified m | None => None end in
              match read_all fs file with
              | Some content => if utf8_valid content then Some (content, mtime) else None
              | None => None
              end
          end
      end
  end.

(** ** What can be opened *)

(** [fd] is reached from [root] by opening safe names one after the other. *)
Fixpoint reached fs (root : Fd) (names : list bytes) (fd : Fd) : Prop :=
  match names with
  | [] => fd = root
  | name :: names => exists directory next, openat fs root name directory = Some next /\ reached fs next names fd
  end.

Lemma open_component_some fs fd name directory next :
  open_component fs fd name directory = Some next -> openat fs fd name directory = Some next.
Proof. unfold open_component. by case_match. Qed.

Lemma open_walk_reached fs names : forall fd fd', open_walk fs fd names = Some fd' -> reached fs fd names fd'.
Proof.
  induction names as [|name names IH]; intros fd fd'; [done|]. cbn [open_walk].
  destruct names as [|n' names].
  - intros Ho%open_component_some. by exists false, fd'.
  - destruct (open_component fs fd name true) as [next|] eqn:E; [|done].
    intros Ho. exists true, next. split; [by apply open_component_some|by apply IH].
Qed.

Lemma first_some_inv {A B} (f : A -> option B) l y : first_some f l = Some y -> exists x, x ∈ l /\ f x = Some y.
Proof.
  induction l as [|x l IH]; cbn; [done|]. destruct (f x) as [z|] eqn:E.
  - intros [= ->]. exists x. split; [by left|done].
  - intros (x' & ? & ?)%IH. exists x'. split; [by right|done].
Qed.

Lemma normal_names_safe p : Forall safe_name (normal_names p).
Proof.
  unfold normal_names. apply Forall_forall. intros n Hn. apply list_elem_of_omap in Hn as (c & Hc & Hn).
  destruct c as [| | |m]; try done. simplify_eq. by eapply components_safe.
Qed.

Lemma join_with_snoc names n :
  names <> [] -> join_with [47] (names ++ [n]) = join_with [47] names ++ [47] ++ n.
Proof.
  intros Hne. induction names as [|m names IH]; [done|]. destruct names as [|m' names]; [done|].
  change (join_with [47] ((m :: m' :: names) ++ [n])) with (m ++ [47] ++ join_with [47] ((m' :: names) ++ [n])).
  rewrite IH by done. change (join_with [47] (m :: m' :: names)) with (m ++ [47] ++ join_with [47] (m' :: names)).
  by rewrite <- !app_assoc.
Qed.

Lemma safe_no_slash n : safe_name n -> starts_with n [47] = false /\ ends_with n [47] = false.
Proof.
  intros (Hne & H47 & _). split.
  - destruct n as [|b n]; [done|]. apply not_elem_of_cons in H47 as [Hb _]. cbn [starts_with].
    by rewrite (eqb_neq_false 47 b).
  - unfold ends_with. destruct n as [|b n _] using rev_ind; [done|]. rewrite rev_app_distr. cbn [rev app starts_with].
    rewrite not_elem_of_app, not_elem_of_cons in H47. destruct H47 as [_ [Hb _]]. by rewrite (eqb_neq_false 47 b).
Qed.

Lemma ends_with_app_byte l n : n <> [] -> ends_with (l ++ n) [47] = ends_with n [47].
Proof.
  intros Hne. unfold ends_with. rewrite rev_app_distr. cbn [rev app].
  destruct (rev n) as [|b r] eqn:E; [|done]. apply (f_equal (@rev Z)) in E. rewrite rev_involutive in E. done.
Qed.

Lemma path_push_join names n :
  Forall safe_name names -> safe_name n ->
  path_push (join_with [47] names) n = join_with [47] (names ++ [n]).
Proof.
  intros Hs Hn. unfold path_push. rewrite (proj1 (safe_no_slash n Hn)).
  destruct names as [|m names _] using rev_ind; [done|].
  assert (Hm : safe_name m) by (apply Forall_app in Hs as [_ Hm]; by inversion Hm).
  assert (Hend : ends_with (join_with [47] (names ++ [m])) [47] = false).
  { destruct names as [|m0 names]; [cbn; by apply safe_no_slash|].
    rewrite join_with_snoc, app_assoc, ends_with_app_byte by (done || by destruct Hm). by apply safe_no_slash. }
  rewrite Hend, (join_with_snoc (names ++ [m])) by (by destruct names).
  destruct (join_with [47] (names ++ [m])) as [|b l] eqn:E; [|done].
  exfalso. destruct names as [|m0 names]; [cbn in E; by destruct Hm|].
  rewrite join_with_snoc in E by done. apply app_nil in E as [_ E]. done.
Qed.

(** What a successful open means, by induction on the descent into indexes. *)
Lemma open_beneath_reached fuel fs root names index_files fd p :
  Forall safe_name names -> Forall safe_name index_files ->
  open_beneath_with_index fuel fs root (join_with [47] names) index_files = Some (fd, p) ->
  exists root_fd extra meta, file_open fs root = Some root_fd /\
    reached fs root_fd (names ++ extra) fd /\ Forall (fun n => n ∈ index_files) extra /\
    p = path_push root (join_with [47] (names ++ extra)) /\
    metadata fs fd = Some meta /\ meta_is_dir meta = false.
Proof.
  revert names. induction fuel as [|fuel IH]; intros names Hs Hidx; cbn [open_beneath_with_index];
    rewrite normal_names_join by done;
    (destruct (file_open fs root) as [root_fd|]; [|done]);
    (destruct (open_walk fs root_fd names) as [file|] eqn:Hw; [|done]);
    (destruct (metadata fs file) as [meta|] eqn:Hm; [|done]);
    (destruct (meta_is_dir meta) eqn:Hd;
      [|intros [= <- <-]; exists root_fd, [], meta; rewrite app_nil_r;
        split_and!; try done; by apply open_walk_reached]); [done|].
  intros (index & Hin & Ho)%first_some_inv.
  assert (Hi : safe_name index) by (by eapply (proj1 (Forall_forall _ _) Hidx)).
  rewrite path_push_join in Ho by done.
  apply IH in Ho as (rfd & extra & m & Hr & Hre & Hex & Hp & Hme & Hnd); [|by apply Forall_app_2; [|apply Forall_singleton]|done].
  exists rfd, (index :: extra), m. change (index :: extra) with ([index] ++ extra). rewrite app_assoc.
  split_and!; try done. by constructor.
Qed.

(** The tree below the root has no path of more than [depth] names. *)
Definition bounded_depth fs (root : bytes) (depth : nat) : Prop :=
  forall root_fd names fd, file_open fs root = Some root_fd -> Forall safe_name names ->
    reached fs root_fd names fd -> (length names <= depth)%nat.

Lemma open_beneath_fuel fs root depth names index_files f1 f2 :
  bounded_depth fs root depth -> Forall safe_name names -> Forall safe_name index_files ->
  (depth < f1 + length names)%nat -> (depth < f2 + length names)%nat ->
  open_beneath_with_index f1 fs root (join_with [47] names) index_files =
  open_beneath_with_index f2 fs root (join_with [47] names) index_files.
Proof.
  intros Hb. revert names f2. induction f1 as [|f1 IH]; intros names f2 Hs Hidx H1 H2.
  { cbn in H1. destruct f2 as [|f2]; [done|]. cbn [open_beneath_with_index]. rewrite normal_names_join by done.
    destruct (file_open fs root) as [rfd|] eqn:Hf; [|done].
    destruct (open_walk fs rfd names) as [file|] eqn:Hw; [|done].
    apply open_walk_reached in Hw. apply (Hb rfd) in Hw; [lia|done|done]. }
  destruct f2 as [|f2].
  { cbn in H2. cbn [open_beneath_with_index]. rewrite normal_names_join by done.
    destruct (file_open fs root) as [rfd|] eqn:Hf; [|done].
    destruct (open_walk fs rfd names) as [file|] eqn:Hw; [|done].
    apply open_walk_reached in Hw. apply (Hb rfd) in Hw; [lia|done|done]. }
  cbn [open_beneath_with_index]. rewrite normal_names_join by done. repeat (case_match; try done).
  assert (Hlist : forall l, Forall safe_name l ->
    first_some (fun index => open_beneath_with_index f1 fs root (path_push (join_with [47] names) index) index_files) l =
    first_some (fun index => open_beneath_with_index f2 fs root (path_push (join_with [47] names) index) index_files) l).
  { induction 1 as [|x l Hx _ IHl]; [done|]. cbn [first_some]. rewrite path_push_join by done.
    rewrite (IH (names ++ [x]) f2), IHl; [done| |done|rewrite length_app; cbn; lia|rewrite length_app; cbn; lia].
    by apply Forall_app_2; [|apply Forall_singleton]. }
  by apply Hlist.
Qed.
End Fs.
Arguments FileSystem Fd : clear implicits.

(** ** A file system given by its files

    Used to run the model: the paths of the regular files with their contents;
    a directory is a proper prefix of such a path.  A descriptor is the path it
    was opened with. *)
Section ListFs.
Context (files : list (bytes * bytes)).

Definition lookup_file (p : bytes) : option bytes :=
  option_map snd (find (fun f => bytes_eqb (fst f) p) files).
Definition is_directory (p : bytes) : bool := existsb (fun f => starts_with (fst f) (p ++ [47])) files.
Definition kind_of (p : bytes) : option FileKind :=
  if is_directory p then Some KindDir
  else match lookup_file p with Some _ => Some KindFile | None => None end.
Definition meta_of (p : bytes) : option Metadata :=
  if is_directory p then Some (mkMetadata true 4096 (Some 0))
  else match lookup_file p with Some c => Some (mkMetadata false (len c) (Some 0)) | None => None end.
Definition child_names (p : bytes) : list bytes :=
  remove_dups (omap (fun f => match strip_prefix (fst f) (p ++ [47]) with
                              | Some rest => Some (hd [] (split_on 47 rest))
                              | None => None
                              end) files).

Definition list_fs : FileSystem bytes := mkFileSystem
  Some
  (fun p => match kind_of p with Some _ => Some p | None => None end)
  (fun fd name directory =>
     let p := fd ++ [47] ++ name in
     match kind_of p with
     | Some KindDir => Some p
     | Some _ => if directory : bool then None else Some p
     | None => None
     end)
  meta_of
  lookup_file
  (fun fd => Some (map (fun n => (n, Some (is_directory (fd ++ [47] ++ n)))) (child_names fd)))
  kind_of
  meta_of
  lookup_file
  (fun p => if is_directory p then Some (child_names p) else None).

Lemma starts_with_length l p : starts_with l p = true -> (length p <= length l)%nat.
Proof.
  revert l. induction p as [|x p IH]; intros l; [cbn; lia|]. destruct l as [|y l]; [done|]. cbn [starts_with].
  intros [_ H]%andb_true_iff. apply IH in H. cbn. lia.
Qed.

Definition longest_path : nat := fold_right (fun f n => Nat.max (length (fst f)) n) O files.

Lemma longest_path_spec f : f ∈ files -> (length (fst f) <= longest_path)%nat.
Proof.
  unfold longest_path. induction files as [|g l IH]; [by intros ?%elem_of_nil|].
  intros [->|Hin]%elem_of_cons; cbn [fold_right]; [lia|]. apply IH in Hin. lia.
Qed.

Lemma kind_of_length p k : kind_of p = Some k -> (length p <= longest_path)%nat.
Proof.
  unfold kind_of, is_directory, lookup_file. destruct (existsb _ files) eqn:E.
  - apply existsb_exists in E as (f & Hf & Hs). intros _. apply starts_with_length in Hs.
    rewrite length_app in Hs. apply list_elem_of_In, longest_path_spec in Hf. cbn in Hs. lia.
  - destruct (find _ files) as [f|] eqn:Hf; [|done]. intros _. apply find_some in Hf as [Hin Heq].
    apply bytes_eqb_eq in Heq as <-. by apply list_elem_of_In, longest_path_spec in Hin.
Qed.

Lemma list_fs_bounded root : bounded_depth list_fs root longest_path.
Proof.
  intros root_fd names fd Hr _. cbn in Hr. destruct (kind_of root) as [k|] eqn:Hk; [|done]. simplify_eq.
  apply kind_of_length in Hk. revert Hk.
  assert (Hgen : forall names p, reached list_fs p names fd -> (length p <= longest_path)%nat ->
            (length names + length p <= longest_path)%nat); [|intros Hk Hre%Hgen; lia].
  clear. induction names as [|n names IH]; intros p; cbn [reached length]; [lia|].
  intros (directory & next & Ho & Hre) Hp. cbn in Ho.
  destruct (kind_of (p ++ 47 :: n)) as [k|] eqn:Hk; [|done]. apply kind_of_length in Hk.
  assert (Hnx : next = p ++ 47 :: n) by (repeat case_match; by simplify_eq). subst next.
  apply IH in Hre; [|done]. rewrite length_app in Hre, Hk. cbn in *. lia.
Qed.
End ListFs.
