(* ===== verification/ConfigCache.v ===== *)
(** * The cache of directory rules (src/config/veysrule.rs, [ConfigManager])

    Rule files are parsed once per generation of the configuration; a reload
    starts a new generation.  The loads are split where another thread can
    interfere: reading the generation, reading the file, and storing the entry.
    A path that is not valid UTF-8 is named by its bytes in messages. *)

From S2P Require Import Prelude RustStd Config ConfigSet Text Paths Rules RuleFile Fs.

Record CacheEntry : Type := mkCacheEntry {
  entry_config : DirectoryConfig;
  entry_mtime : option Z;
  entry_generation : Z;
}.

Record ConfigManager : Type := mkConfigManager {
  cm_cache : gmap bytes CacheEntry;
  cm_generation : Z; (* u64 *)
  cm_error_log : bytes;
  warnings : list (bytes * bytes); (* what was logged, and where *)
}.

Definition new_with_error_log (destination : bytes) : ConfigManager :=
  mkConfigManager ∅ 0 destination [].

Definition set_error_log_destination (destination : bytes) (m : ConfigManager) : ConfigManager :=
  mkConfigManager (cm_cache m) (cm_generation m) destination (warnings m).

Definition warn (msg : bytes) (m : ConfigManager) : ConfigManager :=
  mkConfigManager (cm_cache m) (cm_generation m) (cm_error_log m)
    (warnings m ++ [(cm_error_log m, msg)]).

Definition clear_cache (m : ConfigManager) : ConfigManager :=
  mkConfigManager ∅ (as_u64 (cm_generation m + 1)) (cm_error_log m) (warnings m).

(** [impl Display for ConfigParseError]. *)
Definition display_error (e : ConfigParseError) : bytes :=
  error_file_name e ++ str ":" ++ to_string (line_number e) ++ str ": " ++ message e.

(** The cached rules: in development only while the file's time stamp is the
    same. *)
Definition cache_lookup (m : ConfigManager) (generation : Z) (key : bytes) (dev_mode : bool)
  (current_mtime : option Z) : option DirectoryConfig :=
  match cm_cache m !! key with
  | Some e =>
      if (entry_generation e =? generation)
         && (negb dev_mode || (bool_decide (entry_mtime e = current_mtime)
                               && match current_mtime with Some _ => true | None => false end))
      then Some (entry_config e) else None
  | None => None
  end.

(** The insertion, if no reload has happened since [generation] was read. *)
Definition store_entry (generation : Z) (key : bytes) (cfg : DirectoryConfig) (mtime : option Z)
  (m : ConfigManager) : ConfigManager :=
  if cm_generation m =? generation then
    mkConfigManager (<[key := mkCacheEntry cfg mtime generation]> (cm_cache m)) (cm_generation m)
      (cm_error_log m) (warnings m)
  else m.

(** The end of a load: report the errors, or keep the rules. *)
Definition finish_load (generation : Z) (key : bytes) (mtime : option Z)
  (parsed : DirectoryConfig * list ConfigParseError) (m : ConfigManager)
  : ConfigManager * option DirectoryConfig :=
  match parsed with
  | (cfg, []) => (store_entry generation key cfg mtime m, Some cfg)
  | (_, errors) =>
      (fold_left (fun m e => warn (str "Config error: " ++ display_error e) m) errors m, None)
  end.

(** The directories whose rules apply to a path, outermost first. *)
Fixpoint prefixes (current : bytes) (names : list bytes) : list bytes :=
  current :: match names with [] => [] | n :: names => prefixes (path_push current n) names end.

Definition rule_paths (rel_path : bytes) : list bytes :=
  map (fun dir => path_push dir (str ".veysrule")) (prefixes [] (normal_names rel_path)).

(** [Path] equality compares components. *)
Definition path_eqb (p q : bytes) : bool := bool_decide (components p = components q).

Definition strip_path_prefix (p root : bytes) : option bytes :=
  let cs := components p in
  let rs := components root in
  if bool_decide (take (length rs) cs = rs)
  then Some (join_with [47] (omap (fun c => match c with Normal n => Some n | _ => None end)
                               (drop (length rs) cs)))
  else None.

Section Cache.
Context `{UnicodeCase} {Fd : Type}.
Implicit Types (fs : FileSystem Fd) (m : ConfigManager).

(** [fs::read_to_string]. *)
Definition read_string fs (path : bytes) : option bytes :=
  match read_file fs path with
  | Some content => if utf8_valid content then Some content else None
  | None => None
  end.

(** A parse that panics is [None]. *)
Definition load_dir_config fs (rule_path : bytes) (dev_mode is_root : bool) m
  : option (ConfigManager * option DirectoryConfig) :=
  match symlink_metadata fs rule_path with
  | None => Some (m, None)
  | Some KindSymlink => Some (warn (str "ignoring symlinked rule file " ++ rule_path) m, None)
  | Some _ =>
      match path_metadata fs rule_path with
      | None => Some (m, None)
      | Some meta =>
          let generation := cm_generation m in
          match cache_lookup m generation rule_path dev_mode (meta_modified meta) with
          | Some cfg => Some (m, Some cfg)
          | None =>
              match parse_veysrule_file rule_path (read_string fs rule_path) is_root with
              | None => None
              | Some (_, cfg, errors) =>
                  Some (finish_load generation rule_path (meta_modified meta) (cfg, errors) m)
              end
          end
      end
  end.

(** The rest of a load beneath the root, once the file has been read. *)
Definition load_content (cache_key content : bytes) (mtime : option Z) (dev_mode is_root : bool) m
  : option (ConfigManager * option DirectoryConfig) :=
  let generation := cm_generation m in
  match cache_lookup m generation cache_key dev_mode mtime with
  | Some cfg => Some (m, Some cfg)
  | None =>
      match parse_veysrule_content content cache_key is_root with
      | None => None
      | Some (_, cfg, errors) => Some (finish_load generation cache_key mtime (cfg, errors) m)
      end
  end.

Definition load_dir_config_beneath fs (root_dir relative_rule : bytes) (dev_mode is_root : bool) m
  : option (ConfigManager * option DirectoryConfig) :=
  match read_rule_file_beneath fs root_dir relative_rule with
  | None => Some (m, None)
  | Some (content, mtime) =>
      load_content (path_push root_dir relative_rule) content mtime dev_mode is_root m
  end.

Definition merge_option (cumulative : DirectoryConfig) (cfg : option DirectoryConfig) : DirectoryConfig :=
  match cfg with Some cfg => merge cumulative cfg | None => cumulative end.

Fixpoint merge_rules fs (root_dir : bytes) (rules : list bytes) (dev_mode : bool)
  (cumulative : DirectoryConfig) m : option (ConfigManager * DirectoryConfig) :=
  match rules with
  | [] => Some (m, cumulative)
  | rule :: rules =>
      match load_dir_config_beneath fs root_dir rule dev_mode false m with
      | None => None
      | Some (m, cfg) => merge_rules fs root_dir rules dev_mode (merge_option cumulative cfg) m
      end
  end.

Definition get_config_for_dir fs (root_config_file : option bytes) (root_dir rel_path : bytes)
  (dev_mode : bool) m : option (ConfigManager * DirectoryConfig) :=
  let base :=
    match root_config_file with
    | Some cfg_file =>
        match load_dir_config fs cfg_file dev_mode true m with
        | None => None
        | Some (m, cfg) => Some (m, merge_option directory_config_default cfg)
        end
    | None => Some (m, directory_config_default)
    end in
  match base with
  | None => None
  | Some (m, cumulative) => merge_rules fs root_dir (rule_paths rel_path) dev_mode cumulative m
  end.

(** ** Walking the document tree *)

(** The subdirectories of a directory and the rule files in it, by path;
    symbolic links are passed over. *)
Definition entry_paths fs (dir : bytes) : list (bytes * bytes * FileKind) :=
  match read_dir fs dir with
  | None => []
  | Some names =>
      omap (fun name => let path := path_push dir name in
                        match symlink_metadata fs path with
                        | Some k => Some (name, path, k)
                        | None => None
                        end) names
  end.
Definition subdirectories fs (dir : bytes) : list bytes :=
  omap (fun e => match e with (_, path, KindDir) => Some path | _ => None end) (entry_paths fs dir).
Definition rule_files fs (dir : bytes) : list bytes :=
  omap (fun e => match e with
                 | (name, path, KindFile) => if bytes_eqb name (str ".veysrule") then Some path else None
                 | _ => None
                 end) (entry_paths fs dir).

(** The loop over the stack of directories; the head of the list is its top.
    [None]: the fuel is used up. *)
Fixpoint tree_rules (fuel : nat) fs (stack : list bytes) : option (list bytes) :=
  match stack with
  | [] => Some []
  | dir :: stack =>
      match fuel with
      | O => None
      | S fuel =>
          match tree_rules fuel fs (rev (subdirectories fs dir) ++ stack) with
          | Some rest => Some (rule_files fs dir ++ rest)
          | None => None
          end
      end
  end.

Definition not_root_config (root_config : option bytes) (path : bytes) : bool :=
  match root_config with Some root => negb (path_eqb root path) | None => true end.

(** The outcome of one file is appended; a panic is [None]. *)
Fixpoint collect_errors fs (paths : list bytes) : option (list ConfigParseError) :=
  match paths with
  | [] => Some []
  | path :: paths =>
      match parse_veysrule_file path (read_string fs path) false, collect_errors fs paths with
      | Some (_, _, errors), Some rest => Some (errors ++ rest)
      | _, _ => None
      end
  end.

Definition validate_veysrule_tree (fuel : nat) fs (root_dir : bytes) (root_config : option bytes)
  : option (list ConfigParseError) :=
  let first :=
    match root_config with
    | Some path =>
        match path_metadata fs path with
        | Some _ =>
            match parse_veysrule_file path (read_string fs path) true with
            | Some (_, _, errors) => Some errors
            | None => None
            end
        | None => Some []
        end
    | None => Some []
    end in
  match first, tree_rules fuel fs [root_dir] with
  | Some errors, Some paths =>
      match collect_errors fs (List.filter (not_root_config root_config) paths) with
      | Some rest => Some (errors ++ rest)
      | None => None
      end
  | _, _ => None
  end.

Fixpoint preload_rules fs (root_dir : bytes) (paths : list bytes) m : option ConfigManager :=
  match paths with
  | [] => Some m
  | path :: paths =>
      match strip_path_prefix path root_dir with
      | None => preload_rules fs root_dir paths m
      | Some relative =>
          match load_dir_config_beneath fs root_dir relative false false m with
          | Some (m, _) => preload_rules fs root_dir paths m
          | None => None
          end
      end
  end.

Definition preload_tree (fuel : nat) fs (root_config_file : option bytes) (root_dir : bytes) m
  : option ConfigManager :=
  let base :=
    match root_config_file with
    | Some path => option_map fst (load_dir_config fs path false true m)
    | None => Some m
    end in
  match base, tree_rules fuel fs [root_dir] with
  | Some m, Some paths =>
      preload_rules fs root_dir (List.filter (not_root_config root_config_file) paths) m
  | _, _ => None
  end.

(** ** The cache is transparent *)

(** What the root file and a directory's file say, read now. *)
Definition rules_of (parsed : option (ServerConfig * DirectoryConfig * list ConfigParseError))
  : option (option DirectoryConfig) :=
  match parsed with
  | None => None
  | Some (_, cfg, []) => Some (Some cfg)
  | Some (_, _, _ :: _) => Some None
  end.

Definition root_rules fs (path : bytes) : option (option DirectoryConfig) :=
  match symlink_metadata fs path, path_metadata fs path with
  | Some KindSymlink, _ | None, _ | _, None => Some None
  | Some _, Some _ => rules_of (parse_veysrule_file path (read_string fs path) true)
  end.

Definition directory_rules fs (root_dir rule : bytes) : option (option DirectoryConfig) :=
  match read_rule_file_beneath fs root_dir rule with
  | None => Some None
  | Some (content, _) => rules_of (parse_veysrule_content content (path_push root_dir rule) false)
  end.

Fixpoint merged_rules fs (root_dir : bytes) (rules : list bytes) (cumulative : DirectoryConfig)
  : option DirectoryConfig :=
  match rules with
  | [] => Some cumulative
  | rule :: rules =>
      match directory_rules fs root_dir rule with
      | None => None
      | Some cfg => merged_rules fs root_dir rules (merge_option cumulative cfg)
      end
  end.

(** The rules of a path without any cache: the root file's, then those of every
    directory on the way, each merged into what came before. *)
Definition effective_rules fs (root_config_file : option bytes) (root_dir rel_path : bytes)
  : option DirectoryConfig :=
  let base := match root_config_file with
              | Some f => root_rules fs f
              | None => Some None
              end in
  match base with
  | None => None
  | Some cfg => merged_rules fs root_dir (rule_paths rel_path) (merge_option directory_config_default cfg)
  end.

(** No rule file of the document tree is the root configuration file itself. *)
Definition separate fs (root_config_file : option bytes) (root_dir : bytes) : Prop :=
  forall rule x, read_rule_file_beneath fs root_dir rule = Some x ->
                 root_config_file <> Some (path_push root_dir rule).

(** What an entry of the current generation may hold: [ok path stamp rules]. *)
Definition entries_ok (ok : bytes -> option Z -> DirectoryConfig -> Prop) m : Prop :=
  forall key e, cm_cache m !! key = Some e -> entry_generation e = cm_generation m -> ok key (entry_mtime e) (entry_config e).

(** An entry is used for a file with this time stamp: in development only when
    the file had the same one. *)
Definition reused (dev : bool) (stored current : option Z) : Prop :=
  dev = true -> stored = current /\ current <> None.

(** Entries that are [ok] stand for the files of [fs]: what a file says may be
    stored, and what is stored and used is what the file says. *)
Record stands_for (dev : bool) (ok : bytes -> option Z -> DirectoryConfig -> Prop) fs (root_config_file : option bytes)
  (root_dir : bytes) : Prop := {
  root_stored path meta cfg : root_config_file = Some path -> path_metadata fs path = Some meta ->
    rules_of (parse_veysrule_file path (read_string fs path) true) = Some (Some cfg) -> ok path (meta_modified meta) cfg;
  root_reused path meta stamp cfg : root_config_file = Some path -> path_metadata fs path = Some meta ->
    ok path stamp cfg -> reused dev stamp (meta_modified meta) ->
    rules_of (parse_veysrule_file path (read_string fs path) true) = Some (Some cfg);
  directory_stored rule content stamp cfg : read_rule_file_beneath fs root_dir rule = Some (content, stamp) ->
    rules_of (parse_veysrule_content content (path_push root_dir rule) false) = Some (Some cfg) ->
    ok (path_push root_dir rule) stamp cfg;
  directory_reused rule content current stamp cfg : read_rule_file_beneath fs root_dir rule = Some (content, current) ->
    ok (path_push root_dir rule) stamp cfg -> reused dev stamp current ->
    rules_of (parse_veysrule_content content (path_push root_dir rule) false) = Some (Some cfg);
}.

Lemma cache_lookup_some m key dev mtime cfg :
  cache_lookup m (cm_generation m) key dev mtime = Some cfg ->
  exists e, cm_cache m !! key = Some e /\ entry_generation e = cm_generation m /\ entry_config e = cfg /\
    reused dev (entry_mtime e) mtime.
Proof.
  unfold cache_lookup. destruct (cm_cache m !! key) as [e|]; [|done]. case_match eqn:E; [|done]. intros [= <-].
  apply andb_true_iff in E as [Hg Hr]. zbool. exists e. split_and!; [done..|]. intros ->. cbn in Hr. zbool. split; [done|]. by destruct mtime.
Qed.

Lemma warn_all_same errors m :
  let m' := fold_left (fun m e => warn (str "Config error: " ++ display_error e) m) errors m in
  cm_cache m' = cm_cache m /\ cm_generation m' = cm_generation m.
Proof. revert m. induction errors as [|e errors IH]; intros m; [done|]. cbn [fold_left]. by apply (IH (warn _ m)). Qed.

Lemma entries_same ok m m' :
  cm_cache m' = cm_cache m -> cm_generation m' = cm_generation m -> entries_ok ok m -> entries_ok ok m'.
Proof. unfold entries_ok. by intros -> ->. Qed.

Lemma path_push_inj root a b :
  starts_with a [47] = false -> starts_with b [47] = false -> path_push root a = path_push root b -> a = b.
Proof.
  unfold path_push. intros -> ->. destruct root as [|c root]; [done|].
  case_match; intros E; [by apply app_inv_head in E|]. by apply app_inv_head, app_inv_head in E.
Qed.

Lemma rule_relative fs root rule x :
  read_rule_file_beneath fs root rule = Some x -> starts_with rule [47] = false.
Proof.
  unfold read_rule_file_beneath. destruct (canonicalize fs root); [|done]. destruct (file_open fs _); [|done].
  destruct (forallb _ (components rule)) eqn:E; [|done]. intros _. unfold components in E.
  by destruct (starts_with rule [47]).
Qed.

Lemma finish_load_spec ok m key mtime s cfg errors :
  entries_ok ok m -> (errors = [] -> ok key mtime cfg) ->
  let '(m', r) := finish_load (cm_generation m) key mtime (cfg, errors) m in
  entries_ok ok m' /\ Some r = rules_of (Some (s : ServerConfig, cfg, errors)).
Proof.
  intros Hc Hnew. unfold finish_load. destruct errors as [|e errors].
  - split; [|done]. specialize (Hnew eq_refl). unfold store_entry. rewrite Z.eqb_refl.
    intros k en. cbn [cm_cache cm_generation]. rewrite lookup_insert. case_decide as Hk.
    + intros [= <-] _. cbn [entry_config entry_mtime]. by subst k.
    + apply Hc.
  - split; [|done]. destruct (warn_all_same (e :: errors) m) as [H1 H2]. by eapply entries_same.
Qed.

Section Lookups.
Context (dev : bool) (ok : bytes -> option Z -> DirectoryConfig -> Prop) (root : bytes).

(** A load stores what it may in either mode, and in the mode of the entries it
    gives what the file says. *)
Lemma load_dir_config_fresh fs m path flag m' r :
  stands_for dev ok fs (Some path) root -> entries_ok ok m ->
  load_dir_config fs path flag true m = Some (m', r) -> entries_ok ok m' /\ (flag = dev -> root_rules fs path = Some r).
Proof.
  intros Hok Hc Hl. unfold load_dir_config, root_rules in *.
  destruct (symlink_metadata fs path) as [[]|] eqn:Hk; try by simplify_eq.
  all: destruct (path_metadata fs path) as [meta|] eqn:Hm; [|by simplify_eq].
  all: destruct (cache_lookup m _ path flag _) as [cfg|] eqn:Hlk;
    [simplify_eq; split; [done|]; intros ->; apply cache_lookup_some in Hlk as (e & He & Hg & <- & Hr);
     by eapply (root_reused _ _ _ _ _ Hok); [done|done|by apply Hc|]|].
  all: destruct (parse_veysrule_file path _ true) as [[[s cfg] errors]|] eqn:Hp; [|done].
  all: apply (inj Some) in Hl.
  all: pose proof (finish_load_spec ok m path (meta_modified meta) s cfg errors Hc) as Hf;
    rewrite Hl in Hf; destruct Hf as [Hc' Hr]; [|by rewrite Hr].
  all: intros ->; eapply (root_stored _ _ _ _ _ Hok); [done|done|by rewrite Hp].
Qed.

Lemma load_beneath_fresh fs rc m rule flag m' r :
  stands_for dev ok fs rc root -> entries_ok ok m ->
  load_dir_config_beneath fs root rule flag false m = Some (m', r) ->
  entries_ok ok m' /\ (flag = dev -> directory_rules fs root rule = Some r).
Proof.
  intros Hok Hc Hl. unfold load_dir_config_beneath, directory_rules in *.
  destruct (read_rule_file_beneath fs root rule) as [[content mtime]|] eqn:Hrd; [|by simplify_eq].
  unfold load_content in Hl.
  destruct (cache_lookup m _ _ flag mtime) as [cfg|] eqn:Hlk.
  { simplify_eq. split; [done|]. intros ->. apply cache_lookup_some in Hlk as (e & He & Hg & <- & Hr).
    eapply (directory_reused _ _ _ _ _ Hok); [exact Hrd|by apply Hc|exact Hr]. }
  destruct (parse_veysrule_content content _ false) as [[[s cfg] errors]|] eqn:Hp; [|done].
  apply (inj Some) in Hl.
  pose proof (finish_load_spec ok m (path_push root rule) mtime s cfg errors Hc) as Hf.
  rewrite Hl in Hf. destruct Hf as [Hc' Hr]; [|by rewrite Hr].
  intros ->. eapply (directory_stored _ _ _ _ _ Hok); [exact Hrd|by rewrite Hp].
Qed.

Lemma merge_rules_fresh fs rc rules cumulative m m' d :
  stands_for dev ok fs rc root -> entries_ok ok m ->
  merge_rules fs root rules dev cumulative m = Some (m', d) ->
  entries_ok ok m' /\ merged_rules fs root rules cumulative = Some d.
Proof.
  intros Hok. revert cumulative m. induction rules as [|rule rules IH]; intros cumulative m Hc Hm; cbn in *.
  { by simplify_eq. }
  destruct (load_dir_config_beneath fs root rule dev false m) as [[m1 r]|] eqn:Hl; [|done].
  destruct (load_beneath_fresh _ _ _ _ _ _ _ Hok Hc Hl) as [Hc1 Hr]. rewrite (Hr eq_refl). by apply IH in Hm.
Qed.

Lemma get_config_fresh fs rc rel_path m m' d :
  stands_for dev ok fs rc root -> entries_ok ok m ->
  get_config_for_dir fs rc root rel_path dev m = Some (m', d) ->
  entries_ok ok m' /\ effective_rules fs rc root rel_path = Some d.
Proof.
  intros Hok Hc Hg. unfold get_config_for_dir, effective_rules in *. destruct rc as [f|].
  - destruct (load_dir_config fs f dev true m) as [[m1 r]|] eqn:Hl; [|done].
    destruct (load_dir_config_fresh _ _ _ _ _ _ Hok Hc Hl) as [Hc1 Hr]. rewrite (Hr eq_refl). by eapply merge_rules_fresh in Hg.
  - by eapply merge_rules_fresh in Hg.
Qed.
Lemma preload_rules_fresh fs rc paths m m' :
  stands_for dev ok fs rc root -> entries_ok ok m -> preload_rules fs root paths m = Some m' -> entries_ok ok m'.
Proof.
  intros Hok. revert m. induction paths as [|path paths IH]; intros m Hc E; cbn [preload_rules] in E; [by injection E as <-|].
  destruct (strip_path_prefix path root) as [relative|]; [|by eapply IH].
  destruct (load_dir_config_beneath fs root relative false false m) as [[m1 r]|] eqn:Hl; [|done].
  eapply IH; [|exact E]. by eapply load_beneath_fresh.
Qed.

Lemma preload_tree_ok fuel fs rc m m' :
  stands_for dev ok fs rc root -> entries_ok ok m -> preload_tree fuel fs rc root m = Some m' -> entries_ok ok m'.
Proof.
  intros Hok Hc E. unfold preload_tree in E. destruct rc as [path|].
  - destruct (load_dir_config fs path false true m) as [[m1 r]|] eqn:Hl; [|done].
    cbn [option_map fst] in E. destruct (tree_rules fuel fs [root]) as [paths|]; [|done].
    eapply preload_rules_fresh; [exact Hok| |exact E]. by eapply load_dir_config_fresh.
  - destruct (tree_rules fuel fs [root]) as [paths|]; [|done]. by eapply preload_rules_fresh.
Qed.
End Lookups.

(** ** Agreement with the files of one moment *)

(** The entries of the current generation are what the files say. *)
Definition coherent fs (root_config_file : option bytes) (root_dir : bytes) m : Prop :=
  entries_ok (fun key _ cfg =>
    (root_config_file = Some key ->
       rules_of (parse_veysrule_file key (read_string fs key) true) = Some (Some cfg)) /\
    (forall rule content mtime, key = path_push root_dir rule ->
       read_rule_file_beneath fs root_dir rule = Some (content, mtime) ->
       rules_of (parse_veysrule_content content key false) = Some (Some cfg))) m.

Lemma coherent_stands dev fs rc root : separate fs rc root ->
  stands_for dev (fun key _ cfg =>
    (rc = Some key -> rules_of (parse_veysrule_file key (read_string fs key) true) = Some (Some cfg)) /\
    (forall rule content mtime, key = path_push root rule -> read_rule_file_beneath fs root rule = Some (content, mtime) ->
       rules_of (parse_veysrule_content content key false) = Some (Some cfg))) fs rc root.
Proof.
  intros Hsep. split.
  - intros path meta cfg -> _ Hr. split; [done|]. intros rule content mtime -> Hrd. exfalso. by eapply Hsep.
  - intros path meta stamp cfg -> _ [Hr _] _. by apply Hr.
  - intros rule content stamp cfg Hrd Hr. split; [intros Hrc; exfalso; by eapply Hsep|].
    intros rule' content' mt' Hk Hrd'. apply path_push_inj in Hk; [|by eapply rule_relative..]. subst rule'.
    rewrite Hrd in Hrd'. by simplify_eq.
  - intros rule content current stamp cfg Hrd [_ Hr] _. by eapply Hr.
Qed.

Lemma load_dir_config_coherent fs root m path dev m' r :
  coherent fs (Some path) root m -> separate fs (Some path) root ->
  load_dir_config fs path dev true m = Some (m', r) ->
  coherent fs (Some path) root m' /\ root_rules fs path = Some r.
Proof.
  intros Hc Hsep Hl. eapply load_dir_config_fresh in Hl as [Hc' Hr]; [|by apply (coherent_stands dev)|exact Hc]. split; [exact Hc'|by apply Hr].
Qed.

Lemma preload_tree_coherent fuel fs rc root m m' :
  coherent fs rc root m -> separate fs rc root -> preload_tree fuel fs rc root m = Some m' -> coherent fs rc root m'.
Proof. intros Hc Hsep. eapply preload_tree_ok; [by apply (coherent_stands false)|exact Hc]. Qed.

(** ** Files that change *)

(** What the rule files say by path and time stamp: [says path stamp] is the text
    of the file, [None] when it cannot be read as text.  In development a file
    that changes gets a time stamp it has not had before; otherwise rule files
    stay as they are until the next reload. *)
Record as_stamped (dev : bool) (says : bytes -> option Z -> option bytes) fs (root_config_file : option bytes)
  (root_dir : bytes) : Prop := {
  stamped_separate : separate fs root_config_file root_dir;
  stamped_root path meta : root_config_file = Some path -> path_metadata fs path = Some meta ->
    (dev = true -> meta_modified meta <> None) -> read_string fs path = says path (if dev then meta_modified meta else None);
  stamped_directory rule content stamp : read_rule_file_beneath fs root_dir rule = Some (content, stamp) ->
    (dev = true -> stamp <> None) -> Some content = says (path_push root_dir rule) (if dev then stamp else None);
}.

(** An entry holds what its file said at its time stamp. *)
Definition as_said (dev : bool) (says : bytes -> option Z -> option bytes) (root_config_file : option bytes)
  (key : bytes) (stamp : option Z) (cfg : DirectoryConfig) : Prop :=
  (dev = true -> stamp <> None) ->
  if bool_decide (root_config_file = Some key) then
    rules_of (parse_veysrule_file key (says key (if dev then stamp else None)) true) = Some (Some cfg)
  else exists content, says key (if dev then stamp else None) = Some content /\
    rules_of (parse_veysrule_content content key false) = Some (Some cfg).

Lemma stamped_stands dev says fs rc root : as_stamped dev says fs rc root -> stands_for dev (as_said dev says rc) fs rc root.
Proof.
  intros [Hsep Hroot Hdir]. assert (Hre : forall stored current, reused dev stored current ->
    (dev = true -> current <> None) /\ (if dev then stored else None) = (if dev then current else None)).
  { intros stored current Hr. destruct dev; [|done]. destruct (Hr eq_refl) as [-> Hc]. by split. }
  split; unfold as_said.
  - intros path meta cfg -> Hm Hr Hs. rewrite bool_decide_true by done. by rewrite <- (Hroot path meta).
  - intros path meta stamp cfg -> Hm Hok [Hc Hst]%Hre. rewrite bool_decide_true in Hok by done.
    rewrite (Hroot path meta), <- Hst by done. apply Hok. intros ->. rewrite Hst. by apply Hc.
  - intros rule content stamp cfg Hrd Hr Hs. rewrite bool_decide_false by by eapply Hsep. exists content.
    by rewrite <- (Hdir rule content stamp).
  - intros rule content current stamp cfg Hrd Hok [Hc Hst]%Hre. rewrite bool_decide_false in Hok by by eapply Hsep.
    destruct Hok as (content' & Hsay & Hr); [intros ->; rewrite Hst; by apply Hc|].
    rewrite Hst, <- (Hdir rule content current) in Hsay by done. by injection Hsay as <-.
Qed.

(** Requests one after the other, each with the files as they are then. *)
Fixpoint lookups (root_config_file : option bytes) (root_dir : bytes) (dev_mode : bool) (asked : list (FileSystem Fd * bytes)) m
  : option (ConfigManager * list DirectoryConfig) :=
  match asked with
  | [] => Some (m, [])
  | (fs, rel_path) :: asked =>
      match get_config_for_dir fs root_config_file root_dir rel_path dev_mode m with
      | None => None
      | Some (m, d) =>
          match lookups root_config_file root_dir dev_mode asked m with
          | None => None
          | Some (m, ds) => Some (m, d :: ds)
          end
      end
  end.

Lemma lookups_fresh dev says rc root asked m m' ds :
  Forall (fun q => as_stamped dev says (fst q) rc root) asked -> entries_ok (as_said dev says rc) m ->
  lookups rc root dev asked m = Some (m', ds) ->
  Forall2 (fun q d => effective_rules (fst q) rc root (snd q) = Some d) asked ds.
Proof.
  intros Hs. revert m m' ds. induction Hs as [|[fs rel] asked Hq _ IH]; intros m m' ds Hc; cbn [lookups]; [by intros [= _ <-]|].
  destruct (get_config_for_dir _ _ _ _ _ _) as [[m1 d]|] eqn:Hg; [|done]. destruct (lookups _ _ _ _ _) as [[m2 ds']|] eqn:Hl; [|done].
  intros [= _ <-]. destruct (get_config_fresh _ _ _ _ _ _ _ _ _ (stamped_stands _ _ _ _ _ Hq) Hc Hg) as [Hc1 Hd].
  constructor; [exact Hd|by eapply IH].
Qed.

(** C13 (refinement): the cache of rules cannot be noticed.  Start from a cache
    that a start or a reload has emptied, and possibly filled again from the
    files, and let requests be looked up one after the other while the files
    change.  In development each gets the rules that reading every rule file on
    its way at that moment gives, provided a file that changes also changes its
    time stamp to one it has not had before (a file without a time stamp is
    always read again).  Otherwise it does so as long as the rule files stay as
    they are: changes wait for the next reload.  No rule file of the tree may be
    the root configuration file under another name. *)
Theorem cached_rules_are_fresh says root_config_file root_dir dev_mode asked m start m' ds :
  start = clear_cache m \/
    (exists fuel fs, as_stamped dev_mode says fs root_config_file root_dir /\
       preload_tree fuel fs root_config_file root_dir (clear_cache m) = Some start) ->
  Forall (fun q => as_stamped dev_mode says (fst q) root_config_file root_dir) asked ->
  lookups root_config_file root_dir dev_mode asked start = Some (m', ds) ->
  Forall2 (fun q d => effective_rules (fst q) root_config_file root_dir (snd q) = Some d) asked ds.
Proof.
  assert (Hempty : entries_ok (as_said dev_mode says root_config_file) (clear_cache m))
    by (intros key e; cbn [clear_cache cm_cache]; by rewrite lookup_empty).
  intros Hstart Hs. apply lookups_fresh with says; [exact Hs|]. destruct Hstart as [->|(fuel & fs & Hfs & Hp)]; [exact Hempty|].
  eapply preload_tree_ok; [by apply stamped_stands|exact Hempty|exact Hp].
Qed.

(** ** The walk over the tree *)

Lemma elem_of_rev_list {A} (x : A) l : x ∈ rev l <-> x ∈ l.
Proof. rewrite !list_elem_of_In, <- in_rev. done. Qed.

Lemma sum_list_with_rev {A} (f : A -> nat) l : sum_list_with f (rev l) = sum_list_with f l.
Proof. induction l as [|x l IH]; [done|]. cbn [rev]. rewrite sum_list_with_app, IH. cbn. lia. Qed.


(** The directories of the tree below [root]. *)
Inductive tree_dir fs (root : bytes) : bytes -> Prop :=
| tree_root : tree_dir fs root root
| tree_sub dir sub : tree_dir fs root dir -> sub ∈ subdirectories fs dir -> tree_dir fs root sub.

Lemma tree_dir_trans fs a b c : tree_dir fs a b -> tree_dir fs b c -> tree_dir fs a c.
Proof. intros Hab Hbc. induction Hbc as [|d sub _ IH Hs]; [done|]. eapply tree_sub; [exact IH|exact Hs]. Qed.

Lemma tree_dir_cases fs dir d :
  tree_dir fs dir d <-> d = dir \/ exists sub, sub ∈ subdirectories fs dir /\ tree_dir fs sub d.
Proof.
  split.
  - induction 1 as [|d sub Hd IHd Hs]; [by left|]. right.
    destruct IHd as [->|(s & Hs' & Ht)]; [exists sub; split; [done|constructor]|].
    exists s. split; [done|]. eapply tree_sub; [exact Ht|exact Hs].
  - intros [->|(sub & Hs & Ht)]; [constructor|]. eapply tree_dir_trans; [|exact Ht].
    eapply tree_sub; [constructor|exact Hs].
Qed.

Lemma tree_rules_spec fs (weight : bytes -> nat) fuel stack :
  (forall root dir, root ∈ stack -> tree_dir fs root dir ->
     sum_list_with weight (subdirectories fs dir) < weight dir)%nat ->
  (sum_list_with weight stack <= fuel)%nat ->
  exists paths, tree_rules fuel fs stack = Some paths /\
    forall p, p ∈ paths <-> exists root dir, root ∈ stack /\ tree_dir fs root dir /\ p ∈ rule_files fs dir.
Proof.
  revert stack. induction fuel as [|fuel IH]; intros stack Hw Hf; destruct stack as [|dir stack].
  2:{ specialize (Hw dir dir ltac:(by left) (tree_root _ _)). cbn in Hf. lia. }
  1,2: exists []; split; [done|]; intros p; split; [by intros ?%elem_of_nil|];
    by intros (r & d & ?%elem_of_nil & _).
  assert (Hsub : forall x, x ∈ rev (subdirectories fs dir) <-> x ∈ subdirectories fs dir)
    by (intros; apply elem_of_rev_list).
  cbn [tree_rules]. destruct (IH (rev (subdirectories fs dir) ++ stack)) as (paths & -> & Hp).
  { intros r d Hr Hd. apply elem_of_app in Hr as [Hr|Hr].
    - apply (Hw dir); [by left|]. apply tree_dir_cases. right. exists r. by rewrite Hsub in Hr.
    - apply (Hw r); [by right|done]. }
  { rewrite sum_list_with_app, sum_list_with_rev. cbn in Hf.
    specialize (Hw dir dir ltac:(by left) (tree_root _ _)). lia. }
  exists (rule_files fs dir ++ paths). split; [done|]. intros p. rewrite elem_of_app, Hp. split.
  - intros [Hin|(r & d & [Hr|Hr]%elem_of_app & Hd & Hin)].
    + exists dir, dir. split_and!; [by left|constructor|done].
    + rewrite Hsub in Hr. exists dir, d. split_and!; [by left| |done]. apply tree_dir_cases. eauto.
    + exists r, d. split_and!; [by right|done|done].
  - intros (r & d & [->|Hr]%elem_of_cons & Hd & Hin).
    2:{ right. exists r, d. split_and!; try done. apply elem_of_app. by right. }
    apply tree_dir_cases in Hd as [->|(sub & Hs & Ht)]; [by left|]. right. exists sub, d. split_and!; try done.
    apply elem_of_app. left. by rewrite Hsub.
Qed.

(** The walk over the document tree ends when
    the tree is finite, and finds the rule files of exactly the directories
    that can be reached from the root without following symbolic links. *)
Theorem tree_walk_complete fs (weight : bytes -> nat) fuel root_dir :
  (forall dir, tree_dir fs root_dir dir ->
     sum_list_with weight (subdirectories fs dir) < weight dir)%nat ->
  (weight root_dir <= fuel)%nat ->
  exists paths, tree_rules fuel fs [root_dir] = Some paths /\
    forall p, p ∈ paths <-> exists dir, tree_dir fs root_dir dir /\ p ∈ rule_files fs dir.
Proof.
  intros Hw Hf. destruct (tree_rules_spec fs weight fuel [root_dir]) as (paths & Hp & Hin).
  - intros r d ->%list_elem_of_singleton. apply Hw.
  - cbn. lia.
  - exists paths. split; [done|]. intros p. rewrite Hin. split.
    + intros (r & d & ->%list_elem_of_singleton & ?). eauto.
    + intros (d & ?). exists root_dir, d. split; [by left|done].
Qed.

(** ** Reloading *)

(** The root file's load reads the generation before the file: what it read
    before a reload is not stored after it. *)
Lemma root_load_respects_reload m key cfg mtime :
  0 <= cm_generation m < 2 ^ 64 ->
  store_entry (cm_generation m) key cfg mtime (clear_cache m) = clear_cache m.
Proof.
  intros Hg. unfold store_entry. cbn [clear_cache cm_generation].
  rewrite eqb_neq_false; [done|]. unfold as_u64. destruct (Z.eq_dec (cm_generation m + 1) (2 ^ 64)) as [E|].
  - rewrite E, Z_mod_same_full. lia.
  - rewrite Z.mod_small; lia.
Qed.
End Cache.

Section Reload.
#[local] Existing Instance ascii_case.

Definition site (rules : bytes) : FileSystem bytes :=
  list_fs [(str "r/.veysrule", rules); (str "r/index.html", str "hello")].
Definition old_site := site (str "methods GET").
Definition new_site := site (str "methods POST").

(** A reload can leave the old rules in force.  A load beneath the
    document root reads the file before it reads the generation; when a reload
    comes in between, the old rules are stored under the new generation, the
    reload's own preloading finds them there, and requests are answered by
    the old rules although the files say otherwise.  The load of the root file,
    which reads the generation first, has no such race. *)
Theorem reload_race_keeps_old_rules :
  (forall m key cfg mtime, 0 <= cm_generation m < 2 ^ 64 ->
     store_entry (cm_generation m) key cfg mtime (clear_cache m) = clear_cache m) /\
  exists content mtime m cfg m' m'' rules,
    (* a request has read the old file *)
    read_rule_file_beneath old_site (str "r") (str ".veysrule") = Some (content, mtime) /\
    (* the reload starts, then the request goes on, then the reload preloads *)
    load_content (path_push (str "r") (str ".veysrule")) content mtime false false
      (clear_cache (new_with_error_log (str "stderr"))) = Some (m, Some cfg) /\
    preload_tree 10 new_site None (str "r") m = Some m' /\
    get_config_for_dir new_site None (str "r") [] false m' = Some (m'', rules) /\
    methods rules = Some [str "GET"] /\
    option_map methods (effective_rules new_site None (str "r") []) = Some (Some [str "POST"]).
Proof.
  split; [apply root_load_respects_reload|].
  do 7 eexists. split_and!; try (vm_compute; reflexivity).
Qed.

(** A site whose files have a time stamp. *)
Definition stamped_site (stamp : Z) (rules : bytes) : FileSystem bytes :=
  let fs := site rules in
  mkFileSystem (canonicalize fs) (file_open fs) (openat fs)
    (fun fd => option_map (fun meta => mkMetadata (meta_is_dir meta) (meta_len meta) (Some stamp)) (metadata fs fd))
    (read_all fs) (list_dir fs) (symlink_metadata fs) (path_metadata fs) (read_file fs) (read_dir fs).

(** Its rules before and after they are edited, in development. *)
Definition edited (stamp : Z) : FileSystem bytes :=
  stamped_site stamp (if stamp =? 1 then str "methods GET" else str "methods POST").
Definition edited_says (key : bytes) (stamp : option Z) : option bytes :=
  match stamp with
  | Some stamp => option_map fst (read_rule_file_beneath (edited stamp) (str "r") (drop 2 key))
  | None => None
  end.

Lemma edited_stamped stamp : as_stamped true edited_says (edited stamp) None (str "r").
Proof.
  split; [done..|]. intros rule content st Hrd Hst. specialize (Hst eq_refl).
  assert (st = Some stamp) as ->.
  { revert Hrd. unfold read_rule_file_beneath. repeat (case_match; [|done] || (case_match; [done|])).
    cbn [metadata edited stamped_site]. destruct (metadata (site _) _); cbn; congruence. }
  pose proof (rule_relative _ _ _ _ Hrd) as Hrel. cbn [edited_says]. unfold path_push. rewrite Hrel.
  change (drop 2 _) with rule. by rewrite Hrd.
Qed.

Definition preloaded : option ConfigManager :=
  preload_tree 10 (edited 1) None (str "r") (clear_cache (new_with_error_log (str "stderr"))).
Definition edited_asked : list (FileSystem bytes * bytes) := [(edited 1, []); (edited 1, []); (edited 2, [])].
Definition edited_rules : option (ConfigManager * list DirectoryConfig) :=
  match preloaded with Some start => lookups None (str "r") true edited_asked start | None => None end.

Lemma cached_rules_are_fresh_witness :
  exists m ds, edited_rules = Some (m, ds) /\ map methods ds = [Some [str "GET"]; Some [str "GET"]; Some [str "POST"]] /\
    Forall2 (fun q d => effective_rules (fst q) None (str "r") (snd q) = Some d) edited_asked ds.
Proof.
  assert (Hm : option_map (fun x => map methods (snd x)) edited_rules = Some [Some [str "GET"]; Some [str "GET"]; Some [str "POST"]])
    by (vm_compute; reflexivity).
  destruct edited_rules as [[m ds]|] eqn:E; [|discriminate Hm]. exists m, ds. split; [done|]. split; [by injection Hm|].
  unfold edited_rules in E. destruct preloaded as [start|] eqn:Hp; [|discriminate E].
  refine (cached_rules_are_fresh edited_says None (str "r") true edited_asked (new_with_error_log (str "stderr")) start m ds _ _ E).
  - right. exists 10%nat, (edited 1). split; [apply edited_stamped|exact Hp].
  - repeat constructor; apply edited_stamped.
Defined.

Lemma site_dirs dir : tree_dir new_site (str "r") dir -> dir = str "r".
Proof. induction 1 as [|d sub _ -> Hs]; [done|]. vm_compute in Hs. by apply elem_of_nil in Hs. Qed.

Lemma tree_walk_complete_witness :
  exists paths, tree_rules 1 new_site [str "r"] = Some paths /\ paths = [str "r/.veysrule"].
Proof.
  destruct (tree_walk_complete new_site (fun _ => 1%nat) 1 (str "r")) as (paths & Hp & _).
  - intros dir ->%site_dirs. vm_compute. lia.
  - lia.
  - exists paths. split; [exact Hp|]. rewrite <- (inj Some _ _ Hp). reflexivity.
Defined.
End Reload.
