(* ===== verification/Metrics.v ===== *)
(** * Counters and log lines (src/server/metrics.rs, src/server/logging.rs)

    The process-wide counters, each an atomic [u64] that wraps, and the single
    line a log message becomes. *)

From S2P Require Import Prelude RustStd Text Rules.

Record Metrics : Type := mkMetrics {
  requests_total : Z;
  requests_active : Z;
  response_bytes : Z;
  status_4xx : Z;
  status_5xx : Z;
  proxy_requests : Z;
  fastcgi_requests : Z;
}.

Definition metrics_zero : Metrics := mkMetrics 0 0 0 0 0 0 0.

(** [RequestGuard::begin] and its [drop]. *)
Definition guard_begin (m : Metrics) : Metrics :=
  mkMetrics (requests_total m) (as_u64 (requests_active m + 1)) (response_bytes m) (status_4xx m)
    (status_5xx m) (proxy_requests m) (fastcgi_requests m).
Definition guard_drop (m : Metrics) : Metrics :=
  mkMetrics (requests_total m) (as_u64 (requests_active m - 1)) (response_bytes m) (status_4xx m)
    (status_5xx m) (proxy_requests m) (fastcgi_requests m).

Definition record_response (status bytes_sent : Z) (m : Metrics) : Metrics :=
  mkMetrics (as_u64 (requests_total m + 1)) (requests_active m)
    (as_u64 (response_bytes m + bytes_sent))
    (if between 400 status 499 then as_u64 (status_4xx m + 1) else status_4xx m)
    (if between 500 status 599 then as_u64 (status_5xx m + 1) else status_5xx m)
    (proxy_requests m) (fastcgi_requests m).

Definition record_proxy (m : Metrics) : Metrics :=
  mkMetrics (requests_total m) (requests_active m) (response_bytes m) (status_4xx m) (status_5xx m)
    (as_u64 (proxy_requests m + 1)) (fastcgi_requests m).
Definition record_fastcgi (m : Metrics) : Metrics :=
  mkMetrics (requests_total m) (requests_active m) (response_bytes m) (status_4xx m) (status_5xx m)
    (proxy_requests m) (as_u64 (fastcgi_requests m + 1)).

Definition render_metric (name kind : bytes) (value : Z) : bytes :=
  str "# TYPE " ++ name ++ str " " ++ kind ++ [10] ++ name ++ str " " ++ to_string value ++ [10].
Definition render_prometheus (m : Metrics) : bytes :=
  render_metric (str "veysrs_requests_total") (str "counter") (requests_total m)
  ++ render_metric (str "veysrs_requests_active") (str "gauge") (requests_active m)
  ++ render_metric (str "veysrs_response_bytes") (str "counter") (response_bytes m)
  ++ render_metric (str "veysrs_4xx_total") (str "counter") (status_4xx m)
  ++ render_metric (str "veysrs_5xx_total") (str "counter") (status_5xx m)
  ++ render_metric (str "veysrs_proxy_requests_total") (str "counter") (proxy_requests m)
  ++ render_metric (str "veysrs_fastcgi_requests_total") (str "counter") (fastcgi_requests m).

(** ** Log lines *)

Definition MAX_LOG_CHARS : nat := Z.to_nat 16384.

(** A line break becomes a blank. *)
Definition sanitize_char (ch : bytes) : bytes := if is_char ch 13 || is_char ch 10 then [32] else ch.

(** What [write_line] writes for a message. *)
Definition log_line (line : bytes) : bytes :=
  let sanitized := map sanitize_char (take MAX_LOG_CHARS (chars line)) in
  let sanitized := if ends_with line [10] then removelast sanitized else sanitized in
  concat sanitized ++ [10].

(** Whatever a message holds, it becomes one line. *)
Lemma log_line_single line :
  utf8_valid line = true -> exists text, log_line line = text ++ [10] /\ 10 ∉ text /\ 13 ∉ text.
Proof.
  intros [Hw _]%utf8_chars. unfold log_line.
  set (cs := map sanitize_char (take MAX_LOG_CHARS (chars line))).
  assert (Hcs : Forall (fun c => 10 ∉ c /\ 13 ∉ c) cs).
  { unfold cs. apply Forall_map, Forall_take. eapply Forall_impl; [exact Hw|]. intros c Hc. cbn.
    unfold sanitize_char. destruct (is_char c 13 || is_char c 10) eqn:E; [split; set_solver by lia|].
    zbool. split; intros Hin; apply wf_char_break in Hin; try done; try lia; subst c; done. }
  assert (Hsub : forall l, Forall (fun c => 10 ∉ c /\ 13 ∉ c) l -> 10 ∉ concat l /\ 13 ∉ concat l).
  { induction 1 as [|c l [? ?] _ [IH1 IH2]]; [split; by intros ?%elem_of_nil|].
    cbn [concat]. rewrite !elem_of_app. tauto. }
  destruct (ends_with line [10]).
  - exists (concat (removelast cs)). split; [done|]. apply Hsub. destruct cs as [|c cs' _] using rev_ind; [done|].
    rewrite removelast_last. by apply Forall_app in Hcs as [? _].
  - exists (concat cs). split; [done|]. by apply Hsub.
Qed.
