(* ===== verification/Handler.v ===== *)
(** * The request handler (src/router/handler.rs)

    Virtual hosts, the access rules of a directory, static files with
    conditional requests, ranges and compression, directory listings and the
    response headers added on the way out.  A request is answered in the state
    of the process: the rate limiter, the rule cache, the counters and the log.
    A call that panics is [None]. *)

From S2P Require Import Prelude RustStd Io Config ConfigSet Http Frame H2Headers Limits Text Paths Conditional Rules RuleFile Fs ConfigCache Metrics.

Definition MAX_ERROR_PAGE_BYTES : Z := 1048576.

(** ** Hosts *)

Definition normalize_host (value : bytes) : option bytes :=
  let value := to_ascii_lowercase (trim value) in
  if bytes_eqb value [] || existsb (fun b => (b <=? 32) || (b =? 127)) value then None else
  match strip_prefix value [91] with
  | Some address =>
      match split_once 93 address with
      | None => None
      | Some (address, suffix) =>
          match suffix with
          | [] => Some address
          | c :: port => if (c =? 58) && match parse_u16 port with Some _ => true | None => false end
                         then Some address else None
          end
      end
  | None =>
      match rsplit_once 58 value with
      | Some (name, port) =>
          if contains_char 58 name || match parse_u16 port with Some _ => false | None => true end
          then None else Some name
      | None => Some value
      end
  end.

Definition select_vhost (config : ServerConfig) (req : HttpRequest) : option VhostConfig :=
  match get_header req (str "Host") with
  | None => None
  | Some h =>
      match normalize_host h with
      | None => None
      | Some host =>
          match find (fun v => bytes_eqb (vhost_host v) host) (vhosts config) with
          | Some v => Some v
          | None => find (fun v => bytes_eqb (vhost_host v) (str "*") || bytes_eqb (vhost_host v) (str "_"))
                      (vhosts config)
          end
      end
  end.

(** ** Headers *)

Definition put_headers (r : HttpResponse) (h : list (bytes * bytes)) : HttpResponse :=
  mkResponse (status r) h (body_source r) (close_connection r).

Definition apply_custom_headers (resp : HttpResponse) (hs : list (bytes * bytes)) : HttpResponse :=
  fold_left (fun resp h => with_header resp (fst h) (snd h)) hs resp.

Definition apply_rule_headers (resp : HttpResponse) (config : DirectoryConfig) : HttpResponse :=
  let resp := apply_custom_headers resp (add_headers config) in
  put_headers resp (drop_names (remove_headers config) (resp_headers resp)).

(** The two calls that end most branches. *)
Definition apply_rules (resp : HttpResponse) (config : DirectoryConfig) : HttpResponse :=
  apply_rule_headers (apply_custom_headers resp (dir_headers config)) config.

Definition add_default_header (h : list (bytes * bytes)) (d : bytes * option bytes) : list (bytes * bytes) :=
  match snd d with
  | Some value =>
      if existsb (fun e => eq_ignore_ascii_case (fst e) (fst d)) h then h else h ++ [(fst d, value)]
  | None => h
  end.

Definition apply_security_headers (response : HttpResponse) (config : ServerConfig) : HttpResponse :=
  put_headers response (fold_left add_default_header
    [(str "X-Content-Type-Options", security_x_content_type_options config);
     (str "Referrer-Policy", security_referrer_policy config);
     (str "X-Frame-Options", security_x_frame_options config);
     (str "Content-Security-Policy", security_content_security_policy config)]
    (resp_headers response)).

Fixpoint ensure_vary_accept_encoding (h : list (bytes * bytes)) : list (bytes * bytes) :=
  match h with
  | [] => [(str "Vary", str "Accept-Encoding")]
  | (name, value) :: r =>
      if eq_ignore_ascii_case name (str "Vary") then
        if existsb (fun part => eq_ignore_ascii_case (trim part) (str "Accept-Encoding")) (split_on 44 value)
        then h else (name, value ++ str ", Accept-Encoding") :: r
      else (name, value) :: ensure_vary_accept_encoding r
  end.

Fixpoint vary_etag_for_encoding (h : list (bytes * bytes)) (encoding : bytes) : list (bytes * bytes) :=
  match h with
  | [] => []
  | (name, value) :: r =>
      if eq_ignore_ascii_case name (str "ETag") then
        let suffix := str "-" ++ encoding in
        (name, match strip_suffix value [34] with
               | Some stripped => stripped ++ suffix ++ [34]
               | None => value ++ suffix
               end) :: r
      else (name, value) :: vary_etag_for_encoding r encoding
  end.

(** The preference of one item of Accept-Encoding: its coding and whether its
    weight is positive; the last [q] counts. *)
Definition coding_item (item : bytes) : bytes * bool :=
  match split_on 59 (trim item) with
  | [] => ([], true)
  | coding :: params =>
      (to_ascii_lowercase (trim coding),
       fold_left (fun q param =>
         match strip_prefix (trim param) (str "q=") with
         | Some raw => match parse_f32_positive raw with Some b => b | None => false end
         | None => q
         end) params true)
  end.
Fixpoint gzip_preference (items : list bytes) (wildcard : bool) : bool :=
  match items with
  | [] => wildcard
  | item :: items =>
      let '(coding, q) := coding_item item in
      if bytes_eqb coding (str "gzip") then q
      else gzip_preference items (if bytes_eqb coding (str "*") then q else wildcard)
  end.
Definition static_accepts_gzip (value : option bytes) : bool :=
  match value with Some value => gzip_preference (split_on 44 value) false | None => false end.

Definition response_mime_is_compressible (resp : HttpResponse) (allowlist : list bytes) : bool :=
  match find (fun h => eq_ignore_ascii_case (fst h) (str "Content-Type")) (resp_headers resp) with
  | None => false
  | Some (_, value) =>
      let mime := to_ascii_lowercase (trim (hd [] (split_on 59 value))) in
      starts_with mime (str "text/") || bytes_eqb mime (str "application/json")
      || bytes_eqb mime (str "application/javascript") || bytes_eqb mime (str "application/xml")
      || bytes_eqb mime (str "image/svg+xml")
      || existsb (fun prefix => starts_with mime (to_ascii_lowercase prefix)) allowlist
  end.

(** ** Directory listings *)

(** The order of strings: byte by byte. *)
Fixpoint bytes_leb (a b : bytes) : bool :=
  match a, b with
  | [], _ => true
  | _ :: _, [] => false
  | x :: a, y :: b => (x <? y) || ((x =? y) && bytes_leb a b)
  end.
Fixpoint insert_entry (e : bytes * bool) (l : list (bytes * bool)) : list (bytes * bool) :=
  match l with
  | [] => [e]
  | e' :: r => if bytes_leb (fst e) (fst e') then e :: l else e' :: insert_entry e r
  end.
Definition sort_entries (l : list (bytes * bool)) : list (bytes * bool) := fold_right insert_entry [] l.

Definition listing_line (e : bytes * bool) : bytes :=
  let suffix := if snd e then str "/" else [] in
  str "<li><a href=" ++ [34] ++ url_encode_path (fst e) ++ suffix ++ [34] ++ str ">"
  ++ html_escape (fst e) ++ suffix ++ str "</a></li>".

Fixpoint listing_lines (html : bytes) (l : list (bytes * bool)) : bytes :=
  match l with
  | [] => html
  | e :: l =>
      let line := listing_line e in
      if len html + len line >? 1048576 then html else listing_lines (html ++ line) l
  end.

Definition listed (deny_hidden : bool) (entry : bytes * option bool) : option (bytes * bool) :=
  let '(name, kind) := entry in
  if bytes_eqb name (str ".veysrule") || (deny_hidden && starts_with name [46]) then None
  else Some (name, match kind with Some d => d | None => false end).

Definition render_listing (entries : option (list (bytes * option bool))) (deny_hidden : bool) : bytes :=
  let entries := match entries with
                 | Some l => omap (listed deny_hidden) (take 4096 l)
                 | None => []
                 end in
  listing_lines (str "<!doctype html><meta charset=" ++ [34] ++ str "utf-8" ++ [34]
                 ++ str "><title>Index</title><ul>") (sort_entries entries) ++ str "</ul>".

(** ** Answers without a file *)

Definition TEXT : bytes := str "text/plain; charset=utf-8".
Definition text_response (s : StatusCode) (text : bytes) : HttpResponse :=
  with_body (response_new s) text TEXT.

(** GET and HEAD only. *)
Definition check_method (req : HttpRequest) : option HttpResponse :=
  match method req with
  | Get | Head => None
  | Post => Some (text_response NotImplemented (str "501 Not Implemented: POST method not supported"))
  | Other _ =>
      Some (with_body (with_header (response_new MethodNotAllowed) (str "Allow") (str "GET, HEAD"))
              (str "405 Method Not Allowed") TEXT)
  end.

(** The path a request names, as given and normalised, or the refusal. *)
Definition resolve_path (req : HttpRequest) : result (bytes * bytes) HttpResponse :=
  match percent_decode_recursive (uri req) with
  | None => Err (text_response BadRequest (str "400 Bad Request: Invalid URI encoding"))
  | Some decoded_uri =>
      let clean_path_str := clean_path decoded_uri in
      match normalize_relative_path clean_path_str with
      | Err _ => Err (text_response Forbidden (str "403 Forbidden: Path traversal attempt denied"))
      | Ok rel_path =>
          if is_protected_rule_path rel_path then Err (text_response NotFound (str "404 Not Found"))
          else Ok (clean_path_str, rel_path)
      end
  end.

(** The address of a peer: four or sixteen octets. *)
Definition ip_of_octets (octets : bytes) : IpAddr :=
  let value := fold_left (fun acc b => acc * 256 + b) octets 0 in
  if (length octets =? 4)%nat then V4 value else V6 value.

Definition denied (config : DirectoryConfig) (ip : IpAddr) : bool :=
  bool_decide (ip ∈ deny_ips config)
  || existsb (fun network => cidr_contains network ip) (deny_networks config)
  || (negb (bool_decide (allow_networks config = []))
      && negb (existsb (fun network => cidr_contains network ip) (allow_networks config))).

(** The access rules of the directory: the refusal, if any. *)
Definition check_access (config : DirectoryConfig) (deny_hidden : bool) (req : HttpRequest)
  (rel_path : bytes) (peer : option bytes) : option HttpResponse :=
  let method_refused :=
    match methods config with
    | Some ms =>
        if existsb (fun m => eq_ignore_ascii_case m (method_display (method req))) ms then None
        else Some (with_body (with_header (response_new MethodNotAllowed) (str "Allow")
                                (join_with (str ", ") ms)) (str "405 Method Not Allowed") TEXT)
    | None => None
    end in
  match method_refused with
  | Some resp => Some resp
  | None =>
      if deny_hidden && has_hidden_component rel_path then
        Some (apply_rules (text_response Forbidden
                (str "403 Forbidden: Access to hidden files is restricted")) config)
      else
        match peer with
        | Some octets =>
            if denied config (ip_of_octets octets) then
              Some (apply_rules (text_response Forbidden
                      (str "403 Forbidden: Access denied by IP rule")) config)
            else None
        | None => None
        end
  end.

Definition check_redirect (config : DirectoryConfig) (clean_path_str : bytes) : option HttpResponse :=
  match redirect config with
  | Some rule =>
      if bytes_eqb (redirect_source rule) clean_path_str then
        let status := if redirect_status rule =? 301 then MovedPermanently else Found in
        Some (apply_rules (with_body (with_header (response_new status) (str "Location")
                                        (redirect_target rule)) [] TEXT) config)
      else None
  | None => None
  end.

(** ** Static files *)

Section Files.
Context `{UnicodeCase} {Fd : Type}.
Implicit Types (fs : FileSystem Fd) (file : Fd).

(** What the environment contributes to one request: the monotonic clock in
    nanoseconds, the wall clock in seconds, the formatted duration and the
    peer's address as text. *)
Record Moment : Type := mkMoment {
  instant_now : Z;
  system_now : Z;
  duration_text : bytes;
  peer_ip_str : bytes;
}.

(** The bytes of an open file; a read error shows as the end of the file. *)
Definition file_bytes fs file : bytes := match read_all fs file with Some c => c | None => [] end.

Definition not_modified (req : HttpRequest) (etag : bytes) (mtime_secs : Z) : bool :=
  match get_header req (str "If-None-Match") with
  | Some if_none_match =>
      let client_etag := trim if_none_match in
      bytes_eqb client_etag (str "*") || bytes_eqb client_etag etag || contains_sub client_etag etag
  | None =>
      match get_header req (str "If-Modified-Since") with
      | Some since =>
          match parse_http_date (trim since) with Some t => mtime_secs <=? t | None => false end
      | None => false
      end
  end.

Definition with_validators (resp : HttpResponse) (etag last_modified : bytes) : HttpResponse :=
  with_header (with_header resp (str "ETag") etag) (str "Last-Modified") last_modified.

(** The answer for an open file. *)
Definition file_response (req : HttpRequest) (file : bytes) (meta : option Metadata) (mime_type : bytes)
  : HttpResponse :=
  let file_size := match meta with Some m => meta_len m | None => 0 end in
  let mtime := match meta with Some m => match meta_modified m with Some t => t | None => 0 end
                             | None => 0 end in
  let mtime_secs := since_epoch mtime in
  let etag := generate_etag mtime_secs file_size in
  let last_modified := format_http_date mtime in
  let accept_ranges r := with_header r (str "Accept-Ranges") (str "bytes") in
  let whole := with_file (accept_ranges (with_validators (response_new StatusOk) etag last_modified))
                 file file_size mime_type in
  if not_modified req etag mtime_secs
  then with_validators (response_new NotModified) etag last_modified
  else
    match method req, get_header req (str "Range") with
    | Get, Some range_header =>
        match parse_range_header (trim range_header) file_size with
        | Ok (Some range) =>
            let length := range_end range - range_start range + 1 in
            let content_range := str "bytes " ++ to_string (range_start range) ++ str "-"
                                 ++ to_string (range_end range) ++ str "/" ++ to_string file_size in
            with_file_range
              (accept_ranges (with_header (with_validators (response_new PartialContent) etag last_modified)
                                (str "Content-Range") content_range))
              file (range_start range) length mime_type
        | Err _ =>
            with_body (with_header (response_new RangeNotSatisfiable) (str "Content-Range")
                         (str "bytes */" ++ to_string file_size))
              (str "416 Range Not Satisfiable") TEXT
        | Ok None => whole
        end
    | Head, _ =>
        accept_ranges (with_validators
          (with_header (with_header (response_new StatusOk) (str "Content-Length") (to_string file_size))
             (str "Content-Type") mime_type) etag last_modified)
    | _, _ => whole
    end.

(** [SystemTime::now() + Duration::from_secs(seconds)] panics when the time is
    not representable. *)
Definition I64_MAX : Z := 9223372036854775807.

Definition cache_headers (resp : HttpResponse) (config : DirectoryConfig) (now : Z) : option HttpResponse :=
  let resp := match cache config with
              | Some true => with_header resp (str "Cache-Control") (str "public")
              | Some false => with_header resp (str "Cache-Control") (str "no-store")
              | None => resp
              end in
  match expires config with
  | Some seconds =>
      if now + seconds >? I64_MAX then None
      else Some (with_header resp (str "Expires") (format_http_date (now + seconds)))
  | None => Some resp
  end.

Definition compress_response (config : ServerConfig) (req : HttpRequest) (resp : HttpResponse) : HttpResponse :=
  let negotiable := bool_decide (method req = Get) && bool_decide (status resp = StatusOk)
                    && (compression_min_size config <=? body_len resp)
                    && response_mime_is_compressible resp (compression_mime_types config) in
  let accept := get_header req (str "Accept-Encoding") in
  let resp := if negotiable && match accept with Some _ => true | None => false end
              then put_headers resp (ensure_vary_accept_encoding (resp_headers resp)) else resp in
  if negotiable && compression_enabled config && static_accepts_gzip accept then
    match body_source resp with
    | BodyFile file size =>
        let h := vary_etag_for_encoding (remove_header (resp_headers resp) (str "Content-Length")) (str "gzip") in
        set_body (put_headers resp (h ++ [(str "Content-Encoding", str "gzip")]))
          (BodyGzipFile file size (compression_level config))
    | _ => resp
    end
  else resp.

(** HEAD has no body, whatever the status. *)
Definition strip_head_body (req : HttpRequest) (resp : HttpResponse) : HttpResponse :=
  if bool_decide (method req = Head) then set_body resp (BodyBytes []) else resp.

Definition rule_mime (config : DirectoryConfig) (path : bytes) : bytes :=
  match find (fun m => match extension path with
                       | Some e => bytes_eqb ([46] ++ e) (fst m)
                       | None => false
                       end) (mime_types config) with
  | Some (_, mime) => mime
  | None => get_mime_type path
  end.

(** [fuel] bounds the descent into index directories. *)
Definition handle_404 (fuel : nat) fs (canonical_root : bytes) (config : DirectoryConfig) : HttpResponse :=
  let configured_path :=
    match find (fun e => fst e =? 404) (error_pages config) with
    | Some (_, path) => Some path
    | None => redirect_404 config
    end in
  let page :=
    match configured_path with
    | Some path =>
        match normalize_relative_path path with
        | Ok relative =>
            if is_protected_rule_path relative then None else
            match open_beneath fuel fs canonical_root relative with
            | Some (file, actual_path) =>
                match read_all fs file with
                | Some content =>
                    if len content <=? MAX_ERROR_PAGE_BYTES then Some (content, get_mime_type actual_path)
                    else None
                | None => None
                end
            | None => None
            end
        | Err _ => None
        end
    | None => None
    end in
  match page with
  | Some (content, mime) => with_body (response_new NotFound) content mime
  | None => text_response NotFound (str "404 Not Found")
  end.

(** A directory: the redirect to its name with a slash, or its listing. *)
Definition directory_response (fuel : nat) fs (canonical_root : bytes) (config : DirectoryConfig)
  (deny_hidden : bool) (clean_path_str rel_path : bytes) (indexes : list bytes) : option HttpResponse :=
  match open_beneath_directory fs canonical_root rel_path with
  | None => None
  | Some directory =>
      if negb (ends_with clean_path_str [47]) && negb (bytes_eqb clean_path_str []) then
        Some (apply_rules (with_body (with_header (response_new MovedPermanently) (str "Location")
                                        (clean_path_str ++ str "/")) [] TEXT) config)
      else
        let has_index := existsb (fun index =>
          match open_beneath fuel fs canonical_root (path_push rel_path index) with
          | Some _ => true
          | None => false
          end) indexes in
        if negb has_index && match autoindex config with Some b => b | None => false end then
          Some (apply_rules (with_body (response_new StatusOk) (render_listing (list_dir fs directory) deny_hidden)
                               (str "text/html; charset=utf-8")) config)
        else None
  end.

(** The end of [handle_request_inner]: the file, or what stands for it. *)
Definition serve_file (fuel : nat) fs (server : ServerConfig) (config : DirectoryConfig) (req : HttpRequest)
  (now : Z) (canonical_root open_path : bytes) (indexes : list bytes) : option HttpResponse :=
  match open_beneath_with_index fuel fs canonical_root open_path indexes with
  | None => Some (apply_rules (handle_404 fuel fs canonical_root config) config)
  | Some (file, actual_path) =>
      let resp := file_response req (file_bytes fs file) (metadata fs file) (rule_mime config actual_path) in
      match cache_headers (apply_rules resp config) config now with
      | None => None
      | Some resp => Some (strip_head_body req (compress_response server req resp))
      end
  end.

Definition configured_indexes (config : DirectoryConfig) : list bytes :=
  match index_files config with Some files => files | None => [str "index.html"] end.

(** What is opened for a path: the first index for the root directory. *)
Definition path_to_open (config : DirectoryConfig) (rel_path : bytes) : bytes :=
  match rel_path with
  | [] => match index_files config with Some (f :: _) => f | _ => str "index.html" end
  | _ => rel_path
  end.

(** The answer once the rules of the directory are known. *)
Definition respond (fuel : nat) fs (server : ServerConfig) (config : DirectoryConfig) (req : HttpRequest)
  (peer : option bytes) (now : Z) (clean_path_str rel_path : bytes) : option HttpResponse :=
  let deny_hidden := match dir_deny_hidden_files config with
                     | Some b => b
                     | None => deny_hidden_files server
                     end in
  match check_access config deny_hidden req rel_path peer with
  | Some resp => Some resp
  | None =>
      match check_redirect config clean_path_str with
      | Some resp => Some resp
      | None =>
          match canonicalize fs (root_dir server) with
          | None => Some (text_response InternalServerError (str "500 Internal Server Error"))
          | Some canonical_root =>
              let indexes := configured_indexes config in
              match directory_response fuel fs canonical_root config deny_hidden clean_path_str rel_path indexes with
              | Some resp => Some resp
              | None =>
                  serve_file fuel fs server config req now canonical_root (path_to_open config rel_path) indexes
              end
          end
      end
  end.
End Files.

(** ** The handler *)

Module RequestHandler.
Section Handler.
Context `{UnicodeCase} {Fd : Type}.

(** The state of the process the handler works on. *)
Record State : Type := mkState {
  limiter : Buckets;
  manager : ConfigManager;
  metrics : Metrics;
  log : list (bytes * bytes);
}.

Definition on_metrics (f : Metrics -> Metrics) (st : State) : State :=
  mkState (limiter st) (manager st) (f (metrics st)) (log st).

Definition access_line (config : ServerConfig) (now : Moment) (req : HttpRequest) (resp : HttpResponse)
  (body_bytes : Z) : bytes :=
  let q x := [34] ++ x ++ [34] in
  if eq_ignore_ascii_case (log_format config) (str "json") then
    str "{" ++ q (str "remote_addr") ++ str ":" ++ q (json_escape (peer_ip_str now))
    ++ str "," ++ q (str "method") ++ str ":" ++ q (json_escape (method_display (method req)))
    ++ str "," ++ q (str "path") ++ str ":" ++ q (json_escape (uri req))
    ++ str "," ++ q (str "protocol") ++ str ":" ++ q (json_escape (version req))
    ++ str "," ++ q (str "status") ++ str ":" ++ to_string (code (status resp))
    ++ str "," ++ q (str "response_bytes") ++ str ":" ++ to_string body_bytes
    ++ str "," ++ q (str "duration_ms") ++ str ":" ++ duration_text now ++ str "}" ++ [10]
  else
    str "[INFO] " ++ peer_ip_str now ++ str " "
    ++ q (method_display (method req) ++ str " " ++ uri req ++ str " " ++ version req)
    ++ str " " ++ to_string (code (status resp)) ++ str " " ++ to_string body_bytes ++ str " "
    ++ duration_text now ++ str "ms" ++ [10].

Definition log_access (config : ServerConfig) (now : Moment) (req : HttpRequest) (resp : HttpResponse)
  (st : State) : State :=
  let body_bytes := if bool_decide (method req = Head) then 0 else body_len resp in
  let st := on_metrics (record_response (code (status resp)) body_bytes) st in
  mkState (limiter st) (manager st) (metrics st)
    (log st ++ [(access_log config, log_line (access_line config now req resp body_bytes))]).

(** The virtual host's configuration. *)
Definition effective_config (config : ServerConfig) (req : HttpRequest) : ServerConfig :=
  match select_vhost config req with
  | Some vhost =>
      set_tls_private_key (vhost_tls_private_key vhost)
        (set_tls_certificate (vhost_tls_certificate vhost)
           (set_config_file (path_push (vhost_root_dir vhost) (str ".veysrule"))
              (set_root_dir (vhost_root_dir vhost) config)))
  | None => config
  end.

(** The response of [handle_request_inner] and the rule cache after it. *)
Definition answer (fuel : nat) (fs : FileSystem Fd) (config : ServerConfig) (req : HttpRequest)
  (peer : option bytes) (now : Moment) (m : ConfigManager) (counters : Metrics)
  : option (ConfigManager * HttpResponse) :=
  if bytes_eqb (hd [] (split_on 63 (uri req))) (str "/metrics") then
    Some (m, with_body (with_header (response_new StatusOk) (str "Content-Type")
                          (str "text/plain; version=0.0.4"))
               (render_prometheus counters) (str "text/plain; version=0.0.4"))
  else
    match check_method req with
    | Some resp => Some (m, resp)
    | None =>
        match resolve_path req with
        | Err resp => Some (m, resp)
        | Ok (clean_path_str, rel_path) =>
            match get_config_for_dir fs (Some (config_file config)) (root_dir config) rel_path
                    (dev_mode config) m with
            | None => None
            | Some (m, merged_config) =>
                match respond fuel fs config merged_config req peer (system_now now)
                        clean_path_str rel_path with
                | Some resp => Some (m, resp)
                | None => None
                end
            end
        end
    end.

Definition handle_request_inner (fuel : nat) (fs : FileSystem Fd) (config : ServerConfig)
  (req : HttpRequest) (peer : option bytes) (now : Moment) (st : State) : option (State * HttpResponse) :=
  let st := on_metrics guard_begin st in
  match answer fuel fs config req peer now (manager st) (metrics st) with
  | None => None
  | Some (m, resp) =>
      let st := mkState (limiter st) m (metrics st) (log st) in
      Some (on_metrics guard_drop (log_access config now req resp st), resp)
  end.

Definition too_many_requests : HttpResponse :=
  with_body (with_header (response_new TooManyRequests) (str "Retry-After") (str "1"))
    (str "429 Too Many Requests") TEXT.

Definition handle_request (fuel : nat) (fs : FileSystem Fd) (config : ServerConfig)
  (req : HttpRequest) (peer : option bytes) (now : Moment) (st : State) : option (State * HttpResponse) :=
  let '(buckets, allowed) :=
    match peer with
    | Some ip => allow_request (limiter st) (instant_now now) ip (rate_limit_per_second config)
                   (rate_limit_burst config)
    | None => (limiter st, true)
    end in
  let st := mkState buckets (manager st) (metrics st) (log st) in
  if negb allowed then Some (st, apply_security_headers too_many_requests config) else
  let request_config := match select_vhost config req with
                        | Some _ => effective_config config req
                        | None => config
                        end in
  match handle_request_inner fuel fs request_config req peer now st with
  | Some (st, response) => Some (st, apply_security_headers response config)
  | None => None
  end.

(** ** Questions of the front controller *)

Definition normalized_request_path (req : HttpRequest) : option bytes :=
  match percent_decode_recursive (uri req) with
  | None => None
  | Some decoded =>
      match normalize_relative_path (clean_path decoded) with Ok p => Some p | Err _ => None end
  end.

Definition request_path_is_safe (req : HttpRequest) (config : ServerConfig) : bool :=
  match normalized_request_path req with
  | None => false
  | Some relative =>
      negb (is_protected_rule_path relative)
      && (negb (deny_hidden_files config) || negb (has_hidden_component relative))
  end.

Definition request_has_static_target (fuel : nat) (fs : FileSystem Fd) (req : HttpRequest)
  (config : ServerConfig) : bool :=
  match normalized_request_path req with
  | None => false
  | Some relative =>
      if negb (request_path_is_safe req config) then false else
      match canonicalize fs (root_dir config) with
      | None => false
      | Some canonical_root =>
          let some {A} (o : option A) := match o with Some _ => true | None => false end in
          let indexes := [str "index.html"; str "index.htm"] in
          match relative with
          | _ :: _ =>
              some (open_beneath_with_index fuel fs canonical_root relative indexes)
              || some (open_beneath_directory fs canonical_root relative)
          | [] =>
              if negb (some (open_beneath_directory fs canonical_root relative)) then false
              else if existsb (fun index => some (open_beneath fuel fs canonical_root index)) indexes then true
              else
                match front_controller config with
                | Some controller =>
                    match normalize_relative_path controller with
                    | Ok controller_relative =>
                        negb (some (open_beneath fuel fs canonical_root controller_relative))
                    | Err _ => true
                    end
                | None => true
                end
          end
      end
  end.
End Handler.
End RequestHandler.
