(* ===== verification/HandlerProps.v ===== *)
(** * What the request handler serves

    The rules in force are well formed whatever the rule files say; a file is
    served only from beneath the document root and only to those the rules
    admit; no answer can be split by the data it carries; every request is
    accounted for. *)

From S2P Require Import Prelude RustStd Io Config ConfigSet Http Frame H2Headers Limits Text Paths Conditional Rules RuleFile RuleProps Fs ConfigCache Metrics Handler.

(** ** The rules in force *)

Lemma Forall_push_new {A} (P : A -> Prop) same (self child : list A) :
  Forall P self -> Forall P child -> Forall P (push_new same self child).
Proof.
  unfold push_new. intros Hs Hc. revert self Hs. induction Hc as [|x child Hx _ IH]; intros self Hs; [done|].
  cbn [fold_left]. apply IH. case_match; [done|]. by apply Forall_app_2; [|constructor].
Qed.

(** [P] survives an assignment: it holds of the new pair and of every old key
    with the new value. *)
Lemma Forall_assign_all {K V} (P : K * V -> Prop) same (self child : list (K * V)) :
  (forall k v k' v', P (k, v) -> P (k', v') -> P (k', v)) ->
  Forall P self -> Forall P child -> Forall P (assign_all same self child).
Proof.
  unfold assign_all. intros HP Hs Hc. revert self Hs.
  induction Hc as [|[k v] child Hx _ IH]; intros self Hs; [done|]. cbn [fold_left]. apply IH.
  induction Hs as [|[k' v'] l Hl Hl' IHl]; cbn [assign_first]; [by constructor|].
  case_match; constructor; try done. by eapply HP.
Qed.

Lemma Forall_drop_names (P : bytes * bytes -> Prop) names l : Forall P l -> Forall P (drop_names names l).
Proof.
  unfold drop_names. revert l. induction names as [|n names IH]; intros l Hl; [done|]. cbn [fold_left].
  apply IH. rewrite Forall_forall in *. intros x Hx. apply Hl. rewrite !list_elem_of_In in *.
  by apply filter_In in Hx as [? _].
Qed.

Lemma override_inv {A} (self child : option A) x : override self child = Some x -> self = Some x \/ child = Some x.
Proof. destruct child; cbn; auto. Qed.

Lemma merge_ok p c : dir_ok p -> dir_ok c -> dir_ok (merge p c).
Proof.
  intros Hp Hc. constructor; cbn [merge dir_headers add_headers redirect rewrites allow_networks deny_networks
    index_files expires mime_types error_pages].
  - apply Forall_drop_names, Forall_assign_all; [done|apply Hp|apply Hc].
  - apply Forall_drop_names, Forall_push_new; [apply Hp|apply Hc].
  - intros r [H|H]%override_inv; [by apply Hp|by apply Hc].
  - destruct (rewrites c) as [|r rs]; [apply Hp|]. unfold len. rewrite length_take. unfold MAX_REWRITE_RULES. lia.
  - destruct (proj1 (Forall_app _ _ _) (ok_networks _ Hp)). destruct (proj1 (Forall_app _ _ _) (ok_networks _ Hc)).
    apply Forall_app_2; by apply Forall_push_new.
  - intros r [H|H]%override_inv; [by apply Hp|by apply Hc].
  - intros r [H|H]%override_inv; [by apply Hp|by apply Hc].
  - apply Forall_assign_all; [done|apply Hp|apply Hc].
  - apply Forall_assign_all; [done|apply Hp|apply Hc].
Qed.

(** Every cached entry is well formed. *)
Definition manager_ok (m : ConfigManager) : Prop := map_Forall (fun _ e => dir_ok (entry_config e)) (cm_cache m).

Lemma manager_new_ok destination : manager_ok (new_with_error_log destination).
Proof. apply map_Forall_empty. Qed.

Lemma parse_content_ok `{UnicodeCase} content file is_root s d errs :
  parse_veysrule_content content file is_root = Some (s, d, errs) -> dir_ok d.
Proof. intros Hp. by destruct (parse_lines_ok _ _ _ _ _ _ _ _ _ _ server_default_ok dir_default_ok Hp) as (_ & ? & _). Qed.

Lemma parse_file_ok `{UnicodeCase} path content is_root s d errs :
  parse_veysrule_file path content is_root = Some (s, d, errs) -> dir_ok d.
Proof.
  unfold parse_veysrule_file. destruct content as [c|]; [case_match; [|apply parse_content_ok]|];
    intros [= <- <- <-]; apply dir_default_ok.
Qed.

Lemma cache_lookup_ok m g key dev t cfg : manager_ok m -> cache_lookup m g key dev t = Some cfg -> dir_ok cfg.
Proof.
  unfold cache_lookup. intros Hm. destruct (cm_cache m !! key) as [e|] eqn:E; [|done]. case_match; [|done].
  intros [= <-]. exact (Hm _ _ E).
Qed.

Lemma finish_load_ok g key t cfg errs m m' r :
  manager_ok m -> dir_ok cfg -> finish_load g key t (cfg, errs) m = (m', r) ->
  manager_ok m' /\ forall d, r = Some d -> dir_ok d.
Proof.
  intros Hm Hd. unfold finish_load. destruct errs as [|e errs]; intros [<- <-]%pair_equal_spec.
  - split; [|by intros d [= <-]]. unfold store_entry. case_match; [|done]. by apply map_Forall_insert_2.
  - split; [|done]. unfold manager_ok. by rewrite (proj1 (warn_all_same (e :: errs) m)).
Qed.

Section Rules.
Context `{UnicodeCase} {Fd : Type}.
Implicit Types (fs : FileSystem Fd) (m : ConfigManager).

Lemma load_dir_config_ok fs path dev is_root m m' r :
  manager_ok m -> load_dir_config fs path dev is_root m = Some (m', r) ->
  manager_ok m' /\ forall d, r = Some d -> dir_ok d.
Proof.
  intros Hm. unfold load_dir_config. destruct (symlink_metadata fs path) as [[]|]; try (by intros; simplify_eq).
  all: destruct (path_metadata fs path) as [meta|]; [|by intros; simplify_eq].
  all: destruct (cache_lookup m _ path dev _) as [cfg|] eqn:E;
    [intros [= <- <-]; split; [done|intros d [= <-]; by eapply cache_lookup_ok]|].
  all: destruct (parse_veysrule_file path _ is_root) as [[[s cfg] errs]|] eqn:Hp; [|done].
  all: intros [= Hf]; eapply finish_load_ok; [done|by eapply parse_file_ok|done].
Qed.

Lemma load_beneath_ok fs root rule dev is_root m m' r :
  manager_ok m -> load_dir_config_beneath fs root rule dev is_root m = Some (m', r) ->
  manager_ok m' /\ forall d, r = Some d -> dir_ok d.
Proof.
  intros Hm. unfold load_dir_config_beneath, load_content.
  destruct (read_rule_file_beneath fs root rule) as [[content mtime]|]; [|by intros; simplify_eq].
  destruct (cache_lookup m _ _ dev mtime) as [cfg|] eqn:E;
    [intros [= <- <-]; split; [done|intros d [= <-]; by eapply cache_lookup_ok]|].
  destruct (parse_veysrule_content content _ is_root) as [[[s cfg] errs]|] eqn:Hp; [|done].
  intros [= Hf]; eapply finish_load_ok; [done|by eapply parse_content_ok|done].
Qed.

Lemma merge_option_ok d r : dir_ok d -> (forall x, r = Some x -> dir_ok x) -> dir_ok (merge_option d r).
Proof. intros Hd Hr. destruct r as [x|]; [|done]. apply merge_ok; [done|by apply Hr]. Qed.

Lemma merge_rules_ok fs root rules dev d m m' d' :
  manager_ok m -> dir_ok d -> merge_rules fs root rules dev d m = Some (m', d') -> manager_ok m' /\ dir_ok d'.
Proof.
  revert d m. induction rules as [|rule rules IH]; intros d m Hm Hd; cbn [merge_rules]; [by intros; simplify_eq|].
  destruct (load_dir_config_beneath fs root rule dev false m) as [[m1 r]|] eqn:Hl; [|done].
  destruct (load_beneath_ok _ _ _ _ _ _ _ _ Hm Hl) as [Hm1 Hr]. intros Hg. eapply IH; [exact Hm1| |exact Hg].
  by apply merge_option_ok.
Qed.

Lemma get_config_ok fs root_config root rel dev m m' d :
  manager_ok m -> get_config_for_dir fs root_config root rel dev m = Some (m', d) -> manager_ok m' /\ dir_ok d.
Proof.
  intros Hm. unfold get_config_for_dir. destruct root_config as [f|].
  - destruct (load_dir_config fs f dev true m) as [[m1 r]|] eqn:Hl; [|done].
    destruct (load_dir_config_ok _ _ _ _ _ _ _ Hm Hl) as [Hm1 Hr].
    apply merge_rules_ok; [done|]. apply merge_option_ok; [apply dir_default_ok|done].
  - apply merge_rules_ok; [done|apply dir_default_ok].
Qed.
End Rules.

(** ** Clean heads *)

Lemma no_crlf_not_in v : 13 ∉ v -> 10 ∉ v -> no_crlf v.
Proof. intros H1 H2. apply Forall_forall. intros b Hb. split; by intros ->. Qed.
Lemma no_crlf_control v : no_line_control v -> no_crlf v.
Proof. intros [? ?]%no_control_breaks. by apply no_crlf_not_in. Qed.
Lemma no_crlf_strip v : no_crlf (strip_crlf v).
Proof. apply Forall_forall. intros b [_ Hb]%list_elem_of_In%List.filter_In. zbool. lia. Qed.
Lemma no_crlf_to_string n : no_crlf (to_string n).
Proof. eapply Forall_impl; [apply to_string_digits|]. unfold is_ascii_digit, between. intros c Hc. zbool. lia. Qed.
Lemma no_crlf_mime `{UnicodeCase} path : no_crlf (get_mime_type path).
Proof. unfold get_mime_type. repeat case_match; by apply no_crlf_dec. Qed.

Create HintDb clean.
#[export] Hint Resolve no_crlf_strip no_crlf_to_string no_crlf_mime no_crlf_control : clean.

Lemma push_header_clean r name value :
  clean_headers r -> no_crlf name -> no_crlf value -> clean_headers (push_header r name value).
Proof. intros Hr Hn Hv. apply Forall_app_2; [done|]. by apply Forall_singleton. Qed.

Lemma with_header_clean r name value : clean_headers r -> clean_headers (with_header r name value).
Proof. intros Hr. apply push_header_clean; auto with clean. Qed.

Lemma with_content_clean r n ct b :
  clean_headers r -> no_crlf ct ->
  clean_headers (set_body (push_header (push_header r (str "Content-Length") (to_string n)) (str "Content-Type") ct) b).
Proof. intros Hr Hc. repeat apply push_header_clean; auto with clean; by apply no_crlf_dec. Qed.

Lemma response_new_clean s : clean_headers (response_new s).
Proof. apply Forall_singleton. by split; apply no_crlf_dec. Qed.

Lemma text_response_clean s text : clean_headers (text_response s text).
Proof. apply with_content_clean; [apply response_new_clean|by apply no_crlf_dec]. Qed.

#[export] Hint Resolve with_header_clean response_new_clean text_response_clean : clean.

Lemma with_body_clean r b ct : clean_headers r -> no_crlf ct -> clean_headers (with_body r b ct).
Proof. apply with_content_clean. Qed.
Lemma with_file_clean r f n ct : clean_headers r -> no_crlf ct -> clean_headers (with_file r f n ct).
Proof. apply with_content_clean. Qed.
Lemma with_file_range_clean r f o n ct : clean_headers r -> no_crlf ct -> clean_headers (with_file_range r f o n ct).
Proof. apply with_content_clean. Qed.
Lemma TEXT_clean : no_crlf TEXT.
Proof. by apply no_crlf_dec. Qed.

#[export] Hint Resolve with_body_clean with_file_clean with_file_range_clean TEXT_clean : clean.

Lemma apply_custom_clean r hs : clean_headers r -> clean_headers (apply_custom_headers r hs).
Proof.
  unfold apply_custom_headers. revert r. induction hs as [|h hs IH]; intros r Hr; [done|]. cbn [fold_left].
  auto with clean.
Qed.

Lemma apply_rules_clean r config : clean_headers r -> clean_headers (apply_rules r config).
Proof. intros Hr. unfold apply_rules, apply_rule_headers. apply Forall_drop_names. by do 2 apply apply_custom_clean. Qed.

Lemma apply_security_clean r config : server_ok config -> clean_headers r -> clean_headers (apply_security_headers r config).
Proof.
  intros Hs Hr. unfold apply_security_headers, clean_headers. cbn [put_headers resp_headers].
  set (l := [_; _; _; _]).
  assert (Hl : Forall (fun d => no_crlf (fst d) /\ forall x, snd d = Some x -> no_crlf x) l).
  { pose proof (ok_security _ Hs) as Hok. rewrite !Forall_cons in Hok. destruct Hok as (H1 & H2 & H3 & H4 & _).
    unfold l. repeat apply Forall_cons_2; [..|constructor]; (split; [by apply no_crlf_dec|]); cbn [snd]; intros x Hx;
      apply no_crlf_control; auto. }
  clearbody l. revert Hr. unfold clean_headers. generalize (resp_headers r) as h.
  induction Hl as [|d l [Hn Hv] _ IH]; intros h Hh; [done|]. cbn [fold_left]. apply IH.
  unfold add_default_header. destruct (snd d) as [v|]; [|done]. case_match; [done|].
  apply Forall_app_2; [done|]. apply Forall_singleton. split; [done|by apply Hv].
Qed.

Lemma Forall_remove_header (P : bytes * bytes -> Prop) l n : Forall P l -> Forall P (remove_header l n).
Proof.
  intros Hl. rewrite Forall_forall in *. intros x Hx. apply Hl. rewrite !list_elem_of_In in *.
  by apply filter_In in Hx as [? _].
Qed.

Lemma vary_clean (h : list (bytes * bytes)) :
  Forall (fun h => no_crlf (fst h) /\ no_crlf (snd h)) h ->
  Forall (fun h => no_crlf (fst h) /\ no_crlf (snd h)) (ensure_vary_accept_encoding h).
Proof.
  induction 1 as [|[n v] h [Hn Hv] Hh IH]; cbn [ensure_vary_accept_encoding].
  { apply Forall_singleton. by split; apply no_crlf_dec. }
  case_match; [case_match|]; constructor; try done. split; [done|]. apply no_crlf_app; [done|by apply no_crlf_dec].
Qed.

Lemma vary_etag_clean (h : list (bytes * bytes)) e :
  no_crlf e -> Forall (fun h => no_crlf (fst h) /\ no_crlf (snd h)) h ->
  Forall (fun h => no_crlf (fst h) /\ no_crlf (snd h)) (vary_etag_for_encoding h e).
Proof.
  intros He. induction 1 as [|[n v] h [Hn Hv] Hh IH]; cbn [vary_etag_for_encoding]; [done|].
  case_match; constructor; try done. split; [done|]. cbn [snd] in *.
  destruct (strip_suffix v [34]) as [p|] eqn:E.
  - unfold strip_suffix in E. case_match; [|done]. simplify_eq. apply (Forall_take _ (length v - 1)) in Hv.
    repeat apply no_crlf_app; try done; by apply no_crlf_dec.
  - apply no_crlf_app; [done|]. apply no_crlf_app; [by apply no_crlf_dec|done].
Qed.

Section Clean.
Context `{UnicodeCase} {Fd : Type}.
Implicit Types (fs : FileSystem Fd).

Lemma file_response_clean req file meta mime : no_crlf mime -> clean_headers (file_response req file meta mime).
Proof. intros Hm. unfold file_response, with_validators. repeat (case_match; auto 10 with clean). Qed.

Lemma cache_headers_clean r config now r' : clean_headers r -> cache_headers r config now = Some r' -> clean_headers r'.
Proof.
  intros Hr. unfold cache_headers. destruct (expires config); [case_match; [done|]|]; intros [= <-];
    destruct (cache config) as [[]|]; auto with clean.
Qed.

Lemma compress_clean config req r : clean_headers r -> clean_headers (compress_response config req r).
Proof.
  intros Hr. unfold compress_response. cbv zeta.
  match goal with |- context [body_source ?x] => set (r' := x) end.
  assert (Hr' : clean_headers r') by (unfold r'; case_match; [by apply vary_clean|done]).
  clearbody r'. repeat (case_match; try done). apply Forall_app_2.
  - apply vary_etag_clean; [by apply no_crlf_dec|]. by apply Forall_remove_header.
  - apply Forall_singleton. by split; apply no_crlf_dec.
Qed.

Lemma rule_mime_clean config path : dir_ok config -> no_crlf (rule_mime config path).
Proof.
  intros Hd. unfold rule_mime. destruct (find _ (mime_types config)) as [[n m]|] eqn:E; [|auto with clean].
  apply find_some in E as [Hin _]. apply list_elem_of_In in Hin. apply no_crlf_control.
  exact (proj1 (Forall_forall _ _) (ok_mime _ Hd) _ Hin).
Qed.

Lemma handle_404_clean fuel fs root config : clean_headers (handle_404 fuel fs root config).
Proof. unfold handle_404. cbv zeta. repeat (case_match; simplify_eq; auto with clean). Qed.

Lemma respond_clean fuel fs server config req peer now cp rp resp :
  dir_ok config -> respond fuel fs server config req peer now cp rp = Some resp -> clean_headers resp.
Proof.
  intros Hd. unfold respond. destruct (check_access _ _ _ _ _) as [r|] eqn:Ha.
  { intros [= <-]. unfold check_access in Ha. repeat (case_match; try done); simplify_eq;
      try apply apply_rules_clean; auto with clean. }
  destruct (check_redirect _ _) as [r|] eqn:Hr.
  { intros [= <-]. unfold check_redirect in Hr. repeat (case_match; try done); simplify_eq;
      apply apply_rules_clean; auto with clean. }
  destruct (canonicalize fs _) as [root|]; [|intros [= <-]; auto with clean].
  destruct (directory_response _ _ _ _ _ _ _ _) as [r|] eqn:Hdr.
  { intros [= <-]. unfold directory_response in Hdr. repeat (case_match; try done); simplify_eq;
      apply apply_rules_clean, with_body_clean; auto with clean; by apply no_crlf_dec. }
  unfold serve_file. destruct (open_beneath_with_index _ _ _ _ _) as [[file path]|].
  2:{ intros [= <-]. apply apply_rules_clean, handle_404_clean. }
  destruct (cache_headers _ _ _) as [r|] eqn:Hc; [|done]. intros [= <-]. unfold strip_head_body.
  assert (Hclean : clean_headers (compress_response server req r)).
  { apply compress_clean. eapply cache_headers_clean; [|exact Hc]. apply apply_rules_clean, file_response_clean.
    by apply rule_mime_clean. }
  by destruct (bool_decide _).
Qed.
End Clean.

(** ** The answer to a request *)

Import RequestHandler.

Section Answers.
Context `{UnicodeCase} {Fd : Type}.
Implicit Types (fs : FileSystem Fd) (st : State).

Lemma effective_config_none config req : select_vhost config req = None -> effective_config config req = config.
Proof. unfold effective_config. by intros ->. Qed.

(** A request is refused by the rate limiter, or answered under the
    configuration of its host. *)
Lemma handle_request_inv fuel fs config req peer now st st' resp :
  handle_request fuel fs config req peer now st = Some (st', resp) ->
  (resp = apply_security_headers too_many_requests config /\
   (exists ip, peer = Some ip /\ snd (allow_request (limiter st) (instant_now now) ip
      (rate_limit_per_second config) (rate_limit_burst config)) = false) /\
   manager st' = manager st /\ metrics st' = metrics st /\ log st' = log st) \/
  exists r, resp = apply_security_headers r config /\
    answer fuel fs (effective_config config req) req peer now (manager st) (guard_begin (metrics st))
      = Some (manager st', r) /\
    metrics st' = guard_drop (record_response (code (status r))
                    (if bool_decide (method req = Head) then 0 else body_len r) (guard_begin (metrics st))) /\
    log st' = log st ++ [(access_log (effective_config config req),
      log_line (access_line (effective_config config req) now req r
                  (if bool_decide (method req = Head) then 0 else body_len r)))].
Proof.
  unfold handle_request.
  destruct (match peer with Some ip => _ | None => _ end) as [buckets allowed] eqn:Hl.
  destruct allowed; cbn [negb].
  2:{ intros [= <- <-]. left. split; [done|]. destruct peer as [ip|]; [|done].
      split; [|done]. exists ip. by rewrite Hl. }
  replace (match select_vhost config req with Some _ => effective_config config req | None => config end)
    with (effective_config config req)
    by (destruct (select_vhost config req) eqn:E; [done|by apply effective_config_none]).
  unfold handle_request_inner. cbn [manager metrics limiter log on_metrics].
  destruct (answer _ _ _ _ _ _ _ _) as [[m r]|] eqn:Ha; [|done]. intros [= <- <-]. right. exists r.
  done.
Qed.

Lemma answer_ok fuel fs config req peer now m counters m' resp :
  manager_ok m -> answer fuel fs config req peer now m counters = Some (m', resp) ->
  manager_ok m' /\ clean_headers resp.
Proof.
  intros Hm. unfold answer. case_match.
  { intros [= <- <-]. split; [done|]. apply with_body_clean; [auto with clean|by apply no_crlf_dec]. }
  destruct (check_method req) as [r|] eqn:Hc.
  { intros [= <- <-]. split; [done|]. unfold check_method in Hc. case_match; simplify_eq; auto with clean. }
  destruct (resolve_path req) as [[cp rp]|r] eqn:Hr.
  2:{ intros [= <- <-]. split; [done|]. unfold resolve_path in Hr. repeat case_match; simplify_eq; auto with clean. }
  destruct (get_config_for_dir _ _ _ _ _ _) as [[m1 d]|] eqn:Hg; [|done].
  destruct (get_config_ok _ _ _ _ _ _ _ _ Hm Hg) as [Hm1 Hd].
  destruct (respond _ _ _ _ _ _ _ _ _) as [r|] eqn:Hre; [|done]. intros [= <- <-].
  split; [done|]. by eapply respond_clean.
Qed.

(** C12 (safety, composition): no data of a request, a file name or a rule
    file can split the head of an answer.  With a well-formed configuration and
    a well-formed rule cache, which every request keeps, the headers of every
    answer are free of line breaks, and the first blank line of what is written
    to the client is the end of the head, whatever the body. *)
Theorem handler_head_not_split fuel fs config req peer now st st' resp body_bytes :
  server_ok config -> manager_ok (manager st) ->
  handle_request fuel fs config req peer now st = Some (st', resp) ->
  manager_ok (manager st') /\ clean_headers resp /\
  find_subslice (response_head resp ++ body_bytes) CRLF2 = Some (len (response_head resp) - 4).
Proof.
  intros Hs Hm Hh. assert (Hok : manager_ok (manager st') /\ clean_headers resp).
  { apply handle_request_inv in Hh as [(-> & _ & -> & _)|(r & -> & Ha & _)].
    - split; [done|]. apply apply_security_clean; [done|]. unfold too_many_requests. auto with clean.
    - destruct (answer_ok _ _ _ _ _ _ _ _ _ _ Hm Ha) as [Hm' Hr]. split; [done|]. by apply apply_security_clean. }
  destruct Hok as [Hm' Hc]. split_and!; [done..|]. by apply response_head_ends.
Qed.

(** ** Files *)

(** The open file an answer sends from. *)
Definition body_file (b : BodySource) : option bytes :=
  match b with
  | BodyBytes _ => None
  | BodyFile file _ | BodyFileRange file _ _ | BodyGzipFile file _ _ => Some file
  end.

Lemma custom_body r hs : body_source (apply_custom_headers r hs) = body_source r.
Proof. unfold apply_custom_headers. revert r. induction hs as [|h hs IH]; intros r; [done|]. cbn [fold_left]. by rewrite IH. Qed.

Lemma apply_rules_body r config : body_source (apply_rules r config) = body_source r.
Proof. unfold apply_rules, apply_rule_headers. cbn [put_headers body_source]. by rewrite !custom_body. Qed.

Lemma cache_headers_body r config now r' : cache_headers r config now = Some r' -> body_source r' = body_source r.
Proof.
  unfold cache_headers. destruct (expires config); [case_match; [done|]|]; intros [= <-];
    by destruct (cache config) as [[]|].
Qed.

Lemma compress_body config req r f :
  body_file (body_source (compress_response config req r)) = Some f -> body_file (body_source r) = Some f.
Proof.
  unfold compress_response. cbv zeta. match goal with |- context [vary_etag_for_encoding (remove_header (resp_headers ?x) _) _] => set (r' := x) end.
  assert (Hr' : body_source r' = body_source r) by (unfold r'; by case_match).
  clearbody r'. rewrite <- Hr'. destruct (_ && static_accepts_gzip _); [|done].
  destruct (body_source r') eqn:E; by rewrite ?E.
Qed.

Lemma strip_head_file req r f :
  body_file (body_source (strip_head_body req r)) = Some f -> body_file (body_source r) = Some f.
Proof. unfold strip_head_body. by destruct (bool_decide _). Qed.

Lemma file_response_body req file meta mime f :
  body_file (body_source (file_response req file meta mime)) = Some f -> f = file.
Proof. unfold file_response. cbv zeta. repeat (case_match; try done); cbn; by intros [= <-]. Qed.

Lemma custom_status r hs : status (apply_custom_headers r hs) = status r.
Proof. unfold apply_custom_headers. revert r. induction hs as [|h hs IH]; intros r; [done|]. cbn [fold_left]. by rewrite IH. Qed.

Lemma rules_status r d : status (apply_rules r d) = status r.
Proof. unfold apply_rules, apply_rule_headers. cbn [put_headers status]. by rewrite !custom_status. Qed.

Lemma cache_status r d now r' : cache_headers r d now = Some r' -> status r' = status r.
Proof.
  unfold cache_headers. destruct (expires d); [destruct (_ >? _); [done|]|]; intros [= <-]; by destruct (cache d) as [[]|].
Qed.

Lemma compress_status server req r : status (compress_response server req r) = status r.
Proof.
  unfold compress_response. cbv zeta. match goal with |- context [put_headers r ?h] => set (r' := put_headers r h) end.
  assert (E : status r' = status r) by done. clearbody r'. repeat case_match; done.
Qed.

Lemma file_response_found req file meta mime : status (file_response req file meta mime) <> NotFound.
Proof. unfold file_response. cbv zeta. repeat (case_match; try done). Qed.

(** The only 404 of [respond] is that of the rules. *)
Lemma respond_not_found fuel fs server config req peer now cp rp resp :
  respond fuel fs server config req peer now cp rp = Some resp -> status resp = NotFound ->
  check_access config (match dir_deny_hidden_files config with Some b => b | None => deny_hidden_files server end)
    req rp peer = None /\
  exists root, canonicalize fs (root_dir server) = Some root /\ resp = apply_rules (handle_404 fuel fs root config) config.
Proof.
  unfold respond. destruct (check_access _ _ _ _ _) as [r|] eqn:Ha.
  { intros [= <-] Hs. exfalso. unfold check_access in Ha.
    repeat (case_match; try done); simplify_eq; rewrite ?rules_status in Hs; done. }
  destruct (check_redirect _ _) as [r|] eqn:Hr.
  { intros [= <-] Hs. exfalso. unfold check_redirect in Hr.
    repeat (case_match; try done); simplify_eq; rewrite ?rules_status in Hs; cbn in Hs; try case_match; done. }
  destruct (canonicalize fs _) as [root|] eqn:Hcan; [|by intros [= <-]].
  destruct (directory_response _ _ _ _ _ _ _ _) as [r|] eqn:Hdr.
  { intros [= <-] Hs. exfalso. unfold directory_response in Hdr.
    repeat (case_match; try done); simplify_eq; rewrite ?rules_status in Hs; done. }
  unfold serve_file. destruct (open_beneath_with_index _ _ _ _ _) as [[file path]|] eqn:Ho; [|intros [= <-] _; split; [done|by exists root]].
  destruct (cache_headers _ _ _) as [r|] eqn:Hc; [|done]. intros [= <-] Hs. exfalso.
  assert (Hst : status r = NotFound) by (unfold strip_head_body in Hs; case_match; cbn [set_body status] in Hs; by rewrite compress_status in Hs).
  rewrite (cache_status _ _ _ _ Hc), rules_status in Hst. by apply file_response_found in Hst.
Qed.

(** The only answer of [respond] that sends a file. *)
Lemma respond_file fuel fs server config req peer now cp rp resp f :
  respond fuel fs server config req peer now cp rp = Some resp -> body_file (body_source resp) = Some f ->
  check_access config (match dir_deny_hidden_files config with Some b => b | None => deny_hidden_files server end)
    req rp peer = None /\
  exists root fd p, canonicalize fs (root_dir server) = Some root /\
    open_beneath_with_index fuel fs root (path_to_open config rp) (configured_indexes config) = Some (fd, p) /\
    f = file_bytes fs fd.
Proof.
  unfold respond. destruct (check_access _ _ _ _ _) as [r|] eqn:Ha.
  { intros [= <-] Hb. exfalso. unfold check_access in Ha.
    repeat (case_match; try done); simplify_eq; rewrite ?apply_rules_body in Hb; done. }
  destruct (check_redirect _ _) as [r|] eqn:Hr.
  { intros [= <-] Hb. exfalso. unfold check_redirect in Hr.
    repeat (case_match; try done); simplify_eq; rewrite ?apply_rules_body in Hb; done. }
  destruct (canonicalize fs _) as [root|] eqn:Hcan; [|by intros [= <-]].
  destruct (directory_response _ _ _ _ _ _ _ _) as [r|] eqn:Hdr.
  { intros [= <-] Hb. exfalso. unfold directory_response in Hdr.
    repeat (case_match; try done); simplify_eq; rewrite ?apply_rules_body in Hb; done. }
  unfold serve_file. destruct (open_beneath_with_index _ _ _ _ _) as [[file path]|] eqn:Ho.
  2:{ intros [= <-]. rewrite apply_rules_body. unfold handle_404. cbv zeta. by repeat case_match. }
  destruct (cache_headers _ _ _) as [r|] eqn:Hc; [|done]. intros [= <-] Hb.
  split; [done|]. exists root, file, path. split_and!; [done..|].
  apply strip_head_file, compress_body in Hb. rewrite (cache_headers_body _ _ _ _ Hc), apply_rules_body in Hb.
  by apply file_response_body in Hb.
Qed.

Lemma configured_indexes_safe d : dir_ok d -> Forall safe_name (configured_indexes d).
Proof.
  intros Hd. unfold configured_indexes. destruct (index_files d) as [l|] eqn:E; [by apply (ok_index _ Hd)|].
  repeat constructor; by apply (bool_decide_unpack _).
Qed.

Lemma path_to_open_names d names :
  dir_ok d -> Forall safe_name names ->
  exists names', path_to_open d (join_with [47] names) = join_with [47] names' /\ Forall safe_name names' /\
    (names' = names \/ exists index, index ∈ configured_indexes d /\ names = [] /\ names' = [index]).
Proof.
  intros Hd Hs. destruct (join_with [47] names) as [|b l] eqn:E; [|exists names; split_and!; by auto].
  assert (names = []) as ->.
  { destruct names as [|n [|n' names]]; [done| |]; cbn in E; inversion Hs as [|?? [Hn _]]; subst; [done|].
    by destruct n. }
  pose proof (configured_indexes_safe _ Hd) as Hi. cbn [path_to_open].
  assert (Hin : exists index, path_to_open d [] = index /\ index ∈ configured_indexes d).
  { unfold configured_indexes. cbn [path_to_open]. destruct (index_files d) as [l|] eqn:Hidx.
    - destruct (ok_index _ Hd _ Hidx) as [Hne _]. destruct l as [|i l]; [done|]. exists i. split; [done|]. by left.
    - exists (str "index.html"). split; [done|]. by left. }
  destruct Hin as (index & Hp & Hin). exists [index]. cbn [path_to_open] in Hp. rewrite Hp. split_and!; [done| |].
  - apply Forall_singleton. by eapply (proj1 (Forall_forall _ _) Hi).
  - right. by exists index.
Qed.

(** What it means that a file may be served: it is no directory and reached from
    the document root by opening, one component after the other and never
    through a symbolic link, the names of the requested path and then names of
    index files. *)
Record served fs (root : bytes) (names indexes : list bytes) (content : bytes) : Prop := {
  served_descent : exists root_fd extra fd meta,
    file_open fs root = Some root_fd /\ Forall (fun n => n ∈ indexes) extra /\
    reached fs root_fd (names ++ extra) fd /\ Forall safe_name (names ++ extra) /\
    metadata fs fd = Some meta /\ meta_is_dir meta = false /\ content = file_bytes fs fd;
}.

(** What the rules of a directory ask of a request for a path in it. *)
Record admitted (d : DirectoryConfig) (deny_hidden : bool) (req : HttpRequest) (names : list bytes)
  (peer : option bytes) : Prop := {
  adm_method : forall ms, methods d = Some ms ->
    exists m, m ∈ ms /\ eq_ignore_ascii_case m (method_display (method req)) = true;
  adm_hidden : deny_hidden = true -> Forall (fun n => starts_with n [46] = false) names;
  adm_address : forall octets, peer = Some octets ->
    ip_of_octets octets ∉ deny_ips d /\
    Forall (fun c => cidr_contains c (ip_of_octets octets) = false) (deny_networks d) /\
    (allow_networks d = [] \/
     exists c, c ∈ allow_networks d /\ cidr_contains c (ip_of_octets octets) = true);
}.

Lemma check_access_admitted d deny_hidden req names peer :
  Forall safe_name names ->
  check_access d deny_hidden req (join_with [47] names) peer = None -> admitted d deny_hidden req names peer.
Proof.
  intros Hs. unfold check_access. destruct (match methods d with Some ms => _ | None => None end) eqn:Hm; [done|].
  unfold has_hidden_component. rewrite normal_names_join by done.
  destruct (deny_hidden && _) eqn:Hh; [done|]. intros Hp. constructor.
  - intros ms Hms. rewrite Hms in Hm. destruct (existsb _ ms) eqn:E; [|done]. by apply existsb_true_elem in E.
  - intros ->. cbn in Hh. by apply existsb_false_Forall.
  - intros octets ->. destruct (denied d (ip_of_octets octets)) eqn:E; [done|]. unfold denied in E.
    apply orb_false_iff in E as [[E1 E2]%orb_false_iff E3]. split_and!.
    + by apply bool_decide_eq_false in E1.
    + by apply existsb_false_Forall.
    + apply andb_false_iff in E3 as [E3|E3]; apply negb_false_iff in E3.
      * left. by apply bool_decide_eq_true in E3.
      * right. by apply existsb_true_elem.
Qed.

Lemma resolve_path_names req cp rp :
  resolve_path req = Ok (cp, rp) ->
  exists names, rp = join_with [47] names /\ Forall safe_name names /\ str ".veysrule" ∉ names.
Proof.
  unfold resolve_path. destruct (percent_decode_recursive (uri req)) as [u|]; [|done].
  destruct (normalize_relative_path _) as [r|] eqn:Hn; [|done].
  apply normalize_safe in Hn as (names & _ & -> & Hs). unfold is_protected_rule_path.
  rewrite normal_names_join by done. destruct (existsb _ names) eqn:E; [done|]. intros [= <- <-].
  exists names. split_and!; [done..|]. apply existsb_false_Forall in E. rewrite Forall_forall in E.
  intros Hin. apply E in Hin. by rewrite bytes_eqb_neq in Hin.
Qed.

(** What it takes for the content of a file to go out: the path is the decoded
    and normalised target, no component of it is a rule file's name or (when
    hidden files are denied) hidden, the method and the peer are admitted by the
    merged rules of every directory on the way, and the content is that of a
    file that is no directory, reached from the document root without following
    a symbolic link. *)
Definition file_admitted fs (server : ServerConfig) (req : HttpRequest) (peer : option bytes) (rules : ConfigManager)
  (content : bytes) : Prop :=
  exists cp names m d root,
    (method req = Get \/ method req = Head) /\
    resolve_path req = Ok (cp, join_with [47] names) /\ str ".veysrule" ∉ names /\
    get_config_for_dir fs (Some (config_file server)) (root_dir server) (join_with [47] names)
      (dev_mode server) rules = Some (m, d) /\
    admitted d (match dir_deny_hidden_files d with Some b => b | None => deny_hidden_files server end)
      req names peer /\
    canonicalize fs (root_dir server) = Some root /\
    served fs root names (configured_indexes d) content.

(** The handler's answers: the document root is that of the request's host. *)
Theorem handler_files_admitted fuel fs config req peer now st st' resp content :
  manager_ok (manager st) ->
  handle_request fuel fs config req peer now st = Some (st', resp) ->
  body_file (body_source resp) = Some content ->
  file_admitted fs (effective_config config req) req peer (manager st) content.
Proof.
  intros Hm Hh Hb. set (server := effective_config config req). apply handle_request_inv in Hh as [(-> & _)|(r & -> & Ha & _)]; [done|].
  cbn [apply_security_headers put_headers body_source] in Hb. fold server in Ha. unfold answer in Ha.
  case_match; [by simplify_eq|].
  destruct (check_method req) eqn:Hmeth; [unfold check_method in Hmeth; case_match; by simplify_eq|].
  destruct (resolve_path req) as [[cp rp]|r'] eqn:Hr;
    [|unfold resolve_path in Hr; repeat case_match; by simplify_eq].
  destruct (get_config_for_dir _ _ _ _ _ _) as [[m1 d]|] eqn:Hg; [|done].
  destruct (respond _ _ _ _ _ _ _ _ _) as [r'|] eqn:Hre; [|done]. simplify_eq.
  destruct (get_config_ok _ _ _ _ _ _ _ _ Hm Hg) as [_ Hd].
  destruct (resolve_path_names _ _ _ Hr) as (names & -> & Hs & Hrule).
  destruct (respond_file _ _ _ _ _ _ _ _ _ _ _ Hre Hb) as (Hacc & root & fd & p & Hcan & Ho & ->).
  exists cp, names, (manager st'), d, root. split_and!; try done.
  { unfold check_method in Hmeth. destruct (method req); auto; done. }
  { by apply check_access_admitted. }
  pose proof (configured_indexes_safe _ Hd) as Hi.
  destruct (path_to_open_names d names Hd Hs) as (names' & Hpo & Hs' & Hor). rewrite Hpo in Ho.
  apply open_beneath_reached in Ho as (rfd & extra & meta & Hf & Hre' & Hex & _ & Hme & Hnd); [|done..].
  assert (Hexs : Forall safe_name extra).
  { eapply Forall_impl; [exact Hex|]. cbn. intros n Hn. by eapply (proj1 (Forall_forall _ _) Hi). }
  constructor. exists rfd. destruct Hor as [->|(index & Hidx & -> & ->)].
  - exists extra, fd, meta. split_and!; try done. by apply Forall_app_2.
  - exists (index :: extra), fd, meta. split_and!; try done; [by constructor|]. exact (Forall_app_2 _ _ _ Hs' Hexs).
Qed.

(** What it takes for the content of a file to go out as the page of a 404: the
    rules admit the request and name the page, which is no rule file and
    neither too long nor outside the document root. *)
Definition page_admitted fs (server : ServerConfig) (req : HttpRequest) (peer : option bytes) (rules : ConfigManager)
  (content : bytes) : Prop :=
  exists cp names m d root page page_names,
    (method req = Get \/ method req = Head) /\
    resolve_path req = Ok (cp, join_with [47] names) /\ str ".veysrule" ∉ names /\
    get_config_for_dir fs (Some (config_file server)) (root_dir server) (join_with [47] names)
      (dev_mode server) rules = Some (m, d) /\
    admitted d (match dir_deny_hidden_files d with Some b => b | None => deny_hidden_files server end)
      req names peer /\
    canonicalize fs (root_dir server) = Some root /\
    ((404, page) ∈ error_pages d \/ redirect_404 d = Some page) /\
    normalize_relative_path page = Ok (join_with [47] page_names) /\ str ".veysrule" ∉ page_names /\
    len content <= MAX_ERROR_PAGE_BYTES /\ served fs root page_names [str "index.html"] content.

Lemma handle_404_page fuel fs root d data :
  body_source (handle_404 fuel fs root d) = BodyBytes data -> data = str "404 Not Found" \/
  exists page names, ((404, page) ∈ error_pages d \/ redirect_404 d = Some page) /\
    normalize_relative_path page = Ok (join_with [47] names) /\ str ".veysrule" ∉ names /\
    len data <= MAX_ERROR_PAGE_BYTES /\ served fs root names [str "index.html"] data.
Proof.
  unfold handle_404. cbv zeta.
  destruct (match find (fun e => fst e =? 404) (error_pages d) with Some (_, path) => Some path | None => redirect_404 d end) as [page|] eqn:Hp;
    [|intros [= <-]; by left].
  assert (Hpage : (404, page) ∈ error_pages d \/ redirect_404 d = Some page).
  { destruct (find _ (error_pages d)) as [[c path]|] eqn:Hf; [|by right]. injection Hp as ->. apply find_some in Hf as [Hf Hc].
    cbn in Hc. zbool. subst c. left. by apply list_elem_of_In. }
  destruct (normalize_relative_path page) as [relative|] eqn:Hn; [|intros [= <-]; by left].
  pose proof Hn as Hn'. apply normalize_safe in Hn' as (names & _ & -> & Hs).
  destruct (is_protected_rule_path _) eqn:Hr; [intros [= <-]; by left|].
  destruct (open_beneath _ _ _ _) as [[file path]|] eqn:Ho; [|intros [= <-]; by left].
  destruct (read_all fs file) as [content|] eqn:Hread; [|intros [= <-]; by left].
  destruct (Z.leb_spec (len content) MAX_ERROR_PAGE_BYTES); [|intros [= <-]; by left].
  intros [= <-]. right. exists page, names. split_and!; [done|done| |done|].
  - unfold is_protected_rule_path in Hr. rewrite normal_names_join in Hr by done. apply existsb_false_Forall in Hr.
    rewrite Forall_forall in Hr. intros Hin. apply Hr in Hin. by rewrite bytes_eqb_neq in Hin.
  - assert (Hi : Forall safe_name [str "index.html"]) by (repeat constructor; by apply (bool_decide_unpack _)).
    apply open_beneath_reached in Ho as (rfd & extra & meta & Hf & Hre & Hex & _ & Hm & Hd); [|done..]. constructor.
    exists rfd, extra, file, meta. split_and!; try done; [|unfold file_bytes; by rewrite Hread].
    apply Forall_app_2; [done|]. eapply Forall_impl; [exact Hex|]. intros n Hnn. by eapply (proj1 (Forall_forall _ _) Hi).
Qed.

Theorem handler_pages_admitted fuel fs config req peer now st st' resp data :
  handle_request fuel fs config req peer now st = Some (st', resp) ->
  status resp = NotFound -> body_source resp = BodyBytes data ->
  data = str "404 Not Found" \/ page_admitted fs (effective_config config req) req peer (manager st) data.
Proof.
  intros Hh Hs Hb. set (server := effective_config config req). apply handle_request_inv in Hh as [(-> & _)|(r & -> & Ha & _)]; [done|].
  cbn [apply_security_headers put_headers body_source status] in Hb, Hs. fold server in Ha. unfold answer in Ha.
  case_match; [by simplify_eq|].
  destruct (check_method req) eqn:Hmeth; [unfold check_method in Hmeth; case_match; by simplify_eq|].
  destruct (resolve_path req) as [[cp rp]|r'] eqn:Hr.
  2:{ injection Ha as _ <-. unfold resolve_path in Hr. repeat case_match; simplify_eq; try done. injection Hb as <-. by left. }
  destruct (get_config_for_dir _ _ _ _ _ _) as [[m1 d]|] eqn:Hg; [|done].
  destruct (respond _ _ _ _ _ _ _ _ _) as [r'|] eqn:Hre; [|done]. simplify_eq.
  destruct (resolve_path_names _ _ _ Hr) as (names & -> & Hsafe & Hrule).
  destruct (respond_not_found _ _ _ _ _ _ _ _ _ _ Hre Hs) as (Hacc & root & Hcan & ->).
  rewrite apply_rules_body in Hb. apply handle_404_page in Hb as [->|(page & pnames & Hp & Hn & Hpr & Hl & Hsv)]; [by left|]. right.
  exists cp, names, (manager st'), d, root, page, pnames. split_and!; try done.
  { unfold check_method in Hmeth. destruct (method req); auto; done. }
  by apply check_access_admitted.
Qed.
End Answers.
