(* ===== verification/HandlerEffects.v ===== *)
(** * Revalidation, accounting and failures of the request handler

    What a client gets that sends back the validators of an earlier answer,
    what a request leaves in the counters and the log, when a request makes the
    handler panic, and what becomes of the body of an answer to HEAD. *)

From S2P Require Import Prelude RustStd Io Config ConfigSet Http Frame H2Headers Limits Text Paths Conditional Rules RuleFile RuleProps Fs ConfigCache Metrics Handler HandlerProps.

(** ** Entity tags *)

Lemma to_hex_inj a b : 0 <= a <= U64_MAX -> 0 <= b <= U64_MAX -> to_hex a = to_hex b -> a = b.
Proof.
  unfold to_hex. intros Ha Hb E. apply (f_equal (fun l => digits_value 16 l 0)) in E.
  rewrite !radix_digits_value in E; [exact E|lia|unfold U64_MAX in *; cbn; lia|lia|unfold U64_MAX in *; cbn; lia].
Qed.

Lemma to_hex_chars n : Forall (fun b => 48 <= b <= 57 \/ 97 <= b <= 102) (to_hex n).
Proof.
  unfold to_hex. destruct (radix_digits_app 16 15 n []) as (ds & -> & _ & Hd). rewrite app_nil_r.
  eapply Forall_impl; [apply Hd; lia|]. intros c (d & Hr & ->). unfold digit_char. case_match; zbool; lia.
Qed.

Lemma to_hex_not_in n b : ~ (48 <= b <= 57 \/ 97 <= b <= 102) -> b ∉ to_hex n.
Proof. intros Hb Hin. apply Hb. exact (proj1 (Forall_forall _ _) (to_hex_chars n) b Hin). Qed.

Lemma contains_sub_inv l p : contains_sub l p = true -> exists pre post, l = pre ++ p ++ post.
Proof.
  induction l as [|x l IH]; cbn [contains_sub]; intros [Hs|Hc]%orb_true_iff.
  - apply starts_with_spec in Hs as [r ->]. by exists [], r.
  - done.
  - apply starts_with_spec in Hs as [r ->]. by exists [], r.
  - apply IH in Hc as (pre & post & ->). by exists (x :: pre), post.
Qed.

(** Text between quotes contains quoted text only as a whole. *)
Lemma quoted_contains x y :
  34 ∉ x -> 34 ∉ y -> contains_sub ([34] ++ x ++ [34]) ([34] ++ y ++ [34]) = true -> x = y.
Proof.
  intros Hx Hy (pre & post & E)%contains_sub_inv. destruct pre as [|c pre].
  - cbn [app] in E. injection E as E. revert y Hy E. induction x as [|a x IH]; intros y Hy E.
    + destruct y as [|b y]; [done|]. cbn in E. injection E as <- _. set_solver.
    + destruct y as [|b y]; cbn in E; injection E as -> E; [set_solver|]. f_equal. apply IH; [set_solver..|done].
  - exfalso. cbn [app] in E. injection E as _ E.
    assert (Hlen : exists z, x ++ [34] = pre ++ 34 :: z /\ z <> []).
    { exists (y ++ [34] ++ post). split; [by rewrite <- !app_assoc in E|by destruct y]. }
    destruct Hlen as (z & Hz & Hne). clear E. revert Hx Hz. revert pre. induction x as [|a x IH]; intros pre Hx Hz.
    + destruct pre as [|b pre]; cbn in Hz; injection Hz; [intros; by subst|]. by destruct pre.
    + destruct pre as [|b pre]; cbn in Hz; injection Hz as -> Hz; [set_solver|]. apply (IH pre); [set_solver|done].
Qed.

Lemma etag_no_quote t n : 34 ∉ to_hex t ++ [45] ++ to_hex n.
Proof. rewrite !elem_of_app. intros [Hin|[Hin%list_elem_of_singleton|Hin]]; [|lia|]; by apply to_hex_not_in in Hin; [|lia]. Qed.

Lemma etag_quoted t n : generate_etag t n = [34] ++ (to_hex t ++ [45] ++ to_hex n) ++ [34].
Proof. unfold generate_etag. by rewrite <- !app_assoc. Qed.

Lemma etag_contains t n t' n' :
  0 <= t <= U64_MAX -> 0 <= n <= U64_MAX -> 0 <= t' <= U64_MAX -> 0 <= n' <= U64_MAX ->
  contains_sub (generate_etag t' n') (generate_etag t n) = true -> t' = t /\ n' = n.
Proof.
  intros Ht Hn Ht' Hn'. rewrite !etag_quoted. intros E%quoted_contains; [|apply etag_no_quote..].
  assert (Hsplit : forall a b, split_once 45 (to_hex a ++ [45] ++ to_hex b) = Some (to_hex a, to_hex b)).
  { intros a b. apply split_once_skip. eapply Forall_impl; [apply to_hex_chars|]. intros c Hc. cbn in Hc. lia. }
  apply (f_equal (split_once 45)) in E. rewrite !Hsplit in E. injection E as E1 E2.
  split; by apply to_hex_inj.
Qed.

(** ** Conditional requests *)

Lemma strip_clean v : no_crlf v -> strip_crlf v = v.
Proof.
  induction 1 as [|b v [Hb1 Hb2] _ IH]; [done|]. unfold strip_crlf in *. cbn [List.filter].
  rewrite !eqb_neq_false by done. cbn. by rewrite IH.
Qed.

Lemma no_crlf_etag t n : no_crlf (generate_etag t n).
Proof.
  assert (Hh : forall a, no_crlf (to_hex a)) by (intros a; eapply Forall_impl; [apply to_hex_chars|]; intros b Hb; cbn in Hb; lia).
  unfold generate_etag. repeat apply no_crlf_app; try apply Hh; by apply no_crlf_dec.
Qed.

Lemma no_crlf_list l :
  forallb (forallb (fun b => negb (b =? 13) && negb (b =? 10))) l = true -> Forall no_crlf l.
Proof.
  intros Hl. apply Forall_forall. intros v Hv%list_elem_of_In. apply no_crlf_dec.
  exact (proj1 (forallb_forall _ _) Hl v Hv).
Qed.

Lemma no_crlf_nth k l : Forall no_crlf l -> no_crlf (nth k l []).
Proof.
  intros Hl. destruct (nth_in_or_default k l []) as [Hin| ->]; [|constructor].
  apply list_elem_of_In in Hin. by eapply (proj1 (Forall_forall _ _) Hl).
Qed.

Lemma no_crlf_pad w n : no_crlf (pad w n).
Proof.
  unfold pad. apply no_crlf_app; [|apply no_crlf_to_string]. apply Forall_forall. intros b Hb.
  apply list_elem_of_In, repeat_spec in Hb. lia.
Qed.

Lemma no_crlf_date t : no_crlf (format_http_date t).
Proof.
  unfold format_http_date. cbv zeta. destruct (civil_date _) as [[y m] d].
  repeat match goal with |- no_crlf (_ ++ _) => apply no_crlf_app end; try apply no_crlf_pad; try apply no_crlf_nth; try (by apply no_crlf_dec).
  all: by apply no_crlf_list.
Qed.

Section Revalidation.
Context `{UnicodeCase}.

Lemma not_modified_etag req v t n t' n' :
  0 <= t <= U64_MAX -> 0 <= n <= U64_MAX -> 0 <= t' <= U64_MAX -> 0 <= n' <= U64_MAX ->
  get_header req (str "If-None-Match") = Some v -> trim v = generate_etag t' n' ->
  not_modified req (generate_etag t n) t = bool_decide (t' = t /\ n' = n).
Proof.
  intros Ht Hn Ht' Hn' Hv Htrim. unfold not_modified. rewrite Hv, Htrim. symmetry.
  case_bool_decide as Heq.
  - destruct Heq as [-> ->]. replace (bytes_eqb (generate_etag t n) (generate_etag t n)) with true
      by (symmetry; by apply bytes_eqb_eq). by rewrite orb_true_r.
  - symmetry. rewrite !orb_false_iff. split_and!.
    + apply bytes_eqb_neq. done.
    + apply bytes_eqb_neq. intros E. apply Heq. apply etag_contains; [done..|]. rewrite E.
      unfold generate_etag. cbn [contains_sub app]. apply orb_true_iff. left. apply starts_with_spec. exists []. by rewrite app_nil_r.
    + destruct (contains_sub _ _) eqn:E; [|done]. exfalso. by apply Heq, etag_contains.
Qed.

Lemma not_modified_date req v t n t' :
  0 <= t' < 2 ^ 63 -> get_header req (str "If-None-Match") = None ->
  get_header req (str "If-Modified-Since") = Some v -> trim v = format_http_date t' ->
  not_modified req (generate_etag t n) t = (t <=? t').
Proof.
  intros Ht' Hn Hv Htrim. unfold not_modified. rewrite Hn, Hv, Htrim. by rewrite http_date_read_back.
Qed.

Lemma with_validators_in s t n :
  let h := resp_headers (with_validators (response_new s) (generate_etag t n) (format_http_date t)) in
  (str "ETag", generate_etag t n) ∈ h /\ (str "Last-Modified", format_http_date t) ∈ h.
Proof.
  unfold with_validators, with_header.
  rewrite (strip_clean _ (no_crlf_etag _ _)), (strip_clean _ (no_crlf_date _)).
  cbn [push_header resp_headers]. rewrite !elem_of_app. split; [left|]; right; by apply list_elem_of_singleton.
Qed.

Lemma with_file_in x r name value file n mime :
  x ∈ resp_headers r -> x ∈ resp_headers (with_file (with_header r name value) file n mime).
Proof. intros Hx. do 3 (apply elem_of_app; left). exact Hx. Qed.

(** Revalidation is sound and complete for both validators.
    A request with the entity tag the server gave for modification time [t']
    and size [n'] is answered 304 without a body exactly if the file still has
    that time and size; a request with only the date of [t'], exactly if the
    file is not newer.  Otherwise a plain GET gets the whole file, with the
    validators of the current one. *)
Theorem revalidation_spec req file mime t n t' n' v :
  0 <= t < 2 ^ 63 -> 0 <= t' < 2 ^ 63 -> 0 <= n <= U64_MAX -> 0 <= n' <= U64_MAX ->
  method req = Get -> get_header req (str "Range") = None ->
  (get_header req (str "If-None-Match") = Some v /\ trim v = generate_etag t' n' \/
   get_header req (str "If-None-Match") = None /\
   get_header req (str "If-Modified-Since") = Some v /\ trim v = format_http_date t') ->
  let fresh := match get_header req (str "If-None-Match") with
               | Some _ => bool_decide (t' = t /\ n' = n)
               | None => t <=? t'
               end in
  let resp := file_response req file (Some (mkMetadata false n (Some t))) mime in
  status resp = (if fresh then NotModified else StatusOk) /\
  body_source resp = (if fresh then BodyBytes [] else BodyFile file n) /\
  (str "ETag", generate_etag t n) ∈ resp_headers resp /\
  (str "Last-Modified", format_http_date t) ∈ resp_headers resp.
Proof.
  intros Ht Ht' Hn Hn' Hmeth Hrange Hval fresh resp.
  assert (Hnm : not_modified req (generate_etag t n) t = fresh).
  { unfold fresh. destruct Hval as [[Hv Htrim]|(Hnone & Hv & Htrim)].
    - rewrite Hv. eapply not_modified_etag; [unfold U64_MAX in *; lia..|exact Hv|exact Htrim].
    - rewrite Hnone. by eapply not_modified_date. }
  unfold resp, file_response. cbn [meta_len meta_modified]. unfold since_epoch. rewrite Z.max_l by lia.
  cbv zeta. rewrite Hnm, Hmeth, Hrange. clear -H.
  pose proof (with_validators_in StatusOk t n) as [He Hl]. pose proof (with_validators_in NotModified t n) as [He' Hl'].
  generalize dependent (generate_etag t n). intros etag. generalize (format_http_date t). intros date He Hl He' Hl'.
  destruct fresh; [by split_and!|]. split_and!; [done|done|by apply with_file_in..].
Qed.
End Revalidation.

(** The entity tag of a compressed answer is not the one the handler compares
    with: a client that sends it back is never answered 304. *)
Theorem gzip_etag_never_fresh `{UnicodeCase} req v t n t' n' :
  get_header req (str "If-None-Match") = Some v ->
  [(str "ETag", trim v)] = vary_etag_for_encoding [(str "ETag", generate_etag t' n')] (str "gzip") ->
  not_modified req (generate_etag t n) t = false.
Proof.
  intros Hv Htrim. assert (Ht : trim v = [34] ++ (to_hex t' ++ [45] ++ to_hex n' ++ str "-gzip") ++ [34]).
  { cbn [vary_etag_for_encoding] in Htrim. change (eq_ignore_ascii_case _ _) with true in Htrim. cbv iota in Htrim.
    injection Htrim as ->. rewrite etag_quoted, app_assoc. unfold strip_suffix, ends_with.
    rewrite rev_app_distr. change (starts_with (rev [34] ++ _) (rev [34])) with true. cbv iota.
    rewrite length_app, Nat.add_sub, take_app_length. by rewrite <- !app_assoc. }
  unfold not_modified. rewrite Hv, Ht.
  assert (Hne : contains_sub ([34] ++ (to_hex t' ++ [45] ++ to_hex n' ++ str "-gzip") ++ [34]) (generate_etag t n) = false).
  { rewrite etag_quoted. destruct (contains_sub _ _) eqn:E; [|done]. exfalso. apply quoted_contains in E.
    - assert (Hg : 103 ∈ to_hex t ++ [45] ++ to_hex n) by (rewrite <- E, !elem_of_app; right; right; right; cbn; set_solver).
      rewrite !elem_of_app, list_elem_of_singleton in Hg.
      destruct Hg as [Hg|[Hg|Hg]]; [by apply to_hex_not_in in Hg; [|lia]|lia|by apply to_hex_not_in in Hg; [|lia]].
    - rewrite !elem_of_app. intros [Hin|[Hin|[Hin|Hin]]]; try (by apply to_hex_not_in in Hin; [|lia]); cbn in Hin; set_solver by lia.
    - apply etag_no_quote. }
  rewrite Hne, orb_false_r. apply orb_false_iff. split; apply bytes_eqb_neq; intros E; [done|].
  rewrite E in Hne. rewrite etag_quoted in Hne at 1. cbn [app contains_sub] in Hne. apply orb_false_iff in Hne as [Hs _].
  enough (starts_with (generate_etag t n) (generate_etag t n) = true) as Hs' by (rewrite etag_quoted in Hs' at 1; cbn [app] in Hs'; by rewrite Hs in Hs').
  apply starts_with_spec. exists []. by rewrite app_nil_r.
Qed.

(** ** What a request leaves behind *)

Import RequestHandler.

Section Effects.
Context `{UnicodeCase} {Fd : Type}.
Implicit Types (fs : FileSystem Fd) (st : State).

Lemma guard_balanced f m :
  (forall m, requests_active (f m) = requests_active m) ->
  (forall m a, f (mkMetrics (requests_total m) a (response_bytes m) (status_4xx m) (status_5xx m)
                 (proxy_requests m) (fastcgi_requests m)) =
     mkMetrics (requests_total (f m)) a (response_bytes (f m)) (status_4xx (f m)) (status_5xx (f m))
       (proxy_requests (f m)) (fastcgi_requests (f m))) ->
  0 <= requests_active m < 2 ^ 64 -> guard_drop (f (guard_begin m)) = f m.
Proof.
  intros Ha Hf Hm. unfold guard_begin. rewrite Hf. unfold guard_drop. cbn.
  replace (as_u64 (as_u64 (requests_active m + 1) - 1)) with (requests_active m).
  - rewrite <- (Ha m). by destruct (f m).
  - unfold as_u64. rewrite Zminus_mod_idemp_l, Z.add_simpl_r, Z.mod_small; lia.
Qed.

(** Every request is accounted for once.  A request that the
    rate limiter refuses leaves the counters and the log alone; any other adds
    exactly one line to the access log of its host, whatever bytes the request
    holds, counts itself, its status class and the bytes of its body, and leaves
    the number of active requests as it was. *)
Theorem request_accounted fuel fs config req peer now st st' resp :
  0 <= requests_active (metrics st) < 2 ^ 64 ->
  handle_request fuel fs config req peer now st = Some (st', resp) ->
  let sent := if bool_decide (method req = Head) then 0 else body_len resp in
  (status resp = TooManyRequests /\ metrics st' = metrics st /\ log st' = log st /\
   exists ip, peer = Some ip /\ snd (allow_request (limiter st) (instant_now now) ip
     (rate_limit_per_second config) (rate_limit_burst config)) = false) \/
  (metrics st' = record_response (code (status resp)) sent (metrics st) /\
   exists message, log st' = log st ++ [(access_log config, log_line message)] /\
     (utf8_valid message = true ->
      exists text, log_line message = text ++ [10] /\ 10 ∉ text /\ 13 ∉ text)).
Proof.
  intros Ha Hh sent. apply handle_request_inv in Hh as [(-> & Hl & _ & Hmt & Hlog)|(r & -> & _ & Hmt & Hlog)].
  - left. by split_and!.
  - right. split.
    + rewrite Hmt. by apply (guard_balanced (record_response _ _)).
    + eexists. split; [|apply log_line_single]. rewrite Hlog. do 3 f_equal.
      unfold effective_config. by destruct (select_vhost config req).
Qed.

(** The books: the rule cache stays well formed; a request that is counted has
    its line in the log, and none stays active. *)
Definition in_range (m : Metrics) : Prop := 0 <= requests_total m < 2 ^ 64 /\ 0 <= requests_active m < 2 ^ 64.

Record books_kept (st st' : State) : Prop := {
  books_rules : manager_ok (manager st) -> manager_ok (manager st');
  books_range : in_range (metrics st) -> in_range (metrics st');
  books_requests : in_range (metrics st) -> exists lines,
    log st' = log st ++ lines /\
    requests_total (metrics st') = as_u64 (requests_total (metrics st) + len lines) /\
    requests_active (metrics st') = requests_active (metrics st);
}.

Lemma as_u64_small n : 0 <= n < 2 ^ 64 -> as_u64 n = n.
Proof. apply Z.mod_small. Qed.

#[export] Instance books_kept_preorder : PreOrder books_kept.
Proof.
  split.
  - intros st. split; [done..|]. intros [Ht _]. exists []. by rewrite app_nil_r, len_nil, Z.add_0_r, as_u64_small.
  - intros x y z [M1 R1 L1] [M2 R2 L2]. split; [auto..|]. intros Hr.
    destruct (L1 Hr) as (l1 & E1 & T1 & A1). destruct (L2 (R1 Hr)) as (l2 & E2 & T2 & A2).
    exists (l1 ++ l2). rewrite E2, E1, app_assoc. split_and!; [done| |congruence].
    rewrite T2, T1, len_app. unfold as_u64. rewrite Zplus_mod_idemp_l. f_equal. lia.
Qed.

Lemma handler_books walk_fuel fs config req peer now st st' resp :
  handle_request walk_fuel fs config req peer now st = Some (st', resp) -> books_kept st st'.
Proof.
  intros E. assert (Hsame : metrics st' = metrics st -> log st' = log st -> manager st' = manager st -> books_kept st st').
  { intros Hm Hl Hc. destruct st as [a b c d], st' as [a' b' c' d']. cbn in Hm, Hl, Hc. subst. split; cbn; [done..|].
    intros [Hr _]. exists []. by rewrite app_nil_r, len_nil, Z.add_0_r, as_u64_small. }
  pose proof E as Hinv. apply handle_request_inv in Hinv as [(_ & _ & Hc & Hm & Hl)|(r & _ & Ha & Hm & Hl)]; [by apply Hsame|].
  assert (Hcount : in_range (metrics st) -> requests_total (metrics st') = as_u64 (requests_total (metrics st) + 1) /\
    requests_active (metrics st') = requests_active (metrics st)).
  { intros [_ Hr]. rewrite Hm, (guard_balanced (record_response _ _)) by done. done. }
  split.
  - intros Hok. by eapply answer_ok.
  - intros Hr. destruct (Hcount Hr) as [Ht Hac]. unfold in_range. rewrite Ht, Hac. destruct Hr. split; [|done].
    apply Z.mod_pos_bound. lia.
  - intros Hr. destruct (Hcount Hr) as [Ht Hac]. eexists. split_and!; [exact Hl| |exact Hac]. rewrite Ht, len_cons, len_nil. f_equal.
Qed.
(** The cases in which a request makes the handler panic. *)
Lemma respond_panic fuel fs server config req peer now cp rp :
  respond fuel fs server config req peer now cp rp = None ->
  exists n, expires config = Some n /\ now + n > I64_MAX.
Proof.
  unfold respond. destruct (check_access _ _ _ _ _); [done|]. destruct (check_redirect _ _); [done|].
  destruct (canonicalize fs _); [|done]. destruct (directory_response _ _ _ _ _ _ _ _); [done|]. unfold serve_file.
  destruct (open_beneath_with_index _ _ _ _ _) as [[file path]|]; [|done].
  destruct (cache_headers _ _ _) eqn:E; [done|]. unfold cache_headers in E.
  destruct (expires config) as [n|]; [|done]. exists n. split; [done|]. case_match; [|done]. zbool. lia.
Qed.

(** A file answered to HEAD has no body. *)
Lemma serve_file_head fuel fs server config req now root path indexes fd p resp :
  method req = Head -> open_beneath_with_index fuel fs root path indexes = Some (fd, p) ->
  serve_file fuel fs server config req now root path indexes = Some resp ->
  body_source resp = BodyBytes [].
Proof.
  intros Hm Ho. unfold serve_file. rewrite Ho. destruct (cache_headers _ _ _); [|done]. intros [= <-].
  unfold strip_head_body. by rewrite bool_decide_eq_true_2.
Qed.
End Effects.

(** ** Failures *)

Section Examples.
#[local] Existing Instance ascii_case.

Definition empty_state : State := mkState ∅ (new_with_error_log (str "stderr")) metrics_zero [].
Definition noon : Moment := mkMoment 0 1700000000 (str "0.10") (str "unknown").
Definition plain_request (m : Method) (path : bytes) : HttpRequest := mkHttpRequest m path (str "HTTP/1.1") [] [].
Definition site_config : ServerConfig :=
  set_config_file (str "r/.veysrule") (set_root_dir (str "r") server_config_default).
Definition handle (rules : bytes) (m : Method) (path : bytes) : option (State * HttpResponse) :=
  handle_request 10 (site rules) site_config (plain_request m path) None noon empty_state.

(** A request makes the handler panic only when a rule file on its
    way makes the parser panic or when the rules ask for an expiry that the
    clock cannot represent.  The second does happen: a rule file that the parser
    accepts without an error, [expires 18446744073709551615s], makes every
    request for a file below it panic. *)
Theorem handler_panics :
  (forall (Fd : Type) fuel (fs : FileSystem Fd) config req peer now st,
     handle_request fuel fs config req peer now st = None ->
     let server := effective_config config req in
     exists cp rp, resolve_path req = Ok (cp, rp) /\
       match get_config_for_dir fs (Some (config_file server)) (root_dir server) rp (dev_mode server) (manager st) with
       | None => True
       | Some (_, rules) => exists n, expires rules = Some n /\ system_now now + n > I64_MAX
       end) /\
  (let rules := str "expires 18446744073709551615s" in
   (exists s d, parse_veysrule_content rules (str ".veysrule") true = Some (s, d, [])) /\
   handle rules Get (str "/index.html") = None).
Proof.
  split; [|split; [do 2 eexists|]; vm_compute; reflexivity].
  intros Fd fuel fs config req peer now st Hn server.
  assert (Ha : answer fuel fs server req peer now (manager st) (guard_begin (metrics st)) = None).
  { unfold handle_request in Hn. destruct (match peer with Some ip => _ | None => _ end) as [buckets allowed].
    destruct allowed; [|done]. cbn [negb] in Hn.
    replace (match select_vhost config req with Some _ => effective_config config req | None => config end)
      with server in Hn
      by (unfold server; destruct (select_vhost config req) eqn:E; [done|by apply effective_config_none]).
    unfold handle_request_inner in Hn. cbn [manager metrics limiter log on_metrics] in Hn.
    by destruct (answer _ _ _ _ _ _ _ _) as [[m r]|]. }
  unfold answer in Ha. case_match; [done|]. destruct (check_method req); [done|].
  destruct (resolve_path req) as [[cp rp]|]; [|done]. exists cp, rp. split; [done|].
  destruct (get_config_for_dir _ _ _ _ _ _) as [[m d]|]; [|done].
  destruct (respond _ _ _ _ _ _ _ _ _) eqn:Hr; [done|]. by eapply respond_panic.
Qed.

(** The body of an answer to HEAD.  Once a file is found the body
    is dropped whatever the status, but the answers before that keep theirs:
    HEAD of a file that does not exist is answered with the text of the 404,
    which the connection then sends after the head. *)
Theorem head_body_of_refusals :
  (forall (Fd : Type) fuel (fs : FileSystem Fd) server config req now root path indexes fd p resp,
     method req = Head -> open_beneath_with_index fuel fs root path indexes = Some (fd, p) ->
     serve_file fuel fs server config req now root path indexes = Some resp ->
     body_source resp = BodyBytes []) /\
  exists st resp, handle [] Head (str "/missing") = Some (st, resp) /\ status resp = NotFound /\
    body_source resp = BodyBytes (str "404 Not Found").
Proof.
  split; [intros; by eapply serve_file_head|]. do 2 eexists. split_and!; vm_compute; reflexivity.
Qed.

(** ** The theorems at work *)

Lemma site_config_ok : server_ok site_config.
Proof. destruct server_default_ok. by constructor. Qed.

Lemma handler_head_not_split_witness :
  exists st resp, handle (str "header X-A ok") Get (str "/a%0d%0ab") = Some (st, resp) /\
    find_subslice (response_head resp ++ str "body") CRLF2 = Some (len (response_head resp) - 4).
Proof.
  do 2 eexists. split; [vm_compute; reflexivity|].
  refine (proj2 (proj2 (handler_head_not_split 10 (site (str "header X-A ok")) site_config
    (plain_request Get (str "/a%0d%0ab")) None noon empty_state _ _ (str "body") site_config_ok _ _))).
  - apply manager_new_ok.
  - vm_compute. reflexivity.
Defined.

Lemma handler_files_admitted_run :
  exists names d hidden root, str ".veysrule" ∉ names /\ admitted d hidden (plain_request Get (str "/%2e/x/../")) names None /\
    served (site (str "methods GET")) root names (configured_indexes d) (str "hello").
Proof.
  destruct (handler_files_admitted 10 (site (str "methods GET")) site_config (plain_request Get (str "/%2e/x/../")) None noon
    empty_state (fst (default (empty_state, too_many_requests) (handle (str "methods GET") Get (str "/%2e/x/../"))))
    (snd (default (empty_state, too_many_requests) (handle (str "methods GET") Get (str "/%2e/x/../")))) (str "hello"))
    as (cp & names & m & d & root & _ & _ & Hn & Hg & Ha & _ & Hs).
  - apply manager_new_ok.
  - vm_compute. reflexivity.
  - vm_compute. reflexivity.
  - exists names, d. eexists. exists root. split_and!; [exact Hn|exact Ha|exact Hs].
Defined.

Lemma revalidation_spec_witness :
  let req := mkHttpRequest Get (str "/a") (str "HTTP/1.1")
    [(str "If-None-Match", str " " ++ generate_etag 784111777 5)] [] in
  status (file_response req (str "hello") (Some (mkMetadata false 5 (Some 784111777))) (str "text/html")) = NotModified.
Proof.
  intros req. destruct (revalidation_spec req (str "hello") (str "text/html") 784111777 5 784111777 5
    (str " " ++ generate_etag 784111777 5)) as [Hs _]; [lia|lia|unfold U64_MAX; lia|unfold U64_MAX; lia|done|done| |].
  - left. split; vm_compute; reflexivity.
  - rewrite Hs. vm_compute. reflexivity.
Defined.

Lemma request_accounted_witness :
  let st := fst (default (empty_state, too_many_requests) (handle [] Get (str "/missing"))) in
  metrics st = record_response 404 13 metrics_zero.
Proof.
  intros st. destruct (request_accounted 10 (site []) site_config (plain_request Get (str "/missing")) None noon
    empty_state st (snd (default (empty_state, too_many_requests) (handle [] Get (str "/missing")))))
    as [(Hs & _)|(Hm & _)].
  - cbn. lia.
  - vm_compute. reflexivity.
  - exfalso. vm_compute in Hs. done.
  - rewrite Hm. vm_compute. reflexivity.
Defined.
End Examples.

