(* ===== verification/FastCgi.v ===== *)
(** * The FastCGI client (src/server/fastcgi.rs)

    Routing, the record and parameter encodings, the parser of a script's
    response head, and the reader of a script's response that an HTTP/2 stream
    polls.  A connection to the script's server is an [Io]. *)

From S2P Require Import Prelude RustStd Io Config Http Text Paths Fs Handler Connection.

Definition FCGI_VERSION : Z := 1.
Definition BEGIN_REQUEST : Z := 1.
Definition END_REQUEST : Z := 3.
Definition PARAMS : Z := 4.
Definition STDIN : Z := 5.
Definition STDOUT : Z := 6.
Definition STDERR : Z := 7.
Definition MAX_RECORD : Z := 65535.
Definition MAX_RESPONSE_HEADERS : Z := 64 * 1024.

(** ** Records *)

Definition u16_to_be (n : Z) : bytes := [n / 256; n mod 256].

(** [header[0..8]] as [send_record] fills it. *)
Definition record_header (kind length padding : Z) : bytes :=
  [FCGI_VERSION; kind] ++ u16_to_be 1 ++ u16_to_be length ++ [padding; 0].

Definition padding_of (length : Z) : Z := (8 - length mod 8) mod 8.

Definition fcgi_write (d : bytes) : ST Io IoErr unit := fun io =>
  let '(io, ok) := io_write io d in (io, if ok then Ok tt else Err OsError).

Definition send_record (kind : Z) (content : bytes) : ST Io IoErr unit :=
  if len content >? U16_MAX then st_err (Custom InvalidInput (str "FastCGI record too large")) else
  let padding := padding_of (len content) in
  let! _ := fcgi_write (record_header kind (len content) padding) in
  let! _ := fcgi_write content in
  if negb (padding =? 0) then fcgi_write (repeat 0 (Z.to_nat padding)) else st_ret tt.

(** [data.chunks(n)]. *)
Fixpoint chunks (fuel : nat) (n : nat) (data : bytes) : list bytes :=
  match fuel, data with
  | _, [] | O, _ => []
  | S fuel, _ => take n data :: chunks fuel n (drop n data)
  end.

Fixpoint send_chunks (kind : Z) (l : list bytes) : ST Io IoErr unit :=
  match l with
  | [] => st_ret tt
  | chunk :: l => let! _ := send_record kind chunk in send_chunks kind l
  end.

Definition send_records (kind : Z) (data : bytes) : ST Io IoErr unit :=
  send_chunks kind (chunks (length data) (Z.to_nat MAX_RECORD) data).

Definition send_begin : ST Io IoErr unit := send_record BEGIN_REQUEST [0; 1; 0; 0; 0; 0; 0; 0].

(** ** Parameters *)

(** A length as one byte, or as four with the top bit set; [len as u32] wraps. *)
Definition encode_len (n : Z) : bytes :=
  if n <? 128 then [n]
  else let v := Z.lor (n mod 2 ^ 32) (2 ^ 31) in
       [v / 2 ^ 24; v / 2 ^ 16 mod 256; v / 2 ^ 8 mod 256; v mod 256].

Definition append_param (out name value : bytes) : bytes :=
  out ++ encode_len (len name) ++ encode_len (len value) ++ name ++ value.

(** The path of a target without its query. *)
Definition target_path (uri : bytes) : bytes := hd [] (split_on 63 uri).

(** [remote] is the peer's address as text. *)
Definition build_params (req : HttpRequest) (route : FastCgiRoute) (script : bytes)
  (script_uri : option bytes) (secure : bool) (remote : bytes) (body_length : Z) : bytes :=
  let path := match script_uri with Some p => p | None => target_path (uri req) end in
  let query := match split_once 63 (uri req) with Some (_, q) => q | None => [] end in
  let header name := match get_header req name with Some v => v | None => [] end in
  let add out p := append_param out (fst p) (snd p) in
  let params := fold_left add
    [(str "REQUEST_METHOD", method_display (method req));
     (str "QUERY_STRING", query);
     (str "CONTENT_TYPE", header (str "Content-Type"));
     (str "CONTENT_LENGTH", to_string body_length);
     (str "SCRIPT_FILENAME", script);
     (str "SCRIPT_NAME", path);
     (str "REQUEST_URI", uri req);
     (str "DOCUMENT_URI", path);
     (str "DOCUMENT_ROOT", fcgi_document_root route);
     (str "SERVER_NAME", header (str "Host"));
     (str "SERVER_PORT", if secure then str "443" else str "80");
     (str "SERVER_PROTOCOL", version req);
     (str "REMOTE_ADDR", remote);
     (str "HTTPS", if secure then str "on" else str "off")] [] in
  fold_left (fun params h =>
    let '(name, value) := h in
    if eq_ignore_ascii_case name (str "Content-Type") || eq_ignore_ascii_case name (str "Content-Length")
    then params
    else append_param params (str "HTTP_" ++ to_ascii_uppercase (replace_char 45 [95] name)) value)
    (headers req) params.

(** ** Routes *)

(** [Iterator::max_by_key]: the last of the greatest. *)
Fixpoint max_by_key {A} (key : A -> Z) (l : list A) : option A :=
  match l with
  | [] => None
  | x :: l =>
      match max_by_key key l with
      | Some y => if key x >? key y then Some x else Some y
      | None => Some x
      end
  end.

Definition request_host_name (req : HttpRequest) : bytes :=
  to_ascii_lowercase (hd [] (split_on 58 (match get_header req (str "Host") with Some h => h | None => [] end))).

Definition best_route (routes : list FastCgiRoute) (host path : bytes) : option FastCgiRoute :=
  max_by_key (fun r => len (fcgi_prefix r))
    (List.filter (fun r => (bytes_eqb (fcgi_host r) (str "*") || bytes_eqb (fcgi_host r) host)
                           && starts_with path (fcgi_prefix r)) routes).

Section Routing.
Context `{UnicodeCase} {Fd : Type}.
Implicit Types (fs : FileSystem Fd).

(** The route for a request; for the front controller, with the script to run. *)
Definition select_route (fuel : nat) fs (req : HttpRequest) (config : ServerConfig)
  : option (FastCgiRoute * option bytes) :=
  if negb (RequestHandler.request_path_is_safe req config) then None else
  let host := request_host_name req in
  match best_route (fastcgi_routes config) host (uri req) with
  | Some route => Some (route, None)
  | None =>
      match front_controller config with
      | None => None
      | Some controller =>
          if bytes_eqb (target_path (uri req)) (str "/metrics")
             || RequestHandler.request_has_static_target fuel fs req config then None else
          match best_route (fastcgi_routes config) host controller with
          | Some route => Some (route, Some controller)
          | None => None
          end
      end
  end.

Definition route_matches_request (fuel : nat) fs (req : HttpRequest) (config : ServerConfig) : bool :=
  match select_route fuel fs req config with Some _ => true | None => false end.

(** ** Scripts *)

(** [fastcgi.rs]'s own decoder: one round, strict about the digits. *)
Fixpoint percent_decode_strict (l : bytes) : option bytes :=
  match l with
  | [] => Some []
  | b :: l =>
      if b =? 37 then
        match l with
        | h :: r :: l =>
            match to_digit 16 h, to_digit 16 r with
            | Some hi, Some lo => option_map (cons (hi * 16 + lo)) (percent_decode_strict l)
            | _, _ => None
            end
        | _ => None
        end
      else option_map (cons b) (percent_decode_strict l)
  end.

Definition percent_decode (input : bytes) : option bytes :=
  match percent_decode_strict input with
  | Some out => if utf8_valid out then Some out else None
  | None => None
  end.

Definition script_path_for_uri (fuel : nat) fs (route : FastCgiRoute) (req : HttpRequest)
  (script_uri : option bytes) : result bytes IoErr :=
  let raw := match script_uri with Some p => p | None => target_path (uri req) end in
  match percent_decode raw with
  | None => Err (Custom InvalidInput (str "invalid request path"))
  | Some decoded =>
      let relative := trim_start_char 47 decoded in
      if bytes_eqb relative []
         || existsb (fun part => bytes_eqb part [] || bytes_eqb part (str ".") || bytes_eqb part (str ".."))
              (split_on 47 relative)
      then Err (Custom PermissionDenied (str "invalid FastCGI script path"))
      else
        match secure_script_path fuel fs (fcgi_document_root route) relative with
        | Some path => Ok path
        | None => Err (Custom PermissionDenied (str "FastCGI script is not safely beneath document root"))
        end
  end.

(** [Path::starts_with]. *)
Definition path_starts_with (p root : bytes) : bool :=
  bool_decide (take (length (components root)) (components p) = components root).

(** The script's directory must be inside the root of the host; a directory
    that cannot be resolved is an error of its own. *)
Definition check_document_root fs (route : FastCgiRoute) (config : ServerConfig) : result bool IoErr :=
  let? effective_root := ok_or (canonicalize fs (root_dir config)) OsError in
  let? script_root := ok_or (canonicalize fs (fcgi_document_root route)) OsError in
  Ok (path_starts_with script_root effective_root).
End Routing.

(** ** Response heads *)

Definition is_header_byte (b : Z) : bool :=
  is_ascii_alphanumeric b || existsb (Z.eqb b) (str "!#$%&'*+-.^_`|~").

Definition framing_headers : list bytes :=
  map str ["transfer-encoding"; "connection"; "keep-alive"; "proxy-connection"; "upgrade"]%string.

Definition validate_fastcgi_header (name value : bytes) : result unit IoErr :=
  if bytes_eqb name [] || negb (forallb is_header_byte name)
     || existsb (fun b => (b =? 13) || (b =? 10) || (b =? 0)) value
  then Err (invalid_data (str "invalid FastCGI header"))
  else if existsb (bytes_eqb (to_ascii_lowercase name)) framing_headers
  then Err (invalid_data (str "framing-sensitive FastCGI header"))
  else Ok tt.

Definition parse_fastcgi_status (value : bytes) : result Z IoErr :=
  let invalid := invalid_data (str "invalid FastCGI status") in
  match split_whitespace value with
  | [] => Err invalid
  | word :: _ =>
      let? status := ok_or (parse_u16 word) invalid in
      if between 100 status 599 then Ok status else Err invalid
  end.

(** [Content-Length], which may be repeated with the same value. *)
Definition parse_length (known : option Z) (value : bytes) : result Z IoErr :=
  let? parsed := ok_or (parse_u64 value) (invalid_data (str "invalid FastCGI content length")) in
  match known with
  | Some existing =>
      if existing =? parsed then Ok parsed
      else Err (invalid_data (str "conflicting FastCGI content length"))
  | None => Ok parsed
  end.

(** The name and value of a header line. *)
Definition header_of_line (line : bytes) : result (bytes * bytes) IoErr :=
  let? (name, value) := ok_or (split_once 58 line) (invalid_data (str "malformed FastCGI header")) in
  let name := trim name in
  let value := trim value in
  let? _ := validate_fastcgi_header name value in
  Ok (name, value).

Record FastCgiHeaders : Type := mkFastCgiHeaders {
  fh_status : Z;
  fh_headers : list (bytes * bytes);
  fh_content_length : option Z;
}.

Definition h2_header (acc : FastCgiHeaders) (line : bytes) : result FastCgiHeaders IoErr :=
  let? (name, value) := header_of_line line in
  if eq_ignore_ascii_case name (str "Status") then
    let? status := parse_fastcgi_status value in
    Ok (mkFastCgiHeaders status (fh_headers acc) (fh_content_length acc))
  else if existsb (fun b => negb (is_header_byte b)) name || existsb (fun b => (b =? 13) || (b =? 10)) value
  then Err (invalid_data (str "invalid FastCGI header"))
  else
    let? length :=
      (if eq_ignore_ascii_case name (str "Content-Length")
       then let? n := parse_length (fh_content_length acc) value in Ok (Some n)
       else Ok (fh_content_length acc)) in
    Ok (mkFastCgiHeaders (fh_status acc) (fh_headers acc ++ [(name, value)]) length).

Definition head_line_list (text : bytes) : list bytes :=
  List.filter (fun line => negb (bytes_eqb line [])) (split_crlf text).

Definition parse_h2_fastcgi_headers (raw : bytes) : result FastCgiHeaders IoErr :=
  if negb (utf8_valid raw) then Err (invalid_data (str "invalid FastCGI headers"))
  else fold_result h2_header (head_line_list raw) (mkFastCgiHeaders 200 [] None).

(** ** The reader of a script's response *)

Definition saturating_add_u64 (a b : Z) : Z := Z.min (a + b) U64_MAX.

Record FastCgiH2Reader : Type := mkFastCgiH2Reader {
  fr_upstream : Reader;
  fr_wire : bytes;
  fr_ready : bytes;
  fr_offset : Z;
  fr_done : bool;
  fr_content_length : option Z;
  fr_body_bytes : Z;
}.

Definition reader_new (upstream : Reader) : FastCgiH2Reader :=
  mkFastCgiH2Reader upstream [] [] 0 false None 0.

Definition set_wire (upstream : Reader) (wire : bytes) (s : FastCgiH2Reader) : FastCgiH2Reader :=
  mkFastCgiH2Reader upstream wire (fr_ready s) (fr_offset s) (fr_done s) (fr_content_length s) (fr_body_bytes s).

(** The first record of [wire] and what follows it; [None] while it is not
    complete. *)
Definition take_record (wire : bytes) : result (option (Z * bytes * bytes)) IoErr :=
  match wire with
  | v :: kind :: i1 :: i0 :: l1 :: l0 :: padding :: _ :: rest =>
      if negb (v =? FCGI_VERSION) || negb ((i1 =? 0) && (i0 =? 1))
      then Err (invalid_data (str "malformed FastCGI record"))
      else
        let length := l1 * 256 + l0 in
        if length + padding <=? len rest then
          Ok (Some (kind, take (Z.to_nat length) rest, drop (Z.to_nat (length + padding)) rest))
        else Ok None
  | _ => Ok None
  end.

(** The loop of [read_record]; a read ends it or shortens the script. *)
Fixpoint read_record_loop (fuel : nat) (s : FastCgiH2Reader)
  : FastCgiH2Reader * result (option (Z * bytes)) IoErr :=
  match take_record (fr_wire s) with
  | Err e => (s, Err e)
  | Ok (Some (kind, data, rest)) => (set_wire (fr_upstream s) rest s, Ok (Some (kind, data)))
  | Ok None =>
      match fuel with
      | O => (s, Ok None)
      | S fuel =>
          let '(upstream, x) := read (fr_upstream s) (16 * 1024) in
          match x with
          | ReadOk [] => (set_wire upstream (fr_wire s) s, Ok None)
          | ReadOk d => read_record_loop fuel (set_wire upstream (fr_wire s ++ d) s)
          | ReadWouldBlock => (set_wire upstream (fr_wire s) s, Err (Custom WouldBlock []))
          | ReadErr => (set_wire upstream (fr_wire s) s, Err OsError)
          end
      end
  end.

Definition read_record (s : FastCgiH2Reader) : FastCgiH2Reader * result (option (Z * bytes)) IoErr :=
  read_record_loop (S (reader_size (fr_upstream s))) s.

Definition consume_record (kind : Z) (data : bytes) (s : FastCgiH2Reader) : result FastCgiH2Reader IoErr :=
  if kind =? STDOUT then
    let next := saturating_add_u64 (fr_body_bytes s) (len data) in
    if match fr_content_length s with Some limit => next >? limit | None => false end
    then Err (invalid_data (str "FastCGI body exceeds Content-Length"))
    else Ok (mkFastCgiH2Reader (fr_upstream s) (fr_wire s) (fr_ready s ++ data) (fr_offset s) (fr_done s)
               (fr_content_length s) next)
  else if kind =? END_REQUEST then
    if negb (len data =? 8) then Err (invalid_data (str "malformed FastCGI END_REQUEST"))
    else if match fr_content_length s with Some limit => negb (fr_body_bytes s =? limit) | None => false end
    then Err (Custom EofReached (str "FastCGI body length mismatch"))
    else Ok (mkFastCgiH2Reader (fr_upstream s) (fr_wire s) (fr_ready s) (fr_offset s) true
               (fr_content_length s) (fr_body_bytes s))
  else Ok s.

(** Copying out of [ready]. *)
Definition take_ready (n : Z) (s : FastCgiH2Reader) : FastCgiH2Reader * bytes :=
  let amount := Z.min n (len (fr_ready s) - fr_offset s) in
  let out := slice (fr_ready s) (fr_offset s) (fr_offset s + amount) in
  let offset := fr_offset s + amount in
  let '(ready, offset) := if offset =? len (fr_ready s) then ([], 0) else (fr_ready s, offset) in
  (mkFastCgiH2Reader (fr_upstream s) (fr_wire s) ready offset (fr_done s) (fr_content_length s) (fr_body_bytes s), out).

(** [Read::read] with a buffer of [n] bytes.  Every round of its loop takes a
    record, at least eight bytes of what the connection delivers. *)
Fixpoint reader_read_loop (fuel : nat) (n : Z) (s : FastCgiH2Reader) : FastCgiH2Reader * result bytes IoErr :=
  match fuel with
  | O => (s, Err OsError)
  | S fuel =>
      let '(s, r) := read_record s in
      match r with
      | Err e => (s, Err e)
      | Ok None => (s, Err (Custom EofReached (str "FastCGI upstream closed before END_REQUEST")))
      | Ok (Some (kind, data)) =>
          match consume_record kind data s with
          | Err e => (s, Err e)
          | Ok s =>
              if negb (bytes_eqb (fr_ready s) []) then let '(s, out) := take_ready n s in (s, Ok out)
              else if fr_done s then (s, Ok [])
              else reader_read_loop fuel n s
          end
      end
  end.

Definition pending_bytes (s : FastCgiH2Reader) : nat := (length (fr_wire s) + reader_size (fr_upstream s))%nat.

Definition reader_read (n : Z) (s : FastCgiH2Reader) : FastCgiH2Reader * result bytes IoErr :=
  if fr_offset s <? len (fr_ready s) then let '(s, out) := take_ready n s in (s, Ok out)
  else if fr_done s then (s, Ok [])
  else reader_read_loop (S (pending_bytes s)) n s.

(** ** Waiting for the head *)

Record H2FastCgiPending : Type := mkH2FastCgiPending {
  fp_reader : FastCgiH2Reader;
  fp_header_bytes : bytes;
  fp_max_headers : Z;
  fp_method : Method;
  fp_deadline : Z;
}.

Definition set_reader (r : FastCgiH2Reader) (p : H2FastCgiPending) : H2FastCgiPending :=
  mkH2FastCgiPending r (fp_header_bytes p) (fp_max_headers p) (fp_method p) (fp_deadline p).
Definition push_header_bytes (data : bytes) (p : H2FastCgiPending) : H2FastCgiPending :=
  mkH2FastCgiPending (fp_reader p) (fp_header_bytes p ++ data) (fp_max_headers p) (fp_method p) (fp_deadline p).

(** A response without its head's bytes, the reader of its body and its length. *)
Definition H2Response : Type := HttpResponse * option FastCgiH2Reader * option Z.

Definition no_body_status (status : Z) : bool :=
  between 100 status 199 || (status =? 204) || (status =? 304).

(** The arm for [STDOUT] once the bytes received hold a complete head, which
    ends at [end_]; the reader gets the rest. *)
Definition finish_head (p : H2FastCgiPending) (end_ : Z) : result H2Response IoErr :=
  let? h := parse_h2_fastcgi_headers (take (Z.to_nat end_) (fp_header_bytes p)) in
  let body := drop (Z.to_nat end_) (fp_header_bytes p) in
  if match fh_content_length h with Some limit => len body >? limit | None => false end
  then Err (invalid_data (str "FastCGI body exceeds Content-Length"))
  else
    let r := fp_reader p in
    let reader := mkFastCgiH2Reader (fr_upstream r) (fr_wire r) (fr_ready r ++ body) (fr_offset r) (fr_done r)
                    (fh_content_length h) (len body) in
    let response := response_new (from_u16 (fh_status h)) in
    let response := put_headers response (resp_headers response ++ fh_headers h) in
    if bool_decide (fp_method p = Head) || no_body_status (fh_status h)
       || bool_decide (fh_content_length h = Some 0)
    then Ok (response, None, Some 0)
    else Ok (response, Some reader, fh_content_length h).

(** [H2FastCgiPending::poll]; [clock] gives the successive readings of
    [Instant::now]. *)
Fixpoint poll_loop (fuel : nat) (clock : nat -> Z) (p : H2FastCgiPending)
  : H2FastCgiPending * result (option H2Response) IoErr :=
  match fuel with
  | O => (p, Ok None)
  | S fuel =>
      if fp_deadline p <=? clock O then (p, Err (Custom TimedOut (str "FastCGI response header timeout"))) else
      let '(reader, r) := read_record (fp_reader p) in
      let p := set_reader reader p in
      let clock n := clock (S n) in
      match r with
      | Ok None => (p, Err (Custom EofReached (str "FastCGI returned no response headers")))
      | Err (Custom WouldBlock _) | Err (Custom TimedOut _) => (p, Ok None)
      | Err e => (p, Err e)
      | Ok (Some (kind, data)) =>
          if kind =? STDOUT then
            let p := push_header_bytes data p in
            if len (fp_header_bytes p) >? fp_max_headers p
            then (p, Err (invalid_data (str "FastCGI headers too large")))
            else
              match find_subslice (fp_header_bytes p) CRLF2 with
              | None => poll_loop fuel clock p
              | Some pos => (p, let? r := finish_head p (pos + 4) in Ok (Some r))
              end
          else if kind =? END_REQUEST
          then (p, Err (Custom EofReached (str "FastCGI ended before response headers")))
          else poll_loop fuel clock p
      end
  end.

Definition poll (clock : nat -> Z) (p : H2FastCgiPending) : H2FastCgiPending * result (option H2Response) IoErr :=
  poll_loop (S (pending_bytes (fp_reader p))) clock p.
