(* ===== verification/FastCgiRelay.v ===== *)
(** * Relaying a script's response over HTTP/1.1 (src/server/fastcgi.rs)

    [handle], [handle_streaming_body] and [stream_response]: the request is
    written to the script's server, whose records are turned into a response to
    the client as they come.  The world holds both connections, the log and the
    metrics.  The
    connection, the permission to open it and the gzip writer come from
    outside.  The text of a log line is left out: a failure is logged as its
    error, a script's diagnostics as the bytes received. *)

From S2P Require Import Prelude RustStd Io Config Http H2Headers Text Paths Fs Metrics Handler Connection FastCgi.

Inductive RelayLog : Type :=
| LogFailure (e : IoErr)
| LogStderr (data : bytes).

Record Relay : Type := mkRelay {
  upstream : Io;
  client : Io;
  relay_log : list RelayLog;
  relay_metrics : Metrics;
}.

Definition on_upstream {A} (m : ST Io IoErr A) : ST Relay IoErr A := fun w =>
  let '(io, r) := m (upstream w) in (mkRelay io (client w) (relay_log w) (relay_metrics w), r).
Definition on_client {A} (m : ST Io IoErr A) : ST Relay IoErr A := fun w =>
  let '(io, r) := m (client w) in (mkRelay (upstream w) io (relay_log w) (relay_metrics w), r).
Definition log_relay (l : RelayLog) : ST Relay IoErr unit := fun w =>
  (mkRelay (upstream w) (client w) (relay_log w ++ [l]) (relay_metrics w), Ok tt).
(** [metrics::record_fastcgi]. *)
Definition count_fastcgi : ST Relay IoErr unit := fun w =>
  (mkRelay (upstream w) (client w) (relay_log w) (record_fastcgi (relay_metrics w)), Ok tt).

Definition map_err {S E E' A} (f : E -> E') (m : ST S E A) : ST S E' A := fun s =>
  let '(s, r) := m s in (s, match r with Ok a => Ok a | Err e => Err (f e) end).

(** [upstream.read_exact]. *)
Definition fcgi_read_exact (n : Z) : ST Io IoErr bytes := fun io =>
  let '(r, x) := read_exact (incoming io) n in (mkIo (wire io) (faults io) r, x).

(** [send_error]; its body is in memory, so no reader is involved. *)
Definition send_error (s : StatusCode) (message : bytes) : ST Relay IoErr unit :=
  on_client (map_err (fun _ => OsError)
    (send_to (fun r _ => r) (fun _ _ => None)
       (with_body (set_close_connection (response_new s) true) message TEXT))).

Definition bad_gateway (message : bytes) : ST Relay IoErr unit := send_error BadGateway message.

Definition fcgi_reason_phrase (status : Z) : bytes :=
  match find (fun e => fst e =? status)
    [(200, str "OK"); (201, str "Created"); (202, str "Accepted"); (204, str "No Content");
     (301, str "Moved Permanently"); (302, str "Found"); (400, str "Bad Request"); (401, str "Unauthorized");
     (403, str "Forbidden"); (404, str "Not Found"); (500, str "Internal Server Error"); (502, str "Bad Gateway");
     (503, str "Service Unavailable")] with
  | Some (_, phrase) => phrase
  | None => str "Upstream Response"
  end.

(** ** The head of the response *)

Record HeadState : Type := mkHeadState {
  hs_response : bytes;
  hs_status : Z;
  hs_content_length : option Z;
  hs_content_type : option bytes;
  hs_already_encoded : bool;
  hs_no_transform : bool;
}.
Definition head_state : HeadState := mkHeadState [] 200 None None false false.

(** What one header line changes. *)
Definition relay_header (acc : HeadState) (line : bytes) : result HeadState IoErr :=
  let? (name, value) := header_of_line line in
  if eq_ignore_ascii_case name (str "Status") then
    let? status := parse_fastcgi_status value in
    Ok (mkHeadState (hs_response acc) status (hs_content_length acc) (hs_content_type acc)
          (hs_already_encoded acc) (hs_no_transform acc))
  else
    let response := hs_response acc ++ name ++ str ": " ++ value ++ CRLF in
    if eq_ignore_ascii_case name (str "Content-Length") then
      let? n := parse_length (hs_content_length acc) value in
      Ok (mkHeadState response (hs_status acc) (Some n) (hs_content_type acc)
            (hs_already_encoded acc) (hs_no_transform acc))
    else if eq_ignore_ascii_case name (str "Content-Type") then
      Ok (mkHeadState response (hs_status acc) (hs_content_length acc) (Some (to_ascii_lowercase value))
            (hs_already_encoded acc) (hs_no_transform acc))
    else if eq_ignore_ascii_case name (str "Content-Encoding") then
      Ok (mkHeadState response (hs_status acc) (hs_content_length acc) (hs_content_type acc) true (hs_no_transform acc))
    else if eq_ignore_ascii_case name (str "Cache-Control")
            && contains_sub (to_ascii_lowercase value) (str "no-transform") then
      Ok (mkHeadState response (hs_status acc) (hs_content_length acc) (hs_content_type acc)
            (hs_already_encoded acc) true)
    else
      Ok (mkHeadState response (hs_status acc) (hs_content_length acc) (hs_content_type acc)
            (hs_already_encoded acc) (hs_no_transform acc)).

Definition mime_compressible (content_type : option bytes) : bool :=
  match content_type with
  | None => false
  | Some value =>
      let mime := trim (hd [] (split_on 59 value)) in
      starts_with mime (str "text/")
      || existsb (bytes_eqb mime)
           [str "application/json"; str "application/javascript"; str "application/xml"; str "image/svg+xml"]
  end.

Definition relay_compresses (accept_gzip head : bool) (h : HeadState) : bool :=
  accept_gzip && negb head && between 200 (hs_status h) 299 && negb (hs_status h =? 204)
  && negb (hs_status h =? 304) && negb (hs_already_encoded h) && negb (hs_no_transform h)
  && mime_compressible (hs_content_type h).

(** The head written to the client; compression drops Content-Length and adds
    its own headers. *)
Definition compressed_lines (response : bytes) : bytes :=
  join_with CRLF (List.filter (fun line => negb (starts_with (to_ascii_lowercase line) (str "content-length:")))
                    (lines response))
  ++ CRLF ++ str "Content-Encoding: gzip" ++ CRLF ++ str "Vary: Accept-Encoding".

Definition relay_head (compress : bool) (h : HeadState) : bytes :=
  str "HTTP/1.1 " ++ to_string (hs_status h) ++ str " " ++ fcgi_reason_phrase (hs_status h) ++ CRLF
  ++ (if compress then compressed_lines (hs_response h) else hs_response h)
  ++ str "Connection: close" ++ CRLF2.

(** ** The loop over the records *)

Section Relaying.
(** [GzEncoder<Vec<u8>>], a library: [write_all] and [flush], then the bytes that
    have come out; and the bytes [finish] adds. *)
Context (GzWriter : Type) (gz_new : Z -> GzWriter) (gz_write : GzWriter -> bytes -> GzWriter * bytes)
  (gz_finish : GzWriter -> bytes).

Record RelayState : Type := mkRelayState {
  rs_stdout : bytes;
  rs_headers_sent : bool;
  rs_content_length : option Z;
  rs_body_bytes : Z;
  rs_gzip : option GzWriter;
}.
Definition relay_start : RelayState := mkRelayState [] false None 0 None.

(** Body bytes to the client: nothing for HEAD, through the gzip writer if there
    is one. *)
Definition relay_body (head : bool) (gzip : option GzWriter) (data : bytes) : ST Relay IoErr (option GzWriter) :=
  if head then st_ret gzip else
  match gzip with
  | Some writer =>
      let '(writer, out) := gz_write writer data in
      let! _ := on_client (fcgi_write out) in st_ret (Some writer)
  | None => let! _ := on_client (fcgi_write data) in st_ret None
  end.

(** What a record leads to: the end of the call, the end of the loop, or the
    next round. *)
Inductive Flow : Type :=
| Returned
| Ended (s : RelayState)
| Continue (s : RelayState).

Definition refuse (message : bytes) : ST Relay IoErr Flow :=
  let! _ := bad_gateway message in st_ret Returned.

Definition relay_stdout (max_headers : Z) (head accept_gzip : bool) (level : Z) (s : RelayState) (data : bytes)
  : ST Relay IoErr Flow :=
  if negb (rs_headers_sent s) then
    let stdout := rs_stdout s ++ data in
    if len stdout >? max_headers then refuse (str "FastCGI headers too large") else
    match find_subslice stdout CRLF2 with
    | None => st_ret (Continue (mkRelayState stdout false (rs_content_length s) (rs_body_bytes s) (rs_gzip s)))
    | Some pos =>
        let raw := take (Z.to_nat (pos + 4)) stdout in
        if negb (utf8_valid raw) then st_err (invalid_data (str "invalid FastCGI headers")) else
        let! h := st_res (fold_result relay_header (head_line_list raw) head_state) in
        let compress := relay_compresses accept_gzip head h in
        let content_length := if compress then None else hs_content_length h in
        let! _ := on_client (fcgi_write (relay_head compress h)) in
        let gzip := if compress then Some (gz_new level) else None in
        let body := drop (Z.to_nat (pos + 4)) stdout in
        if match content_length with Some limit => len body >? limit | None => false end
        then refuse (str "FastCGI body exceeds Content-Length")
        else
          let! gzip := relay_body head gzip body in
          st_ret (Continue (mkRelayState [] true content_length (len body) gzip))
    end
  else
    let total := saturating_add_u64 (rs_body_bytes s) (len data) in
    if match rs_content_length s with Some limit => total >? limit | None => false end
    then refuse (str "FastCGI body exceeds Content-Length")
    else
      let! gzip := relay_body head (rs_gzip s) data in
      st_ret (Continue (mkRelayState (rs_stdout s ++ data) true (rs_content_length s) total gzip)).

(** One record: its header, its content and its padding. *)
Definition relay_record (max_headers : Z) (head accept_gzip : bool) (level : Z) (s : RelayState)
  : ST Relay IoErr Flow :=
  let! header := on_upstream (fcgi_read_exact 8) in
  match header with
  | [v; kind; i1; i0; l1; l0; padding; _] =>
      if negb (v =? FCGI_VERSION) || negb ((i1 =? 0) && (i0 =? 1)) then refuse (str "malformed FastCGI record") else
      let length := l1 * 256 + l0 in
      if length >? MAX_RECORD then refuse (str "oversized FastCGI record") else
      let! data := on_upstream (fcgi_read_exact length) in
      let! _ := (if padding >? 0 then on_upstream (fcgi_read_exact padding) else st_ret []) in
      if kind =? STDOUT then relay_stdout max_headers head accept_gzip level s data
      else if kind =? STDERR then
        let! _ := (if len data <=? 4096 then log_relay (LogStderr data) else st_ret tt) in st_ret (Continue s)
      else if kind =? END_REQUEST then
        if negb (length =? 8) then refuse (str "malformed FastCGI END_REQUEST") else
        if match rs_content_length s with Some limit => negb (rs_body_bytes s =? limit) | None => false end
        then refuse (str "FastCGI body length mismatch")
        else st_ret (Ended s)
      else st_ret (Continue s)
  | _ => st_err OsError
  end.

(** After the loop. *)
Definition relay_end (s : RelayState) : ST Relay IoErr unit :=
  let! _ := (if negb (rs_headers_sent s) then bad_gateway (str "FastCGI returned no response") else st_ret tt) in
  match rs_gzip s with
  | Some writer => on_client (fcgi_write (gz_finish writer))
  | None => st_ret tt
  end.

Fixpoint relay_loop (fuel : nat) (max_headers : Z) (head accept_gzip : bool) (level : Z) (s : RelayState)
  : ST Relay IoErr unit :=
  match fuel with
  | O => st_err OsError
  | S fuel =>
      let! flow := relay_record max_headers head accept_gzip level s in
      match flow with
      | Returned => st_ret tt
      | Ended s => relay_end s
      | Continue s => relay_loop fuel max_headers head accept_gzip level s
      end
  end.

(** A round reads at least eight bytes, so the size of what is to come is enough
    fuel. *)
Definition stream_response (max_headers : Z) (head accept_gzip : bool) (level : Z) : ST Relay IoErr unit := fun w =>
  relay_loop (S (reader_size (incoming (upstream w)))) max_headers head accept_gzip level relay_start w.

(** ** Requests *)

Definition fcgi_method (m : Method) : bool := match m with Get | Head | Post => true | Other _ => false end.

Definition response_limit (config : ServerConfig) : Z := Z.min (max_header_size config) MAX_RESPONSE_HEADERS.

(** The error of a call is logged and returned. *)
Definition logging_failure {A} (m : ST Relay IoErr A) : ST Relay IoErr A := fun w =>
  let '(w, r) := m w in
  match r with
  | Ok a => (w, Ok a)
  | Err e => (mkRelay (upstream w) (client w) (relay_log w ++ [LogFailure e]) (relay_metrics w), Err e)
  end.

Context `{UnicodeCase} {Fd : Type}.
Implicit Types (fs : FileSystem Fd).

(** What both entries write for a request: its beginning and its parameters. *)
Definition send_request_head (req : HttpRequest) (route : FastCgiRoute) (script : bytes) (script_uri : option bytes)
  (secure : bool) (remote : bytes) (body_length : Z) : ST Relay IoErr unit :=
  let! _ := on_upstream send_begin in
  on_upstream (send_records PARAMS (build_params req route script script_uri secure remote body_length)).

(** [handle].  [connection] says whether the server can be reached; the world's
    [upstream] is the connection that is opened. *)
Definition handle_fastcgi (fuel : nat) fs (connection : bool) (req : HttpRequest) (config : ServerConfig)
  (secure : bool) (remote : bytes) : ST Relay IoErr (option bool) :=
  match select_route fuel fs req config with
  | None => st_ret None
  | Some (route, script_uri) =>
      let! _ := count_fastcgi in
      if negb (fcgi_method (method req)) then
        let! _ := send_error MethodNotAllowed (str "method not supported by FastCGI") in st_ret (Some true)
      else
        let! inside := st_res (check_document_root fs route config) in
        if negb inside then
          let! _ := bad_gateway (str "FastCGI document root is outside the vhost root") in st_ret (Some true)
        else
          let! script := st_res (script_path_for_uri fuel fs route req script_uri) in
          if negb connection then st_err OsError else
          let! _ := send_request_head req route script script_uri secure remote (len (body req)) in
          let! _ := on_upstream (send_records STDIN (body req)) in
          let! _ := on_upstream (send_record STDIN []) in
          logging_failure
            (let! _ := stream_response (response_limit config) (bool_decide (method req = Head))
                         (accepts_gzip (get_header req (str "Accept-Encoding"))) (compression_level config) in
             st_ret (Some true))
  end.

(** The body of a request, from the bytes already received and then from the
    client. *)
Fixpoint forward_body (fuel : nat) (buffered : bytes) (remaining : Z) : ST Relay IoErr bytes :=
  if remaining <=? 0 then st_ret buffered else
  match fuel with
  | O => st_err OsError
  | S fuel =>
      match buffered with
      | _ :: _ =>
          let n := Z.min remaining (len buffered) in
          let! _ := on_upstream (send_records STDIN (take (Z.to_nat n) buffered)) in
          forward_body fuel (drop (Z.to_nat n) buffered) (remaining - n)
      | [] =>
          let! data := on_client (fun io =>
            let '(io, x) := io_read io (Z.min remaining (16 * 1024)) in
            (io, match x with
                 | ReadOk [] => Err (Custom EofReached (str "client closed request body"))
                 | ReadOk d => Ok d
                 | ReadWouldBlock => Err (Custom WouldBlock [])
                 | ReadErr => Err OsError
                 end)) in
          let! _ := on_upstream (send_records STDIN data) in
          forward_body fuel [] (remaining - len data)
      end
  end.

(** [handle_streaming_body]; the result carries what is left of [buffered]. *)
Definition handle_streaming_body (fuel : nat) fs (connection : bool) (buffered : bytes) (head : HttpRequestHead)
  (config : ServerConfig) (secure : bool) (remote : bytes) : ST Relay IoErr (bytes * option bool) :=
  let request := into_request head [] in
  match select_route fuel fs request config with
  | None => st_ret (buffered, None)
  | Some (route, script_uri) =>
      if negb (bool_decide (method request = Post)) then st_ret (buffered, None) else
      let! inside := st_res (check_document_root fs route config) in
      if negb inside then
        let! _ := bad_gateway (str "FastCGI document root is outside the vhost root") in st_ret (buffered, Some true)
      else
        let! script := st_res (script_path_for_uri fuel fs route request script_uri) in
        if negb connection then st_err OsError else
        let! _ := send_request_head request route script script_uri secure remote (content_length head) in
        let! _ := on_upstream (send_record PARAMS []) in
        let! buffered := (fun w => forward_body (S (length buffered + reader_size (incoming (client w))))
                                     buffered (content_length head) w) in
        let! _ := on_upstream (send_record STDIN []) in
        let! _ := logging_failure (stream_response (response_limit config) false
                    (accepts_gzip (get_header request (str "Accept-Encoding"))) (compression_level config)) in
        st_ret (buffered, Some true)
  end.

(** [begin_h2_response]: the whole request is written, then the response is
    awaited.  [now] is the clock after the writing. *)
Definition begin_h2_response (fuel : nat) fs (permit connection : bool) (req : HttpRequest) (config : ServerConfig)
  (secure : bool) (remote : bytes) (now : Z) : ST Io IoErr (option H2FastCgiPending) :=
  match select_route fuel fs req config with
  | None => st_ret None
  | Some (route, script_uri) =>
      if negb (fcgi_method (method req)) then st_ret None else
      let! inside := st_res (check_document_root fs route config) in
      if negb inside then st_err (Custom PermissionDenied (str "FastCGI document root outside vhost root")) else
      let! script := st_res (script_path_for_uri fuel fs route req script_uri) in
      if negb permit || negb connection then st_err OsError else
      let! _ := send_begin in
      let! _ := send_records PARAMS (build_params req route script script_uri secure remote (len (body req))) in
      let! _ := send_record PARAMS [] in
      let! _ := send_records STDIN (body req) in
      let! _ := send_record STDIN [] in
      fun io => (io, Ok (Some (mkH2FastCgiPending (reader_new (incoming io)) [] (response_limit config) (method req)
                                 (now + Z.max (read_timeout config) 1 * 1000000000))))
  end.
End Relaying.
