(* ===== verification/FastCgiProps.v ===== *)
(** * Correctness of the FastCGI client

    Records and parameters read back as what was written, a script's path stays
    beneath its document root, the head of a response is checked before it is
    passed on, and the reader of a response body is the byte stream the HTTP/2
    driver takes it for. *)

From S2P Require Import Prelude RustStd Io Config Http H2Headers Text Paths Rules Fs Metrics Handler HandlerProps Connection FastCgi FastCgiRelay.

(** ** Records *)

Definition encode_record (kind : Z) (content : bytes) : bytes :=
  record_header kind (len content) (padding_of (len content)) ++ content
  ++ repeat 0 (Z.to_nat (padding_of (len content))).

Lemma padding_range n : 0 <= padding_of n < 8.
Proof. unfold padding_of. apply Z.mod_pos_bound. lia. Qed.

Lemma padding_aligned n : 0 <= n -> (n + padding_of n) mod 8 = 0.
Proof.
  intros Hn. unfold padding_of. rewrite Zplus_mod_idemp_r. replace (n + (8 - n mod 8)) with (8 * (n / 8 + 1)).
  - rewrite Z.mul_comm. apply Z_mod_mult.
  - pose proof (Z.div_mod n 8). lia.
Qed.

Lemma len_repeat {A} (x : A) n : 0 <= n -> len (repeat x (Z.to_nat n)) = n.
Proof. intros Hn. unfold len. rewrite repeat_length. lia. Qed.

Lemma take_record_encode kind content rest :
  len content <= U16_MAX -> take_record (encode_record kind content ++ rest) = Ok (Some (kind, content, rest)).
Proof.
  intros Hl. pose proof (len_nonneg content) as Hp. pose proof (padding_range (len content)) as Hpad.
  set (pad := padding_of (len content)) in *. unfold encode_record, record_header, u16_to_be. fold pad.
  cbn [app take_record]. change (1 / 256) with 0. change (1 mod 256) with 1. cbn [negb Z.eqb andb orb].
  change (FCGI_VERSION =? FCGI_VERSION) with true. cbn [negb orb Z.eqb andb Pos.eqb].
  replace (len content / 256 * 256 + len content mod 256) with (len content)
    by (pose proof (Z.div_mod (len content) 256); lia).
  rewrite <- !app_assoc. pose proof (len_repeat 0 pad ltac:(lia)) as Hr.
  rewrite !len_app, Hr. pose proof (len_nonneg rest). replace (len content + pad <=? _) with true by lia.
  do 3 f_equal.
  - f_equal. unfold len. by rewrite Nat2Z.id, take_app_length.
  - rewrite app_assoc. rewrite <- (drop_app_length (content ++ repeat 0 (Z.to_nat pad)) rest) at 2. f_equal.
    rewrite length_app, repeat_length. unfold len in *. lia.
Qed.

(** A faultless connection takes exactly the record. *)
Lemma send_record_wire kind content io :
  faults io = [] -> len content <= U16_MAX ->
  send_record kind content io = (mkIo (wire io ++ encode_record kind content) [] (incoming io), Ok tt).
Proof.
  intros Hf Hl. unfold send_record. replace (len content >? U16_MAX) with false by lia.
  pose proof (padding_range (len content)). unfold encode_record. cbv zeta.
  set (pad := padding_of (len content)) in *. unfold st_bind, fcgi_write, io_write. rewrite Hf. cbn [faults wire incoming].
  destruct (Z.eqb_spec pad 0) as [E|E]; cbn [negb].
  - rewrite E. cbn [Z.to_nat repeat]. by rewrite app_nil_r, <- app_assoc.
  - cbn [faults wire incoming]. by rewrite <- !app_assoc.
Qed.

Fixpoint encode_records (l : list (Z * bytes)) : bytes :=
  match l with [] => [] | (kind, content) :: l => encode_record kind content ++ encode_records l end.

Lemma encode_records_app a b : encode_records (a ++ b) = encode_records a ++ encode_records b.
Proof. induction a as [|[k c] a IH]; [done|]. cbn [app encode_records]. by rewrite IH, app_assoc. Qed.

Lemma chunks_spec fuel n data :
  (0 < n)%nat -> (length data <= fuel)%nat ->
  concat (chunks fuel n data) = data /\ Forall (fun c => (0 < length c <= n)%nat) (chunks fuel n data).
Proof.
  intros Hn. revert data. induction fuel as [|fuel IH]; intros data Hf.
  { destruct data; [done|cbn in Hf; lia]. }
  destruct data as [|b data]; [done|]. cbn [chunks]. set (l := b :: data) in *.
  destruct (IH (drop n l)) as [Hc Ha]; [rewrite length_drop; unfold l in *; cbn in *; lia|].
  split; [cbn [concat]; rewrite Hc; apply take_drop|]. constructor; [|done].
  rewrite length_take. unfold l. cbn [length]. lia.
Qed.

Lemma send_chunks_wire kind l io :
  faults io = [] -> Forall (fun c => len c <= U16_MAX) l ->
  send_chunks kind l io = (mkIo (wire io ++ encode_records (map (pair kind) l)) [] (incoming io), Ok tt).
Proof.
  intros Hf Hl. revert io Hf. induction Hl as [|c l Hc _ IH]; intros io Hf; cbn [send_chunks map encode_records].
  { rewrite app_nil_r. destruct io. cbn in *. by subst. }
  unfold st_bind. rewrite send_record_wire by done. rewrite IH by done. cbn [wire incoming]. by rewrite <- app_assoc.
Qed.

(** The records [send_records] makes of its data. *)
Definition records_of (kind : Z) (data : bytes) : list (Z * bytes) :=
  map (pair kind) (chunks (length data) (Z.to_nat MAX_RECORD) data).

Lemma records_of_spec kind data :
  concat (map snd (records_of kind data)) = data /\
  Forall (fun r => fst r = kind /\ 0 < len (snd r) <= U16_MAX) (records_of kind data).
Proof.
  destruct (chunks_spec (length data) (Z.to_nat MAX_RECORD) data) as [Hc Ha]; [unfold MAX_RECORD; lia|done|].
  unfold records_of. split.
  - rewrite map_map. cbn [snd]. by rewrite map_id.
  - apply Forall_map. eapply Forall_impl; [exact Ha|]. intros c Hl. cbn in *. unfold len, MAX_RECORD, U16_MAX in *. lia.
Qed.

Lemma send_records_wire kind data io :
  faults io = [] ->
  send_records kind data io = (mkIo (wire io ++ encode_records (records_of kind data)) [] (incoming io), Ok tt).
Proof.
  intros Hf. unfold send_records. apply send_chunks_wire; [done|].
  destruct (records_of_spec kind data) as [_ Ha]. unfold records_of in Ha. apply Forall_map in Ha.
  eapply Forall_impl; [exact Ha|]. cbn. lia.
Qed.

(** Reading records back, with the reader's own decoder. *)
Fixpoint decode_records (fuel : nat) (wire : bytes) : option (list (Z * bytes)) :=
  match fuel, wire with
  | _, [] => Some []
  | O, _ => None
  | S fuel, _ =>
      match take_record wire with
      | Ok (Some (kind, content, rest)) => option_map (cons (kind, content)) (decode_records fuel rest)
      | _ => None
      end
  end.

Lemma encode_record_cons kind content : exists b r, encode_record kind content = b :: r.
Proof. by eexists _, _. Qed.

Lemma decode_encode_records l :
  Forall (fun r => len (snd r) <= U16_MAX) l -> decode_records (length l) (encode_records l) = Some l.
Proof.
  induction 1 as [|[k c] l Hc _ IH]; [done|]. cbn [encode_records length].
  destruct (encode_record_cons k c) as (b & r & E).
  cbn [decode_records]. rewrite E at 1. cbn [app]. rewrite take_record_encode by done. by rewrite IH.
Qed.

(** ** Parameters *)

(** The decoder of name-value pairs of the FastCGI specification. *)
Definition decode_len (l : bytes) : option (Z * bytes) :=
  match l with
  | [] => None
  | b :: l =>
      if b <? 128 then Some (b, l)
      else match l with
           | b2 :: b1 :: b0 :: l => Some ((b - 128) * 2 ^ 24 + b2 * 2 ^ 16 + b1 * 2 ^ 8 + b0, l)
           | _ => None
           end
  end.

Fixpoint decode_params (fuel : nat) (l : bytes) : option (list (bytes * bytes)) :=
  match fuel, l with
  | _, [] => Some []
  | O, _ => None
  | S fuel, _ =>
      match decode_len l with
      | Some (n, l) =>
          match decode_len l with
          | Some (v, l) =>
              option_map (cons (take (Z.to_nat n) l, take (Z.to_nat v) (drop (Z.to_nat n) l)))
                (decode_params fuel (drop (Z.to_nat (n + v)) l))
          | None => None
          end
      | None => None
      end
  end.

Definition encode_param (p : bytes * bytes) : bytes := append_param [] (fst p) (snd p).

(** The parameters of a request, in order. *)
Definition request_params (req : HttpRequest) (route : FastCgiRoute) (script : bytes)
  (script_uri : option bytes) (secure : bool) (remote : bytes) (body_length : Z) : list (bytes * bytes) :=
  let path := match script_uri with Some p => p | None => target_path (uri req) end in
  let header name := match get_header req name with Some v => v | None => [] end in
  [(str "REQUEST_METHOD", method_display (method req));
   (str "QUERY_STRING", match split_once 63 (uri req) with Some (_, q) => q | None => [] end);
   (str "CONTENT_TYPE", header (str "Content-Type"));
   (str "CONTENT_LENGTH", to_string body_length);
   (str "SCRIPT_FILENAME", script);
   (str "SCRIPT_NAME", path);
   (str "REQUEST_URI", uri req);
   (str "DOCUMENT_URI", path);
   (str "DOCUMENT_ROOT", fcgi_document_root route);
   (str "SERVER_NAME", header (str "Host"));
   (str "SERVER_PORT", if secure then str "443" else str "80");
   (str "SERVER_PROTOCOL", version req);
   (str "REMOTE_ADDR", remote);
   (str "HTTPS", if secure then str "on" else str "off")]
  ++ map (fun h => (str "HTTP_" ++ to_ascii_uppercase (replace_char 45 [95] (fst h)), snd h))
       (List.filter (fun h => negb (eq_ignore_ascii_case (fst h) (str "Content-Type")
                                    || eq_ignore_ascii_case (fst h) (str "Content-Length"))) (headers req)).

Lemma append_param_nil out n v : append_param out n v = out ++ encode_param (n, v).
Proof. done. Qed.

Lemma fold_append l out :
  fold_left (fun out p => append_param out (fst p) (snd p)) l out = out ++ concat (map encode_param l).
Proof.
  revert out. induction l as [|p l IH]; intros out; cbn [fold_left map concat]; [by rewrite app_nil_r|].
  by rewrite IH, append_param_nil, <- surjective_pairing, app_assoc.
Qed.

Lemma build_params_list req route script script_uri secure remote n :
  build_params req route script script_uri secure remote n =
  concat (map encode_param (request_params req route script script_uri secure remote n)).
Proof.
  unfold build_params, request_params. cbv zeta. rewrite (fold_append _ []), map_app, concat_app. cbn [app].
  set (base := concat _). generalize base. clear base. generalize (headers req). clear.
  induction l as [|[name value] l IH]; intros out; cbn [fold_left List.filter map concat fst snd];
    [by rewrite app_nil_r|].
  destruct (_ || _); cbn [negb map concat]; rewrite IH; [done|]. by rewrite append_param_nil, app_assoc.
Qed.

Lemma decode_encode_len n rest : 0 <= n < 2 ^ 31 -> decode_len (encode_len n ++ rest) = Some (n, rest).
Proof.
  intros Hn. unfold encode_len. destruct (Z.ltb_spec n 128) as [Hs|Hl].
  { cbn [app decode_len]. by replace (n <? 128) with true by lia. }
  assert (Hor : Z.lor (n mod 2 ^ 32) (2 ^ 31) = n + 2 ^ 31).
  { rewrite Z.mod_small by lia. symmetry. rewrite <- Z.lxor_lor, <- Z.add_nocarry_lxor; try done.
    all: apply Z.bits_inj'; intros i Hi; rewrite Z.land_spec, Z.bits_0, Z.pow2_bits_eqb by lia;
      destruct (Z.eqb_spec 31 i) as [<-|]; [|by rewrite andb_false_r];
      rewrite andb_true_r; apply Z.testbit_false; [lia|]; rewrite Z.div_small; [done|lia]. }
  rewrite Hor. cbv zeta. set (v := n + 2 ^ 31). cbn [app decode_len].
  assert (Hv : 2 ^ 31 <= v < 2 ^ 32) by (unfold v; lia).
  replace (v / 2 ^ 24 <? 128) with false by (symmetry; apply Z.ltb_ge; apply Z.div_le_lower_bound; lia).
  do 2 f_equal. change (2 ^ 24) with 16777216. change (2 ^ 16) with 65536. change (2 ^ 8) with 256.
  enough (v = v / 16777216 * 16777216 + v / 65536 mod 256 * 65536 + v / 256 mod 256 * 256 + v mod 256)
    by (unfold v in *; lia).
  zlia.
Qed.

Lemma decode_encode_param p rest fuel :
  len (fst p) < 2 ^ 31 -> len (snd p) < 2 ^ 31 ->
  decode_params (S fuel) (encode_param p ++ rest) = option_map (cons p) (decode_params fuel rest).
Proof.
  intros Hn Hv. destruct p as [n v]. cbn [fst snd] in *. unfold encode_param, append_param. cbn [fst snd app].
  pose proof (len_nonneg n). pose proof (len_nonneg v).
  rewrite <- !app_assoc. cbn [decode_params].
  assert (Hne : encode_len (len n) ++ encode_len (len v) ++ n ++ v ++ rest <> []).
  { unfold encode_len. by case_match. }
  destruct (encode_len (len n) ++ encode_len (len v) ++ n ++ v ++ rest) as [|b0 l0] eqn:E; [done|].
  rewrite <- E. rewrite decode_encode_len by lia. rewrite decode_encode_len by lia.
  unfold len. rewrite <- Nat2Z.inj_add, !Nat2Z.id. f_equal.
  - rewrite take_app_length, drop_app_length, take_app_length. done.
  - f_equal. rewrite app_assoc. rewrite <- length_app. by rewrite drop_app_length.
Qed.

Lemma decode_encode_params l :
  Forall (fun p => len (fst p) < 2 ^ 31 /\ len (snd p) < 2 ^ 31) l ->
  decode_params (length l) (concat (map encode_param l)) = Some l.
Proof.
  induction 1 as [|p l [Hn Hv] _ IH]; [done|]. cbn [length map concat]. rewrite decode_encode_param by done.
  by rewrite IH.
Qed.

(** ** The request on the wire *)

Section Requests.
Context `{UnicodeCase} {Fd : Type}.
Implicit Types (fs : FileSystem Fd).

(** What [written] after [before] consists of. *)
Definition wrote (before after : Io) (records : list (Z * bytes)) : Prop :=
  wire after = wire before ++ encode_records records /\
  decode_records (length records) (encode_records records) = Some records.

Lemma wrote_intro before after records :
  wire after = wire before ++ encode_records records -> Forall (fun r => len (snd r) <= U16_MAX) records ->
  wrote before after records.
Proof. intros Hw Hl. split; [done|by apply decode_encode_records]. Qed.

Lemma records_small kind data : Forall (fun r => len (snd r) <= U16_MAX) (records_of kind data).
Proof. destruct (records_of_spec kind data) as [_ Ha]. eapply Forall_impl; [exact Ha|]. cbn. lia. Qed.

Lemma bind_ok {S E A B} (m : ST S E A) (k : A -> ST S E B) s s' a :
  m s = (s', Ok a) -> st_bind m k s = k a s'.
Proof. unfold st_bind. by intros ->. Qed.

Definition BEGIN_BODY : bytes := [0; 1; 0; 0; 0; 0; 0; 0].

Lemma send_begin_wire io :
  faults io = [] -> send_begin io = (mkIo (wire io ++ encode_records [(BEGIN_REQUEST, BEGIN_BODY)]) [] (incoming io), Ok tt).
Proof. intros Hf. unfold send_begin. rewrite send_record_wire by done. cbn [encode_records]. by rewrite app_nil_r. Qed.

Lemma send_empty_wire kind io :
  faults io = [] -> send_record kind [] io = (mkIo (wire io ++ encode_records [(kind, [])]) [] (incoming io), Ok tt).
Proof. intros Hf. rewrite send_record_wire by done. cbn [encode_records]. by rewrite app_nil_r. Qed.

(** The records of a whole request in the order FastCGI asks for: the two
    streams each end with an empty record. *)
Definition request_records (params body : bytes) : list (Z * bytes) :=
  [(BEGIN_REQUEST, BEGIN_BODY)] ++ records_of PARAMS params ++ [(PARAMS, [])]
  ++ records_of STDIN body ++ [(STDIN, [])].

(** The content of a stream: the concatenation of its records. *)
Definition stream_of (kind : Z) (l : list (Z * bytes)) : bytes :=
  concat (map snd (List.filter (fun r => fst r =? kind) l)).

Lemma stream_of_app kind a b : stream_of kind (a ++ b) = stream_of kind a ++ stream_of kind b.
Proof. unfold stream_of. by rewrite List.filter_app, map_app, concat_app. Qed.

Lemma stream_of_records kind k data :
  stream_of kind (records_of k data) = if k =? kind then data else [].
Proof.
  destruct (records_of_spec k data) as [Hc Ha]. unfold stream_of.
  assert (Hf : forall l : list (Z * bytes), Forall (fun r => fst r = k /\ 0 < len (snd r) <= U16_MAX) l ->
    List.filter (fun r => fst r =? kind) l = if k =? kind then l else []).
  { induction 1 as [|[k' c] l [Hk _] _ IH]; [by case_match|]. cbn in *. subst k'. rewrite IH. by case_match. }
  rewrite Hf by done. case_match; [done|]. done.
Qed.

Lemma stream_of_one kind k c : stream_of kind [(k, c)] = if k =? kind then c else [].
Proof. unfold stream_of. cbn [List.filter fst]. case_match; [|done]. cbn. by rewrite app_nil_r. Qed.

Lemma request_streams params body :
  stream_of STDIN (request_records params body) = body /\ stream_of PARAMS (request_records params body) = params.
Proof.
  unfold request_records. rewrite !stream_of_app, !stream_of_records, !stream_of_one.
  change (BEGIN_REQUEST =? STDIN) with false. change (BEGIN_REQUEST =? PARAMS) with false.
  change (PARAMS =? STDIN) with false. change (STDIN =? PARAMS) with false. rewrite !Z.eqb_refl. cbn [app].
  by rewrite !app_nil_r.
Qed.

(** An HTTP/2 request is handed to the script's server whole.
    The records written to a connection that takes them decode to a
    BEGIN_REQUEST, the PARAMS stream and the STDIN stream, each ended by an
    empty record; PARAMS decodes to the parameters of the request in order
    (when no length reaches 2^31) and STDIN is its body. *)
Theorem fastcgi_request_round_trip fuel fs req config secure remote now io io' p :
  faults io = [] ->
  begin_h2_response fuel fs true true req config secure remote now io = (io', Ok (Some p)) ->
  exists route script_uri script, select_route fuel fs req config = Some (route, script_uri) /\
    script_path_for_uri fuel fs route req script_uri = Ok script /\
    let params := request_params req route script script_uri secure remote (len (body req)) in
    exists records, wrote io io' records /\
      (exists a b, records = [(BEGIN_REQUEST, BEGIN_BODY)] ++ a ++ [(PARAMS, [])] ++ b ++ [(STDIN, [])] /\
         Forall (fun r => fst r = PARAMS /\ snd r <> []) a /\ Forall (fun r => fst r = STDIN /\ snd r <> []) b) /\
      stream_of STDIN records = body req /\
      (Forall (fun p => len (fst p) < 2 ^ 31 /\ len (snd p) < 2 ^ 31) params ->
       decode_params (length params) (stream_of PARAMS records) = Some params).
Proof.
  intros Hf. unfold begin_h2_response.
  destruct (select_route fuel fs req config) as [[route script_uri]|] eqn:Hr; [|done].
  destruct (fcgi_method (method req)); cbn [negb]; [|done].
  destruct (check_document_root fs route config) as [[]|]; [|done|done].
  change (st_bind (st_res (Ok true)) ?k io) with (k true io). cbn [negb].
  destruct (script_path_for_uri fuel fs route req script_uri) as [script|] eqn:Hs; [|done].
  change (st_bind (st_res (Ok script)) ?k io) with (k script io). cbn [negb orb].
  erewrite bind_ok by (by apply send_begin_wire). erewrite bind_ok by (by apply send_records_wire).
  erewrite bind_ok by (by apply send_empty_wire). erewrite bind_ok by (by apply send_records_wire).
  erewrite bind_ok by (by apply send_empty_wire). intros [= <- <-].
  exists route, script_uri, script. split_and!; [done..|].
  set (params := request_params _ _ _ _ _ _ _). rewrite build_params_list. fold params. cbn [wire].
  set (pbytes := concat (map encode_param params)). exists (request_records pbytes (body req)).
  assert (Hne : forall k d, Forall (fun r => fst r = k /\ snd r <> []) (records_of k d)).
  { intros k d. eapply Forall_impl; [apply records_of_spec|]. intros [k' c] [-> Hl]. split; [done|].
    cbn [fst snd] in *. intros ->. by destruct Hl. }
  split_and!.
  - apply wrote_intro.
    + cbn [wire]. unfold request_records. rewrite !encode_records_app, !app_assoc. done.
    + unfold request_records. repeat match goal with |- Forall _ (_ ++ _) => apply Forall_app_2 end; try apply records_small;
        by apply (bool_decide_unpack _).
  - by exists (records_of PARAMS pbytes), (records_of STDIN (body req)).
  - apply request_streams.
  - intros Hl. rewrite (proj2 (request_streams _ _)). by apply decode_encode_params.
Qed.
End Requests.

(** ** Script paths *)

Lemma join_split c l : join_with [c] (split_on c l) = l.
Proof.
  induction l as [|b l IH]; [done|]. cbn [split_on]. destruct (split_on_cons c l) as (s & ss & E). rewrite E in *.
  destruct (Z.eqb_spec b c) as [->|Hb].
  - change (join_with [c] ([] :: s :: ss)) with ([] ++ [c] ++ join_with [c] (s :: ss)). by rewrite IH.
  - cbn [cons_head]. destruct ss as [|s' ss]; cbn in *; by rewrite <- IH.
Qed.

Section Scripts.
Context `{UnicodeCase} {Fd : Type}.
Implicit Types (fs : FileSystem Fd).

(** C36 (safety): the path handed to a script's server is checked.  It is the
    document root of the route followed by the decoded request path (or the front
    controller), all of whose components are plain names, and when it is checked
    it names a file that is no directory, reached from that root by opening the
    names one after the other without following symbolic links.  The script's
    server opens the path again by itself; nothing is said of what it finds. *)
Theorem script_beneath_root fuel fs route req script_uri path :
  script_path_for_uri fuel fs route req script_uri = Ok path ->
  exists names root_fd fd meta,
    names <> [] /\ Forall safe_name names /\
    option_map (trim_start_char 47)
      (percent_decode (match script_uri with Some p => p | None => target_path (uri req) end))
      = Some (join_with [47] names) /\
    path = path_push (fcgi_document_root route) (join_with [47] names) /\
    file_open fs (fcgi_document_root route) = Some root_fd /\ reached fs root_fd names fd /\
    metadata fs fd = Some meta /\ meta_is_dir meta = false.
Proof.
  unfold script_path_for_uri. set (raw := match script_uri with Some p => p | None => _ end).
  destruct (percent_decode raw) as [decoded|]; [|done]. set (relative := trim_start_char 47 decoded).
  destruct (bytes_eqb relative [] || _) eqn:E; [done|]. apply orb_false_iff in E as [Hne Hparts].
  unfold secure_script_path. destruct (open_beneath_with_index _ _ _ _ _) as [[fd p]|] eqn:Ho; [|done].
  intros [= <-]. set (names := split_on 47 relative) in *.
  assert (Hsafe : Forall safe_name names).
  { apply existsb_false_Forall in Hparts. pose proof (split_on_segments 47 relative) as Hseg.
    apply Forall_forall. intros n Hn. rewrite Forall_forall in Hparts, Hseg.
    specialize (Hparts n Hn). specialize (Hseg n Hn). rewrite !orb_false_iff, !bytes_eqb_neq in Hparts.
    unfold safe_name. tauto. }
  assert (Hj : relative = join_with [47] names) by (symmetry; apply join_split).
  rewrite Hj in Ho. apply open_beneath_reached in Ho as (rfd & extra & meta & Hf & Hre & Hex & -> & Hm & Hd); [|done..].
  assert (extra = []) as -> by (destruct extra as [|x ?]; [done|]; inversion Hex as [|? ? Hx]; by apply elem_of_nil in Hx).
  rewrite app_nil_r in *. exists names, rfd, fd, meta. split_and!; try done.
  - destruct (split_on_cons 47 relative) as (s & ss & Es). unfold names. by rewrite Es.
  - cbn [option_map]. by rewrite <- Hj.
Qed.
End Scripts.

(** ** Response heads *)

(** What a header of a script's response must be to be passed on. *)
Record header_ok (h : bytes * bytes) : Prop := {
  hok_name : fst h <> [] /\ Forall (fun b => is_header_byte b = true) (fst h);
  hok_value : Forall (fun b => b <> 13 /\ b <> 10 /\ b <> 0) (snd h);
  hok_framing : to_ascii_lowercase (fst h) ∉ framing_headers;
}.

Lemma header_of_line_ok line h : header_of_line line = Ok h -> header_ok h.
Proof.
  unfold header_of_line. intros ([n v] & _ & H)%rbind_ok. apply rbind_ok in H as (u & Hv & [= <-]).
  unfold validate_fastcgi_header in Hv. destruct (_ || _ || _) eqn:E; [done|].
  destruct (existsb _ framing_headers) eqn:Hf; [done|]. rewrite !orb_false_iff in E. destruct E as [[E1 E2] E3].
  constructor; cbn [fst snd].
  - split; [by apply bytes_eqb_neq in E1|]. apply negb_false_iff in E2. apply Forall_forall. intros b Hb.
    exact (proj1 (forallb_forall _ _) E2 b (proj1 (list_elem_of_In _ _) Hb)).
  - apply existsb_false_Forall in E3. eapply Forall_impl; [exact E3|]. intros b Hb. cbn in Hb. zbool. lia.
  - apply existsb_false_Forall in Hf. rewrite Forall_forall in Hf. intros Hin. apply Hf in Hin.
    by rewrite bytes_eqb_neq in Hin.
Qed.

Lemma header_byte_no_break b : is_header_byte b = true -> b <> 13 /\ b <> 10.
Proof. intros Hb. split; intros ->; by vm_compute in Hb. Qed.

Lemma header_ok_clean h : header_ok h -> no_crlf (fst h) /\ no_crlf (snd h).
Proof.
  intros [[_ Hn] Hv _]. split.
  - eapply Forall_impl; [exact Hn|apply header_byte_no_break].
  - eapply Forall_impl; [exact Hv|]. cbn. tauto.
Qed.

Lemma parse_fastcgi_status_range v n : parse_fastcgi_status v = Ok n -> 100 <= n <= 599.
Proof.
  unfold parse_fastcgi_status. destruct (split_whitespace v) as [|w ws]; [done|].
  intros (s & _ & Hs)%rbind_ok. unfold between in Hs. destruct (_ && _) eqn:E; [|done]. simplify_eq. zbool. lia.
Qed.

(** The announced length is that of every Content-Length header. *)
Definition lengths_agree (h : FastCgiHeaders) : Prop :=
  forall name value, (name, value) ∈ fh_headers h -> eq_ignore_ascii_case name (str "Content-Length") = true ->
    exists n, parse_u64 value = Some n /\ fh_content_length h = Some n.

Record head_ok (h : FastCgiHeaders) : Prop := {
  hd_status : 100 <= fh_status h <= 599;
  hd_headers : Forall header_ok (fh_headers h);
  hd_lengths : lengths_agree h;
  hd_length_known : forall n, fh_content_length h = Some n ->
    exists name value, (name, value) ∈ fh_headers h /\ eq_ignore_ascii_case name (str "Content-Length") = true;
}.

Lemma parse_length_ok known v n :
  parse_length known v = Ok n -> parse_u64 v = Some n /\ (known = None \/ known = Some n).
Proof.
  unfold parse_length. intros (m & Hm & Hk)%rbind_ok. unfold ok_or in Hm. destruct (parse_u64 v) as [m'|]; [|done].
  simplify_eq. destruct known as [k|]; [|simplify_eq; auto]. destruct (Z.eqb_spec k m); [|done]. simplify_eq. auto.
Qed.

Lemma h2_header_ok acc line acc' : head_ok acc -> h2_header acc line = Ok acc' -> head_ok acc'.
Proof.
  intros [Hs Hh Hl Hk]. unfold h2_header. intros ([name value] & Hline & H)%rbind_ok.
  apply header_of_line_ok in Hline. destruct (eq_ignore_ascii_case name (str "Status")).
  { apply rbind_ok in H as (s & Hs' & [= <-]). apply parse_fastcgi_status_range in Hs'. by constructor. }
  destruct (_ || _); [done|]. apply rbind_ok in H as (length & Hlen & [= <-]).
  assert (Hall : Forall header_ok (fh_headers acc ++ [(name, value)])) by (apply Forall_app_2; [done|by constructor]).
  destruct (eq_ignore_ascii_case name (str "Content-Length")) eqn:Hn.
  - apply rbind_ok in Hlen as (n & Hp & [= <-]). apply parse_length_ok in Hp as [Hp Hknown].
    constructor; cbn [fh_status fh_headers fh_content_length]; try done.
    + intros nm v [Hin|[= -> ->]%list_elem_of_singleton]%elem_of_app Heq; [|by exists n].
      destruct (Hl _ _ Hin Heq) as (m & Hm & Hc). destruct Hknown as [Hc'|Hc']; rewrite Hc in Hc'; [done|].
      exists m. split; [done|]. cbn. by simplify_eq.
    + intros _ _. exists name, value. split; [set_solver|done].
  - simplify_eq. constructor; cbn [fh_status fh_headers fh_content_length]; try done.
    + intros nm v [Hin|[= -> ->]%list_elem_of_singleton]%elem_of_app Heq; [by eapply Hl|]. by rewrite Hn in Heq.
    + intros n Hc. destruct (Hk n Hc) as (nm & v & Hin & Heq). exists nm, v. split; [set_solver|done].
Qed.

Lemma script_head_ok raw h : parse_h2_fastcgi_headers raw = Ok h -> head_ok h.
Proof.
  unfold parse_h2_fastcgi_headers. destruct (utf8_valid raw); [|done]. cbn [negb].
  apply fold_result_inv; [apply h2_header_ok|]. constructor; cbn; [lia|constructor|by intros ? ? ?%elem_of_nil|done].
Qed.

(** ** The reader of a response body *)

(** A record takes at least its header from what is pending. *)
Lemma take_record_shorter wire kind data rest :
  take_record wire = Ok (Some (kind, data, rest)) -> (length rest + 8 <= length wire)%nat.
Proof.
  unfold take_record. do 8 (destruct wire as [|? wire]; [done|]). cbv zeta. repeat (case_match; try done).
  intros [= _ _ <-]. cbn [length]. rewrite length_drop. lia.
Qed.

Lemma reader_size_read r n r' x : 0 < n -> read r n = (r', x) -> (reader_size r' <= reader_size r)%nat.
Proof. intros Hn Hr. destruct (read_size r n r' x Hn Hr) as [->|?]; [|lia]. cbn in Hr. simplify_eq. done. Qed.

Lemma read_growth r n r' d : 0 < n -> read r n = (r', ReadOk d) -> d <> [] -> (reader_size r' + length d <= reader_size r)%nat.
Proof.
  unfold read. intros Hn. destruct r as [|[e| |] r]; try done; [by intros [= _ <-]|].
  destruct (Z.leb_spec (len e) n); intros [= <- <-] Hd; cbn [reader_size event_size]; [lia|].
  rewrite length_take, length_drop. unfold len in *. lia.
Qed.

(** What the loop leaves behind: less to come, the rest untouched. *)
Definition same_body (s s' : FastCgiH2Reader) : Prop :=
  fr_ready s' = fr_ready s /\ fr_offset s' = fr_offset s /\ fr_done s' = fr_done s /\
  fr_content_length s' = fr_content_length s /\ fr_body_bytes s' = fr_body_bytes s.

Lemma read_record_loop_spec fuel s s' r :
  read_record_loop fuel s = (s', r) ->
  same_body s s' /\ (pending_bytes s' <= pending_bytes s)%nat /\
  match r with
  | Ok (Some _) => (pending_bytes s' + 8 <= pending_bytes s)%nat
  | Err (Custom WouldBlock _) => (pending_bytes s' < pending_bytes s)%nat
  | _ => True
  end.
Proof.
  revert s. induction fuel as [|fuel IH]; intros s; cbn [read_record_loop];
    destruct (take_record (fr_wire s)) as [[[[kind data] rest]|]|e] eqn:Ht.
  1,4: intros [= <- <-]; apply take_record_shorter in Ht; unfold pending_bytes; cbn;
       split_and!; [done|lia|lia].
  1: by intros [= <- <-].
  1,3: intros [= <- <-]; split_and!; [done|done|]; unfold take_record in Ht; repeat case_match; by simplify_eq.
  destruct (read (fr_upstream s) (16 * 1024)) as [up x] eqn:Hr. assert (Hp : 0 < 16 * 1024) by lia.
  pose proof (reader_size_read _ _ _ _ Hp Hr) as Hle.
  destruct x as [d| |].
  - destruct d as [|b d].
    + intros [= <- <-]. unfold pending_bytes. cbn. split_and!; [done|lia|done].
    + intros Hloop. apply IH in Hloop as (Hs & Hpe & Hres).
      pose proof (read_growth _ _ _ _ Hp Hr ltac:(done)) as Hg.
      unfold pending_bytes in *. cbn [set_wire fr_wire fr_upstream] in *. rewrite length_app in *.
      split_and!; [done|lia|]. repeat case_match; lia || done.
  - intros [= <- <-]. destruct (read_size _ _ _ _ Hp Hr) as [E|Hlt]; [rewrite E in Hr; by cbn in Hr; simplify_eq|].
    unfold pending_bytes. cbn. split_and!; [done|lia|lia].
  - intros [= <- <-]. unfold pending_bytes. cbn. by split_and!; [|lia|].
Qed.

(** Between calls the bytes that are ready have not all been taken. *)
Definition reader_inv (s : FastCgiH2Reader) : Prop :=
  0 <= fr_offset s /\ (fr_ready s = [] /\ fr_offset s = 0 \/ fr_offset s < len (fr_ready s)).

Lemma consume_record_spec kind data s s' :
  consume_record kind data s = Ok s' ->
  fr_upstream s' = fr_upstream s /\ fr_wire s' = fr_wire s /\ fr_offset s' = fr_offset s /\
  fr_content_length s' = fr_content_length s /\
  fr_ready s' = fr_ready s ++ (if kind =? STDOUT then data else []).
Proof.
  unfold consume_record. destruct (kind =? STDOUT); [case_match; [done|]; by intros [= <-]|].
  rewrite app_nil_r. destruct (kind =? END_REQUEST); [case_match; [done|]; case_match; [done|]|]; by intros [= <-].
Qed.

(** The bytes of [ready] as the reader script has them. *)
Definition clear_ready (s : FastCgiH2Reader) : FastCgiH2Reader :=
  mkFastCgiH2Reader (fr_upstream s) (fr_wire s) [] 0 (fr_done s) (fr_content_length s) (fr_body_bytes s).

(** The response body as the script of outcomes the HTTP/2 driver models a
    reader by: what is ready, then one record after the other, up to the end of
    the request or the first error. *)
Fixpoint body_script (fuel : nat) (s : FastCgiH2Reader) : Reader :=
  match fuel with
  | O => []
  | S fuel =>
      if fr_offset s <? len (fr_ready s)
      then RData (drop (Z.to_nat (fr_offset s)) (fr_ready s)) :: body_script fuel (clear_ready s)
      else if fr_done s then []
      else
        let '(s, r) := read_record s in
        match r with
        | Ok (Some (kind, data)) =>
            match consume_record kind data s with
            | Ok s => body_script fuel s
            | Err _ => [RFail]
            end
        | Err (Custom WouldBlock _) => RWouldBlock :: body_script fuel s
        | _ => [RFail]
        end
  end.

(** Steps until the script ends. *)
Definition steps (s : FastCgiH2Reader) : nat :=
  (2 * pending_bytes s + (if (fr_offset s <? len (fr_ready s))%Z then 1 else 0))%nat.

Definition body_reader (s : FastCgiH2Reader) : Reader := body_script (S (steps s)) s.

Lemma steps_ready s : (fr_offset s <? len (fr_ready s)) = true -> steps s = S (steps (clear_ready s)).
Proof. unfold steps. intros ->. unfold pending_bytes, clear_ready. cbn [fr_offset fr_ready fr_wire fr_upstream].
  change (0 <? len []) with false. cbv iota. lia.
Qed.

Lemma steps_bound s : (steps s <= S (2 * pending_bytes s))%nat.
Proof. unfold steps. case_match; lia. Qed.

Lemma steps_idle s : (fr_offset s <? len (fr_ready s)) = false -> steps s = (2 * pending_bytes s)%nat.
Proof. unfold steps. intros ->. lia. Qed.

(** What remains after a record, or after finding none. *)
Lemma steps_record s s1 kind data s2 :
  (fr_offset s <? len (fr_ready s)) = false -> read_record s = (s1, Ok (Some (kind, data))) ->
  consume_record kind data s1 = Ok s2 -> (steps s2 < steps s)%nat.
Proof.
  intros Hf Hr Hc. apply read_record_loop_spec in Hr as (_ & _ & Hp). apply consume_record_spec in Hc as (Hu & Hw & _).
  rewrite (steps_idle s) by done. pose proof (steps_bound s2) as Hb. unfold pending_bytes in *. rewrite Hu, Hw in Hb. lia.
Qed.

Lemma steps_blocked s s1 m :
  (fr_offset s <? len (fr_ready s)) = false -> read_record s = (s1, Err (Custom WouldBlock m)) ->
  (steps s1 < steps s)%nat.
Proof.
  intros Hf Hr. apply read_record_loop_spec in Hr as ((Hrd & Ho & _) & _ & Hp).
  rewrite (steps_idle s) by done. rewrite (steps_idle s1) by (by rewrite Hrd, Ho). lia.
Qed.

Lemma body_script_fuel f1 f2 s : (steps s < f1)%nat -> (steps s < f2)%nat -> body_script f1 s = body_script f2 s.
Proof.
  revert f2 s. induction f1 as [|f1 IH]; intros f2 s H1 H2; [lia|]. destruct f2 as [|f2]; [lia|].
  cbn [body_script]. destruct (fr_offset s <? len (fr_ready s)) eqn:Hf.
  - rewrite steps_ready in H1, H2 by done. f_equal. apply IH; lia.
  - destruct (fr_done s); [done|]. destruct (read_record s) as [s1 r] eqn:Hr.
    destruct r as [[[kind data]|]|[|[] m]]; try done.
    + destruct (consume_record kind data s1) as [s2|] eqn:Hc; [|done].
      pose proof (steps_record _ _ _ _ _ Hf Hr Hc). apply IH; lia.
    + pose proof (steps_blocked _ _ _ Hf Hr). f_equal. apply IH; lia.
Qed.

(** One step of the script. *)
Lemma body_reader_unfold s :
  body_reader s =
  if fr_offset s <? len (fr_ready s)
  then RData (drop (Z.to_nat (fr_offset s)) (fr_ready s)) :: body_reader (clear_ready s)
  else if fr_done s then []
  else
    let '(s, r) := read_record s in
    match r with
    | Ok (Some (kind, data)) =>
        match consume_record kind data s with Ok s => body_reader s | Err _ => [RFail] end
    | Err (Custom WouldBlock _) => RWouldBlock :: body_reader s
    | _ => [RFail]
    end.
Proof.
  unfold body_reader at 1. cbn [body_script]. destruct (fr_offset s <? len (fr_ready s)) eqn:Hf.
  - f_equal. apply body_script_fuel; [|lia]. rewrite (steps_ready s) by done. lia.
  - destruct (fr_done s); [done|]. destruct (read_record s) as [s1 r] eqn:Hr.
    destruct r as [[[kind data]|]|[|[] m]]; try done.
    + destruct (consume_record kind data s1) as [s2|] eqn:Hc; [|done].
      pose proof (steps_record _ _ _ _ _ Hf Hr Hc). apply body_script_fuel; lia.
    + pose proof (steps_blocked _ _ _ Hf Hr). f_equal. apply body_script_fuel; lia.
Qed.

Lemma take_ready_spec n s s' out :
  0 < n -> 0 <= fr_offset s < len (fr_ready s) -> take_ready n s = (s', out) ->
  read (body_reader s) n = (body_reader s', ReadOk out) /\ reader_inv s' /\ out <> [].
Proof.
  intros Hn Ho. rewrite (body_reader_unfold s). replace (fr_offset s <? len (fr_ready s)) with true by lia.
  unfold take_ready, slice. set (rd := fr_ready s) in *. set (o := fr_offset s) in *.
  assert (Hlen : len (drop (Z.to_nat o) rd) = len rd - o) by (unfold len in *; rewrite length_drop; lia).
  assert (Hz : forall a : Z, o + a - o = a) by lia. cbn [read]. rewrite Hlen, Hz.
  destruct (Z.leb_spec (len rd - o) n) as [Hle|Hgt].
  - rewrite Z.min_r by lia. replace (o + (len rd - o) =? len rd) with true by lia. intros [= <- <-].
    rewrite take_ge by (unfold len in *; rewrite length_drop; lia). split_and!; [done|split; [done|by left]|].
    intros E. rewrite E, len_nil in Hlen. lia.
  - rewrite Z.min_l by lia. replace (o + n =? len rd) with false by lia. intros [= <- <-]. split_and!.
    + rewrite (body_reader_unfold (mkFastCgiH2Reader _ _ rd _ _ _ _)). cbn [fr_offset fr_ready].
      replace (o + n <? len rd) with true by lia. rewrite drop_drop.
      by replace (Z.to_nat (o + n)) with (Z.to_nat o + Z.to_nat n)%nat by lia.
    + split; cbn; [lia|right; lia].
    + intros E. apply (f_equal length) in E. rewrite length_take in E. cbn in E. unfold len in *. lia.
Qed.

(** The outcome of a call in the driver's terms. *)
Definition read_outcome (r : result bytes IoErr) : ReadResult :=
  match r with
  | Ok d => ReadOk d
  | Err (Custom WouldBlock _) => ReadWouldBlock
  | Err _ => ReadErr
  end.

Lemma reader_read_loop_refines fuel n s s' r :
  0 < n -> fr_ready s = [] -> fr_offset s = 0 -> fr_done s = false -> (pending_bytes s < fuel)%nat ->
  reader_read_loop fuel n s = (s', r) ->
  snd (read (body_reader s) n) = read_outcome r /\
  (read_outcome r <> ReadErr -> fst (read (body_reader s) n) = body_reader s' /\ reader_inv s').
Proof.
  intros Hn. revert s. induction fuel as [|fuel IH]; intros s Hrd Ho Hdn Hf; [lia|]. cbn [reader_read_loop].
  assert (Hlt : fr_offset s <? len (fr_ready s) = false) by (rewrite Hrd, Ho; done).
  rewrite (body_reader_unfold s), Hlt, Hdn. destruct (read_record s) as [s1 x] eqn:Hr.
  pose proof (read_record_loop_spec _ _ _ _ Hr) as ((Hrd1 & Ho1 & Hdn1 & _) & _ & Hp).
  destruct x as [[[kind data]|]|e].
  - destruct (consume_record kind data s1) as [s2|e] eqn:Hc.
    2:{ intros [= <- <-]. assert (read_outcome (Err e) = ReadErr) as ->; [|done].
        unfold consume_record in Hc. repeat case_match; by simplify_eq. }
    pose proof (consume_record_spec _ _ _ _ Hc) as (Hu & Hw & Ho2 & _ & Hrd2).
    rewrite Ho1, Ho in Ho2. destruct (bytes_eqb (fr_ready s2) []) eqn:E; cbn [negb].
    + apply bytes_eqb_eq in E. destruct (fr_done s2) eqn:Hd2.
      * intros [= <- <-]. rewrite (body_reader_unfold s2), Ho2, E, Hd2. cbn. split; [done|]. intros _.
        split; [done|]. split; [lia|by left].
      * intros Hl. apply IH in Hl; try done. unfold pending_bytes in *. rewrite Hu, Hw. lia.
    + apply bytes_eqb_neq in E. destruct (take_ready n s2) as [s3 out] eqn:Ht. intros [= <- <-].
      apply take_ready_spec in Ht as (Hread & Hinv & _); [by rewrite Hread|done|].
      rewrite Ho2. split; [lia|]. destruct (fr_ready s2); [done|]. rewrite len_cons. pose proof (len_nonneg l). lia.
  - by intros [= <- <-].
  - intros [= <- <-]. destruct e as [|[] m]; try done. cbn. split; [done|]. intros _. split; [done|].
    split; [by rewrite Ho1, Ho|]. left. by rewrite Hrd1, Ho1.
Qed.

(** The reader of a script's response is the byte stream the
    HTTP/2 driver models it by.  Each call of [read] gives what a read of the
    script gives, end of body, waiting and failure included, and leaves a reader
    whose script is the rest, up to the first failure, after which the driver
    resets the stream and reads no more. *)
Theorem fastcgi_reader_refines n s s' r :
  0 < n -> reader_inv s -> reader_read n s = (s', r) ->
  snd (read (body_reader s) n) = read_outcome r /\
  (read_outcome r <> ReadErr -> fst (read (body_reader s) n) = body_reader s' /\ reader_inv s').
Proof.
  intros Hn [H0 Hinv]. unfold reader_read. destruct (Z.ltb_spec (fr_offset s) (len (fr_ready s))) as [Hlt|Hge].
  - destruct (take_ready n s) as [s1 out] eqn:Ht. intros [= <- <-].
    apply take_ready_spec in Ht as (Hread & Hi & _); [by rewrite Hread|done|lia].
  - destruct Hinv as [[Hrd Ho]|?]; [|lia]. destruct (fr_done s) eqn:Hd.
    + intros [= <- <-]. rewrite (body_reader_unfold s), Hd. replace (fr_offset s <? len (fr_ready s)) with false by lia.
      cbn. split; [done|]. intros _. split; [done|split; [lia|by left]].
    + apply reader_read_loop_refines; try done. lia.
Qed.

(** ** What the reader delivers *)

Lemma encode_record_header kind content :
  exists l1 l0 p, encode_record kind content = FCGI_VERSION :: kind :: 0 :: 1 :: l1 :: l0 :: p :: 0 ::
    content ++ repeat 0 (Z.to_nat (padding_of (len content))) /\
    l1 * 256 + l0 = len content /\ p = padding_of (len content).
Proof.
  exists (len content / 256), (len content mod 256), (padding_of (len content)). split_and!; [done| |done].
  pose proof (Z.div_mod (len content) 256). lia.
Qed.

Lemma take_record_incomplete kind content w rest :
  encode_record kind content = w ++ rest -> rest <> [] -> take_record w = Ok None.
Proof.
  intros E Hne. destruct (encode_record_header kind content) as (l1 & l0 & p & Eh & Hl & Hp). rewrite Eh in E. clear Eh.
  do 8 (destruct w as [|? w]; [done|]; cbn [app] in E; injection E as <- E).
  unfold take_record. cbn [negb Z.eqb andb orb Pos.eqb]. change (FCGI_VERSION =? FCGI_VERSION) with true. cbn [negb orb].
  cbv zeta. rewrite Hl, Hp. replace (len content + padding_of (len content) <=? len w) with false; [done|].
  symmetry. apply Z.leb_gt. apply (f_equal len) in E. pose proof (padding_range (len content)).
  rewrite !len_app, len_repeat in E by lia. destruct rest as [|b rest]; [done|]. rewrite len_cons in E.
  pose proof (len_nonneg rest). lia.
Qed.

Lemma take_record_prefix w more kind content rest :
  w ++ more = encode_record kind content ++ rest ->
  (exists w', w = encode_record kind content ++ w' /\ rest = w' ++ more) \/ (take_record w = Ok None /\ more <> []).
Proof.
  intros [(w' & -> & ->)|(k & E & ->)]%app_eq_inv; [left; by exists w'|].
  destruct k as [|b k]; [left; exists []; by rewrite app_nil_r in *|].
  right. split; [by eapply take_record_incomplete|done].
Qed.

Lemma read_record_clean_loop fuel s kind content rest :
  len content <= U16_MAX -> reader_clean (fr_upstream s) -> (reader_size (fr_upstream s) < fuel)%nat ->
  fr_wire s ++ reader_bytes (fr_upstream s) = encode_record kind content ++ rest ->
  exists s', read_record_loop fuel s = (s', Ok (Some (kind, content))) /\
    fr_wire s' ++ reader_bytes (fr_upstream s') = rest /\ reader_clean (fr_upstream s').
Proof.
  intros Hl. revert s. induction fuel as [|fuel IH]; intros s Hc Hf E; [lia|]. cbn [read_record_loop].
  destruct (take_record_prefix _ _ _ _ _ E) as [(w' & Hw & Hr)|[Hn Hne]].
  - rewrite Hw, take_record_encode by done. eexists. split; [done|]. cbn. by rewrite Hr.
  - rewrite Hn. destruct (read_clean (16 * 1024) (fr_upstream s) ltac:(lia) Hc)
      as [Hu|(d & r' & Hr & _ & Hd & Hc' & Hs' & Hb)]; [by rewrite Hu in Hne|].
    rewrite Hr. destruct d as [|b d]; [done|]. apply IH; cbn [set_wire fr_upstream fr_wire]; [done|lia|].
    by rewrite <- app_assoc, <- Hb.
Qed.

Lemma read_record_clean s kind content rest :
  len content <= U16_MAX -> reader_clean (fr_upstream s) ->
  fr_wire s ++ reader_bytes (fr_upstream s) = encode_record kind content ++ rest ->
  exists s', read_record s = (s', Ok (Some (kind, content))) /\ same_body s s' /\
    fr_wire s' ++ reader_bytes (fr_upstream s') = rest /\ reader_clean (fr_upstream s').
Proof.
  intros Hl Hc E. destruct (read_record_clean_loop (S (reader_size (fr_upstream s))) s kind content rest Hl Hc
    ltac:(lia) E) as (s' & Hr & Hw & Hc').
  exists s'. split_and!; [exact Hr| |done|done]. by apply read_record_loop_spec in Hr as [? _].
Qed.

(** The records of a response body: anything but the end of the request. *)
Definition body_records (l : list (Z * bytes)) : Prop :=
  Forall (fun r => fst r <> END_REQUEST /\ len (snd r) <= U16_MAX) l.

Lemma stream_of_cons kind r l :
  stream_of kind (r :: l) = (if fst r =? kind then snd r else []) ++ stream_of kind l.
Proof. unfold stream_of. cbn [List.filter]. by case_match. Qed.

Lemma body_delivered_idle recs final tail s :
  fr_ready s = [] -> fr_offset s = 0 -> fr_done s = false -> reader_clean (fr_upstream s) ->
  body_records recs -> len final = 8 ->
  fr_wire s ++ reader_bytes (fr_upstream s) = encode_records recs ++ encode_record END_REQUEST final ++ tail ->
  fr_body_bytes s + len (stream_of STDOUT recs) <= U64_MAX ->
  (forall n, fr_content_length s = Some n -> n = fr_body_bytes s + len (stream_of STDOUT recs)) ->
  reader_clean (body_reader s) /\ reader_bytes (body_reader s) = stream_of STDOUT recs.
Proof.
  intros Hrd Ho Hd Hc Hrecs Hfin. revert s Hrd Ho Hd Hc.
  induction Hrecs as [|[kind content] recs [Hk Hl] _ IH]; intros s Hrd Ho Hd Hc E Hmax Hlen;
    rewrite (body_reader_unfold s), Hrd, Ho, Hd; change (0 <? len []) with false; cbv iota; cbn [fst snd] in *.
  - cbn [encode_records app] in E.
    apply read_record_clean in E as (s' & -> & (Hrd' & Ho' & Hd' & Hcl & Hbb) & Hw & Hc'); [|unfold U16_MAX; lia|done].
    assert (Hcon : consume_record END_REQUEST final s' = Ok (mkFastCgiH2Reader (fr_upstream s') (fr_wire s')
      (fr_ready s') (fr_offset s') true (fr_content_length s') (fr_body_bytes s'))).
    { unfold consume_record. change (END_REQUEST =? STDOUT) with false. rewrite Z.eqb_refl, Hfin. cbn [negb].
      change (8 =? 8) with true. cbn [negb]. rewrite Hcl, Hbb. destruct (fr_content_length s) as [n|] eqn:Hcs; [|done].
      rewrite (Hlen n eq_refl). change (len (stream_of STDOUT [])) with 0. by rewrite Z.add_0_r, Z.eqb_refl. }
    rewrite Hcon, body_reader_unfold. cbn [fr_offset fr_ready fr_done]. rewrite Hrd', Ho', Hrd, Ho.
    change (0 <? len []) with false. cbv iota. split; [constructor|done].
  - cbn [encode_records] in E. rewrite <- app_assoc in E. rewrite stream_of_cons in *. cbn [fst snd] in *.
    apply read_record_clean in E as (s' & -> & (Hrd' & Ho' & Hd' & Hcl & Hbb) & Hw & Hc'); [|done|done].
    pose proof (len_nonneg (stream_of STDOUT recs)) as Hnn. rewrite len_app in Hmax, Hlen.
    destruct (Z.eqb_spec kind STDOUT) as [->|Hks].
    + assert (Hcon : consume_record STDOUT content s' = Ok (mkFastCgiH2Reader (fr_upstream s') (fr_wire s')
        (fr_ready s' ++ content) (fr_offset s') (fr_done s') (fr_content_length s') (fr_body_bytes s + len content))).
      { unfold consume_record, saturating_add_u64. rewrite Z.eqb_refl, Hbb, Z.min_l by lia. rewrite Hcl.
        destruct (fr_content_length s) as [n|] eqn:Hcs; [|done]. rewrite (Hlen n eq_refl).
        by replace (fr_body_bytes s + len content >? _) with false by lia. }
      rewrite Hcon. rewrite Hrd', Ho', Hd', Hcl, Hrd, Ho, Hd. cbn [app].
      destruct content as [|b content].
      * apply IH; try done; cbn [fr_body_bytes fr_content_length]; change (len []) with 0 in *; [lia|].
        intros n Hn. rewrite (Hlen n Hn). lia.
      * rewrite body_reader_unfold. cbn [fr_offset fr_ready]. rewrite len_cons. pose proof (len_nonneg content).
        replace (0 <? 1 + len content) with true by lia. change (Z.to_nat 0) with 0%nat. cbn [drop].
        set (s2 := clear_ready _).
        destruct (IH s2) as [Hcl2 Hb2]; try done; cbn [s2 clear_ready fr_body_bytes fr_content_length].
        -- rewrite len_cons in Hmax. lia.
        -- intros n Hn. rewrite (Hlen n Hn), len_cons. lia.
        -- split; [constructor; [by exists b, content|done]|]. cbn [reader_bytes]. by rewrite Hb2.
    + assert (Hcon : consume_record kind content s' = Ok s').
      { unfold consume_record. by rewrite (eqb_neq_false kind STDOUT), (eqb_neq_false kind END_REQUEST). }
      rewrite Hcon. cbn [app] in *. change (len []) with 0 in *. apply IH; try congruence.
      * rewrite Hbb. lia.
      * intros n Hn. rewrite Hcl in Hn. rewrite (Hlen n Hn), Hbb. lia.
Qed.

(** The body of a response arrives whole.  From a script's
    server that sends any records and then the end of the request, in pieces of
    any size, the reader delivers what was ready and then the contents of the
    STDOUT records in order, and then ends, provided the announced length, if
    any, is the length of the body. *)
Theorem fastcgi_body_delivered recs final tail s :
  reader_inv s -> fr_done s = false -> reader_clean (fr_upstream s) ->
  body_records recs -> len final = 8 ->
  fr_wire s ++ reader_bytes (fr_upstream s) = encode_records recs ++ encode_record END_REQUEST final ++ tail ->
  fr_body_bytes s + len (stream_of STDOUT recs) <= U64_MAX ->
  (forall n, fr_content_length s = Some n -> n = fr_body_bytes s + len (stream_of STDOUT recs)) ->
  reader_clean (body_reader s) /\
  reader_bytes (body_reader s) = drop (Z.to_nat (fr_offset s)) (fr_ready s) ++ stream_of STDOUT recs.
Proof.
  intros [H0 Hinv] Hd Hc Hrecs Hfin E Hmax Hlen. destruct Hinv as [[Hrd Ho]|Hlt].
  { rewrite Hrd, Ho. by eapply body_delivered_idle. }
  rewrite (body_reader_unfold s). replace (fr_offset s <? len (fr_ready s)) with true by lia.
  destruct (body_delivered_idle recs final tail (clear_ready s)) as [Hcl Hb]; try done.
  destruct (drop (Z.to_nat (fr_offset s)) (fr_ready s)) as [|b d] eqn:Ed.
  { apply (f_equal length) in Ed. rewrite length_drop in Ed. cbn in Ed. unfold len in Hlt. lia. }
  split; [constructor; [by exists b, d|done]|]. cbn [reader_bytes]. by rewrite Hb.
Qed.

(** ** Waiting for the head *)

Lemma poll_finish fuel clock p p' x :
  poll_loop fuel clock p = (p', Ok (Some x)) ->
  exists pos, finish_head p' (pos + 4) = Ok x /\ fp_method p' = fp_method p /\
    find_subslice (fp_header_bytes p') CRLF2 = Some pos /\ len (fp_header_bytes p') <= fp_max_headers p' /\
    same_body (fp_reader p) (fp_reader p').
Proof.
  revert clock p. induction fuel as [|fuel IH]; intros clock p; cbn [poll_loop]; [done|].
  destruct (fp_deadline p <=? clock O); [done|]. destruct (read_record (fp_reader p)) as [reader r] eqn:Hr.
  apply read_record_loop_spec in Hr as (Hsame & _ & _).
  assert (Htr : forall q, same_body reader q -> same_body (fp_reader p) q).
  { intros q. unfold same_body in *. intuition congruence. }
  destruct r as [[[kind data]|]|e]; [|done|destruct e as [|[] m]; done].
  destruct (kind =? STDOUT).
  - destruct (len _ >? _) eqn:Hmax; [done|].
    destruct (find_subslice (fp_header_bytes (push_header_bytes data (set_reader reader p))) CRLF2) as [pos|] eqn:Hf.
    + intros [= <- Hx]. apply rbind_ok in Hx as (y & Hy & [= <-]). exists pos. split_and!; try done. cbn in *. lia.
    + intros Hp. apply IH in Hp as (pos & ? & ? & ? & ? & Hs). exists pos. split_and!; try done. by apply Htr.
  - destruct (kind =? END_REQUEST); [done|]. intros Hp. apply IH in Hp as (pos & ? & ? & ? & ? & Hs).
    exists pos. split_and!; try done. by apply Htr.
Qed.

(** The head of a script's response is checked before it is used.
    Its headers cannot split the head sent on, none of them is about framing the
    connection, the announced length is that of every Content-Length, the body
    received so far does not exceed it, and a response to HEAD or with a status
    without a body has none. *)
Theorem fastcgi_head_checked clock p p' response reader length :
  reader_inv (fp_reader p) -> fr_ready (fp_reader p) = [] ->
  poll clock p = (p', Ok (Some (response, reader, length))) ->
  clean_headers response /\
  (exists server headers, resp_headers response = server :: headers /\ Forall header_ok headers /\
     (reader <> None -> forall name value, (name, value) ∈ headers ->
        eq_ignore_ascii_case name (str "Content-Length") = true ->
        exists n, parse_u64 value = Some n /\ length = Some n)) /\
  match reader with
  | Some r => fp_method p <> Head /\ reader_inv r /\ fr_content_length r = length /\
              fr_body_bytes r = len (fr_ready r) /\ fr_offset r = 0 /\
              (forall n, length = Some n -> fr_body_bytes r <= n)
  | None => length = Some 0
  end.
Proof.
  intros [H0 Hi] Hrd Hp. apply poll_finish in Hp as (pos & Hfin & Hmeth & _ & _ & (Hrd' & Ho' & _)).
  unfold finish_head in Hfin. apply rbind_ok in Hfin as (h & Hh & Hfin). apply script_head_ok in Hh.
  destruct (match fh_content_length h with Some limit => _ | None => false end) eqn:Hlim; [done|].
  cbv zeta in Hfin. set (resp := put_headers _ _) in Hfin.
  assert (Hresp : resp_headers resp = (str "Server", str "veysrs/0.6.1") :: fh_headers h) by done.
  assert (Hclean : clean_headers resp).
  { unfold clean_headers. rewrite Hresp. constructor; [split; by apply no_crlf_dec|].
    eapply Forall_impl; [apply Hh|apply header_ok_clean]. }
  assert (Hoff : fr_offset (fp_reader p) = 0) by (destruct Hi as [[_ ?]|Hlt]; [done|rewrite Hrd, len_nil in Hlt; lia]).
  destruct (bool_decide (fp_method p' = Head) || _ || _) eqn:Hb; simplify_eq.
  - split; [done|]. split; [|done]. eexists _, _. split_and!; [exact Hresp|apply Hh|done].
  - rewrite !orb_false_iff in Hb. destruct Hb as [[Hb _] _]. apply bool_decide_eq_false in Hb.
    split; [done|]. split.
    + eexists _, _. split_and!; [exact Hresp|apply Hh|]. intros _. apply (hd_lengths _ Hh).
    + rewrite Hmeth in Hb. set (body := drop _ _) in *. cbn [fr_content_length fr_body_bytes fr_ready fr_offset].
      rewrite Hrd', Hrd, Ho', Hoff. cbn [app]. split_and!; try done.
      * split; cbn [fr_offset fr_ready]; [lia|]. destruct body as [|b l]; [by left|right].
        rewrite len_cons. pose proof (len_nonneg l). lia.
      * intros n Hn. rewrite Hn in Hlim. lia.
Qed.
