(* ===== verification/FastCgiStream.v ===== *)
(** * Relaying over HTTP/1.1, end to end

    What the client of an HTTP/1.1 connection receives when a script answers,
    and where the relay departs from what it means to do. *)

From S2P Require Import Prelude RustStd Io Config Http H2Headers Text Paths Rules Fs Metrics Handler HandlerProps Connection FastCgi FastCgiRelay FastCgiProps.

(** ** Reading exactly *)

Lemma read_exact_clean r n d rest :
  reader_clean r -> reader_bytes r = d ++ rest -> len d = n ->
  exists r', read_exact r n = (r', Ok d) /\ reader_bytes r' = rest /\ reader_clean r'.
Proof.
  intros Hc. revert n d. induction Hc as [|e r (b & x & ->) Hr IH]; intros n d E Hn.
  { destruct d; [|done]. subst n. cbn in E. subst rest. exists [].
    split_and!; [done|done|constructor]. }
  destruct d as [|c d].
  { subst n. exists (RData (b :: x) :: r). cbn [app] in E. split_and!; [done|done|]. constructor; eauto. }
  rewrite len_cons in Hn. pose proof (len_nonneg d). cbn [read_exact]. replace (n <=? 0) with false by lia.
  cbn [reader_bytes] in E. destruct (Z.leb_spec (len (b :: x)) n) as [Hle|Hgt].
  - destruct (app_eq_inv _ _ _ _ E) as [(k & Ek & ->)|(k & Ek & Erest)].
    + assert (k = []) as ->.
      { apply (f_equal len) in Ek. rewrite len_app, !len_cons in *. destruct k as [|? k]; [done|].
        rewrite len_cons in Ek. pose proof (len_nonneg k). lia. }
      rewrite app_nil_r in Ek. rewrite Ek. destruct (IH 0 [] eq_refl eq_refl) as (r' & Hre & Hb & Hc').
      rewrite len_cons in *. exists r'. replace (n - _) with 0 by (rewrite <- Hn; lia).
      rewrite Hre. cbn. by rewrite app_nil_r.
    + destruct (IH (n - len (b :: x)) k Erest) as (r' & Hre & Hb & Hc').
      { apply (f_equal len) in Ek. rewrite len_app, !len_cons in Ek. rewrite len_cons. lia. }
      exists r'. rewrite Hre. cbn [rbind]. by rewrite <- Ek.
  - destruct (app_eq_inv _ _ _ _ E) as [(k & Ek & ->)|(k & Ek & _)].
    + destruct k as [|c' k].
      { rewrite app_nil_r in Ek. rewrite Ek, !len_cons in Hgt. lia. }
      assert (Hl : Z.to_nat n = length (c :: d)) by (cbn [length]; unfold len in *; lia).
      rewrite Ek, Hl, take_app_length, drop_app_length. exists (RData (c' :: k) :: r).
      split_and!; [done|done|]. constructor; eauto.
    + exfalso. apply (f_equal len) in Ek. rewrite len_app, !len_cons in *. pose proof (len_nonneg k). lia.
Qed.

Lemma reader_size_bytes r : (length (reader_bytes r) <= reader_size r)%nat.
Proof.
  induction r as [|[[|b d]| |] r IH]; cbn [reader_bytes reader_size event_size length app]; try lia.
  rewrite length_app. lia.
Qed.

Section Relaying.
Context (GzWriter : Type) (gz_new : Z -> GzWriter) (gz_write : GzWriter -> bytes -> GzWriter * bytes)
  (gz_finish : GzWriter -> bytes).
Context (max_headers : Z) (head accept_gzip : bool) (level : Z).

Abbreviation relay_record := (relay_record GzWriter gz_new gz_write max_headers head accept_gzip level).
Abbreviation relay_stdout := (relay_stdout GzWriter gz_new gz_write max_headers head accept_gzip level).
Abbreviation relay_loop := (relay_loop GzWriter gz_new gz_write gz_finish).
Abbreviation State := (RelayState GzWriter).

(** The relay after reading: the script's server has [r] left to say. *)
Definition with_incoming (w : Relay) (r : Reader) : Relay :=
  mkRelay (mkIo (wire (upstream w)) (faults (upstream w)) r) (client w) (relay_log w) (relay_metrics w).

Lemma on_upstream_read w n d rest :
  reader_clean (incoming (upstream w)) -> reader_bytes (incoming (upstream w)) = d ++ rest -> len d = n ->
  exists r, on_upstream (fcgi_read_exact n) w = (with_incoming w r, Ok d) /\
    reader_bytes r = rest /\ reader_clean r.
Proof.
  intros Hc E Hn. destruct (read_exact_clean _ _ _ _ Hc E Hn) as (r & Hr & Hb & Hc').
  exists r. split; [|done]. unfold on_upstream, fcgi_read_exact. by rewrite Hr.
Qed.

(** What a record means for the loop. *)
Definition record_effect (s : State) (kind : Z) (content : bytes) : ST Relay IoErr (Flow GzWriter) :=
  if kind =? STDOUT then relay_stdout s content
  else if kind =? STDERR then
    let! _ := (if len content <=? 4096 then log_relay (LogStderr content) else st_ret tt) in
    st_ret (Continue GzWriter s)
  else st_ret (Continue GzWriter s).

Lemma relay_record_spec s w kind content rest :
  reader_clean (incoming (upstream w)) -> len content <= U16_MAX -> kind <> END_REQUEST ->
  reader_bytes (incoming (upstream w)) = encode_record kind content ++ rest ->
  exists r, relay_record s w = record_effect s kind content (with_incoming w r) /\
    reader_bytes r = rest /\ reader_clean r.
Proof.
  intros Hc Hl Hk E. pose proof (padding_range (len content)) as Hpad. pose proof (len_nonneg content).
  destruct (encode_record_header kind content) as (l1 & l0 & p & Eh & Hlen & Hp). rewrite Eh in E.
  set (header := [FCGI_VERSION; kind; 0; 1; l1; l0; p; 0]).
  destruct (on_upstream_read w 8 header (content ++ repeat 0 (Z.to_nat (padding_of (len content))) ++ rest))
    as (r1 & H1 & Hb1 & Hc1); [done|rewrite E; cbn; by rewrite <- app_assoc|done|].
  destruct (on_upstream_read (with_incoming w r1) (len content) content (repeat 0 (Z.to_nat p) ++ rest))
    as (r2 & H2 & Hb2 & Hc2); [done|by rewrite Hp|done|].
  unfold FastCgiRelay.relay_record. erewrite bind_ok by exact H1. unfold header. cbv iota.
  change (FCGI_VERSION =? FCGI_VERSION) with true. cbn [negb Z.eqb andb orb Pos.eqb]. cbv zeta. rewrite Hlen.
  replace (len content >? MAX_RECORD) with false by (unfold MAX_RECORD, U16_MAX in *; lia).
  erewrite bind_ok by exact H2.
  assert (Hfinish : exists r3, (if p >? 0 then on_upstream (fcgi_read_exact p) else st_ret [])
      (with_incoming (with_incoming w r1) r2) = (with_incoming w r3, Ok (repeat 0 (Z.to_nat p))) /\
      reader_bytes r3 = rest /\ reader_clean r3).
  { destruct (Z.gtb_spec p 0) as [Hgt|Hle].
    - destruct (on_upstream_read (with_incoming (with_incoming w r1) r2) p (repeat 0 (Z.to_nat p)) rest)
        as (r3 & H3 & Hb3 & Hc3); [done|done|apply len_repeat; lia|]. exists r3. by rewrite H3.
    - exists r2. rewrite Hp in *. replace (padding_of (len content)) with 0 in * by lia. by split_and!. }
  destruct Hfinish as (r3 & H3 & Hb3 & Hc3). erewrite bind_ok by exact H3.
  exists r3. split; [|done]. unfold record_effect.
  destruct (kind =? STDOUT); [done|]. destruct (kind =? STDERR); [done|]. by rewrite (eqb_neq_false kind END_REQUEST).
Qed.

(** ** The client's side *)

(** The client has been sent [d], and its connection still takes everything. *)
Definition sent (w w' : Relay) (d : bytes) : Prop :=
  faults (client w') = [] /\ wire (client w') = wire (client w) ++ d.

Lemma sent_trans w1 w2 w3 a b : sent w1 w2 a -> sent w2 w3 b -> sent w1 w3 (a ++ b).
Proof. intros [_ H1] [Hf H2]. split; [done|]. by rewrite H2, H1, app_assoc. Qed.

Lemma sent_same w w' : faults (client w) = [] -> client w' = client w -> sent w w' [].
Proof. intros Hf Hc. unfold sent. rewrite Hc, app_nil_r. done. Qed.
Lemma sent_refl w : faults (client w) = [] -> sent w w [].
Proof. intros Hf. by apply sent_same. Qed.

Lemma on_client_write w d :
  faults (client w) = [] ->
  exists w', on_client (fcgi_write d) w = (w', Ok tt) /\ sent w w' d /\ upstream w' = upstream w.
Proof.
  intros Hf. unfold on_client, fcgi_write, io_write. rewrite Hf. eexists. split; [done|]. by split_and!.
Qed.

Lemma relay_body_plain w d :
  faults (client w) = [] ->
  exists w', relay_body GzWriter gz_write head None d w = (w', Ok None) /\
    sent w w' (if head then [] else d) /\ upstream w' = upstream w.
Proof.
  intros Hf. unfold relay_body. destruct head.
  - exists w. split_and!; [done|by apply sent_refl|done].
  - destruct (on_client_write w d Hf) as (w' & Hw & Hs & Hu). exists w'. by erewrite bind_ok by exact Hw.
Qed.

(** A relay whose head is out, passing the body on. *)
Definition passing (s : State) : Prop :=
  rs_headers_sent _ s = true /\ rs_gzip _ s = None.

Lemma relay_stdout_passing s w d total :
  passing s -> faults (client w) = [] ->
  rs_body_bytes _ s + len d <= total -> total <= U64_MAX ->
  (forall n, rs_content_length _ s = Some n -> n = total) ->
  exists s' w', relay_stdout s d w = (w', Ok (Continue _ s')) /\ passing s' /\
    rs_content_length _ s' = rs_content_length _ s /\ rs_body_bytes _ s' = rs_body_bytes _ s + len d /\
    sent w w' (if head then [] else d) /\ upstream w' = upstream w.
Proof.
  intros [Hs Hg] Hf Hle Hmax Hlen. unfold FastCgiRelay.relay_stdout. rewrite Hs. cbn [negb]. cbv zeta.
  unfold saturating_add_u64. rewrite Z.min_l by lia.
  replace (match rs_content_length _ s with Some limit => _ | None => false end) with false.
  2:{ destruct (rs_content_length _ s) as [n|]; [|done]. rewrite (Hlen n eq_refl). lia. }
  destruct (relay_body_plain w d Hf) as (w' & Hw & Hsent & Hu). rewrite Hg. erewrite bind_ok by exact Hw.
  eexists _, w'. by split_and!.
Qed.

Lemma relay_end_passing s w :
  passing s -> relay_end GzWriter gz_finish s w = (w, Ok tt).
Proof. intros [Hs Hg]. unfold relay_end. rewrite Hs, Hg. done. Qed.

Lemma relay_record_end s w final tail :
  reader_clean (incoming (upstream w)) -> len final = 8 ->
  reader_bytes (incoming (upstream w)) = encode_record END_REQUEST final ++ tail ->
  (forall n, rs_content_length _ s = Some n -> n = rs_body_bytes _ s) ->
  exists r, relay_record s w = (with_incoming w r, Ok (Ended _ s)).
Proof.
  intros Hc Hl E Hlen. destruct (encode_record_header END_REQUEST final) as (l1 & l0 & p & Eh & Hlen' & Hp).
  rewrite Eh in E. rewrite Hl in *. change (padding_of 8) with 0 in *. subst p. cbn [Z.to_nat repeat app] in E.
  rewrite app_nil_r in E. set (header := [FCGI_VERSION; END_REQUEST; 0; 1; l1; l0; 0; 0]).
  destruct (on_upstream_read w 8 header (final ++ tail)) as (r1 & H1 & Hb1 & Hc1); [done|exact E|done|].
  destruct (on_upstream_read (with_incoming w r1) 8 final tail) as (r2 & H2 & Hb2 & Hc2); [done|done|done|].
  unfold FastCgiRelay.relay_record. erewrite bind_ok by exact H1. unfold header. cbv iota.
  change (FCGI_VERSION =? FCGI_VERSION) with true. cbn [negb Z.eqb andb orb Pos.eqb]. cbv zeta. rewrite Hlen'.
  change (8 >? MAX_RECORD) with false. cbv iota. erewrite bind_ok by exact H2. change (0 >? 0) with false. cbv iota.
  erewrite bind_ok by reflexivity.
  change (END_REQUEST =? STDOUT) with false. change (END_REQUEST =? STDERR) with false. rewrite Z.eqb_refl.
  cbn [negb]. change (8 =? 8) with true. cbn [negb].
  replace (match rs_content_length _ s with Some limit => _ | None => false end) with false; [by exists r2|].
  destruct (rs_content_length _ s) as [n|]; [|done]. by rewrite (Hlen n eq_refl), Z.eqb_refl.
Qed.

(** The body, record by record. *)
Lemma relay_loop_passing recs final tail fuel s w :
  passing s -> faults (client w) = [] -> reader_clean (incoming (upstream w)) -> body_records recs -> len final = 8 ->
  reader_bytes (incoming (upstream w)) = encode_records recs ++ encode_record END_REQUEST final ++ tail ->
  rs_body_bytes _ s + len (stream_of STDOUT recs) <= U64_MAX ->
  (forall n, rs_content_length _ s = Some n -> n = rs_body_bytes _ s + len (stream_of STDOUT recs)) ->
  (length recs < fuel)%nat ->
  exists w', relay_loop fuel max_headers head accept_gzip level s w = (w', Ok tt) /\
    sent w w' (if head then [] else stream_of STDOUT recs).
Proof.
  intros Hpass Hf Hc Hrecs Hfin. revert fuel s w Hpass Hf Hc.
  induction Hrecs as [|[kind content] recs [Hk Hl] _ IH]; intros fuel s w Hpass Hf Hc E Hmax Hlen Hfu;
    (destruct fuel as [|fuel]; [cbn in Hfu; lia|]); cbn [FastCgiRelay.relay_loop fst snd] in *.
  - change (len (stream_of STDOUT [])) with 0 in *. cbn [encode_records app] in E.
    destruct (relay_record_end s w final tail Hc Hfin E) as (r & Hr).
    { intros n Hn. rewrite (Hlen n Hn). lia. }
    erewrite bind_ok by exact Hr. cbv beta iota. rewrite relay_end_passing by done. eexists. split; [done|].
    destruct head; by apply sent_same.
  - cbn [encode_records] in E. rewrite <- app_assoc in E. rewrite stream_of_cons in *. cbn [fst snd] in *.
    destruct (relay_record_spec s w kind content _ Hc Hl Hk E) as (r & Hr & Hb & Hc').
    pose proof (len_nonneg (stream_of STDOUT recs)) as Hnn. rewrite len_app in Hmax, Hlen.
    unfold record_effect in Hr. destruct (Z.eqb_spec kind STDOUT) as [Hks|Hks].
    + destruct (relay_stdout_passing s (with_incoming w r) content
        (rs_body_bytes _ s + (len content + len (stream_of STDOUT recs)))) as (s' & w' & Ho & Hpass' & Hcl & Hbb & Hsent & Hu);
        [done|done|lia|lia|done|].
      rewrite Ho in Hr. erewrite bind_ok by exact Hr. cbv beta iota.
      destruct (IH fuel s' w') as (w'' & Hw & Hs'); [done|apply Hsent|by rewrite Hu|by rewrite Hu| | | |].
      * rewrite Hbb. lia.
      * intros n Hn. rewrite Hcl in Hn. rewrite (Hlen n Hn), Hbb. lia.
      * cbn in Hfu. lia.
      * exists w''. split; [done|]. pose proof (sent_trans _ _ _ _ _ Hsent Hs') as Ht. by destruct head.
    + assert (Hcont : exists w1, record_effect s kind content (with_incoming w r) = (w1, Ok (Continue _ s)) /\
        sent w w1 [] /\ upstream w1 = upstream (with_incoming w r)).
      { unfold record_effect. rewrite (eqb_neq_false kind STDOUT) by done.
        destruct (kind =? STDERR); [destruct (len content <=? 4096)|]; eexists; (split; [reflexivity|]);
          by split; [apply sent_same|]. }
      destruct Hcont as (w1 & He & Hs1 & Hu1). unfold record_effect in He.
      rewrite (eqb_neq_false kind STDOUT) in He by done. rewrite He in Hr. erewrite bind_ok by exact Hr. cbv beta iota.
      cbn [app] in *. change (len []) with 0 in *.
      destruct (IH fuel s w1) as (w'' & Hw & Hs'); [done|apply Hs1|by rewrite Hu1|by rewrite Hu1|lia| | |].
      * intros n Hn. rewrite (Hlen n Hn). lia.
      * cbn in Hfu. lia.
      * exists w''. split; [done|]. exact (sent_trans _ _ _ _ _ Hs1 Hs').
Qed.

(** ** The head *)

(** A head that is complete stays where it is when more bytes arrive. *)
Lemma head_stable acc more pos :
  find_subslice acc CRLF2 = Some pos ->
  find_subslice (acc ++ more) CRLF2 = Some pos /\
  take (Z.to_nat (pos + 4)) (acc ++ more) = take (Z.to_nat (pos + 4)) acc /\
  drop (Z.to_nat (pos + 4)) (acc ++ more) = drop (Z.to_nat (pos + 4)) acc ++ more.
Proof.
  intros Hf. split; [by apply find_from_app|]. apply find_from_bound in Hf as [H0 H1].
  change (len CRLF2) with 4 in H1. unfold len in H1.
  split; [apply take_app_le|apply drop_app_le]; lia.
Qed.

(** A relay that waits for the head, with the bytes received so far. *)
Definition waiting (s : State) (acc : bytes) : Prop :=
  rs_headers_sent _ s = false /\ rs_gzip _ s = None /\ rs_content_length _ s = None /\ rs_stdout _ s = acc /\
  find_subslice acc CRLF2 = None.

(** The head of a response as the relay understands it. *)
Definition relayed_head (raw : bytes) (h : HeadState) : Prop :=
  utf8_valid raw = true /\ fold_result relay_header (head_line_list raw) head_state = Ok h /\
  relay_compresses accept_gzip head h = false.

Lemma relay_stdout_waiting s w d acc :
  waiting s acc -> len (acc ++ d) <= max_headers -> find_subslice (acc ++ d) CRLF2 = None ->
  exists s', relay_stdout s d w = (w, Ok (Continue _ s')) /\ waiting s' (acc ++ d).
Proof.
  intros (Hs & Hg & Hc & Ha & _) Hmax Hf. unfold FastCgiRelay.relay_stdout. rewrite Hs. cbn [negb]. cbv zeta.
  rewrite Ha. replace (len (acc ++ d) >? max_headers) with false by lia. rewrite Hf.
  eexists. split; [reflexivity|]. by split_and!.
Qed.

Lemma relay_stdout_head s w d acc pos h :
  waiting s acc -> faults (client w) = [] -> len (acc ++ d) <= max_headers ->
  find_subslice (acc ++ d) CRLF2 = Some pos -> relayed_head (take (Z.to_nat (pos + 4)) (acc ++ d)) h ->
  let body := drop (Z.to_nat (pos + 4)) (acc ++ d) in
  (forall n, hs_content_length h = Some n -> len body <= n) ->
  exists s' w', relay_stdout s d w = (w', Ok (Continue _ s')) /\ passing s' /\
    rs_content_length _ s' = hs_content_length h /\ rs_body_bytes _ s' = len body /\
    sent w w' (relay_head false h ++ (if head then [] else body)) /\ upstream w' = upstream w.
Proof.
  intros (Hs & Hg & Hc & Ha & _) Hf Hmax Hpos (Hu & Hh & Hz) body Hlen. unfold FastCgiRelay.relay_stdout.
  rewrite Hs. cbn [negb]. cbv zeta. rewrite Ha. replace (len (acc ++ d) >? max_headers) with false by lia.
  rewrite Hpos, Hu. cbn [negb]. rewrite Hh. change (st_bind (st_res (Ok h)) ?k w) with (k h w). cbv beta zeta iota.
  rewrite Hz. destruct (on_client_write w (relay_head false h) Hf) as (w1 & H1 & Hs1 & Hu1).
  erewrite bind_ok by exact H1. fold body.
  replace (match hs_content_length h with Some limit => len body >? limit | None => false end) with false.
  2:{ destruct (hs_content_length h) as [n|]; [|done]. specialize (Hlen n eq_refl). lia. }
  cbv iota. destruct (relay_body_plain w1 body (proj1 Hs1)) as (w2 & H2 & Hs2 & Hu2). erewrite bind_ok by exact H2.
  eexists _, w2. split_and!; [reflexivity|done..|by eapply sent_trans|by rewrite Hu2].
Qed.

Lemma record_effect_other s w kind d :
  kind <> STDOUT -> faults (client w) = [] ->
  exists w1, record_effect s kind d w = (w1, Ok (Continue _ s)) /\ sent w w1 [] /\ upstream w1 = upstream w.
Proof.
  intros Hk Hf. unfold record_effect. rewrite (eqb_neq_false kind STDOUT) by done.
  destruct (kind =? STDERR); [destruct (len d <=? 4096)|]; eexists; (split; [reflexivity|]);
    by split; [apply sent_same|].
Qed.

Lemma relay_loop_waiting pre post final tail fuel s w acc pos h :
  waiting s acc -> faults (client w) = [] -> reader_clean (incoming (upstream w)) ->
  body_records pre -> body_records post -> len final = 8 ->
  reader_bytes (incoming (upstream w)) = encode_records (pre ++ post) ++ encode_record END_REQUEST final ++ tail ->
  let received := acc ++ stream_of STDOUT pre in
  len received <= max_headers -> find_subslice received CRLF2 = Some pos ->
  relayed_head (take (Z.to_nat (pos + 4)) received) h ->
  let body := drop (Z.to_nat (pos + 4)) received ++ stream_of STDOUT post in
  len body <= U64_MAX -> (forall n, hs_content_length h = Some n -> n = len body) ->
  (length (pre ++ post) < fuel)%nat ->
  exists w', relay_loop fuel max_headers head accept_gzip level s w = (w', Ok tt) /\
    sent w w' (relay_head false h ++ (if head then [] else body)).
Proof.
  intros Hwait Hf Hc Hpre Hpost Hfin. revert fuel s w acc Hwait Hf Hc.
  induction Hpre as [|[kind d] pre [Hk Hl] Hpre IH]; intros fuel s w acc Hwait Hf Hc E received Hmax Hpos Hhead body
    Hb Hcl Hfu.
  { exfalso. unfold received, stream_of in Hpos. cbn in Hpos. rewrite app_nil_r in Hpos.
    destruct Hwait as (_ & _ & _ & _ & Hn). by rewrite Hn in Hpos. }
  destruct fuel as [|fuel]; [cbn in Hfu; lia|]. cbn [FastCgiRelay.relay_loop fst snd] in *.
  cbn [app encode_records] in E. rewrite <- app_assoc in E.
  destruct (relay_record_spec s w kind d _ Hc Hl Hk E) as (r & Hr & Hrb & Hrc).
  subst received body. rewrite stream_of_cons in *. cbn [fst snd app length] in *.
  destruct (Z.eqb_spec kind STDOUT) as [->|Hks].
  2:{ destruct (record_effect_other s (with_incoming w r) kind d Hks Hf) as (w1 & He & Hs1 & Hu1). rewrite He in Hr.
      erewrite bind_ok by exact Hr. cbv beta iota.
      destruct (IH fuel s w1 acc) as (w' & Hw & Hs'); try done; [apply Hs1|by rewrite Hu1|by rewrite Hu1|lia|].
      exists w'. split; [done|]. exact (sent_trans _ _ _ _ _ Hs1 Hs'). }
  unfold record_effect in Hr. rewrite Z.eqb_refl in Hr. rewrite app_assoc in *.
  pose proof (len_nonneg (stream_of STDOUT pre)) as Hnn.
  assert (Hmax' : len (acc ++ d) <= max_headers) by (rewrite len_app in Hmax; lia).
  destruct (find_subslice (acc ++ d) CRLF2) as [pos'|] eqn:Hp'.
  - destruct (head_stable _ (stream_of STDOUT pre) _ Hp') as (Hst & Htk & Hdr). rewrite Hst in Hpos.
    injection Hpos as ->. rewrite Htk in Hhead. rewrite Hdr in *. rewrite <- app_assoc in *.
    pose proof (len_nonneg (stream_of STDOUT post)).
    destruct (relay_stdout_head s (with_incoming w r) d acc pos h) as (s' & w1 & Ho & Hpass & Hcl' & Hbb & Hs1 & Hu1); try done.
    { intros n Hn. rewrite (Hcl n Hn), !len_app. lia. }
    rewrite Ho in Hr. erewrite bind_ok by exact Hr. cbv beta iota.
    destruct (relay_loop_passing (pre ++ post) final tail fuel s' w1) as (w' & Hw & Hs'); try done.
    + apply Hs1.
    + by rewrite Hu1.
    + by apply Forall_app_2.
    + by rewrite Hu1.
    + rewrite Hbb, stream_of_app, len_app in *. rewrite !len_app in Hb. lia.
    + intros n Hn. rewrite Hcl' in Hn. rewrite (Hcl n Hn), Hbb, stream_of_app, !len_app. lia.
    + lia.
    + exists w'. split; [done|]. pose proof (sent_trans _ _ _ _ _ Hs1 Hs') as Ht.
      destruct head; [by rewrite !app_nil_r in *|]. rewrite stream_of_app in Ht. by rewrite <- !app_assoc in Ht.
  - destruct (relay_stdout_waiting s (with_incoming w r) d acc Hwait Hmax' Hp') as (s' & Ho & Hwait').
    rewrite Ho in Hr. erewrite bind_ok by exact Hr. cbv beta iota.
    destruct (IH fuel s' (with_incoming w r) (acc ++ d)) as (w' & Hw & Hs'); try done; [lia|by exists w'].
Qed.

(** C34 (functional): a script's response that is not compressed is relayed
    faithfully.  A script's server sends records, in pieces of any size: their
    STDOUT contents are a head and a body, the STDOUT bytes up to the end of the
    record in which the head ends are within the limit for heads, the announced
    length, if any, is the body's, and the request ends with the end record.  Then
    the client receives the head as the relay writes it and exactly the body, and
    to HEAD nothing more than the head.  (The limit counts the body bytes of that
    record too: a head that fits may be refused for them,
    [FastCgiEffects.head_limit_counts_body].) *)
Theorem script_response_relayed pre post final tail w pos h :
  faults (client w) = [] -> reader_clean (incoming (upstream w)) ->
  body_records pre -> body_records post -> len final = 8 ->
  reader_bytes (incoming (upstream w)) = encode_records (pre ++ post) ++ encode_record END_REQUEST final ++ tail ->
  len (stream_of STDOUT pre) <= max_headers -> find_subslice (stream_of STDOUT pre) CRLF2 = Some pos ->
  relayed_head (take (Z.to_nat (pos + 4)) (stream_of STDOUT pre)) h ->
  let body := drop (Z.to_nat (pos + 4)) (stream_of STDOUT pre) ++ stream_of STDOUT post in
  len body <= U64_MAX -> (forall n, hs_content_length h = Some n -> n = len body) ->
  exists w', stream_response GzWriter gz_new gz_write gz_finish max_headers head accept_gzip level w = (w', Ok tt) /\
    wire (client w') = wire (client w) ++ relay_head false h ++ (if head then [] else body).
Proof.
  intros Hf Hc Hpre Hpost Hfin E Hmax Hpos Hhead body Hb Hcl. unfold stream_response.
  destruct (relay_loop_waiting pre post final tail (S (reader_size (incoming (upstream w)))) (relay_start GzWriter) w [] pos h)
    as (w' & Hw & _ & Hs); try done; [|by exists w'].
  pose proof (reader_size_bytes (incoming (upstream w))) as Hsz. rewrite E, length_app in Hsz.
  assert (Hlen : forall l, (length l <= length (encode_records l))%nat).
  { induction l as [|[k c] l IHl]; [done|]. cbn [encode_records length]. rewrite length_app.
    destruct (encode_record_cons k c) as (b & t & ->). cbn [length]. lia. }
  specialize (Hlen (pre ++ post)). lia.
Qed.
End Relaying.
