(* ===== verification/FastCgiRequests.v ===== *)
(** * Requests to a script over HTTP/1.1

    What the two entries of the HTTP/1.1 loop write to a script's server, that
    relaying the answer writes nothing more to it, and that the loops over
    records end. *)

From S2P Require Import Prelude RustStd Io Config Http H2Headers Text Paths Fs Metrics Handler Connection FastCgi FastCgiRelay FastCgiProps FastCgiStream.

(** ** What becomes of the connection to the script *)

Lemma read_exact_size n r r' x :
  read_exact r n = (r', x) -> (reader_size r' <= reader_size r)%nat /\
    (0 < n -> (exists d, x = Ok d) -> (reader_size r' < reader_size r)%nat).
Proof.
  revert n r' x. induction r as [|[[|b d]| |] r IH]; intros n r' x; cbn [read_exact];
    destruct (Z.leb_spec n 0) as [Hn|Hn]; try (intros [= <- <-]; cbn [reader_size event_size]; split; [lia|first [lia|by intros _ [? [=]]]]).
  destruct (Z.leb_spec (len (b :: d)) n) as [Hl|Hl].
  - destruct (read_exact r _) as [r1 x1] eqn:E. intros [= <- <-]. apply IH in E as [Hle _].
    cbn [reader_size event_size]. split; intros; lia.
  - intros [= <- <-]. cbn [reader_size event_size]. rewrite length_drop. unfold len in Hl. cbn [length] in *. lia.
Qed.

(** A relation between the states of that connection that everything but writing
    to it respects. *)
Class ReadRelation (R : Io -> Io -> Prop) : Prop := {
  read_relation_preorder :: PreOrder R;
  read_relation_read : forall io n, R io (fst (fcgi_read_exact n io));
}.

Definition same_wire (io io' : Io) : Prop := wire io' = wire io.
Definition no_growth (io io' : Io) : Prop := (reader_size (incoming io') <= reader_size (incoming io))%nat.

#[export] Instance same_wire_reads : ReadRelation same_wire.
Proof.
  split; [split; [done|intros x y z Hxy Hyz; unfold same_wire in *; congruence]|].
  intros io n. unfold fcgi_read_exact. by destruct (read_exact _ _).
Qed.
#[export] Instance no_growth_reads : ReadRelation no_growth.
Proof.
  split; [split; [intros x; unfold no_growth; lia|intros x y z; unfold no_growth; lia]|].
  intros io n. unfold no_growth, fcgi_read_exact. destruct (read_exact _ _) eqn:E. by apply read_exact_size in E as [? _].
Qed.

Section Keeping.
Context (R : Io -> Io -> Prop) `{!ReadRelation R}.

Definition keeps {A} (m : ST Relay IoErr A) : Prop :=
  forall w w' r, m w = (w', r) -> R (upstream w) (upstream w').

Lemma keeps_ret {A} (a : A) : keeps (st_ret a).
Proof. by intros w w' r [= <- <-]. Qed.
Lemma keeps_err {A} e : keeps (A := A) (st_err e).
Proof. by intros w w' r [= <- <-]. Qed.
Lemma keeps_res {A} (x : result A IoErr) : keeps (st_res x).
Proof. by intros w w' r [= <- <-]. Qed.
Lemma keeps_bind {A B} (m : ST Relay IoErr A) (k : A -> ST Relay IoErr B) :
  keeps m -> (forall a, keeps (k a)) -> keeps (st_bind m k).
Proof.
  intros Hm Hk w w' r. unfold st_bind. destruct (m w) as [w1 [a|e]] eqn:E.
  - intros Hr. etrans; [exact (Hm _ _ _ E)|exact (Hk _ _ _ _ Hr)].
  - intros [= <- <-]. exact (Hm _ _ _ E).
Qed.
Lemma keeps_client {A} (m : ST Io IoErr A) : keeps (on_client m).
Proof. intros w w' r. unfold on_client. destruct (m (client w)). by intros [= <- <-]. Qed.
Lemma keeps_read n : keeps (on_upstream (fcgi_read_exact n)).
Proof.
  intros w w' r. unfold on_upstream. pose proof (read_relation_read (upstream w) n) as Hr.
  destruct (fcgi_read_exact n (upstream w)). by intros [= <- <-].
Qed.
Lemma keeps_log l : keeps (log_relay l).
Proof. by intros w w' r [= <- <-]. Qed.
Lemma keeps_logging {A} (m : ST Relay IoErr A) : keeps m -> keeps (logging_failure m).
Proof.
  intros Hm w w' r. unfold logging_failure. destruct (m w) as [w1 [a|e]] eqn:E; intros [= <- <-]; cbn [upstream];
    exact (Hm _ _ _ E).
Qed.
End Keeping.

Create HintDb keeps.
#[export] Hint Resolve keeps_ret keeps_err keeps_res keeps_bind keeps_client keeps_read keeps_log keeps_logging : keeps.
#[export] Hint Extern 0 (ReadRelation _) => apply _ : keeps.
#[export] Hint Unfold send_error bad_gateway refuse : keeps.

(** Split the branches of a computation and its sequences. *)
Ltac keeps := repeat first
  [ progress (autounfold with keeps) | solve [eauto with keeps]
  | apply keeps_bind; [apply _| |intros ?] | case_match ].

Section Requests.
Context (GzWriter : Type) (gz_new : Z -> GzWriter) (gz_write : GzWriter -> bytes -> GzWriter * bytes)
  (gz_finish : GzWriter -> bytes).
Context `{UnicodeCase} {Fd : Type}.
Implicit Types (fs : FileSystem Fd).

Section Relaying.
Context (R : Io -> Io -> Prop) `{!ReadRelation R}.
Context (max : Z) (head gz : bool) (level : Z).

Lemma keeps_stdout s d : keeps R (relay_stdout GzWriter gz_new gz_write max head gz level s d).
Proof. unfold relay_stdout, relay_body. keeps. Qed.
#[local] Hint Resolve keeps_stdout : keeps.

Lemma keeps_record s : keeps R (relay_record GzWriter gz_new gz_write max head gz level s).
Proof. unfold relay_record. keeps. Qed.
#[local] Hint Resolve keeps_record : keeps.

Lemma keeps_end s : keeps R (relay_end GzWriter gz_finish s).
Proof. unfold relay_end. keeps. Qed.
#[local] Hint Resolve keeps_end : keeps.

Lemma keeps_loop fuel s : keeps R (relay_loop GzWriter gz_new gz_write gz_finish fuel max head gz level s).
Proof. revert s. induction fuel as [|fuel IH]; intros s; cbn [relay_loop]; keeps. Qed.

Lemma keeps_response : keeps R (stream_response GzWriter gz_new gz_write gz_finish max head gz level).
Proof. intros w w' r. unfold stream_response. by apply keeps_loop. Qed.
End Relaying.

(** ** The relay ends *)

Lemma relay_record_shorter max head gz level s w w' flow :
  relay_record GzWriter gz_new gz_write max head gz level s w = (w', Ok flow) ->
  (reader_size (incoming (upstream w')) < reader_size (incoming (upstream w)))%nat.
Proof.
  unfold relay_record. unfold st_bind at 1. destruct (on_upstream (fcgi_read_exact 8) w) as [w1 [header|e]] eqn:E; [|done].
  assert (H1 : (reader_size (incoming (upstream w1)) < reader_size (incoming (upstream w)))%nat).
  { unfold on_upstream, fcgi_read_exact in E. destruct (read_exact _ 8) as [r x] eqn:Er.
    apply read_exact_size in Er as [_ Hlt]. injection E as <- Hx. cbn [upstream incoming]. apply Hlt; [lia|].
    by exists header. }
  intros Hk. enough (no_growth (upstream w1) (upstream w')) by (unfold no_growth in *; lia).
  revert Hk. match goal with |- ?m w1 = _ -> _ => enough (Hm : keeps no_growth m) by apply Hm end.
  pose proof (keeps_stdout no_growth max head gz level). keeps.
Qed.

(** The loop is over before its fuel. *)
Lemma relay_loop_fuel f1 f2 max head gz level s w :
  (reader_size (incoming (upstream w)) < f1)%nat -> (reader_size (incoming (upstream w)) < f2)%nat ->
  relay_loop GzWriter gz_new gz_write gz_finish f1 max head gz level s w =
  relay_loop GzWriter gz_new gz_write gz_finish f2 max head gz level s w.
Proof.
  revert f2 s w. induction f1 as [|f1 IH]; intros f2 s w H1 H2; [lia|]. destruct f2 as [|f2]; [lia|]. cbn [relay_loop].
  unfold st_bind. destruct (relay_record _ _ _ _ _ _ _ s w) as [w1 [flow|e]] eqn:E; [|done].
  apply relay_record_shorter in E. destruct flow as [|s'|s']; [done..|]. apply IH; lia.
Qed.

(** ** Writing to the script's server *)

(** A world whose script's server has been sent more. *)
Definition with_sent (w : Relay) (records : list (Z * bytes)) : Relay :=
  mkRelay (mkIo (wire (upstream w) ++ encode_records records) [] (incoming (upstream w)))
    (client w) (relay_log w) (relay_metrics w).

Lemma with_sent_app w a b : with_sent (with_sent w a) b = with_sent w (a ++ b).
Proof. unfold with_sent. cbn [upstream wire incoming client relay_log relay_metrics]. by rewrite encode_records_app, app_assoc. Qed.

Lemma on_upstream_records kind data w :
  faults (upstream w) = [] ->
  on_upstream (send_records kind data) w = (with_sent w (records_of kind data), Ok tt).
Proof. intros Hf. unfold on_upstream. by rewrite send_records_wire. Qed.
Lemma on_upstream_empty kind w :
  faults (upstream w) = [] -> on_upstream (send_record kind []) w = (with_sent w [(kind, [])], Ok tt).
Proof. intros Hf. unfold on_upstream. by rewrite send_empty_wire. Qed.
Lemma on_upstream_begin w :
  faults (upstream w) = [] -> on_upstream send_begin w = (with_sent w [(BEGIN_REQUEST, BEGIN_BODY)], Ok tt).
Proof. intros Hf. unfold on_upstream. by rewrite send_begin_wire. Qed.

(** The content of [STDIN] sent so far, in records that are neither empty nor
    too long. *)
Definition stdin_records (records : list (Z * bytes)) : Prop :=
  Forall (fun r => fst r = STDIN /\ 0 < len (snd r) <= U16_MAX) records.

Lemma stdin_records_of data : stdin_records (records_of STDIN data).
Proof. apply records_of_spec. Qed.

(** A world whose client has been read up to [r] and whose script has been sent
    more. *)
Definition forwarded (w : Relay) (records : list (Z * bytes)) (r : Reader) : Relay :=
  mkRelay (upstream (with_sent w records)) (mkIo (wire (client w)) (faults (client w)) r)
    (relay_log w) (relay_metrics w).

Lemma forwarded_trans w a b r r' : forwarded (forwarded w a r) b r' = forwarded w (a ++ b) r'.
Proof. unfold forwarded, with_sent. cbn. by rewrite encode_records_app, app_assoc. Qed.

(** The body from the client. *)
Lemma forward_client fuel n w :
  faults (upstream w) = [] -> reader_clean (incoming (client w)) ->
  0 <= n <= len (reader_bytes (incoming (client w))) -> (reader_size (incoming (client w)) < fuel)%nat ->
  exists records r,
    forward_body fuel [] n w = (forwarded w records r, Ok []) /\ stdin_records records /\
    stream_of STDIN records = take (Z.to_nat n) (reader_bytes (incoming (client w))) /\
    reader_bytes r = drop (Z.to_nat n) (reader_bytes (incoming (client w))).
Proof.
  revert n w. induction fuel as [|fuel IH]; intros n w Hf Hc Hn Hfu; [lia|]. cbn [forward_body].
  destruct (Z.leb_spec n 0).
  { replace n with 0 by lia. exists [], (incoming (client w)). split_and!; [|constructor|done|done].
    unfold forwarded, with_sent. cbn. rewrite app_nil_r, <- Hf. by destruct w as [[] [] ? ?]. }
  destruct (read_clean (Z.min n (16 * 1024)) (incoming (client w)) ltac:(lia) Hc)
    as [Hu|(d & r' & Hr & Hl & Hd & Hc' & Hs' & Hb)]; [rewrite Hu in Hn; change (len (reader_bytes [])) with 0 in Hn; lia|].
  assert (Hread : on_client (fun io => let '(io, x) := io_read io (Z.min n (16 * 1024)) in
      (io, match x with
           | ReadOk [] => Err (Custom EofReached (str "client closed request body"))
           | ReadOk d => Ok d
           | ReadWouldBlock => Err (Custom WouldBlock [])
           | ReadErr => Err OsError
           end)) w
    = (mkRelay (upstream w) (mkIo (wire (client w)) (faults (client w)) r') (relay_log w) (relay_metrics w), Ok d)).
  { unfold on_client, io_read. rewrite Hr. by destruct d. }
  erewrite bind_ok by exact Hread. erewrite bind_ok by (by apply on_upstream_records).
  rewrite Hb in *. rewrite len_app in Hn. pose proof (len_nonneg d).
  match goal with |- context [forward_body fuel [] (n - len d) ?x] => set (w1 := x) end.
  destruct (IH (n - len d) w1) as (recs & r & Hw & Hrecs & Hst & Hrb); [done|done|cbn [w1 with_sent client incoming]; lia| |].
  { cbn [w1 with_sent client incoming]. lia. }
  cbn [w1 with_sent client incoming] in *.
  assert (Hsplit : Z.to_nat n = (length d + Z.to_nat (n - len d))%nat) by (unfold len in *; lia).
  exists (records_of STDIN d ++ recs), r. split_and!.
  - rewrite Hw. change w1 with (forwarded w (records_of STDIN d) r'). by rewrite forwarded_trans.
  - apply Forall_app_2; [apply stdin_records_of|done].
  - rewrite stream_of_app, stream_of_records, Z.eqb_refl, Hst, Hsplit. by rewrite take_app_add.
  - by rewrite Hsplit, drop_app_add.
Qed.

(** [forward_body] sends exactly the announced bytes, first those already
    received, and leaves what follows them. *)
Lemma forward_body_spec fuel buffered n w :
  faults (upstream w) = [] -> reader_clean (incoming (client w)) ->
  0 <= n <= len (buffered ++ reader_bytes (incoming (client w))) ->
  (length buffered + reader_size (incoming (client w)) < fuel)%nat ->
  exists records r,
    forward_body fuel buffered n w = (forwarded w records r, Ok (drop (Z.to_nat n) buffered)) /\
    stdin_records records /\
    stream_of STDIN records = take (Z.to_nat n) (buffered ++ reader_bytes (incoming (client w))) /\
    drop (Z.to_nat n) buffered ++ reader_bytes r = drop (Z.to_nat n) (buffered ++ reader_bytes (incoming (client w))).
Proof.
  intros Hf Hc Hn Hfu. destruct buffered as [|b buf].
  { destruct (forward_client fuel n w Hf Hc Hn) as (recs & r & Hw & Hrecs & Hst & Hrb); [cbn in Hfu; lia|].
    exists recs, r. rewrite drop_nil. by split_and!. }
  destruct fuel as [|fuel]; [lia|]. cbn [forward_body]. set (buffered := b :: buf) in *. destruct (Z.leb_spec n 0).
  { replace n with 0 by lia. exists [], (incoming (client w)). split_and!; [|constructor|done|done].
    unfold forwarded, with_sent. cbn. rewrite app_nil_r, <- Hf. by destruct w as [[] [] ? ?]. }
  erewrite bind_ok by (by apply on_upstream_records). cbv zeta. cbn [length] in Hfu.
  rewrite len_app in Hn. pose proof (len_nonneg buffered).
  destruct (Z.min_spec n (len buffered)) as [[Hlt ->]|[Hge ->]].
  - replace (n - n) with 0 by lia. exists (records_of STDIN (take (Z.to_nat n) buffered)), (incoming (client w)).
    split_and!.
    + destruct fuel; cbn [forward_body Z.leb Z.compare]; unfold forwarded, with_sent; cbn; by destruct w as [[] [] ? ?].
    + apply stdin_records_of.
    + rewrite stream_of_records, Z.eqb_refl, take_app_le; [done|unfold len in *; lia].
    + rewrite drop_app_le; [done|unfold len in *; lia].
  - assert (Hlen : Z.to_nat (len buffered) = length buffered) by (unfold len; lia). rewrite Hlen.
    rewrite take_ge, drop_ge by lia.
    destruct (forward_client fuel (n - len buffered) (with_sent w (records_of STDIN buffered))) as (recs & r & Hw & Hrecs & Hst & Hrb);
      [done|done|cbn [with_sent client]; lia|cbn [with_sent client]; unfold buffered in Hfu; cbn in Hfu; lia|].
    assert (Hsplit : Z.to_nat n = (length buffered + Z.to_nat (n - len buffered))%nat) by (unfold len in *; lia).
    exists (records_of STDIN buffered ++ recs), r. split_and!.
    + rewrite Hw. rewrite drop_ge by lia. f_equal. unfold forwarded. rewrite with_sent_app. done.
    + apply Forall_app_2; [apply stdin_records_of|done].
    + rewrite stream_of_app, stream_of_records, Z.eqb_refl, Hst, Hsplit. by rewrite take_app_add.
    + rewrite (drop_ge buffered) by lia. by rewrite Hsplit, drop_app_add.
Qed.

(** ** Whole requests *)

Lemma keeps_logged_response max head gz level :
  keeps same_wire (logging_failure (stream_response GzWriter gz_new gz_write gz_finish max head gz level)).
Proof. by apply keeps_logging, (keeps_response same_wire). Qed.

Lemma send_request_head_sent req route script script_uri secure remote n w :
  faults (upstream w) = [] ->
  send_request_head req route script script_uri secure remote n w =
    (with_sent w ((BEGIN_REQUEST, BEGIN_BODY) ::
       records_of PARAMS (concat (map encode_param (request_params req route script script_uri secure remote n)))), Ok tt).
Proof.
  intros Hf. unfold send_request_head. erewrite bind_ok by (by apply on_upstream_begin).
  rewrite on_upstream_records by done. by rewrite with_sent_app, build_params_list.
Qed.

(** Records whose content is neither empty nor too long. *)
Definition full_records (kind : Z) (records : list (Z * bytes)) : Prop :=
  Forall (fun r => fst r = kind /\ 0 < len (snd r) <= U16_MAX) records.

Lemma full_stream kind k records :
  full_records k records -> k <> kind -> stream_of kind records = [].
Proof.
  intros Ha Hk. unfold stream_of. induction Ha as [|[k' c] l [Hf _] _ IH]; [done|]. cbn [List.filter fst] in *.
  subst k'. by rewrite (eqb_neq_false k kind).
Qed.

Lemma full_small kind records : full_records kind records -> Forall (fun r => len (snd r) <= U16_MAX) records.
Proof. intros Ha. eapply Forall_impl; [exact Ha|]. cbn. lia. Qed.

(** C35 (functional): a POST over HTTP/1.1 reaches the script whole.  When
    [handle_streaming_body] answers, the script's server has been sent one
    request: its parameters, with the announced length, and as [STDIN] exactly
    the announced number of bytes of what the client sends, those received with
    the head first, in whatever pieces they come; both streams are ended.  What
    the client sends beyond the body stays for the next request. *)
Theorem streamed_request_forwarded fuel fs buffered head config secure remote w w' rest :
  faults (upstream w) = [] -> reader_clean (incoming (client w)) ->
  0 <= content_length head <= len (buffered ++ reader_bytes (incoming (client w))) ->
  handle_streaming_body GzWriter gz_new gz_write gz_finish fuel fs true buffered head config secure remote w
    = (w', Ok (rest, Some true)) ->
  let req := into_request head [] in
  let sent := buffered ++ reader_bytes (incoming (client w)) in
  let n := Z.to_nat (content_length head) in
  exists route script_uri inside, select_route fuel fs req config = Some (route, script_uri) /\
    method req = Post /\ check_document_root fs route config = Ok inside /\
    (inside = true ->
     exists script params body records, script_path_for_uri fuel fs route req script_uri = Ok script /\
       params = request_params req route script script_uri secure remote (content_length head) /\
       wrote (upstream w) (upstream w') records /\
       (exists a b, records = [(BEGIN_REQUEST, BEGIN_BODY)] ++ a ++ [(PARAMS, [])] ++ b ++ [(STDIN, [])] /\
          full_records PARAMS a /\ full_records STDIN b) /\
       stream_of STDIN records = body /\ body = take n sent /\ rest = drop n buffered /\
       (Forall (fun p => len (fst p) < 2 ^ 31 /\ len (snd p) < 2 ^ 31) params ->
        decode_params (length params) (stream_of PARAMS records) = Some params)).
Proof.
  intros Hf Hc Hn E req sent n. unfold handle_streaming_body in E. fold req in E.
  destruct (select_route fuel fs req config) as [[route script_uri]|] eqn:Hr; [|done].
  destruct (bool_decide (method req = Post)) eqn:Hm; cbn [negb] in E; [|done].
  destruct (check_document_root fs route config) as [inside|] eqn:Hd; [|done].
  change (st_bind (st_res (Ok inside)) ?k w) with (k inside w) in E. cbv beta in E.
  exists route, script_uri, inside. split_and!; [done|by apply bool_decide_eq_true in Hm|done|].
  intros ->. cbn [negb] in E. destruct (script_path_for_uri fuel fs route req script_uri) as [script|] eqn:Hs; [|done].
  change (st_bind (st_res (Ok script)) ?k w) with (k script w) in E. cbv beta in E. cbn [negb] in E.
  erewrite bind_ok in E by (by apply send_request_head_sent). cbv beta in E.
  erewrite bind_ok in E by (by apply on_upstream_empty). cbv beta in E. rewrite with_sent_app in E.
  match type of E with st_bind _ _ ?x = _ => set (w1 := x) in E end.
  destruct (forward_body_spec (S (length buffered + reader_size (incoming (client w1)))) buffered (content_length head) w1)
    as (b & r & Hw & Hb & Hst & Hrest); [done..|lia|].
  erewrite bind_ok in E by exact Hw. cbv beta in E. erewrite bind_ok in E by (by apply on_upstream_empty). cbv beta in E.
  match type of E with st_bind _ _ ?x = _ => set (w2 := x) in E end.
  unfold st_bind in E.
  destruct (logging_failure _ w2) as [w3 [[]|e]] eqn:Hk; [|done]. apply keeps_logged_response in Hk.
  injection E as <- <-.
  set (params := request_params req route script script_uri secure remote (content_length head)) in *.
  set (pbytes := concat (map encode_param params)) in *.
  exists script, params, (stream_of STDIN b), ([(BEGIN_REQUEST, BEGIN_BODY)] ++ records_of PARAMS pbytes ++ [(PARAMS, [])] ++ b ++ [(STDIN, [])]).
  assert (Hp : full_records PARAMS (records_of PARAMS pbytes)) by apply records_of_spec.
  split_and!; [done|done| | | |done|done|].
  - apply wrote_intro.
    + rewrite Hk. unfold w2, w1, forwarded, with_sent. cbn [upstream wire incoming].
      change ((BEGIN_REQUEST, BEGIN_BODY) :: ?l) with ([(BEGIN_REQUEST, BEGIN_BODY)] ++ l). by rewrite !encode_records_app, <- !app_assoc.
    + repeat match goal with |- Forall _ (_ ++ _) => apply Forall_app_2 end;
        first [by apply (bool_decide_unpack _)|eapply full_small; eassumption].
  - by exists (records_of PARAMS pbytes), b.
  - rewrite !stream_of_app, !stream_of_one, (full_stream STDIN PARAMS _ Hp) by done. cbn. by rewrite app_nil_r.
  - intros Hl. rewrite !stream_of_app, !stream_of_one, stream_of_records, (full_stream PARAMS STDIN b Hb) by done.
    change (BEGIN_REQUEST =? PARAMS) with false. change (STDIN =? PARAMS) with false. rewrite Z.eqb_refl. cbn [app].
    rewrite !app_nil_r. by apply decode_encode_params.
Qed.

(** The entry for a request whose body is in memory writes the same records but
    for one: the parameters are not ended by an empty record, as the other two
    entries and the protocol have it. *)
Theorem whole_request_params_open fuel fs req config secure remote w w' route script_uri :
  faults (upstream w) = [] ->
  handle_fastcgi GzWriter gz_new gz_write gz_finish fuel fs true req config secure remote w = (w', Ok (Some true)) ->
  select_route fuel fs req config = Some (route, script_uri) -> fcgi_method (method req) = true ->
  check_document_root fs route config = Ok true ->
  exists script a b, script_path_for_uri fuel fs route req script_uri = Ok script /\
    wrote (upstream w) (upstream w') ([(BEGIN_REQUEST, BEGIN_BODY)] ++ a ++ b ++ [(STDIN, [])]) /\
    full_records PARAMS a /\ full_records STDIN b /\ stream_of STDIN b = body req /\
    stream_of PARAMS a = concat (map encode_param (request_params req route script script_uri secure remote (len (body req)))).
Proof.
  intros Hf E Hr Hm Hd. unfold handle_fastcgi in E. rewrite Hr in E.
  erewrite bind_ok in E by reflexivity. rewrite Hm in E. cbv beta in E. cbn [negb] in E. rewrite Hd in E.
  match type of E with st_bind _ _ ?x = _ => set (w1 := x) in E end.
  change (st_bind (st_res (Ok true)) ?k w1) with (k true w1) in E. cbv beta in E. cbn [negb] in E.
  destruct (script_path_for_uri fuel fs route req script_uri) as [script|] eqn:Hs; [|done].
  change (st_bind (st_res (Ok script)) ?k w1) with (k script w1) in E. cbv beta in E. cbn [negb] in E.
  erewrite bind_ok in E by (by apply send_request_head_sent). cbv beta in E.
  erewrite bind_ok in E by (by apply on_upstream_records). cbv beta in E.
  erewrite bind_ok in E by (by apply on_upstream_empty). cbv beta in E. rewrite !with_sent_app in E.
  match type of E with logging_failure (st_bind ?m ?k) ?x = _ => assert (Hk : keeps same_wire (logging_failure (st_bind m k))) end.
  { pose proof (keeps_response same_wire). keeps. }
  apply Hk in E. clear Hk.
  set (params := request_params _ _ _ _ _ _ _) in *. set (pbytes := concat (map encode_param params)) in *.
  exists script, (records_of PARAMS pbytes), (records_of STDIN (body req)).
  assert (Hp : full_records PARAMS (records_of PARAMS pbytes)) by apply records_of_spec.
  assert (Hb : full_records STDIN (records_of STDIN (body req))) by apply records_of_spec.
  split_and!; [done| |done|done|by rewrite stream_of_records, Z.eqb_refl|by rewrite stream_of_records, Z.eqb_refl].
  apply wrote_intro.
  - rewrite E. unfold with_sent. cbn [upstream wire w1].
    change ((BEGIN_REQUEST, BEGIN_BODY) :: ?l) with ([(BEGIN_REQUEST, BEGIN_BODY)] ++ l). by rewrite !encode_records_app, <- !app_assoc.
  - repeat match goal with |- Forall _ (_ ++ _) => apply Forall_app_2 end;
      first [by apply (bool_decide_unpack _)|eapply full_small; eassumption].
Qed.
End Requests.

(** ** The loops of an HTTP/2 response end *)

Lemma reader_read_loop_fuel f1 f2 n s :
  (pending_bytes s < f1)%nat -> (pending_bytes s < f2)%nat -> reader_read_loop f1 n s = reader_read_loop f2 n s.
Proof.
  revert f2 s. induction f1 as [|f1 IH]; intros f2 s H1 H2; [lia|]. destruct f2 as [|f2]; [lia|].
  cbn [reader_read_loop]. destruct (read_record s) as [s1 r] eqn:E. apply read_record_loop_spec in E as (_ & _ & Hd).
  destruct r as [[[kind data]|]|]; [|done..]. destruct (consume_record kind data s1) as [s2|] eqn:Ec; [|done].
  assert (Hp : pending_bytes s2 = pending_bytes s1).
  { unfold consume_record in Ec. unfold pending_bytes. by repeat (case_match; try done); simplify_eq. }
  destruct (negb _); [done|]. destruct (fr_done s2); [done|]. apply IH; lia.
Qed.

Lemma poll_loop_fuel f1 f2 clock p :
  (pending_bytes (fp_reader p) < f1)%nat -> (pending_bytes (fp_reader p) < f2)%nat ->
  poll_loop f1 clock p = poll_loop f2 clock p.
Proof.
  revert f2 clock p. induction f1 as [|f1 IH]; intros f2 clock p H1 H2; [lia|]. destruct f2 as [|f2]; [lia|].
  cbn [poll_loop]. destruct (_ <=? _); [done|].
  destruct (read_record (fp_reader p)) as [s1 r] eqn:E. apply read_record_loop_spec in E as (_ & _ & Hd).
  destruct r as [[[kind data]|]|]; [|done..]. cbv zeta.
  destruct (kind =? STDOUT); [|destruct (kind =? END_REQUEST); [done|]; apply IH; cbn [set_reader fp_reader]; lia].
  destruct (_ >? _); [done|]. destruct (find_subslice _ _); [done|].
  apply IH; cbn [push_header_bytes set_reader fp_reader]; lia.
Qed.

(** The loops over a script's records end.  Whatever the
    script sends, the relay, the reader of a body and the poll for a head are
    over before the fuel they run with, whose size is that of what the script
    has to say: more fuel does not change their result. *)
Theorem fastcgi_loops_end (GzWriter : Type) gz_new gz_write gz_finish max head gz level w clock p n s fuel :
  (reader_size (incoming (upstream w)) < fuel)%nat -> (pending_bytes (fp_reader p) < fuel)%nat ->
  (pending_bytes s < fuel)%nat ->
  relay_loop GzWriter gz_new gz_write gz_finish fuel max head gz level (relay_start GzWriter) w =
    stream_response GzWriter gz_new gz_write gz_finish max head gz level w /\
  poll_loop fuel clock p = poll clock p /\
  ((fr_offset s <? len (fr_ready s)) = false -> fr_done s = false -> reader_read_loop fuel n s = reader_read n s).
Proof.
  intros Hw Hp Hs. split_and!.
  - apply relay_loop_fuel; lia.
  - apply poll_loop_fuel; lia.
  - intros Ho Hd. unfold reader_read. rewrite Ho, Hd. apply reader_read_loop_fuel; lia.
Qed.
