(* ===== verification/FastCgiEffects.v ===== *)
(** * The FastCGI client at work

    A site with one script, on which the theorems are run, and where the relay
    departs from what it means to do. *)

From S2P Require Import Prelude RustStd Io Config ConfigSet Http H2Headers Text Paths Fs Metrics Handler Connection FastCgi FastCgiRelay FastCgiProps FastCgiStream FastCgiRequests.

Section Examples.
#[local] Existing Instance ascii_case.

Definition app_route : FastCgiRoute :=
  mkFastCgiRoute (str "*") (str "/app/") (str "unix:/run/php.sock") (str "r").
Definition app_config : ServerConfig :=
  set_fastcgi_routes [app_route] (set_root_dir (str "r") server_config_default).
Definition app_fs : FileSystem bytes := list_fs [(str "r/app/x.php", str "<?php")].
Definition app_request (m : Method) (content : bytes) : HttpRequest :=
  mkHttpRequest m (str "/app/x.php?q=1") (str "HTTP/1.1") [(str "Host", str "a.example"); (str "Proxy", str "evil:1")] content.

(** A script's server that says [records], in one piece. *)
Definition says (records : list (Z * bytes)) : Io := mkIo [] [] [RData (encode_records records)].
Definition END_BODY : bytes := repeat 0 8.

(** The relay with a gzip writer that copies. *)
Definition relayed (max_headers : Z) (head : bool) (records : list (Z * bytes)) : Relay * result unit IoErr :=
  stream_response unit (fun _ => tt) pair (fun _ => []) max_headers head false 6
    (mkRelay (says records) (mkIo [] [] []) [] metrics_zero).

Lemma fastcgi_request_round_trip_witness :
  exists records, stream_of STDIN records = str "a=1" /\ records <> [].
Proof.
  destruct (fastcgi_request_round_trip 10 app_fs (app_request Post (str "a=1")) app_config false (str "10.0.0.1") 0
    (mkIo [] [] []) (fst (begin_h2_response 10 app_fs true true (app_request Post (str "a=1")) app_config false (str "10.0.0.1") 0 (mkIo [] [] [])))
    (mkH2FastCgiPending (reader_new []) [] (response_limit app_config) Post (Z.max (read_timeout app_config) 1 * 1000000000)))
    as (route & script_uri & script & _ & _ & records & _ & (a & b & -> & _) & Hb & _).
  - reflexivity.
  - vm_compute. reflexivity.
  - eexists. split; [exact Hb|]. discriminate.
Defined.

Lemma script_beneath_root_witness :
  exists names fd, Forall safe_name names /\ reached app_fs (str "r") names fd.
Proof.
  destruct (script_beneath_root 10 app_fs app_route (app_request Get []) None (str "r/app/x.php"))
    as (names & root_fd & fd & meta & _ & Hs & _ & _ & Ho & Hr & _).
  - vm_compute. reflexivity.
  - exists names, fd. split; [exact Hs|]. vm_compute in Ho. injection Ho as <-. exact Hr.
Defined.

(** Records of a response: a head, a diagnostic and a body in two pieces. *)
Definition app_head : bytes := str "Content-Type: text/plain" ++ CRLF ++ str "Content-Length: 5" ++ CRLF2.
Definition app_records : list (Z * bytes) :=
  [(STDOUT, app_head ++ str "he"); (STDERR, str "note"); (STDOUT, str "llo")].

Lemma fastcgi_reader_refines_witness :
  let s := reader_new (incoming (says [(STDOUT, str "hello"); (END_REQUEST, END_BODY)])) in
  snd (read (body_reader s) 3) = ReadOk (str "hel").
Proof.
  intros s. destruct (fastcgi_reader_refines 3 s (fst (reader_read 3 s)) (snd (reader_read 3 s))) as [-> _].
  - reflexivity.
  - by split; [|left].
  - by apply surjective_pairing.
  - vm_compute. reflexivity.
Defined.

Lemma fastcgi_body_delivered_witness :
  let s := reader_new (incoming (says (app_records ++ [(END_REQUEST, END_BODY)]))) in
  reader_bytes (body_reader s) = app_head ++ str "hello".
Proof.
  intros s. destruct (fastcgi_body_delivered app_records END_BODY [] s) as [_ ->].
  - by split; [|left].
  - reflexivity.
  - repeat constructor. by do 2 eexists.
  - by apply (bool_decide_unpack _).
  - reflexivity.
  - reflexivity.
  - by apply (bool_decide_unpack _).
  - discriminate.
  - reflexivity.
Defined.

Definition app_pending : H2FastCgiPending :=
  mkH2FastCgiPending (reader_new (incoming (says app_records))) [] 100 Get 10.

Lemma fastcgi_head_checked_witness :
  exists response reader, snd (poll (fun _ => 0) app_pending) = Ok (Some (response, Some reader, Some 5)) /\
    clean_headers response /\ fr_body_bytes reader = len (fr_ready reader).
Proof.
  destruct (poll (fun _ => 0) app_pending) as [p' x] eqn:E.
  destruct x as [[[[response reader] length]|]|e]; [|by vm_compute in E..].
  destruct (fastcgi_head_checked (fun _ => 0) app_pending p' response reader length) as (Hc & _ & Hr).
  - by split; [|left].
  - reflexivity.
  - exact E.
  - destruct reader as [reader|]; [|by vm_compute in E]. exists response, reader. split_and!; [|done|apply Hr].
    vm_compute in E. injection E as <- <- <- <-. reflexivity.
Defined.

Lemma script_response_relayed_witness :
  wire (client (fst (relayed 100 false (app_records ++ [(END_REQUEST, END_BODY)])))) =
    str "HTTP/1.1 200 OK" ++ CRLF ++ str "Content-Type: text/plain" ++ CRLF ++ str "Content-Length: 5" ++ CRLF
    ++ str "Connection: close" ++ CRLF2 ++ str "hello".
Proof.
  destruct (script_response_relayed unit (fun _ => tt) pair (fun _ => []) 100 false false 6
    (take 1 app_records) (drop 1 app_records) END_BODY []
    (mkRelay (says (app_records ++ [(END_REQUEST, END_BODY)])) (mkIo [] [] []) [] metrics_zero) (len app_head - 4)
    (mkHeadState (str "Content-Type: text/plain" ++ CRLF ++ str "Content-Length: 5" ++ CRLF) 200 (Some 5)
       (Some (str "text/plain")) false false)) as (w' & Hw & Hwire).
  - reflexivity.
  - repeat constructor. by do 2 eexists.
  - by apply (bool_decide_unpack _).
  - by apply (bool_decide_unpack _).
  - reflexivity.
  - reflexivity.
  - by apply (bool_decide_unpack _).
  - reflexivity.
  - by split_and!.
  - by apply (bool_decide_unpack _).
  - by intros n [= <-].
  - unfold relayed. rewrite Hw. cbn [fst]. rewrite Hwire. reflexivity.
Defined.

(** A POST whose body comes partly with its head. *)
Definition app_post : HttpRequestHead :=
  mkHead Post (str "/app/x.php") (str "HTTP/1.1") [(str "Content-Length", str "5")] 5 50.
Definition app_world : Relay :=
  mkRelay (says (app_records ++ [(END_REQUEST, END_BODY)])) (mkIo [] [] [RData (str "cd"); RData (str "eGET")]) [] metrics_zero.
Definition app_posted : Relay * result (bytes * option bool) IoErr :=
  handle_streaming_body unit (fun _ => tt) pair (fun _ => []) 10 app_fs true (str "ab") app_post app_config false
    (str "10.0.0.1") app_world.

Lemma streamed_request_forwarded_witness :
  exists records, wrote (upstream app_world) (upstream (fst app_posted)) records /\ stream_of STDIN records = str "abcde".
Proof.
  destruct (streamed_request_forwarded unit (fun _ => tt) pair (fun _ => []) 10 app_fs (str "ab") app_post app_config false
    (str "10.0.0.1") app_world (fst app_posted) []) as (route & script_uri & inside & Hr & _ & Hd & Hall).
  - reflexivity.
  - repeat constructor; by do 2 eexists.
  - by apply (bool_decide_unpack _).
  - vm_compute. reflexivity.
  - vm_compute in Hr. injection Hr as <- <-. vm_compute in Hd. injection Hd as <-.
    destruct (Hall eq_refl) as (script & params & body & records & _ & _ & Hw & _ & Hb & Hbody & _).
    exists records. split; [exact Hw|]. rewrite Hb, Hbody. reflexivity.
Defined.

Lemma fastcgi_loops_end_witness :
  poll_loop 1000 (fun _ => 0) app_pending = poll (fun _ => 0) app_pending.
Proof.
  apply (fastcgi_loops_end unit (fun _ => tt) pair (fun _ => []) 100 false false 6 app_world (fun _ => 0) app_pending 10
    (reader_new []) 1000); vm_compute; lia.
Defined.

(** ** Departures *)

(** A compressed response loses [Connection: close]: the line before it is not
    ended, so that both become one header named Vary. *)
Theorem compressed_head_runs_together h :
  exists lines, relay_head true h =
    lines ++ CRLF ++ str "Vary: Accept-EncodingConnection: close" ++ CRLF2.
Proof.
  exists (str "HTTP/1.1 " ++ to_string (hs_status h) ++ str " " ++ fcgi_reason_phrase (hs_status h) ++ CRLF
    ++ join_with CRLF (List.filter (fun line => negb (starts_with (to_ascii_lowercase line) (str "content-length:")))
                         (lines (hs_response h)))
    ++ CRLF ++ str "Content-Encoding: gzip").
  unfold relay_head, compressed_lines.
  change (str "Vary: Accept-EncodingConnection: close") with (str "Vary: Accept-Encoding" ++ str "Connection: close").
  rewrite <- !app_assoc. done.
Qed.

(** The answer to HEAD for a script that announces a length and, as it should,
    sends no body: a second response, 502 Bad Gateway, follows the head. *)
Theorem head_answered_twice :
  wire (client (fst (relayed 100 true [(STDOUT, app_head); (END_REQUEST, END_BODY)]))) =
    str "HTTP/1.1 200 OK" ++ CRLF ++ str "Content-Type: text/plain" ++ CRLF ++ str "Content-Length: 5" ++ CRLF
    ++ str "Connection: close" ++ CRLF2
    ++ str "HTTP/1.1 502 Bad Gateway" ++ CRLF ++ str "Server: veysrs/0.6.1" ++ CRLF ++ str "Content-Length: 28" ++ CRLF
    ++ str "Content-Type: text/plain; charset=utf-8" ++ CRLF ++ str "Connection: close" ++ CRLF2
    ++ str "FastCGI body length mismatch".
Proof. vm_compute. reflexivity. Qed.

(** The limit on a response's head counts the body bytes of the records it comes
    in: a response of one record is refused although its head fits. *)
Theorem head_limit_counts_body :
  len app_head < 100 /\
  take 24 (wire (client (fst (relayed 100 false [(STDOUT, app_head ++ repeat 120 80); (END_REQUEST, END_BODY)]))))
    = str "HTTP/1.1 502 Bad Gateway" /\
  snd (poll (fun _ => 0) (mkH2FastCgiPending
        (reader_new (incoming (says [(STDOUT, app_head ++ repeat 120 80)]))) [] 100 Get 10))
    = Err (invalid_data (str "FastCGI headers too large")).
Proof. split_and!; vm_compute; reflexivity. Qed.

(** A client chooses [HTTP_PROXY]: its header Proxy becomes the variable from
    which scripts take their proxy. *)
Theorem proxy_header_forwarded req route script script_uri secure remote n value :
  (str "Proxy", value) ∈ headers req ->
  (str "HTTP_PROXY", value) ∈ request_params req route script script_uri secure remote n.
Proof.
  intros Hin. unfold request_params. apply elem_of_app. right. apply list_elem_of_In, in_map_iff.
  exists (str "Proxy", value). split; [done|]. apply filter_In. split; [by apply list_elem_of_In|done].
Qed.
End Examples.
