(* ===== verification/Permits.v ===== *)
(** * Counting guards (src/server/proxy.rs, src/server/listener.rs)

    Two counters are shared by all threads without a lock: the connections to
    upstreams ([acquire_upstream_permit], [UpstreamPermit]) and the connections
    being served ([ConnectionGuard]).  Both are taken by a loop around a weak
    compare-and-exchange and given back when a guard is dropped.  The threads
    and their interleavings are explicit; a weak exchange may fail although the
    value is the expected one.  The two loops differ in what they do after a
    failure: one goes on with the value the exchange has seen, the other loads
    the counter again. *)

From S2P Require Import Prelude.

Inductive OnFailure : Type := KeepObserved | Reload.

(** A thread has no guard, works with a value it has seen, is about to load
    again, or holds a guard. *)
Inductive Attempt : Type :=
| Outside
| Observed (current : Z)
| Reloading
| Inside.

#[global] Instance Attempt_eq_dec : EqDecision Attempt.
Proof. solve_decision. Defined.

Record Counter : Type := mkCounter {
  count : Z;
  threads : list Attempt;
}.

(** What has been settled about a thread's attempt or guard. *)
Inductive Settled : Type := Acquired | Refused | Released.
Abbreviation Event := (nat * Settled)%type.

Section Counter.
Context (max : Z) (style : OnFailure).

Definition set_thread (i : nat) (a : Attempt) (s : Counter) : Counter := mkCounter (count s) (<[i := a]> (threads s)).

(** The thread sees the counter's value; at the limit its refusal is settled. *)
Definition observe (i : nat) (s : Counter) : Counter * list Event :=
  (set_thread i (Observed (count s)) s, if count s >=? max then [(i, Refused)] else []).

(** [counter.load(..)] at the start of an attempt or of a further round. *)
Definition load (i : nat) (s : Counter) : option (Counter * list Event) :=
  match threads s !! i with
  | Some Outside | Some Reloading => Some (observe i s)
  | _ => None
  end.

(** The return without a guard. *)
Definition leave (i : nat) (s : Counter) : option (Counter * list Event) :=
  match threads s !! i with
  | Some (Observed current) => if current >=? max then Some (set_thread i Outside s, []) else None
  | _ => None
  end.

(** [compare_exchange_weak(current, current + 1)]. *)
Definition exchange (spurious : bool) (i : nat) (s : Counter) : option (Counter * list Event) :=
  match threads s !! i with
  | Some (Observed current) =>
      if current >=? max then None
      else if (count s =? current) && negb spurious then
        Some (mkCounter (current + 1) (<[i := Inside]> (threads s)), [(i, Acquired)])
      else
        match style with
        | KeepObserved => Some (observe i s)
        | Reload => Some (set_thread i Reloading s, [])
        end
  | _ => None
  end.

(** The guard is dropped: [fetch_sub] wraps. *)
Definition release (i : nat) (s : Counter) : option (Counter * list Event) :=
  match threads s !! i with
  | Some Inside => Some (mkCounter ((count s - 1) mod 2 ^ 64) (<[i := Outside]> (threads s)), [(i, Released)])
  | _ => None
  end.

Inductive counter_step (s s' : Counter) (events : list Event) : Prop :=
| step_load i : load i s = Some (s', events) -> counter_step s s' events
| step_leave i : leave i s = Some (s', events) -> counter_step s s' events
| step_exchange spurious i : exchange spurious i s = Some (s', events) -> counter_step s s' events
| step_release i : release i s = Some (s', events) -> counter_step s s' events.

Inductive counter_run : Counter -> list Event -> Prop :=
| run_start n : counter_run (mkCounter 0 (repeat Outside n)) []
| run_next s s' events l : counter_run s l -> counter_step s s' events -> counter_run s' (l ++ events).

(** ** Specification: a counter that is taken and given back in one step *)

Definition atomic_step (c : Z) (e : Settled) : option Z :=
  match e with
  | Acquired => if c <? max then Some (c + 1) else None
  | Refused => if c >=? max then Some c else None
  | Released => if c >? 0 then Some (c - 1) else None
  end.

Fixpoint replay (c : Z) (l : list Event) : option Z :=
  match l with
  | [] => Some c
  | e :: l => match atomic_step c (snd e) with Some c => replay c l | None => None end
  end.

Lemma replay_app c l1 l2 :
  replay c (l1 ++ l2) = match replay c l1 with Some c => replay c l2 | None => None end.
Proof. revert c. induction l1 as [|e l1 IH]; intros c; [done|]. cbn. by destruct (atomic_step c (snd e)). Qed.

(** What was settled last about a thread. *)
Definition last_settled (i : nat) (l : list Event) : option Settled :=
  option_map snd (last (List.filter (fun e => Nat.eqb (fst e) i) l)).

(** What the state of a thread says about it. *)
Definition agrees (a : Attempt) (e : option Settled) : Prop :=
  match a with
  | Inside => e = Some Acquired
  | Observed current => e <> Some Acquired /\ (max <= current -> e = Some Refused)
  | Outside | Reloading => e <> Some Acquired
  end.

Definition holders (l : list Attempt) : Z := len (List.filter (fun a => bool_decide (a = Inside)) l).

Record counter_ok (s : Counter) (l : list Event) : Prop := {
  ok_count : count s = holders (threads s);
  ok_limit : 0 <= count s <= max;
  ok_replay : replay 0 l = Some (count s);
  ok_agrees : forall i a, threads s !! i = Some a -> agrees a (last_settled i l);
}.

(** ** Every run is a run of the specification *)

Definition one_if (a : Attempt) : Z := if bool_decide (a = Inside) then 1 else 0.

Lemma holders_insert l i a b : l !! i = Some a -> holders (<[i := b]> l) = holders l - one_if a + one_if b.
Proof.
  unfold holders. revert i. induction l as [|x l IH]; intros [|i] Hi; [done..| |].
  - injection Hi as ->. change (<[0%nat := b]> (a :: l)) with (b :: l). cbn [List.filter]. unfold one_if.
    do 2 case_bool_decide; rewrite ?len_cons; lia.
  - change (<[S i := b]> (x :: l)) with (x :: <[i := b]> l). cbn [List.filter]. specialize (IH i Hi).
    destruct (bool_decide (x = Inside)); rewrite ?len_cons; lia.
Qed.

Lemma holders_repeat n : holders (repeat Outside n) = 0.
Proof. unfold holders. by induction n. Qed.

Lemma last_settled_nil i : last_settled i [] = None.
Proof. done. Qed.

Lemma last_settled_snoc i l j e :
  last_settled i (l ++ [(j, e)]) = if Nat.eqb j i then Some e else last_settled i l.
Proof.
  unfold last_settled. rewrite List.filter_app. cbn [List.filter fst]. destruct (Nat.eqb j i).
  - by rewrite last_snoc.
  - by rewrite app_nil_r.
Qed.

Lemma agrees_insert l l' (states : list Attempt) i a b :
  (forall j c, states !! j = Some c -> agrees c (last_settled j l)) -> states !! i = Some a ->
  agrees b (last_settled i l') -> (forall j, j <> i -> last_settled j l' = last_settled j l) ->
  forall j c, <[i := b]> states !! j = Some c -> agrees c (last_settled j l').
Proof.
  intros Hall Hi Hb Hl j c Hj. destruct (decide (j = i)) as [->|Hne].
  - rewrite list_lookup_insert_eq in Hj by (by eapply lookup_lt_Some). by injection Hj as <-.
  - rewrite list_lookup_insert_ne in Hj by done. rewrite Hl by done. by apply Hall.
Qed.

Lemma observe_ok s l i a :
  counter_ok s l -> threads s !! i = Some a -> a <> Inside ->
  counter_ok (fst (observe i s)) (l ++ snd (observe i s)).
Proof.
  intros [Hc Hm Hr Ha] Hi Hne. unfold observe. cbn [fst snd].
  assert (Hna : last_settled i l <> Some Acquired).
  { specialize (Ha _ _ Hi). destruct a; cbn in Ha; [done|apply Ha|done|done]. }
  assert (Hcount : count s = holders (<[i := Observed (count s)]> (threads s))).
  { rewrite (holders_insert _ _ a) by done. unfold one_if. rewrite !bool_decide_eq_false_2 by done. lia. }
  destruct (Z.geb_spec (count s) max).
  - constructor; cbn [set_thread count threads]; [done|done| |].
    + rewrite replay_app, Hr. cbn. by replace (count s >=? max) with true by lia.
    + eapply agrees_insert; [exact Ha|exact Hi| |].
      * rewrite last_settled_snoc, Nat.eqb_refl. by split.
      * intros j Hj. rewrite last_settled_snoc. by rewrite (proj2 (Nat.eqb_neq i j)) by done.
  - rewrite app_nil_r. constructor; cbn [set_thread count threads]; [done|done|done|].
    eapply agrees_insert; [exact Ha|exact Hi| |done]. split; [done|lia].
Qed.

Lemma set_thread_ok s l i a b :
  counter_ok s l -> threads s !! i = Some a -> a <> Inside -> b = Outside \/ b = Reloading ->
  counter_ok (set_thread i b s) l.
Proof.
  intros [Hc Hm Hr Ha] Hi Hne Hb. constructor; cbn [set_thread count threads]; [|done|done|].
  - rewrite (holders_insert _ _ a) by done. unfold one_if.
    rewrite !bool_decide_eq_false_2 by (destruct Hb as [-> | ->]; done). lia.
  - eapply agrees_insert; [exact Ha|exact Hi| |done]. specialize (Ha _ _ Hi).
    enough (last_settled i l <> Some Acquired) by (by destruct Hb as [-> | ->]).
    destruct a; cbn in Ha; [done|apply Ha|done|done].
Qed.

Lemma counter_step_ok s s' events l : max <= USIZE_MAX -> counter_ok s l -> counter_step s s' events -> counter_ok s' (l ++ events).
Proof.
  intros Hmax Hok. pose proof Hok as [Hc Hm Hr Ha]. destruct 1 as [i E|i E|spurious i E|i E].
  - unfold load in E. destruct (threads s !! i) as [[]|] eqn:Hi; try done; injection E as <- <-;
      by eapply observe_ok.
  - unfold leave in E. destruct (threads s !! i) as [[| c | |]|] eqn:Hi; try done.
    destruct (c >=? max); [|done]. injection E as <- <-. rewrite app_nil_r. eapply set_thread_ok; try done. by left.
  - unfold exchange in E. destruct (threads s !! i) as [[| c | |]|] eqn:Hi; try done.
    destruct (Z.geb_spec c max); [done|]. destruct ((count s =? c) && negb spurious) eqn:Hx.
    + apply andb_true_iff in Hx as [Hx _]. apply Z.eqb_eq in Hx. injection E as <- <-. constructor; cbn [count threads].
      * rewrite (holders_insert _ _ (Observed c)) by done. change (one_if (Observed c)) with 0. change (one_if Inside) with 1. lia.
      * lia.
      * rewrite replay_app, Hr. cbn. by replace (count s <? max) with true by lia; subst c.
      * eapply agrees_insert; [exact Ha|exact Hi| |].
        -- by rewrite last_settled_snoc, Nat.eqb_refl.
        -- intros j Hj. rewrite last_settled_snoc. by rewrite (proj2 (Nat.eqb_neq i j)) by done.
    + destruct style; injection E as <- <-.
      * by eapply observe_ok.
      * rewrite app_nil_r. eapply set_thread_ok; try done. by right.
  - unfold release in E. destruct (threads s !! i) as [[| c | |]|] eqn:Hi; try done. injection E as <- <-.
    assert (Hpos : holders (<[i := Outside]> (threads s)) = holders (threads s) - 1).
    { rewrite (holders_insert _ _ Inside) by done. change (one_if Inside) with 1. change (one_if Outside) with 0. lia. }
    pose proof (len_nonneg (List.filter (fun a => bool_decide (a = Inside)) (<[i := Outside]> (threads s)))) as Hnn.
    change (len _) with (holders (<[i := Outside]> (threads s))) in Hnn. unfold USIZE_MAX, U64_MAX in Hmax.
    rewrite Z.mod_small by lia. constructor; cbn [count threads].
    + lia.
    + lia.
    + rewrite replay_app, Hr. cbn. by replace (count s >? 0) with true by lia.
    + eapply agrees_insert; [exact Ha|exact Hi| |].
      * by rewrite last_settled_snoc, Nat.eqb_refl.
      * intros j Hj. rewrite last_settled_snoc. by rewrite (proj2 (Nat.eqb_neq i j)) by done.
Qed.

Lemma counter_run_ok s l : 0 <= max <= USIZE_MAX -> counter_run s l -> counter_ok s l.
Proof.
  intros Hmax. induction 1 as [n|s s' events l _ IH Hs]; [|eapply counter_step_ok; [lia|exact IH|exact Hs]].
  constructor; cbn [count threads]; [by rewrite holders_repeat|lia|done|].
  intros i a Hi. apply list_elem_of_lookup_2, list_elem_of_In, repeat_spec in Hi. by subst a.
Qed.
End Counter.

(** C29: The counters behave as if taken and given back in one
    step.  In every interleaving of the threads, with weak exchanges failing at
    will and for both ways of going on after a failure, what is settled about
    the attempts is a history of a counter that is taken exactly while it is
    below the limit and refused exactly when it is not; a thread has the answer
    that was settled for it, and the counter is the number of guards, which
    never exceeds the limit. *)
Theorem counting_guards_atomic max style s l :
  0 <= max <= USIZE_MAX -> counter_run max style s l ->
  replay max 0 l = Some (count s) /\ count s = holders (threads s) /\ 0 <= count s <= max /\
  forall i a, threads s !! i = Some a ->
    (a = Inside -> last_settled i l = Some Acquired) /\
    (forall s' events, leave max i s = Some (s', events) -> last_settled i l = Some Refused).
Proof.
  intros Hmax Hrun. apply counter_run_ok in Hrun as [Hc Hm Hr Ha]; [|done]. split_and!; [done|done|lia|lia|].
  intros i a Hi. pose proof (Ha _ _ Hi) as Hag. split; [by intros ->|]. intros s' events Hg. unfold leave in Hg.
  rewrite Hi in Hg. destruct a as [|c| |]; try done. destruct (Z.geb_spec c max); [|done]. by apply Hag.
Qed.

(** A thread that is not disturbed is done after a load and two exchanges. *)
Theorem undisturbed_attempt max style s l i :
  0 <= max <= USIZE_MAX -> counter_run max style s l -> threads s !! i = Some Outside ->
  exists s1 e1, load max i s = Some (s1, e1) /\
    (if count s <? max then exists s2, exchange max style false i s1 = Some (s2, [(i, Acquired)]) /\ threads s2 !! i = Some Inside
     else exists s2, leave max i s1 = Some (s2, []) /\ threads s2 !! i = Some Outside).
Proof.
  intros Hmax Hrun Hi. unfold load. rewrite Hi. eexists _, _. split; [done|].
  pose proof (lookup_lt_Some _ _ _ Hi) as Hlt.
  unfold exchange, leave, set_thread. cbn [threads count]. rewrite !list_lookup_insert_eq by done.
  destruct (Z.ltb_spec (count s) max).
  - replace (count s >=? max) with false by lia. rewrite Z.eqb_refl. cbn [andb negb]. eexists. split; [done|].
    cbn [threads]. rewrite list_lookup_insert_eq; [done|]. by rewrite length_insert.
  - replace (count s >=? max) with true by lia. eexists. split; [done|]. cbn [threads].
    rewrite list_lookup_insert_eq; [done|]. by rewrite length_insert.
Qed.

(** Two threads compete for one guard. *)
Definition contended : Counter := mkCounter 1 [Inside; Observed 1].
Lemma contended_run : counter_run 1 KeepObserved contended [(0%nat, Acquired); (1%nat, Refused)].
Proof.
  apply (run_next 1 KeepObserved (mkCounter 1 [Inside; Observed 0]) contended [(1%nat, Refused)] [(0%nat, Acquired)]).
  - apply (run_next 1 KeepObserved (mkCounter 0 [Observed 0; Observed 0]) _ [(0%nat, Acquired)] []).
    + apply (run_next 1 KeepObserved (mkCounter 0 [Observed 0; Outside]) _ [] []).
      * apply (run_next 1 KeepObserved (mkCounter 0 [Outside; Outside]) _ [] []); [apply (run_start 1 KeepObserved 2)|].
        by apply step_load with 0%nat.
      * by apply step_load with 1%nat.
    + by apply step_exchange with false 0%nat.
  - by apply step_exchange with false 1%nat.
Qed.

Lemma counting_guards_atomic_witness :
  replay 1 0 [(0%nat, Acquired); (1%nat, Refused)] = Some 1 /\ last_settled 1 [(0%nat, Acquired); (1%nat, Refused)] = Some Refused.
Proof.
  destruct (counting_guards_atomic 1 KeepObserved contended [(0%nat, Acquired); (1%nat, Refused)]) as (Hr & _ & _ & Ha).
  - unfold USIZE_MAX, U64_MAX. lia.
  - exact contended_run.
  - split; [exact Hr|]. destruct (Ha 1%nat (Observed 1) eq_refl) as [_ Hg]. by apply (Hg (mkCounter 1 [Inside; Outside]) []).
Defined.
