(* ===== verification/Upstreams.v ===== *)
(** * Choosing and connecting to an upstream (src/server/proxy.rs)

    The state all proxied requests share: the round robin, the health of the
    candidates, the pool of idle connections and the count of active ones.  Each
    operation locks what it uses and is an atomic step; within one operation the
    clock, in nanoseconds, is read once.  What a connection attempt finds
    depends on the authority and on the attempts before it, through the
    function [network]: [None] when its name does not resolve, otherwise what
    each of its addresses leads to.  Time-outs and other socket options are left
    out. *)

From S2P Require Import Prelude RustStd Text Io Config Http Limits Metrics.

Definition HEALTH_COOLDOWN : Z := from_secs 10.
Definition MAX_IDLE_UPSTREAMS : Z := 16.
Definition MAX_TOTAL_IDLE_UPSTREAMS : Z := 256.
Definition IDLE_UPSTREAM_TTL : Z := from_secs 30.
Definition MAX_ACTIVE_UPSTREAMS : Z := 256.

Record HealthState : Type := mkHealthState {
  failures : Z;
  recoveries : Z;
  last_probe : option Z;
  unhealthy_until : option Z;
}.

Record IdleUpstream : Type := mkIdleUpstream {
  idle_stream : Io;
  inserted : Z;
}.

(** The statics.  [HEALTH] is [None] until its first use; [dialled] lists the
    authorities of the attempts so far. *)
Record Upstreams : Type := mkUpstreams {
  round_robin : gmap bytes Z;
  health : option (gmap bytes HealthState);
  pool : gmap bytes (list IdleUpstream);
  active : Z;
  clock : nat -> Z;
  dialled : list bytes;
}.

Definition set_round_robin (v : gmap bytes Z) (u : Upstreams) : Upstreams :=
  mkUpstreams v (health u) (pool u) (active u) (clock u) (dialled u).
Definition set_health (v : gmap bytes HealthState) (u : Upstreams) : Upstreams :=
  mkUpstreams (round_robin u) (Some v) (pool u) (active u) (clock u) (dialled u).
Definition set_pool (v : gmap bytes (list IdleUpstream)) (u : Upstreams) : Upstreams :=
  mkUpstreams (round_robin u) (health u) v (active u) (clock u) (dialled u).
Definition set_active (v : Z) (u : Upstreams) : Upstreams :=
  mkUpstreams (round_robin u) (health u) (pool u) v (clock u) (dialled u).
Definition set_dialled (v : list bytes) (u : Upstreams) : Upstreams :=
  mkUpstreams (round_robin u) (health u) (pool u) (active u) (clock u) v.

(** [Instant::now()]: the next reading. *)
Definition tick (u : Upstreams) : Upstreams * Z :=
  (mkUpstreams (round_robin u) (health u) (pool u) (active u) (fun n => clock u (S n)) (dialled u),
   clock u O).

(** [HEALTH.get_or_init(..)]. *)
Definition health_map (u : Upstreams) : gmap bytes HealthState := default ∅ (health u).

(** ** Permits

    [Permits.counting_guards_atomic] justifies the single step. *)

Definition acquire_upstream_permit (u : Upstreams) : Upstreams * result unit IoErr :=
  if active u >=? MAX_ACTIVE_UPSTREAMS
  then (u, Err (Custom WouldBlock (str "upstream connection limit reached")))
  else (set_active (active u + 1) u, Ok tt).

Definition drop_permit (u : Upstreams) : Upstreams := set_active ((active u - 1) mod 2 ^ 64) u.

(** ** The pool *)

Definition join_key (l : list bytes) : bytes := join_with [0] l.

Definition pool_key (route : ProxyRoute) (candidate : bytes) : bytes :=
  join_key [proxy_host route; proxy_prefix route; proxy_upstream route; candidate].

Definition fresh (now : Z) (idle : IdleUpstream) : bool :=
  duration_since now (inserted idle) <=? IDLE_UPSTREAM_TTL.

(** Expired connections in front are dropped. *)
Fixpoint pop_fresh (now : Z) (queue : list IdleUpstream) : list IdleUpstream * option Io :=
  match queue with
  | [] => ([], None)
  | idle :: queue => if fresh now idle then (queue, Some (idle_stream idle)) else pop_fresh now queue
  end.

Definition take_pooled (route : ProxyRoute) (candidate : bytes) (u : Upstreams) : Upstreams * option Io :=
  let key := pool_key route candidate in
  match pool u !! key with
  | None => (u, None)
  | Some queue =>
      let '(u, now) := tick u in
      let '(queue, stream) := pop_fresh now queue in
      (set_pool (<[key := queue]> (pool u)) u, stream)
  end.

Definition total_idle (p : gmap bytes (list IdleUpstream)) : Z := map_fold (fun _ queue n => len queue + n) 0 p.

Definition return_pooled (route : ProxyRoute) (candidate : bytes) (stream : Io) (u : Upstreams) : Upstreams :=
  let key := pool_key route candidate in
  let '(u, now) := tick u in
  let u := set_pool (List.filter (fresh now) <$> pool u) u in
  if total_idle (pool u) >=? MAX_TOTAL_IDLE_UPSTREAMS then u else
  let queue := default [] (pool u !! key) in
  let queue := if len queue <? MAX_IDLE_UPSTREAMS then queue ++ [mkIdleUpstream stream now] else queue in
  set_pool (<[key := queue]> (pool u)) u.

Definition shutdown_pool (u : Upstreams) : Upstreams := set_pool ∅ u.

(** ** Health *)

Record HealthSettings : Type := mkHealthSettings {
  interval : Z;
  probe_timeout : Z;
  failure_threshold : Z;
  recovery_threshold : Z;
}.

(** [HealthSettings::default()]. *)
Definition health_settings_default : HealthSettings := mkHealthSettings 0 (from_secs 2) 3 2.

Definition health_settings (config : ServerConfig) : HealthSettings :=
  mkHealthSettings
    (if upstream_health_interval config =? 0 then 0 else from_secs (upstream_health_interval config))
    (from_secs (Z.max (upstream_health_timeout config) 1))
    (Z.max (upstream_health_failures config) 1)
    (Z.max (upstream_health_recovery config) 1).

Definition health_key (route : ProxyRoute) (upstream : bytes) : bytes :=
  join_key [proxy_host route; proxy_prefix route; upstream].

Definition no_health : HealthState := mkHealthState 0 0 None None.
Definition health_entry (key : bytes) (u : Upstreams) : HealthState := default no_health (health_map u !! key).

Definition health_probe_due (key : bytes) (interval : Z) (u : Upstreams) : Upstreams * bool :=
  let u := set_health (health_map u) u in
  match health_map u !! key with
  | Some (mkHealthState _ _ (Some last) _) =>
      let '(u, now) := tick u in (u, interval <=? duration_since now last)
  | _ => (u, true)
  end.

Definition health_available (key : bytes) (u : Upstreams) : Upstreams * bool :=
  let u := set_health (health_map u) u in
  match health_map u !! key with
  | None => (u, true)
  | Some state => (u, match unhealthy_until state with None => true | Some _ => false end)
  end.

Definition saturating_add_u32 (a b : Z) : Z := Z.min (a + b) (2 ^ 32 - 1).

(** The time until which a candidate counts as unhealthy is read only when it
    gets there. *)
Definition cool_down (reached : bool) (state : HealthState) (u : Upstreams) : Upstreams * HealthState :=
  if reached then
    let '(u, now) := tick u in
    (u, mkHealthState (failures state) (recoveries state) (last_probe state) (Some (now + HEALTH_COOLDOWN)))
  else (u, state).

Definition mark_probe_failed (key : bytes) (threshold : Z) (u : Upstreams) : Upstreams :=
  let state := health_entry key u in
  let state := mkHealthState (saturating_add_u32 (failures state) 1) 0 (last_probe state) (unhealthy_until state) in
  let '(u, state) := cool_down (failures state >=? Z.max threshold 1) state u in
  set_health (<[key := state]> (health_map u)) u.

Definition mark_probe_healthy (key : bytes) (threshold : Z) (u : Upstreams) : Upstreams :=
  let state := health_entry key u in
  let state :=
    match unhealthy_until state with
    | Some _ =>
        let recoveries := saturating_add_u32 (recoveries state) 1 in
        if recoveries >=? Z.max threshold 1 then mkHealthState 0 0 (last_probe state) None
        else mkHealthState (failures state) recoveries (last_probe state) (unhealthy_until state)
    | None => mkHealthState 0 (recoveries state) (last_probe state) None
    end in
  set_health (<[key := state]> (health_map u)) u.

Definition mark_failed (key : bytes) (u : Upstreams) : Upstreams :=
  let state := health_entry key u in
  let state := mkHealthState (saturating_add_u32 (failures state) 1) (recoveries state) (last_probe state) (unhealthy_until state) in
  let '(u, state) := cool_down (failures state >=? 3) state u in
  set_health (<[key := state]> (health_map u)) u.

Definition mark_healthy (key : bytes) (u : Upstreams) : Upstreams :=
  let u := set_health (health_map u) u in
  match health_map u !! key with
  | Some state => set_health (<[key := mkHealthState 0 0 (last_probe state) None]> (health_map u)) u
  | None => u
  end.

Section Connecting.
Context (network : list bytes -> bytes -> option (list (option Io))).

(** ** Connecting *)

Definition connect_candidate (upstream : bytes) (u : Upstreams) : Upstreams * result Io IoErr :=
  match strip_prefix upstream (str "http://") with
  | None => (u, Err (Custom InvalidInput (str "unsupported proxy scheme")))
  | Some authority =>
      let found := network (dialled u) authority in
      (set_dialled (dialled u ++ [authority]) u,
       match found with
       | None => Err OsError
       | Some [] => Err (Custom ConnectionRefused (str "upstream unavailable"))
       | Some addresses => ok_or (head (omap id addresses)) OsError
       end)
  end.

(** ** Probing *)

Definition PROBE_LIMIT : Z := 8 * 1024.

(** The answer to a probe, up to its head, the end of the stream or the limit;
    [None] when reading fails. *)
Fixpoint probe_response (fuel : nat) (io : Io) (response : bytes) : option bytes :=
  if len response >=? PROBE_LIMIT then Some response else
  match fuel with
  | O => Some response
  | S fuel =>
      let '(io, x) := io_read io 512 in
      match x with
      | ReadOk [] => Some response
      | ReadOk d =>
          let response := response ++ d in
          match find_subslice response CRLF2 with
          | Some _ => Some response
          | None => probe_response fuel io response
          end
      | ReadWouldBlock | ReadErr => None
      end
  end.

Definition probe_status (response : bytes) : option Z :=
  let line := hd [] (split_on 10 response) in
  if utf8_valid line then
    match split_whitespace line with
    | _ :: word :: _ => parse_u16 word
    | _ => None
    end
  else None.

Definition probe_request : bytes :=
  str "HEAD / HTTP/1.1" ++ CRLF ++ str "Host: health" ++ CRLF ++ str "Connection: close" ++ CRLF2.

(** What the probe's connection says about the candidate. *)
Definition probe_healthy (stream : Io) : bool :=
  let '(stream, ok) := io_write stream probe_request in
  ok && match probe_response (S (reader_size (incoming stream))) stream [] with
        | Some response => match probe_status response with Some status => between 200 status 499 | None => false end
        | None => false
        end.

Definition active_health_probe (key upstream : bytes) (settings : HealthSettings) (u : Upstreams) : Upstreams * bool :=
  let '(u, now) := tick u in
  let u :=
    match health u with
    | Some states =>
        let state := default no_health (states !! key) in
        set_health (<[key := mkHealthState (failures state) (recoveries state) (Some now) (unhealthy_until state)]> states) u
    | None => u
    end in
  let '(u, connected) := connect_candidate upstream u in
  let healthy := match connected with Ok stream => probe_healthy stream | Err _ => false end in
  (if healthy then mark_probe_healthy key (recovery_threshold settings) u
   else mark_probe_failed key (failure_threshold settings) u, healthy).

(** One cycle of the health checker's thread. *)
Definition candidates_of (route : ProxyRoute) : list bytes :=
  List.filter (fun value => negb (bytes_eqb value [])) (map trim (split_on 44 (proxy_upstream route))).

Definition health_cycle (routes : list ProxyRoute) (settings : HealthSettings) (u : Upstreams) : Upstreams :=
  fold_left (fun u route =>
    fold_left (fun u candidate => fst (active_health_probe (health_key route candidate) candidate settings u))
      (candidates_of route) u) routes u.

(** ** Choosing *)

(** Whether a candidate is to be tried, with the probe that may be due. *)
Definition candidate_usable (key candidate : bytes) (settings : HealthSettings) (u : Upstreams) : Upstreams * bool :=
  let probes_enabled := interval settings >? 0 in
  let '(u, available) := health_available key u in
  let '(u, skip) :=
    (if negb available then
       if negb probes_enabled then (u, true)
       else let '(u, due) := health_probe_due key (interval settings) u in (u, negb due)
     else (u, false)) in
  if skip then (u, false) else
  let '(u, failed) :=
    (if probes_enabled then
       let '(u, due) := health_probe_due key (interval settings) u in
       if due then let '(u, healthy) := active_health_probe key candidate settings u in (u, negb healthy)
       else (u, false)
     else (u, false)) in
  if failed then (u, false) else
  if probes_enabled then health_available key u else (u, true).

Record ConnectedUpstream : Type := mkConnected {
  connected_stream : Io;
  connected_candidate : bytes;
}.

(** The loop over the candidates, in the order in which they are tried. *)
Fixpoint try_candidates (order : list bytes) (route : ProxyRoute) (settings : HealthSettings) (last : option IoErr)
  (u : Upstreams) : Upstreams * result ConnectedUpstream IoErr :=
  match order with
  | [] => (u, Err (default (Custom ConnectionRefused (str "upstream unavailable")) last))
  | candidate :: order =>
      let key := health_key route candidate in
      let '(u, usable) := candidate_usable key candidate settings u in
      if negb usable then try_candidates order route settings last u else
      let '(u, pooled) := take_pooled route candidate u in
      match pooled with
      | Some stream => (u, Ok (mkConnected stream candidate))
      | None =>
          let '(u, connected) := connect_candidate candidate u in
          match connected with
          | Ok stream =>
              (if interval settings >? 0 then u else mark_healthy key u, Ok (mkConnected stream candidate))
          | Err e => try_candidates order route settings (Some e) (mark_failed key u)
          end
      end
  end.

(** The candidates from the one whose turn it is. *)
Definition rotation (candidates : list bytes) (start : Z) : list bytes :=
  map (fun offset => nth (Z.to_nat ((start + Z.of_nat offset) mod 2 ^ 64 mod len candidates)) candidates [])
    (seq 0 (length candidates)).

Definition connect_upstream_with_health (route : ProxyRoute) (settings : HealthSettings) (u : Upstreams)
  : Upstreams * result ConnectedUpstream IoErr :=
  let candidates := candidates_of route in
  match candidates with
  | [] => (u, Err (Custom ErrNotFound (str "upstream has no addresses")))
  | _ :: _ =>
      let key := join_key [proxy_host route; proxy_prefix route] in
      let start := default 0 (round_robin u !! key) in
      let u := set_round_robin (<[key := (start + 1) mod 2 ^ 64]> (round_robin u)) u in
      try_candidates (rotation candidates start) route settings None u
  end.

Definition connect_upstream (route : ProxyRoute) (u : Upstreams) : Upstreams * result Io IoErr :=
  let '(u, r) := connect_upstream_with_health route health_settings_default u in
  (u, let? connected := r in Ok (connected_stream connected)).

Definition retry_attempts (m : Method) : nat :=
  match m with
  | Get | Head => 2
  | Other value => if eq_ignore_ascii_case value (str "OPTIONS") then 2 else 1
  | Post => 1
  end.

Fixpoint connect_attempts (attempts : nat) (route : ProxyRoute) (settings : HealthSettings) (last : option IoErr)
  (u : Upstreams) : Upstreams * result ConnectedUpstream IoErr :=
  match attempts with
  | O => (u, Err (default (Custom ConnectionRefused (str "upstream unavailable")) last))
  | S attempts =>
      let '(u, r) := connect_upstream_with_health route settings u in
      match r with
      | Ok connected => (u, Ok connected)
      | Err e => connect_attempts attempts route settings (Some e) u
      end
  end.

Definition connect_with_retry (route : ProxyRoute) (m : Method) (settings : HealthSettings) (u : Upstreams)
  : Upstreams * result ConnectedUpstream IoErr :=
  connect_attempts (retry_attempts m) route settings None u.
End Connecting.
