(* ===== verification/Proxy.v ===== *)
(** * The reverse proxy (src/server/proxy.rs)

    Routes, the request written to an upstream and the heads of its responses;
    the entries and the relay are in [ProxyRelay] and [WebSocket]. *)

From S2P Require Import Prelude RustStd Io Config Http H2Headers Text Fs Metrics Handler Connection FastCgi FastCgiRelay Upstreams.

Definition MAX_UPSTREAM_HEADERS : Z := 64 * 1024.
Definition IO_CHUNK : Z := 16 * 1024.

(** ** Routes *)

(** [str::trim_end_matches(c)]. *)
Definition trim_end_char (c : Z) (l : bytes) : bytes := rev (trim_start_char c (rev l)).

Definition request_host (req : HttpRequest) : option bytes :=
  match get_header req (str "Host") with
  | None => None
  | Some value =>
      let raw := to_ascii_lowercase (trim value) in
      if bytes_eqb raw [] || existsb (fun b => (b <=? 32) || (b =? 127)) raw then None else
      match strip_prefix raw (str "[") with
      | Some stripped =>
          match split_once 93 stripped with
          | None => None
          | Some (address, suffix) =>
              if negb (bytes_eqb suffix []) && match parse_u16 suffix with None => true | Some _ => false end
                 && negb (bytes_eqb suffix (str ":80"))
              then None else Some address
          end
      | None => Some (match rsplit_once 58 raw with Some (name, _) => name | None => raw end)
      end
  end.

Definition route_host_matches (route : ProxyRoute) (host : bytes) : bool :=
  bytes_eqb (proxy_host route) (str "*") || bytes_eqb (proxy_host route) host
  || bytes_eqb (trim_end_char 58 (proxy_host route)) host.

Definition route_matches (route : ProxyRoute) (req : HttpRequest) : bool :=
  route_host_matches route (default [] (request_host req)) && starts_with (uri req) (proxy_prefix route).

Definition proxy_matches_request (req : HttpRequest) (config : ServerConfig) : bool :=
  existsb (fun route => route_matches route req) (proxy_routes config).

Definition select_proxy_route (req : HttpRequest) (config : ServerConfig) : option ProxyRoute :=
  max_by_key (fun route => len (proxy_prefix route))
    (List.filter (fun route => route_matches route req) (proxy_routes config)).

Definition is_websocket_upgrade (req : HttpRequest) : bool :=
  match get_header req (str "Upgrade") with Some v => eq_ignore_ascii_case v (str "websocket") | None => false end
  && match get_header req (str "Connection") with
     | Some v => existsb (fun p => eq_ignore_ascii_case (trim p) (str "upgrade")) (split_on 44 v)
     | None => false
     end.

(** ** The request to the upstream *)

Definition valid_header (name value : bytes) : bool :=
  negb (bytes_eqb name []) && forallb is_header_byte name
  && negb (existsb (fun b => (b =? 13) || (b =? 10) || (b =? 0)) value).

Definition hop_by_hop_headers : list bytes :=
  map str ["connection"; "keep-alive"; "proxy-connection"; "te"; "trailer"; "transfer-encoding"; "upgrade"]%string.
Definition hop_by_hop (name : bytes) : bool := existsb (bytes_eqb (to_ascii_lowercase name)) hop_by_hop_headers.

(** The target without the route's prefix. *)
Definition upstream_target (route : ProxyRoute) (req : HttpRequest) : bytes :=
  let target := match strip_prefix (uri req) (proxy_prefix route) with Some t => t | None => uri req end in
  if bytes_eqb target [] then str "/" else target.

Definition forwarded_header (h : bytes * bytes) : bool :=
  negb (hop_by_hop (fst h) || eq_ignore_ascii_case (fst h) (str "Host")
        || eq_ignore_ascii_case (fst h) (str "Content-Length"))
  && valid_header (fst h) (snd h).

(** [connection] is [close] or [keep-alive]; [remote] the peer's address. *)
Definition upstream_request (connection : bytes) (route : ProxyRoute) (req : HttpRequest) (remote : bytes)
  (secure : bool) (body_length : Z) : bytes :=
  let original_host := match get_header req (str "Host") with Some h => h | None => [] end in
  method_display (method req) ++ str " " ++ upstream_target route req ++ str " HTTP/1.1" ++ CRLF
  ++ concat (map header_line (List.filter forwarded_header (headers req)))
  ++ str "Host: " ++ original_host
  ++ CRLF ++ str "X-Forwarded-For: " ++ remote
  ++ CRLF ++ str "X-Forwarded-Proto: " ++ (if secure then str "https" else str "http")
  ++ CRLF ++ str "X-Forwarded-Host: " ++ original_host
  ++ CRLF ++ str "Connection: " ++ connection ++ CRLF ++ str "Content-Length: " ++ to_string body_length ++ CRLF2.

(** ** Response heads for HTTP/2 *)

(** The status of a status line, whose version must be known. *)
Definition upstream_version (status_line : bytes) : option bytes := head (split_on 32 status_line).
Definition known_version (status_line : bytes) : bool :=
  match upstream_version status_line with
  | Some v => bytes_eqb v (str "HTTP/1.1") || bytes_eqb v (str "HTTP/1.0")
  | None => false
  end.
Definition upstream_status (status_line : bytes) : result Z IoErr :=
  match split_on 32 status_line with
  | _ :: word :: _ =>
      match parse_u16 word with
      | Some status => if between 100 status 599 then Ok status else Err (invalid_data (str "invalid upstream status"))
      | None => Err (invalid_data (str "invalid upstream status"))
      end
  | _ => Err (invalid_data (str "invalid upstream status"))
  end.

Record UpstreamHead : Type := mkUpstreamHead {
  uh_headers : list (bytes * bytes);
  uh_content_length : option Z;
  uh_chunked : bool;
}.

Definition upstream_head_line (acc : UpstreamHead) (line : bytes) : result UpstreamHead IoErr :=
  let? (name, value) := ok_or (split_once 58 line) (invalid_data (str "malformed upstream header")) in
  let name := trim name in
  let value := trim value in
  if negb (valid_header name value) then Err (invalid_data (str "invalid upstream header")) else
  if eq_ignore_ascii_case name (str "Transfer-Encoding") then
    Ok (mkUpstreamHead (uh_headers acc) (uh_content_length acc)
          (uh_chunked acc || eq_ignore_ascii_case value (str "chunked")))
  else if hop_by_hop name then Ok acc
  else
    let? content_length :=
      (if eq_ignore_ascii_case name (str "Content-Length")
       then let? n := ok_or (parse_u64 value) (invalid_data (str "invalid upstream content length")) in Ok (Some n)
       else Ok (uh_content_length acc)) in
    Ok (mkUpstreamHead (uh_headers acc ++ [(name, value)]) content_length (uh_chunked acc)).

(** The response, its length and whether its status has no body. *)
Definition parse_upstream_head (raw : bytes) : result (HttpResponse * option Z * bool) IoErr :=
  let? pos := ok_or (find_subslice raw CRLF2) (invalid_data (str "missing upstream headers")) in
  let text := take (Z.to_nat (pos + 4)) raw in
  if negb (utf8_valid text) then Err (invalid_data (str "invalid upstream headers")) else
  match split_crlf text with
  | [] => Err (invalid_data (str "missing upstream status"))
  | status_line :: lines =>
      if negb (known_version status_line) then Err (invalid_data (str "invalid upstream status line")) else
      let? status := upstream_status status_line in
      let? h := fold_result upstream_head_line (List.filter (fun line => negb (bytes_eqb line [])) lines)
                  (mkUpstreamHead [] None false) in
      if uh_chunked h then Err (invalid_data (str "chunked upstream responses unsupported")) else
      let response := response_new (from_u16 status) in
      Ok (put_headers response (resp_headers response ++ uh_headers h), uh_content_length h, no_body_status status)
  end.

(** ** The response of an HTTP/2 stream *)

Record H2ProxyReader : Type := mkH2ProxyReader {
  pr_stream : Reader;
  pr_prefix : bytes;
  pr_offset : Z;
}.

Definition proxy_read (n : Z) (s : H2ProxyReader) : H2ProxyReader * ReadResult :=
  if pr_offset s <? len (pr_prefix s) then
    let amount := Z.min n (len (pr_prefix s) - pr_offset s) in
    (mkH2ProxyReader (pr_stream s) (pr_prefix s) (pr_offset s + amount),
     ReadOk (slice (pr_prefix s) (pr_offset s) (pr_offset s + amount)))
  else
    let '(stream, x) := read (pr_stream s) n in (mkH2ProxyReader stream (pr_prefix s) (pr_offset s), x).

Record H2ProxyPending : Type := mkH2ProxyPending {
  pp_stream : Reader;
  pp_buffer : bytes;
  pp_max_headers : Z;
  pp_method : Method;
  pp_deadline : Z;
}.

Definition H2ProxyResponse : Type := HttpResponse * option H2ProxyReader * option Z.

Definition finish_upstream_head (p : H2ProxyPending) (end_ : Z) : result H2ProxyResponse IoErr :=
  if end_ >? pp_max_headers p then Err (invalid_data (str "upstream headers too large")) else
  let? (response, content_length, no_body) := parse_upstream_head (take (Z.to_nat end_) (pp_buffer p)) in
  let prefix := drop (Z.to_nat end_) (pp_buffer p) in
  if no_body || bool_decide (pp_method p = Head) || bool_decide (content_length = Some 0)
  then Ok (response, None, Some 0)
  else Ok (response, Some (mkH2ProxyReader (pp_stream p) prefix 0), content_length).

(** [H2ProxyPending::poll]. *)
Fixpoint proxy_poll_loop (fuel : nat) (clock : nat -> Z) (p : H2ProxyPending)
  : H2ProxyPending * result (option H2ProxyResponse) IoErr :=
  match fuel with
  | O => (p, Ok None)
  | S fuel =>
      if pp_deadline p <=? clock O then (p, Err (Custom TimedOut (str "upstream response header timeout"))) else
      match find_subslice (pp_buffer p) CRLF2 with
      | Some pos => (p, let? r := finish_upstream_head p (pos + 4) in Ok (Some r))
      | None =>
          if len (pp_buffer p) >? pp_max_headers p then (p, Err (invalid_data (str "upstream headers too large"))) else
          let '(stream, x) := read (pp_stream p) 4096 in
          let received d := mkH2ProxyPending stream (pp_buffer p ++ d) (pp_max_headers p) (pp_method p) (pp_deadline p) in
          match x with
          | ReadOk [] => (received [], Err (Custom EofReached (str "upstream closed before headers")))
          | ReadOk d => proxy_poll_loop fuel (fun n => clock (S n)) (received d)
          | ReadWouldBlock => (received [], Ok None)
          | ReadErr => (received [], Err OsError)
          end
      end
  end.

Definition proxy_poll (clock : nat -> Z) (p : H2ProxyPending) : H2ProxyPending * result (option H2ProxyResponse) IoErr :=
  proxy_poll_loop (S (S (reader_size (pp_stream p)))) clock p.
