(* ===== verification/ProxyRelay.v ===== *)
(** * Proxied requests over HTTP/1.1 (src/server/proxy.rs)

    The relay of an upstream's response and the entries for whole requests,
    streamed bodies and HTTP/2 streams.  The world holds the state shared by all
    proxied requests and the two connections of this one; the connection to the
    upstream replaces the one the world starts with.  The gzip encoder comes
    from outside. *)

From S2P Require Import Prelude RustStd Io Config Http H2Headers Text Fs Metrics Handler Connection FastCgi FastCgiRelay Upstreams Proxy.

(** ** The head of a response *)

(** What stops a relay before its head is out: a reply to the client, or an
    error. *)
Inductive HeadFailure : Type :=
| Reply (message : bytes)
| Fails (e : IoErr).

Record ProxyHead : Type := mkProxyHead {
  ph_response : bytes;
  ph_content_length : option Z;
  ph_content_type : option bytes;
  ph_already_encoded : bool;
  ph_no_transform : bool;
  ph_close : bool;
}.

Definition proxy_header (acc : ProxyHead) (line : bytes) : result ProxyHead HeadFailure :=
  let? (name, value) := ok_or (split_once 58 line) (Reply (str "malformed upstream header")) in
  let name := trim name in
  let value := trim value in
  let close := ph_close acc
    || (eq_ignore_ascii_case name (str "Connection")
        && existsb (fun part => eq_ignore_ascii_case (trim part) (str "close")) (split_on 44 value)) in
  if negb (valid_header name value) || hop_by_hop name then
    Ok (mkProxyHead (ph_response acc) (ph_content_length acc) (ph_content_type acc) (ph_already_encoded acc)
          (ph_no_transform acc) close)
  else
    let? content_length :=
      (if eq_ignore_ascii_case name (str "Content-Length")
       then let? n := ok_or (parse_u64 value) (Fails (invalid_data (str "invalid upstream content length"))) in Ok (Some n)
       else Ok (ph_content_length acc)) in
    let is_type := eq_ignore_ascii_case name (str "Content-Type") in
    let is_encoding := negb is_type && eq_ignore_ascii_case name (str "Content-Encoding") in
    let is_no_transform := negb is_type && negb is_encoding && eq_ignore_ascii_case name (str "Cache-Control")
                           && contains_sub (to_ascii_lowercase value) (str "no-transform") in
    Ok (mkProxyHead (ph_response acc ++ header_line (name, value)) content_length
          (if is_type then Some (to_ascii_lowercase value) else ph_content_type acc)
          (ph_already_encoded acc || is_encoding) (ph_no_transform acc || is_no_transform) close).

(** The parsed head of a response, with its version and status. *)
Record ParsedHead : Type := mkParsedHead {
  parsed_http11 : bool;
  parsed_status : Z;
  parsed_head : ProxyHead;
}.

Definition lift_failure {A} (r : result A IoErr) : result A HeadFailure :=
  match r with Ok a => Ok a | Err e => Err (Fails e) end.

Definition parse_proxy_head (text : bytes) : result ParsedHead HeadFailure :=
  if negb (utf8_valid text) then Err (Fails (invalid_data (str "invalid upstream headers"))) else
  match split_crlf text with
  | [] => Err (Fails (invalid_data (str "missing upstream status")))
  | status_line :: lines =>
      if negb (known_version status_line) then Err (Reply (str "invalid upstream status line")) else
      let? status := lift_failure (upstream_status status_line) in
      let? h := fold_result proxy_header (List.filter (fun line => negb (bytes_eqb line [])) lines)
                  (mkProxyHead (status_line ++ CRLF) None None false false false) in
      Ok (mkParsedHead (bool_decide (upstream_version status_line = Some (str "HTTP/1.1"))) status h)
  end.

Definition proxy_compresses (accept_gzip head : bool) (h : ParsedHead) : bool :=
  accept_gzip && negb head && between 200 (parsed_status h) 299 && negb (parsed_status h =? 204)
  && negb (ph_already_encoded (parsed_head h)) && negb (ph_no_transform (parsed_head h))
  && mime_compressible (ph_content_type (parsed_head h)).

(** The head written to the client. *)
Definition proxy_head (compress : bool) (h : ParsedHead) : bytes :=
  (if compress then compressed_lines (ph_response (parsed_head h)) else ph_response (parsed_head h))
  ++ str "Connection: close" ++ CRLF2.

(** ** The body *)

Section Relaying.
Context (GzWriter : Type) (gz_new : Z -> GzWriter) (gz_write : GzWriter -> bytes -> GzWriter * bytes)
  (gz_finish : GzWriter -> bytes).

(** [upstream.read(&mut chunk)]. *)
Definition read_upstream (n : Z) : ST Relay IoErr bytes := on_upstream (fun io =>
  let '(io, x) := io_read io n in
  (io, match x with
       | ReadOk d => Ok d
       | ReadWouldBlock => Err (Custom WouldBlock [])
       | ReadErr => Err OsError
       end)).

(** Up to the end of the head: [Ok (Err message)] when it is refused. *)
Fixpoint read_head (fuel : nat) (max_headers : Z) (buf : bytes) : ST Relay IoErr (result (bytes * Z) bytes) :=
  if len buf >? max_headers then st_ret (Err (str "upstream headers too large")) else
  match fuel with
  | O => st_err OsError
  | S fuel =>
      let! d := read_upstream 4096 in
      match d with
      | [] => st_ret (Err (str "upstream closed before headers"))
      | _ :: _ =>
          let buf := buf ++ d in
          match find_subslice buf CRLF2 with
          | Some pos => st_ret (Ok (buf, pos + 4))
          | None => read_head fuel max_headers buf
          end
      end
  end.

(** While the body is relayed the gzip writer is part of the world. *)
Definition Writing : Type := Relay * option GzWriter.

Definition on_connections {A} (m : ST Relay IoErr A) : ST Writing IoErr A := fun s =>
  let '(w, r) := m (fst s) in ((w, snd s), r).

(** Bytes of the body to the client, through the gzip writer if there is one. *)
Definition write_body (head : bool) (data : bytes) : ST Writing IoErr unit := fun s =>
  if head then (s, Ok tt) else
  match snd s with
  | Some writer =>
      let '(writer, out) := gz_write writer data in
      let '(w, r) := on_client (fcgi_write out) (fst s) in ((w, Some writer), r)
  | None => on_connections (on_client (fcgi_write data)) s
  end.

(** A body of known length; what is missing at the end of the stream. *)
Fixpoint copy_length (fuel : nat) (head : bool) (remaining : Z) : ST Writing IoErr Z :=
  if remaining <=? 0 then st_ret remaining else
  match fuel with
  | O => st_err OsError
  | S fuel =>
      let! d := on_connections (read_upstream (Z.min remaining IO_CHUNK)) in
      match d with
      | [] => st_ret remaining
      | _ :: _ =>
          let! _ := write_body head d in
          copy_length fuel head (remaining - len d)
      end
  end.

(** [io::copy] up to the end of the stream. *)
Fixpoint copy_all (fuel : nat) (head : bool) : ST Writing IoErr unit :=
  match fuel with
  | O => st_err OsError
  | S fuel =>
      let! d := on_connections (read_upstream (8 * 1024)) in
      match d with
      | [] => st_ret tt
      | _ :: _ =>
          let! _ := write_body head d in
          copy_all fuel head
      end
  end.

(** The body; [already] came with the head. *)
Definition relay_upstream_body (head : bool) (content_length : option Z) (already : bytes) : ST Writing IoErr unit := fun s =>
  let fuel := S (reader_size (incoming (upstream (fst s)))) in
  match content_length with
  | Some length =>
      let n := Z.min length (len already) in
      (let! _ := (if bytes_eqb already [] then st_ret tt else write_body head (take (Z.to_nat n) already)) in
       let! remaining := copy_length fuel head (length - n) in
       if negb (remaining =? 0)
       then st_err (Custom EofReached (str "upstream Content-Length does not match body"))
       else st_ret tt) s
  | None => (let! _ := write_body head already in copy_all fuel head) s
  end.

(** The gzip encoder writes its trailer when it is finished, and also when it
    is dropped after a failure, where nobody sees whether that succeeds. *)
Definition finishing (gzip : option GzWriter) (m : ST Writing IoErr unit) : ST Relay IoErr unit := fun w =>
  let '((w, gzip), r) := m (w, gzip) in
  match gzip with
  | None => (w, r)
  | Some writer =>
      let '(w, finished) := on_client (fcgi_write (gz_finish writer)) w in
      (w, match r with Ok _ => finished | Err e => Err e end)
  end.

(** [stream_upstream_response]; the result says whether the upstream's
    connection may be used again. *)
Definition stream_upstream_response (max_headers : Z) (head accept_gzip : bool) (level : Z) : ST Relay IoErr bool := fun w =>
  (let! read := read_head (S (reader_size (incoming (upstream w)))) max_headers [] in
   match read with
   | Err message => let! _ := bad_gateway message in st_ret false
   | Ok (buf, header_end) =>
       match parse_proxy_head (take (Z.to_nat header_end) buf) with
       | Err (Reply message) => let! _ := bad_gateway message in st_ret false
       | Err (Fails e) => st_err e
       | Ok h =>
           let compress := proxy_compresses accept_gzip head h in
           let content_length := if compress then None else ph_content_length (parsed_head h) in
           let! _ := on_client (fcgi_write (proxy_head compress h)) in
           let gzip := if compress then Some (gz_new level) else None in
           let! _ := finishing gzip (relay_upstream_body head content_length (drop (Z.to_nat header_end) buf)) in
           st_ret (parsed_http11 h && match content_length with Some _ => true | None => false end
                   && negb (ph_close (parsed_head h)) && negb compress)
       end
   end) w.

(** ** The entries *)

(** The shared state, the connections of this request, and the log. *)
Record Proxying : Type := mkProxying {
  shared : Upstreams;
  relay : Relay;
}.

Definition on_shared {A} (f : Upstreams -> Upstreams * A) : ST Proxying IoErr A := fun w =>
  let '(u, a) := f (shared w) in (mkProxying u (relay w), Ok a).
Definition on_relay {A} (m : ST Relay IoErr A) : ST Proxying IoErr A := fun w =>
  let '(r, x) := m (relay w) in (mkProxying (shared w) r, x).

(** The world's connection to the upstream. *)
Definition use_upstream (stream : Io) : ST Proxying IoErr unit := fun w =>
  (mkProxying (shared w) (mkRelay stream (client (relay w)) (relay_log (relay w)) (relay_metrics (relay w))), Ok tt).
Definition get_upstream : ST Proxying IoErr Io := fun w => (w, Ok (upstream (relay w))).

(** [acquire_upstream_permit()?]; the permit is dropped however the rest
    ends. *)
Definition with_permit {A} (m : ST Proxying IoErr A) : ST Proxying IoErr A := fun w =>
  match acquire_upstream_permit (shared w) with
  | (u, Err e) => (mkProxying u (relay w), Err e)
  | (u, Ok _) =>
      let '(w, r) := m (mkProxying u (relay w)) in (mkProxying (drop_permit (shared w)) (relay w), r)
  end.

Definition count_proxy : ST Proxying IoErr unit := on_relay (fun w =>
  (mkRelay (upstream w) (client w) (relay_log w) (record_proxy (relay_metrics w)), Ok tt)).

Section Entries.
Context (network : list bytes -> bytes -> option (list (option Io))).
Context (error_text : IoErr -> bytes). (* [Display] of an error *)

Definition upstream_limit (config : ServerConfig) : Z := Z.min (max_header_size config) MAX_UPSTREAM_HEADERS.

Definition connection_failed (e : IoErr) : ST Proxying IoErr unit :=
  on_relay (bad_gateway (str "upstream connection failed: " ++ error_text e)).

(** The response and, if the connection is still good, its way back to the
    pool. *)
Definition relay_response (req : HttpRequest) (route : ProxyRoute) (candidate : bytes) (config : ServerConfig)
  : ST Proxying IoErr unit :=
  let! reusable := on_relay (stream_upstream_response (upstream_limit config) (bool_decide (method req = Head))
                     (accepts_gzip (get_header req (str "Accept-Encoding"))) (compression_level config)) in
  if reusable then
    let! stream := get_upstream in
    on_shared (fun u => (return_pooled route candidate stream u, tt))
  else st_ret tt.

Definition proxy_http (req : HttpRequest) (route : ProxyRoute) (config : ServerConfig) (remote : bytes) (secure : bool)
  : ST Proxying IoErr unit :=
  with_permit (
    let! connected := on_shared (connect_with_retry network route (method req) (health_settings config)) in
    match connected with
    | Err e => connection_failed e
    | Ok connected =>
        let! _ := use_upstream (connected_stream connected) in
        let! _ := on_relay (on_upstream (fcgi_write (upstream_request (str "keep-alive") route req remote secure (len (body req))))) in
        let! _ := (if bytes_eqb (body req) [] then st_ret tt else on_relay (on_upstream (fcgi_write (body req)))) in
        relay_response req route (connected_candidate connected) config
    end).

(** The body of a request, from the bytes already received and then from the
    client. *)
Fixpoint forward_request_body (fuel : nat) (buffered : bytes) (remaining : Z) : ST Relay IoErr bytes :=
  if remaining <=? 0 then st_ret buffered else
  match fuel with
  | O => st_err OsError
  | S fuel =>
      match buffered with
      | _ :: _ =>
          let n := Z.min remaining (len buffered) in
          let! _ := on_upstream (fcgi_write (take (Z.to_nat n) buffered)) in
          forward_request_body fuel (drop (Z.to_nat n) buffered) (remaining - n)
      | [] =>
          let! data := on_client (fun io =>
            let '(io, x) := io_read io (Z.min remaining IO_CHUNK) in
            (io, match x with
                 | ReadOk [] => Err (Custom EofReached (str "client closed request body"))
                 | ReadOk d => Ok d
                 | ReadWouldBlock => Err (Custom WouldBlock [])
                 | ReadErr => Err OsError
                 end)) in
          let! _ := on_upstream (fcgi_write data) in
          forward_request_body fuel [] (remaining - len data)
      end
  end.

(** [handle_streaming_body]; the result carries what is left of [buffered]. *)
Definition proxy_streaming_body (buffered : bytes) (head : HttpRequestHead) (config : ServerConfig) (remote : bytes)
  (secure : bool) : ST Proxying IoErr (bytes * option bool) :=
  let request := into_request head [] in
  match select_proxy_route request config with
  | None => st_ret (buffered, None)
  | Some route =>
      if is_websocket_upgrade request then st_ret (buffered, None) else
      with_permit (
        let! connected := on_shared (connect_with_retry network route (method request) (health_settings config)) in
        match connected with
        | Err e => let! _ := connection_failed e in st_ret (buffered, Some true)
        | Ok connected =>
            let! _ := use_upstream (connected_stream connected) in
            let! _ := on_relay (on_upstream (fcgi_write
                        (upstream_request (str "keep-alive") route request remote secure (content_length head)))) in
            let! buffered := on_relay (fun w => forward_request_body (S (length buffered + reader_size (incoming (client w))))
                                                  buffered (content_length head) w) in
            let! _ := relay_response request route (connected_candidate connected) config in
            st_ret (buffered, Some true)
        end)
  end.

(** [begin_h2_response].  The permit goes with the answer; it is dropped here
    when there is none. *)
Definition proxy_begin_h2 (req : HttpRequest) (config : ServerConfig) (remote : bytes) (secure : bool) (now : Z)
  : ST Proxying IoErr (option H2ProxyPending) :=
  match select_proxy_route req config with
  | None => st_ret None
  | Some route =>
      let! _ := count_proxy in
      if is_websocket_upgrade req then st_ret None else fun w =>
      match acquire_upstream_permit (shared w) with
      | (u, Err e) => (mkProxying u (relay w), Err e)
      | (u, Ok _) =>
          let '(w, r) :=
            (let! connected := on_shared (connect_upstream network route) in
             let! stream := st_res connected in
             let! _ := use_upstream stream in
             let! _ := on_relay (on_upstream (fcgi_write (upstream_request (str "close") route req remote secure (len (body req))))) in
             let! _ := (if bytes_eqb (body req) [] then st_ret tt else on_relay (on_upstream (fcgi_write (body req)))) in
             let! stream := get_upstream in
             st_ret (mkH2ProxyPending (incoming stream) [] (upstream_limit config) (method req)
                       (now + Z.max (read_timeout config) 1 * 1000000000)))
            (mkProxying u (relay w)) in
          match r with
          | Ok pending => (w, Ok (Some pending))
          | Err e => (mkProxying (drop_permit (shared w)) (relay w), Err e)
          end
      end
  end.
End Entries.
End Relaying.
