(* ===== verification/WebSocket.v ===== *)
(** * WebSocket upgrades and the proxy's entry (src/server/proxy.rs)

    The handshake, the relay of bytes between client and upstream, and [handle].
    While the relay runs both connections do not block: a read or a write may
    find nothing to do, and a write may take only part of its data.  What the
    writes will do is a script as the reads are.  SHA-1 and base64 are
    parameters. *)

From S2P Require Import Prelude RustStd Io Config Http H2Headers Text Fs Metrics Limits Handler Connection FastCgi FastCgiRelay Upstreams Proxy ProxyRelay.

(** What one [write] does: it takes at most so many bytes, finds no room, or
    fails.  Beyond the script everything is taken. *)
Inductive WriteOutcome : Type :=
| Wrote (n : Z)
| WriteBlocks
| WriteFails.

Record Peer : Type := mkPeer {
  peer_in : Reader;
  peer_out : list WriteOutcome;
  peer_wire : bytes;
}.

(** [write]; [None] when there is no room. *)
Definition peer_write (p : Peer) (d : bytes) : Peer * result (option Z) IoErr :=
  match peer_out p with
  | [] => (mkPeer (peer_in p) [] (peer_wire p ++ d), Ok (Some (len d)))
  | Wrote n :: out =>
      let n := Z.max 0 (Z.min n (len d)) in
      (mkPeer (peer_in p) out (peer_wire p ++ take (Z.to_nat n) d), Ok (Some n))
  | WriteBlocks :: out => (mkPeer (peer_in p) out (peer_wire p), Ok None)
  | WriteFails :: out => (mkPeer (peer_in p) out (peer_wire p), Err OsError)
  end.

(** One side's input: read when the last piece is gone.  The results are the
    peer, whether it has closed, the piece, and whether there was progress. *)
Definition pump_in (closed : bool) (buffer : bytes) (p : Peer) : Peer * result (bool * bytes * bool) IoErr :=
  if negb closed && bytes_eqb buffer [] then
    let '(r, x) := read (peer_in p) IO_CHUNK in
    (mkPeer r (peer_out p) (peer_wire p),
     match x with
     | ReadOk [] => Ok (true, [], false)
     | ReadOk d => Ok (closed, d, true)
     | ReadWouldBlock => Ok (closed, [], false)
     | ReadErr => Err OsError
     end)
  else (p, Ok (closed, buffer, false)).

(** The other side's output. *)
Definition pump_out (closed : bool) (buffer : bytes) (p : Peer) : Peer * result (bool * bytes * bool) IoErr :=
  if bytes_eqb buffer [] then (p, Ok (closed, buffer, false)) else
  let '(p, r) := peer_write p buffer in
  (p, let? written := r in
      match written with
      | None => Ok (closed, buffer, false)
      | Some n => if n =? 0 then Ok (true, buffer, false) else Ok (closed, drop (Z.to_nat n) buffer, true)
      end).

Record Tunnel : Type := mkTunnel {
  tn_client : Peer;
  tn_upstream : Peer;
  client_to_upstream : bytes;
  upstream_to_client : bytes;
  client_closed : bool;
  upstream_closed : bool;
  last_progress : Z;
  tn_clock : nat -> Z;
}.

(** [last = Instant::now()] where there was progress. *)
Definition stamp (progressed : bool) (last : Z) (clock : nat -> Z) : Z * (nat -> Z) :=
  if progressed then (clock O, fun n => clock (S n)) else (last, clock).

(** One round of the loop: whether it is the last. *)
Definition relay_round (deadline : Z) (t : Tunnel) : Tunnel * result bool IoErr :=
  let '(client, r) := pump_in (client_closed t) (client_to_upstream t) (tn_client t) in
  let t := mkTunnel client (tn_upstream t) (client_to_upstream t) (upstream_to_client t) (client_closed t)
             (upstream_closed t) (last_progress t) (tn_clock t) in
  match r with Err e => (t, Err e) | Ok (c_closed, up, p1) =>
  let '(last, clock) := stamp p1 (last_progress t) (tn_clock t) in
  let '(upstream, r) := pump_in (upstream_closed t) (upstream_to_client t) (tn_upstream t) in
  let t := mkTunnel client upstream up (upstream_to_client t) c_closed (upstream_closed t) last clock in
  match r with Err e => (t, Err e) | Ok (u_closed, down, p2) =>
  let '(last, clock) := stamp p2 last clock in
  let '(upstream, r) := pump_out u_closed up upstream in
  let t := mkTunnel client upstream up down c_closed u_closed last clock in
  match r with Err e => (t, Err e) | Ok (u_closed, up, p3) =>
  let '(last, clock) := stamp p3 last clock in
  let '(client, r) := pump_out c_closed down client in
  let t := mkTunnel client upstream up down c_closed u_closed last clock in
  match r with Err e => (t, Err e) | Ok (c_closed, down, p4) =>
  let '(last, clock) := stamp p4 last clock in
  let t n := mkTunnel client upstream up down c_closed u_closed last n in
  if u_closed && bytes_eqb down [] then (t clock, Ok true)
  else (t (fun n => clock (S n)), Ok (deadline <=? duration_since (clock O) last))
  end end end end.

Fixpoint relay_rounds (fuel : nat) (deadline : Z) (t : Tunnel) : Tunnel * result unit IoErr :=
  match fuel with
  | O => (t, Err OsError)
  | S fuel =>
      match relay_round deadline t with
      | (t, Err e) => (t, Err e)
      | (t, Ok true) => (t, Ok tt)
      | (t, Ok false) => relay_rounds fuel deadline t
      end
  end.

(** What the upstream and the client's room still have in store. *)
Definition tunnel_size (t : Tunnel) : nat :=
  (reader_size (peer_in (tn_upstream t)) + length (peer_out (tn_client t))
   + (if bytes_eqb (upstream_to_client t) [] then 0 else 1) + (if upstream_closed t then 0 else 1))%nat.

Definition relay_tunnel (timeout_secs : Z) (clock : nat -> Z) (client upstream : Peer) : Tunnel * result unit IoErr :=
  let t := mkTunnel client upstream [] [] false false (clock O) (fun n => clock (S n)) in
  relay_rounds (S (tunnel_size t)) (from_secs (Z.max timeout_secs 1)) t.

(** ** The handshake *)

Section WebSocket.
Context (GzWriter : Type) (gz_new : Z -> GzWriter) (gz_write : GzWriter -> bytes -> GzWriter * bytes)
  (gz_finish : GzWriter -> bytes).
Context (network : list bytes -> bytes -> option (list (option Io))) (error_text : IoErr -> bytes).
Context (sha1 : bytes -> bytes) (base64_encode : bytes -> bytes) (base64_decode : bytes -> option bytes).

Definition websocket_accept (key : bytes) : bytes :=
  base64_encode (sha1 (key ++ str "258EAFA5-E914-47DA-95CA-C5AB0DC85B11")).

Definition websocket_request (req : HttpRequest) : bytes :=
  str "GET " ++ uri req ++ str " HTTP/1.1" ++ CRLF
  ++ concat (map header_line (List.filter (fun h => negb (hop_by_hop (fst h)) && valid_header (fst h) (snd h)) (headers req)))
  ++ str "Connection: Upgrade" ++ CRLF ++ str "Upgrade: websocket" ++ CRLF2.

(** The upstream's answer up to its head; [None] when it closes or says too
    much. *)
Fixpoint read_handshake (fuel : nat) (response : bytes) : ST Relay IoErr (option bytes) :=
  match fuel with
  | O => st_err OsError
  | S fuel =>
      let! d := read_upstream 1024 in
      match d with
      | [] => st_ret None
      | _ :: _ =>
          let response := response ++ d in
          if len response >? MAX_UPSTREAM_HEADERS then st_ret None else
          match find_subslice response CRLF2 with
          | Some _ => st_ret (Some response)
          | None => read_handshake fuel response
          end
      end
  end.

Definition accept_of (text : bytes) : option bytes :=
  head (omap (fun line =>
    match split_once 58 line with
    | Some (name, value) => if eq_ignore_ascii_case name (str "Sec-WebSocket-Accept") then Some (trim value) else None
    | None => None
    end) (split_crlf text)).

Definition valid_upgrade (req : HttpRequest) : bool :=
  let key := match get_header req (str "Sec-WebSocket-Key") with Some k => k | None => [] end in
  (len (default [] (base64_decode key)) =? 16)
  && bool_decide (get_header req (str "Sec-WebSocket-Version") = Some (str "13")).

(** The scripts of the writes after the upgrade, and the clock. *)
Record TunnelEnv : Type := mkTunnelEnv {
  client_room : list WriteOutcome;
  upstream_room : list WriteOutcome;
  tunnel_clock : nat -> Z;
}.

Definition run_tunnel (env : TunnelEnv) (config : ServerConfig) : ST Relay IoErr unit := fun w =>
  let '(t, r) := relay_tunnel (Z.max (read_timeout config) 1) (tunnel_clock env)
                   (mkPeer (incoming (client w)) (client_room env) (wire (client w)))
                   (mkPeer (incoming (upstream w)) (upstream_room env) (wire (upstream w))) in
  (mkRelay (mkIo (peer_wire (tn_upstream t)) (faults (upstream w)) (peer_in (tn_upstream t)))
     (mkIo (peer_wire (tn_client t)) (faults (client w)) (peer_in (tn_client t))) (relay_log w) (relay_metrics w), r).

Definition websocket (env : TunnelEnv) (req : HttpRequest) (route : ProxyRoute) (config : ServerConfig)
  : ST Proxying IoErr (option bool) :=
  with_permit (
    let key := match get_header req (str "Sec-WebSocket-Key") with Some k => k | None => [] end in
    if negb (valid_upgrade req) then
      let! _ := on_relay (send_error BadRequest (str "invalid WebSocket upgrade")) in st_ret (Some true)
    else
      let! connected := on_shared (connect_upstream network route) in
      let! stream := st_res connected in
      let! _ := use_upstream stream in
      let! _ := on_relay (on_upstream (fcgi_write (websocket_request req))) in
      let! answer := on_relay (fun w => read_handshake (S (reader_size (incoming (upstream w)))) [] w) in
      match answer with
      | None => st_ret (Some true)
      | Some response =>
          let text := if utf8_valid response then response else [] in
          if negb (starts_with text (str "HTTP/1.1 101 ")) then
            let! _ := on_relay (bad_gateway (str "upstream rejected WebSocket upgrade")) in st_ret (Some true)
          else if negb (bool_decide (accept_of text = Some (websocket_accept key))) then
            let! _ := on_relay (bad_gateway (str "upstream WebSocket accept mismatch")) in st_ret (Some true)
          else
            let! _ := on_relay (on_client (fcgi_write response)) in
            let! _ := on_relay (run_tunnel env config) in
            st_ret (Some true)
      end).

(** [handle]. *)
Definition proxy_handle (env : TunnelEnv) (req : HttpRequest) (config : ServerConfig) (remote : bytes) (secure : bool)
  : ST Proxying IoErr (option bool) :=
  match select_proxy_route req config with
  | None => st_ret None
  | Some route =>
      let! _ := count_proxy in
      if is_websocket_upgrade req then websocket env req route config else fun w =>
      match proxy_http GzWriter gz_new gz_write gz_finish network error_text req route config remote secure w with
      | (w, Ok _) => (w, Ok (Some true))
      | (w, Err e) =>
          (mkProxying (shared w) (mkRelay (upstream (relay w)) (client (relay w)) (relay_log (relay w) ++ [LogFailure e])
                                    (relay_metrics (relay w))), Err e)
      end
  end.
End WebSocket.
