(* ===== verification/HealthChecker.v ===== *)
(** * The health checker (src/server/proxy.rs, [start_health_checker])

    A thread that probes every candidate of every route once per interval, and
    [HealthChecker::stop], which sets a flag and waits for the thread to end.
    The thread's actions, between which other threads run, are the steps of
    [checker_step]; the others may stop it and change the shared state at any
    time.  [probed] and [naps] record history: nothing reads them. *)

From S2P Require Import Prelude RustStd Io Config Text Upstreams.

(** Where the thread is: at the head of its loop; before a candidate; about to
    probe one; at the head of the loop of naps; asleep; at its end. *)
Inductive Phase : Type :=
| Top
| Next (cycle : Z) (todo : list (ProxyRoute * bytes))
| Probing (cycle : Z) (route : ProxyRoute) (candidate : bytes) (todo : list (ProxyRoute * bytes))
| Resting (remaining : Z)
| Asleep (nap remaining : Z)
| Gone.

Record Checker : Type := mkChecker {
  signal : bool;
  phase : Phase;
  seen : Upstreams;
  probed : list (ProxyRoute * bytes);
  naps : list Z;
}.

Section Checker.
Context (network : list bytes -> bytes -> option (list (option Io))).
Context (config : ServerConfig).

(** The candidates as the loops over routes and their lists visit them. *)
Definition visited : list (ProxyRoute * bytes) :=
  concat (map (fun route => map (pair route) (map trim (split_on 44 (proxy_upstream route)))) (proxy_routes config)).

Definition NAP : Z := 100 * 1000000.

Definition goto (p : Phase) (c : Checker) : Checker := mkChecker (signal c) p (seen c) (probed c) (naps c).

(** [Instant::now()]. *)
Definition reading (c : Checker) : Checker * Z :=
  let '(u, now) := tick (seen c) in (mkChecker (signal c) (phase c) u (probed c) (naps c), now).

Definition checker_step (c : Checker) : Checker :=
  match phase c with
  | Top =>
      if signal c then goto Gone c else let '(c, cycle) := reading c in goto (Next cycle visited) c
  | Next cycle [] =>
      let '(c, now) := reading c in
      let elapsed := Z.max (now - cycle) 0 in
      goto (Resting (Z.max (interval (health_settings config) - elapsed) 0)) c
  | Next cycle ((route, candidate) :: todo) =>
      if signal c then goto Gone c
      else if bytes_eqb candidate [] then goto (Next cycle todo) c
      else goto (Probing cycle route candidate todo) c
  | Probing cycle route candidate todo =>
      let '(u, _) := active_health_probe network (health_key route candidate) candidate (health_settings config) (seen c) in
      mkChecker (signal c) (Next cycle todo) u (probed c ++ [(route, candidate)]) (naps c)
  | Resting remaining =>
      if (remaining =? 0) || signal c then goto Top c else goto (Asleep (Z.min remaining NAP) remaining) c
  | Asleep nap remaining =>
      mkChecker (signal c) (Resting (Z.max (remaining - nap) 0)) (seen c) (probed c) (naps c ++ [nap])
  | Gone => c
  end.

(** What happens: a step of the thread, [stop], or another thread's change of the
    shared state. *)
Inductive CheckerEvent : Type := Step | StopSignal | Others (u : Upstreams).

Definition checker_event (c : Checker) (e : CheckerEvent) : Checker :=
  match e with
  | Step => checker_step c
  | StopSignal => mkChecker true (phase c) (seen c) (probed c) (naps c)
  | Others u => mkChecker (signal c) (phase c) u (probed c) (naps c)
  end.

Definition checker_run (c : Checker) (es : list CheckerEvent) : Checker := fold_left checker_event es c.

(** The thread as [start_health_checker] starts it. *)
Definition checker_start (u : Upstreams) : Checker := mkChecker false Top u [] [].
End Checker.

(** ** What the thread does *)

Section Works.
Context (network : list bytes -> bytes -> option (list (option Io))) (config : ServerConfig).
Abbreviation step := (checker_step network config).
Abbreviation event := (checker_event network config).
Abbreviation run := (checker_run network config).

(** The candidates of a cycle that are probed: the empty ones are not. *)
Definition wanted (todo : list (ProxyRoute * bytes)) : list (ProxyRoute * bytes) :=
  List.filter (fun x => negb (bytes_eqb (snd x) [])) todo.
Definition cycle_probes : list (ProxyRoute * bytes) := wanted (visited config).

(** They are the candidates the proxy chooses from. *)
Lemma cycle_probes_candidates :
  cycle_probes = concat (map (fun route => map (pair route) (candidates_of route)) (proxy_routes config)).
Proof.
  unfold cycle_probes, visited, wanted. induction (proxy_routes config) as [|route l IH]; [done|]. cbn [map concat].
  rewrite List.filter_app, IH. f_equal. unfold candidates_of. generalize (map trim (split_on 44 (proxy_upstream route))) as cs.
  induction cs as [|c cs IHc]; [done|]. cbn [map List.filter snd]. destruct (negb _); cbn [map]; by rewrite IHc.
Qed.

(** What has been probed after [n] cycles. *)
Definition rounds (n : nat) : list (ProxyRoute * bytes) := concat (repeat cycle_probes n).

Lemma rounds_snoc n : rounds (S n) = rounds n ++ cycle_probes.
Proof.
  unfold rounds. induction n as [|n IH]; [cbn; by rewrite app_nil_r|]. cbn [repeat concat] in *. by rewrite IH at 1; rewrite app_assoc.
Qed.

(** The state between two events: what is still to be probed in this cycle
    completes it, and a nap is not too long. *)
Definition checker_inv (c : Checker) : Prop :=
  exists n, match phase c with
            | Next _ todo => probed c ++ wanted todo = rounds (S n)
            | Probing _ route candidate todo => probed c ++ (route, candidate) :: wanted todo = rounds (S n) /\ candidate <> []
            | Asleep nap remaining => probed c = rounds n /\ nap <= NAP /\ nap <= remaining
            | Gone => probed c `prefix_of` rounds n
            | Top | Resting _ => probed c = rounds n
            end.

Lemma step_inv c : checker_inv c -> checker_inv (step c).
Proof.
  intros [n Hn]. unfold checker_step. destruct (phase c) as [|cycle todo|cycle route candidate todo|remaining|nap remaining|] eqn:Hp.
  - destruct (signal c); exists n; cbn [goto phase probed]; [by rewrite Hn|].
    change (probed c ++ cycle_probes = rounds (S n)). by rewrite Hn, rounds_snoc.
  - destruct todo as [|[route candidate] todo].
    + exists (S n). cbn in Hn |- *. by rewrite app_nil_r in Hn.
    + destruct (signal c); [exists (S n); cbn; by eexists|]. unfold wanted in Hn. cbn [List.filter snd] in Hn.
      destruct (bytes_eqb candidate []) eqn:E; exists n; cbn; [exact Hn|]. split; [exact Hn|]. intros ->. by rewrite bytes_eqb_refl in E.
  - destruct Hn as [Hn _]. destruct (active_health_probe _ _ _ _ _). exists n. cbn. by rewrite <- app_assoc.
  - destruct (_ || _); exists n; cbn; [exact Hn|]. split_and!; [exact Hn|lia..].
  - exists n. cbn. apply Hn.
  - exists n. by rewrite Hp.
Qed.

Lemma event_inv c e : checker_inv c -> checker_inv (event c e).
Proof. destruct e as [| |u]; [apply step_inv|done..]. Qed.

Lemma run_inv c es : checker_inv c -> checker_inv (run c es).
Proof. revert c. induction es as [|e es IH]; intros c Hc; [done|]. by apply IH, event_inv. Qed.

(** ** Stopping *)

(** The steps the thread still takes once it is stopped, and the probe it may
    have decided on. *)
Definition steps_left (p : Phase) : nat :=
  match p with
  | Top => 1 | Next _ [] => 3 | Next _ (_ :: _) => 1 | Probing _ _ _ [] => 4 | Probing _ _ _ (_ :: _) => 2
  | Resting _ => 2 | Asleep _ _ => 3 | Gone => 0
  end.
Definition probes_left (p : Phase) : list (ProxyRoute * bytes) := match p with Probing _ route candidate _ => [(route, candidate)] | _ => [] end.
Definition naps_left (p : Phase) : list Z := match p with Asleep nap _ => [nap] | _ => [] end.

(** A history that has grown by what was left of it. *)
Definition grown {A} (h left h' left' : list A) : Prop := exists l, h' = h ++ l /\ l ++ left' = left.

Lemma grown_same {A} (h left : list A) : grown h left h left.
Proof. exists []. by rewrite app_nil_r. Qed.

Lemma grown_trans {A} (a x b y c z : list A) : grown a x b y -> grown b y c z -> grown a x c z.
Proof. intros (l1 & -> & <-) (l2 & -> & <-). exists (l1 ++ l2). by rewrite !app_assoc. Qed.

Record stopping (c c' : Checker) : Prop := {
  stopping_signal : signal c' = true;
  stopping_probes : grown (probed c) (probes_left (phase c)) (probed c') (probes_left (phase c'));
  stopping_naps : grown (naps c) (naps_left (phase c)) (naps c') (naps_left (phase c'));
}.

Lemma stopping_same c : signal c = true -> stopping c c.
Proof. split; [done|apply grown_same..]. Qed.

Lemma stopping_trans x y z : stopping x y -> stopping y z -> stopping x z.
Proof. intros [_ P1 N1] [S2 P2 N2]. split; [done|by eapply grown_trans..]. Qed.

Lemma step_stopping c :
  signal c = true -> stopping c (step c) /\ steps_left (phase (step c)) = pred (steps_left (phase c)).
Proof.
  intros Hs. unfold checker_step.
  destruct (phase c) as [|cycle todo|cycle route candidate todo|remaining|nap remaining|] eqn:Hp; rewrite ?Hs, ?orb_true_r.
  - split; [split; cbn; rewrite ?Hp; [done|apply grown_same..]|done].
  - destruct todo as [|[route candidate] todo]; (split; [split; cbn; rewrite ?Hp; [done|apply grown_same..]|done]).
  - destruct (active_health_probe _ _ _ _ _). split; [split; cbn; rewrite ?Hp; [done|by eexists|apply grown_same]|by destruct todo].
  - split; [split; cbn; rewrite ?Hp; [done|apply grown_same..]|done].
  - split; [split; cbn; rewrite ?Hp; [done|apply grown_same|by eexists]|done].
  - split; [by apply stopping_same|by rewrite Hp].
Qed.

Definition own_steps (es : list CheckerEvent) : nat := length (List.filter (fun e => match e with Step => true | _ => false end) es).

Lemma run_stopping c es :
  signal c = true -> stopping c (run c es) /\ (steps_left (phase (run c es)) <= steps_left (phase c) - own_steps es)%nat.
Proof.
  revert c. induction es as [|e es IH]; intros c Hs; [split; [by apply stopping_same|cbn; lia]|].
  change (run c (e :: es)) with (run (event c e) es).
  assert (He : stopping c (event c e) /\ steps_left (phase (event c e)) = (steps_left (phase c) - own_steps [e])%nat).
  { destruct e as [| |u]; cbn [checker_event]; [|split; [by split; [|apply grown_same..]|cbn; lia]..].
    destruct (step_stopping c Hs) as [H1 H2]. split; [done|]. rewrite H2. cbn. lia. }
  destruct He as [H1 H2]. destruct (IH (event c e) (stopping_signal _ _ H1)) as [H3 H4]. split; [by eapply stopping_trans|].
  assert (Ho : own_steps (e :: es) = (own_steps [e] + own_steps es)%nat) by by destruct e.
  lia.
Qed.

(** ** A cycle on its own *)

Definition probe_one (u : Upstreams) (x : ProxyRoute * bytes) : Upstreams :=
  fst (active_health_probe network (health_key (fst x) (snd x)) (snd x) (health_settings config) u).

Lemma cycle_is_health_cycle u :
  fold_left probe_one cycle_probes u = health_cycle network (proxy_routes config) (health_settings config) u.
Proof.
  rewrite cycle_probes_candidates. unfold health_cycle. revert u.
  induction (proxy_routes config) as [|route l IH]; intros u; [done|]. cbn [map concat fold_left]. rewrite fold_left_app, IH. f_equal.
  revert u. induction (candidates_of route) as [|c cs IHc]; intros u; [done|]. cbn [map fold_left]. by rewrite IHc.
Qed.

Lemma run_app c a b : run c (a ++ b) = run (run c a) b.
Proof. apply fold_left_app. Qed.

Lemma run_step c es : run c (Step :: es) = run (step c) es.
Proof. done. Qed.

Lemma probing_step s cycle route candidate todo u l ns :
  step (mkChecker s (Probing cycle route candidate todo) u l ns) =
  mkChecker s (Next cycle todo) (probe_one u (route, candidate)) (l ++ [(route, candidate)]) ns.
Proof. unfold checker_step, probe_one. cbn [phase seen signal probed naps fst snd]. by destruct (active_health_probe _ _ _ _ _). Qed.

Lemma next_step cycle route candidate todo u l ns :
  step (mkChecker false (Next cycle ((route, candidate) :: todo)) u l ns) =
  mkChecker false (if bytes_eqb candidate [] then Next cycle todo else Probing cycle route candidate todo) u l ns.
Proof. unfold checker_step. cbn [phase signal]. by destruct (bytes_eqb candidate []). Qed.

Lemma probes_alone cycle todo u l ns :
  exists k, run (mkChecker false (Next cycle todo) u l ns) (repeat Step k) =
    mkChecker false (Next cycle []) (fold_left probe_one (wanted todo) u) (l ++ wanted todo) ns.
Proof.
  revert u l. induction todo as [|[route candidate] todo IH]; intros u l.
  - exists O. cbn. by rewrite app_nil_r.
  - unfold wanted. cbn [List.filter snd]. destruct (bytes_eqb candidate []) eqn:E; cbn [negb].
    + destruct (IH u l) as [k Hk]. exists (S k). cbn [repeat]. by rewrite run_step, next_step, E.
    + destruct (IH (probe_one u (route, candidate)) (l ++ [(route, candidate)])) as [k Hk]. exists (S (S k)). cbn [repeat].
      rewrite !run_step, next_step, E, probing_step, Hk. cbn [fold_left]. by rewrite <- app_assoc.
Qed.

Lemma resting_step r u l ns :
  0 < r -> run (mkChecker false (Resting r) u l ns) [Step; Step] = mkChecker false (Resting (r - Z.min r NAP)) u l (ns ++ [Z.min r NAP]).
Proof.
  intros Hr. unfold checker_run. cbn [fold_left checker_event]. unfold checker_step at 2. cbn [phase signal].
  replace (r =? 0) with false by lia. cbn. f_equal. f_equal. lia.
Qed.

(** A rest is slept in naps of at most a tenth of a second. *)
Lemma rest_slept u l n : forall r ns, 0 <= r -> (Z.to_nat r <= n)%nat ->
  exists k ms, run (mkChecker false (Resting r) u l ns) (repeat Step k) = mkChecker false Top u l (ns ++ ms) /\
    foldr Z.add 0 ms = r /\ Forall (fun nap => 0 < nap <= NAP) ms.
Proof.
  induction n as [|n IH]; intros r ns H0 Hn; (destruct (Z.eqb_spec r 0) as [->|Hr]; [exists 1%nat, []; cbn; by rewrite app_nil_r|]); [lia|].
  assert (Hnap : 0 < Z.min r NAP <= NAP) by (unfold NAP in *; lia).
  destruct (IH (r - Z.min r NAP) (ns ++ [Z.min r NAP])) as (k & ms & Hk & Hsum & Hms); [lia..|].
  exists (S (S k)), (Z.min r NAP :: ms). split_and!; [|cbn; lia|by constructor].
  change (repeat Step (S (S k))) with ([Step; Step] ++ repeat Step k). rewrite run_app, resting_step, Hk by lia. by rewrite <- app_assoc.
Qed.

(** C32: The health checker does its rounds, and stops when it is told to,
    however the other threads interleave.  At any moment what has been probed is
    a part of whole cycles, each of which goes through the candidates of all
    routes in order.  Left alone, a cycle changes the shared state as the
    sequence of its probes does and is followed by naps of at most a tenth of a
    second that fill the rest of the interval.  Once told to stop, the thread
    ends after at most four more steps of its own, with no probe or nap but the
    one it may have been about to begin. *)
Theorem health_checker_works u es :
  let c := run (checker_start u) es in
  (exists n, probed c `prefix_of` rounds n /\ (phase c = Top -> probed c = rounds n)) /\
  (phase c = Top -> signal c = false -> exists k ms,
     let '(u1, begun) := tick (seen c) in
     let '(u2, ended) := tick (health_cycle network (proxy_routes config) (health_settings config) u1) in
     run c (repeat Step k) = mkChecker false Top u2 (probed c ++ cycle_probes) (naps c ++ ms) /\
     foldr Z.add 0 ms = Z.max (interval (health_settings config) - Z.max (ended - begun) 0) 0 /\
     Forall (fun nap => 0 < nap <= NAP) ms) /\
  (forall es', let c' := run (event c StopSignal) es' in
     (exists l, probed c' = probed c ++ l /\ (length l <= 1)%nat) /\
     (exists l, naps c' = naps c ++ l /\ (length l <= 1)%nat /\ Forall (fun nap => nap <= NAP) l) /\
     ((4 <= own_steps es')%nat -> phase c' = Gone)).
Proof.
  intros c. assert (Hinv : checker_inv c) by (apply run_inv; by exists O).
  split_and!.
  - destruct Hinv as [n Hn]. destruct (phase c) as [|cycle todo|cycle route candidate todo|remaining|nap remaining|].
    + exists n. by rewrite Hn.
    + exists (S n). split; [by eexists|done].
    + exists (S n). split; [eexists; symmetry; apply Hn|done].
    + exists n. by rewrite Hn.
    + exists n. by destruct Hn as [-> _].
    + exists n. by split.
  - intros Hp Hs. destruct (tick (seen c)) as [u1 begun] eqn:E1. destruct (tick (health_cycle _ _ _ u1)) as [u2 ended] eqn:E2.
    destruct (probes_alone begun (visited config) u1 (probed c) (naps c)) as [k1 H1].
    set (r := Z.max (interval (health_settings config) - Z.max (ended - begun) 0) 0).
    destruct (rest_slept u2 (probed c ++ cycle_probes) (Z.to_nat r) r (naps c)) as (k2 & ms & H2 & Hsum & Hms); [lia..|].
    exists (S (k1 + S k2)), ms. split_and!; [|exact Hsum|exact Hms].
    assert (Hc : step c = mkChecker false (Next begun (visited config)) u1 (probed c) (naps c)).
    { unfold checker_step, reading. rewrite Hp, Hs, E1. done. }
    cbn [repeat]. rewrite run_step, Hc, repeat_app, run_app, H1. cbn [repeat]. rewrite run_step, <- H2. f_equal.
    unfold checker_step, reading. cbn [phase seen signal probed naps]. fold cycle_probes. rewrite cycle_is_health_cycle, E2. done.
  - intros es' c'. destruct (run_stopping (event c StopSignal) es' eq_refl) as [[_ Hpr Hna] Hst]. fold c' in Hpr, Hna, Hst.
    cbn [checker_event probed naps phase] in *. destruct Hpr as (l & Hl & El). destruct Hna as (ns & Hns & Ens).
    apply (f_equal length) in El as Hlen. rewrite length_app in Hlen. apply (f_equal length) in Ens as Hnlen. rewrite length_app in Hnlen.
    assert (Hmost : (length (probes_left (phase c)) <= 1)%nat /\ (length (naps_left (phase c)) <= 1)%nat /\ (steps_left (phase c) <= 4)%nat).
    { destruct (phase c) as [| |? ? ? []| | |]; cbn; try (case_match; cbn); lia. }
    split_and!.
    + exists l. split; [exact Hl|lia].
    + exists ns. split_and!; [exact Hns|lia|]. assert (Hnap : Forall (fun nap => nap <= NAP) (naps_left (phase c))).
      { destruct Hinv as [n Hn]. destruct (phase c); constructor; [apply Hn|constructor]. }
      rewrite <- Ens in Hnap. by apply Forall_app in Hnap as [Hnap _].
    + intros H4. assert (H0 : steps_left (phase c') = O) by lia. destruct (phase c') as [|? []|? ? ? []| | |]; done.
Qed.
End Works.
