(* ===== verification/UpstreamProps.v ===== *)
(** * Properties of the upstreams' shared state

    The pool of idle connections, which candidate a request goes to, and what
    becomes of one that fails. *)

From S2P Require Import Prelude RustStd Text Io Config Http Limits Metrics Upstreams.

(** ** Keys *)

(** Routes and candidates come from a text without NUL. *)
Definition plain_key (l : bytes) : Prop := 0 ∉ l.

Lemma app_nul_inv a a' b b' : plain_key a -> plain_key a' -> a ++ 0 :: b = a' ++ 0 :: b' -> a = a' /\ b = b'.
Proof.
  revert a'. induction a as [|x a IH]; intros [|x' a'] Ha Ha' E; cbn in E.
  - by injection E.
  - injection E as <- _. exfalso. apply Ha'. left.
  - injection E as -> _. exfalso. apply Ha. left.
  - injection E as -> E. apply IH in E as [-> ->]; [done| |]; intros ?; [apply Ha|apply Ha']; by right.
Qed.

Lemma join_key_inj l l' : Forall plain_key l -> Forall plain_key l' -> length l = length l' -> join_key l = join_key l' -> l = l'.
Proof.
  intros Hl. revert l'. induction Hl as [|a l Ha Hl IH]; intros [|a' l'] Hl' Hlen E; try done.
  injection Hlen as Hlen. apply Forall_cons in Hl' as [Ha' Hl'].
  destruct l as [|b l], l' as [|b' l']; try done.
  - cbn in E. by rewrite E.
  - change (a ++ 0 :: join_key (b :: l) = a' ++ 0 :: join_key (b' :: l')) in E.
    apply app_nul_inv in E as [-> E]; [|done..]. f_equal. by apply IH.
Qed.

(** ** The pool of idle connections *)

Inductive PoolOp : Type :=
| Take (route : ProxyRoute) (candidate : bytes)
| Return (route : ProxyRoute) (candidate : bytes) (stream : Io)
| Shutdown.

(** The operation, and the connection handed out. *)
Definition pool_op (op : PoolOp) (u : Upstreams) : Upstreams * option Io :=
  match op with
  | Take route candidate => take_pooled route candidate u
  | Return route candidate stream => (return_pooled route candidate stream u, None)
  | Shutdown => (shutdown_pool u, None)
  end.

(** Handed out and given back under a key, oldest first. *)
Definition taken_under (key : bytes) (op : PoolOp) (out : option Io) : list Io :=
  match op, out with
  | Take route candidate, Some stream => if bytes_eqb (pool_key route candidate) key then [stream] else []
  | _, _ => []
  end.
Definition returned_under (key : bytes) (op : PoolOp) : list Io :=
  match op with
  | Return route candidate stream => if bytes_eqb (pool_key route candidate) key then [stream] else []
  | _ => []
  end.

Definition queue_at (key : bytes) (u : Upstreams) : list IdleUpstream := default [] (pool u !! key).

(** A history of the pool: its operations with what they handed out. *)
Inductive pool_run : Upstreams -> list (PoolOp * option Io) -> Prop :=
| pool_run_start u : pool u = ∅ -> pool_run u []
| pool_run_next u l op : pool_run u l -> pool_run (fst (pool_op op u)) (l ++ [(op, snd (pool_op op u))]).

Definition taken (key : bytes) (l : list (PoolOp * option Io)) : list Io := concat (map (fun x => taken_under key (fst x) (snd x)) l).
Definition returned (key : bytes) (l : list (PoolOp * option Io)) : list Io := concat (map (fun x => returned_under key (fst x)) l).

Definition queue_limit (p : gmap bytes (list IdleUpstream)) : Prop := map_Forall (fun _ q => len q <= MAX_IDLE_UPSTREAMS) p.

Record pool_ok (u : Upstreams) (l : list (PoolOp * option Io)) : Prop := {
  pool_total : 0 <= total_idle (pool u) <= MAX_TOTAL_IDLE_UPSTREAMS;
  pool_queues : queue_limit (pool u);
  pool_order : forall key, sublist (taken key l ++ map idle_stream (queue_at key u)) (returned key l);
}.

Lemma total_idle_insert p key q : total_idle (<[key := q]> p) = total_idle p - len (default [] (p !! key)) + len q.
Proof.
  unfold total_idle. rewrite <- (insert_delete_eq p).
  rewrite map_fold_insert_L by (try (intros; lia); by rewrite lookup_delete_eq).
  destruct (p !! key) as [q'|] eqn:E; cbn [default id].
  - rewrite <- (insert_delete_id p key q') at 2 by done.
    rewrite map_fold_insert_L by (try (intros; lia); by rewrite lookup_delete_eq). lia.
  - rewrite delete_id by done. change (len []) with 0. lia.
Qed.

Lemma total_idle_nonneg p : 0 <= total_idle p.
Proof.
  unfold total_idle. apply (map_fold_weak_ind (fun n _ => 0 <= n)); [done|]. intros k x m n _ Hn.
  pose proof (len_nonneg x). lia.
Qed.

Lemma total_idle_shrinks p p' :
  (forall key, len (default [] (p' !! key)) <= len (default [] (p !! key))) -> total_idle p' <= total_idle p.
Proof.
  revert p. induction p' as [|k q p' Hk IH] using map_ind; intros p Hle.
  - unfold total_idle at 1. rewrite map_fold_empty. apply total_idle_nonneg.
  - rewrite total_idle_insert, Hk. cbn [default id]. rewrite len_nil.
    specialize (IH (<[k := []]> p)). rewrite total_idle_insert, len_nil in IH.
    assert (Hp : total_idle p' <= total_idle p - len (default [] (p !! k)) + 0).
    { apply IH. intros k'. destruct (decide (k' = k)) as [->|Hne].
      - rewrite lookup_insert_eq, Hk. done.
      - rewrite lookup_insert_ne by done. specialize (Hle k'). by rewrite lookup_insert_ne in Hle. }
    specialize (Hle k). rewrite lookup_insert_eq in Hle. cbn [default id] in Hle. lia.
Qed.

Lemma pop_fresh_spec now queue queue' stream :
  pop_fresh now queue = (queue', stream) ->
  exists expired, Forall (fun idle => fresh now idle = false) expired /\
    match stream with
    | Some s => exists idle, queue = expired ++ idle :: queue' /\ fresh now idle = true /\ idle_stream idle = s
    | None => queue = expired /\ queue' = []
    end.
Proof.
  revert queue' stream. induction queue as [|idle queue IH]; intros queue' stream; cbn [pop_fresh].
  - intros [= <- <-]. by exists [].
  - destruct (fresh now idle) eqn:Hf.
    + intros [= <- <-]. exists []. split; [done|]. by exists idle.
    + intros E. apply IH in E as (expired & He & Hs). exists (idle :: expired). split; [by constructor|].
      destruct stream as [s|]; [|by destruct Hs as [-> ->]].
      destruct Hs as (idle' & -> & Hf' & Hs). by exists idle'.
Qed.

Lemma taken_snoc key l op out : taken key (l ++ [(op, out)]) = taken key l ++ taken_under key op out.
Proof. unfold taken. rewrite map_app, concat_app. cbn. by rewrite app_nil_r. Qed.
Lemma returned_snoc key l op out : returned key (l ++ [(op, out)]) = returned key l ++ returned_under key op.
Proof. unfold returned. rewrite map_app, concat_app. cbn. by rewrite app_nil_r. Qed.

Lemma len_filter_le {A} (f : A -> bool) l : len (List.filter f l) <= len l.
Proof. unfold len. apply inj_le, filter_length_le. Qed.

Lemma sublist_filter {A} (f : A -> bool) l : sublist (List.filter f l) l.
Proof. induction l as [|x l IH]; cbn; [done|]. destruct (f x); by constructor. Qed.

Lemma queue_at_insert key key' q p u :
  queue_at key (set_pool (<[key' := q]> p) u) = if bytes_eqb key' key then q else default [] (p !! key).
Proof.
  unfold queue_at. cbn [set_pool pool]. destruct (bytes_eqb key' key) eqn:E.
  - apply bytes_eqb_eq in E as ->. by rewrite lookup_insert_eq.
  - apply bytes_eqb_neq in E. by rewrite lookup_insert_ne.
Qed.

Lemma queue_limit_insert p key q : queue_limit p -> len q <= MAX_IDLE_UPSTREAMS -> queue_limit (<[key := q]> p).
Proof. intros Hp Hq. by apply map_Forall_insert_2. Qed.

Lemma queue_limit_at p key : queue_limit p -> len (default [] (p !! key)) <= MAX_IDLE_UPSTREAMS.
Proof. intros Hp. by destruct (p !! key) eqn:E; [exact (Hp _ _ E)|]. Qed.

Lemma take_pooled_ok u l route candidate :
  pool_ok u l ->
  pool_ok (fst (take_pooled route candidate u)) (l ++ [(Take route candidate, snd (take_pooled route candidate u))]).
Proof.
  intros [Ht Hq Ho]. unfold take_pooled. destruct (pool u !! pool_key route candidate) as [queue|] eqn:Hk.
  2:{ constructor; [done|done|]. intros key. rewrite taken_snoc, returned_snoc. cbn. rewrite !app_nil_r. apply Ho. }
  cbn [tick]. destruct (pop_fresh _ queue) as [queue' stream] eqn:E. cbn [fst snd].
  apply pop_fresh_spec in E as (expired & _ & Hs). set (key0 := pool_key route candidate) in *.
  assert (Hlen : len queue' <= len queue).
  { destruct stream; [destruct Hs as (idle & -> & _)|destruct Hs as [-> ->]]; rewrite ?len_app, ?len_cons, ?len_nil;
      pose proof (len_nonneg expired); lia. }
  constructor.
  - cbn [set_pool pool]. rewrite total_idle_insert, Hk. cbn [default id].
    assert (0 <= total_idle (pool u) - len queue).
    { pose proof (total_idle_insert (pool u) key0 []) as Hd. rewrite Hk, len_nil in Hd. cbn [default id] in Hd.
      pose proof (total_idle_nonneg (<[key0 := []]> (pool u))). lia. }
    pose proof (len_nonneg queue'). lia.
  - cbn [set_pool pool]. apply queue_limit_insert; [done|]. specialize (Hq _ _ Hk). cbn in Hq. lia.
  - intros key. rewrite taken_snoc, returned_snoc. cbn [returned_under]. rewrite app_nil_r.
    rewrite queue_at_insert.
    specialize (Ho key). unfold taken_under. fold key0. destruct (bytes_eqb key0 key) eqn:Heq.
    + apply bytes_eqb_eq in Heq as <-. unfold queue_at in Ho. rewrite Hk in Ho. cbn [default id] in Ho.
      etrans; [|exact Ho]. rewrite <- app_assoc. apply sublist_app; [done|].
      destruct stream as [s|]; [destruct Hs as (idle & -> & _ & <-)|destruct Hs as [-> ->]; apply sublist_nil_l].
      rewrite map_app. cbn [map app]. by apply sublist_inserts_l.
    + replace (match stream with Some _ => [] | None => [] end) with (@nil Io) by (by destruct stream). by rewrite app_nil_r.
Qed.

Lemma return_pooled_ok u l route candidate stream :
  pool_ok u l ->
  pool_ok (return_pooled route candidate stream u) (l ++ [(Return route candidate stream, None)]).
Proof.
  intros [Ht Hq Ho]. unfold return_pooled. cbn [tick]. set (now := clock u 0).
  set (u1 := set_pool _ _). set (key0 := pool_key route candidate).
  assert (Hat : forall key, queue_at key u1 = List.filter (fresh now) (queue_at key u)).
  { intros key. unfold queue_at, u1. cbn [set_pool pool]. rewrite lookup_fmap. by destruct (pool u !! key). }
  assert (Ht1 : 0 <= total_idle (pool u1) <= total_idle (pool u)).
  { split.
    - apply total_idle_nonneg.
    - apply total_idle_shrinks. intros key. fold (queue_at key u1) (queue_at key u). rewrite Hat. apply len_filter_le. }
  assert (Hq1 : queue_limit (pool u1)).
  { unfold u1. cbn [set_pool pool]. apply map_Forall_fmap. eapply map_Forall_impl; [exact Hq|]. intros k q Hl. cbn in *.
    pose proof (len_filter_le (fresh now) q). lia. }
  assert (Ho1 : forall key, sublist (taken key l ++ map idle_stream (queue_at key u1)) (returned key l)).
  { intros key. etrans; [|apply Ho]. apply sublist_app; [done|]. rewrite Hat. apply sublist_map, sublist_filter. }
  destruct (Z.geb_spec (total_idle (pool u1)) MAX_TOTAL_IDLE_UPSTREAMS).
  - constructor; [lia|done|]. intros key. rewrite taken_snoc, returned_snoc. cbn [taken_under]. rewrite app_nil_r.
    etrans; [apply Ho1|]. apply sublist_inserts_r. done.
  - fold (queue_at key0 u1). set (queue := if _ <? _ then _ else _). constructor.
    + cbn [set_pool pool]. rewrite total_idle_insert. fold (queue_at key0 u1).
      assert (len queue <= len (queue_at key0 u1) + 1 /\ len (queue_at key0 u1) <= len queue).
      { unfold queue. case_match; rewrite ?len_app, ?len_cons, ?len_nil; lia. }
      lia.
    + cbn [set_pool pool]. apply queue_limit_insert; [done|]. unfold queue.
      pose proof (queue_limit_at _ key0 Hq1) as Hb. fold (queue_at key0 u1) in Hb.
      destruct (Z.ltb_spec (len (queue_at key0 u1)) MAX_IDLE_UPSTREAMS); [|done].
      rewrite len_app, len_cons, len_nil. lia.
    + intros key. rewrite taken_snoc, returned_snoc, queue_at_insert. cbn [taken_under returned_under]. rewrite app_nil_r.
      fold key0. destruct (bytes_eqb key0 key) eqn:Heq.
      * apply bytes_eqb_eq in Heq as <-. unfold queue. destruct (_ <? _).
        -- rewrite map_app, app_assoc. cbn [map idle_stream]. apply sublist_app; [apply Ho1|done].
        -- etrans; [apply Ho1|]. apply sublist_inserts_r. done.
      * rewrite app_nil_r. apply Ho1.
Qed.

Lemma pool_run_ok u l : pool_run u l -> pool_ok u l.
Proof.
  induction 1 as [u Hu|u l op _ IH].
  - constructor.
    + rewrite Hu. done.
    + rewrite Hu. apply map_Forall_empty.
    + intros key. unfold queue_at. rewrite Hu, lookup_empty. done.
  - destruct op as [route candidate|route candidate stream|]; cbn [pool_op fst snd];
      [by apply take_pooled_ok|by apply return_pooled_ok|].
    destruct IH as [_ _ Ho]. constructor; cbn [shutdown_pool set_pool pool].
    + done.
    + apply map_Forall_empty.
    + intros key. rewrite taken_snoc, returned_snoc. cbn [taken_under returned_under]. rewrite !app_nil_r.
      etrans; [|apply Ho]. by apply sublist_inserts_r.
Qed.

(** C30: The pool of idle connections is bounded and keeps them
    apart.  After any operations at most 256 connections are idle, at most 16
    for one candidate of one route; the connections handed out under a key and
    those still idle are, in order, among those given back under that key, so
    that none is handed out twice or for another route, whose key differs when
    the configuration holds no NUL; and what is handed out was given back at
    most 30 seconds before. *)
Theorem idle_pool_bounded u l :
  pool_run u l ->
  0 <= total_idle (pool u) <= MAX_TOTAL_IDLE_UPSTREAMS /\
  (forall key queue, pool u !! key = Some queue -> len queue <= MAX_IDLE_UPSTREAMS) /\
  (forall key, sublist (taken key l ++ map idle_stream (queue_at key u)) (returned key l)) /\
  (forall route candidate stream, snd (take_pooled route candidate u) = Some stream ->
     exists idle, idle ∈ queue_at (pool_key route candidate) u /\ idle_stream idle = stream /\
       duration_since (clock u 0) (inserted idle) <= IDLE_UPSTREAM_TTL) /\
  (forall r c r' c', Forall plain_key [proxy_host r; proxy_prefix r; proxy_upstream r; c] ->
     Forall plain_key [proxy_host r'; proxy_prefix r'; proxy_upstream r'; c'] ->
     pool_key r c = pool_key r' c' -> r = r' /\ c = c').
Proof.
  intros Hrun. apply pool_run_ok in Hrun as [Ht Hq Ho]. split_and!; [lia|lia|exact Hq|exact Ho| |].
  - intros route candidate stream. unfold take_pooled, queue_at.
    destruct (pool u !! pool_key route candidate) as [queue|]; [|done]. cbn [tick default id].
    destruct (pop_fresh (clock u 0) queue) as [queue' x] eqn:E. apply pop_fresh_spec in E as (expired & _ & Hs).
    cbn [snd]. intros ->. destruct Hs as (idle & -> & Hf & Hi). exists idle. split_and!; [set_solver|done|].
    unfold fresh in Hf. lia.
  - intros r c r' c' Hk Hk' E. apply join_key_inj in E; [|done..]. destruct r, r'. cbn in E. by simplify_eq.
Qed.

(** ** Which candidate is tried *)

(** A candidate that is not tried while there are no probes. *)
Definition excluded (key : bytes) (u : Upstreams) : bool :=
  match health_map u !! key with
  | Some state => match unhealthy_until state with Some _ => true | None => false end
  | None => false
  end.

Lemma excluded_set key key' state u :
  excluded key (set_health (<[key' := state]> (health_map u)) u) =
  if bytes_eqb key' key then match unhealthy_until state with Some _ => true | None => false end else excluded key u.
Proof.
  unfold excluded. unfold health_map at 1. cbn [set_health health default id]. destruct (bytes_eqb key' key) eqn:E.
  - apply bytes_eqb_eq in E as ->. by rewrite lookup_insert_eq.
  - apply bytes_eqb_neq in E. by rewrite lookup_insert_ne.
Qed.

Lemma excluded_same key u u' : health_map u' = health_map u -> excluded key u' = excluded key u.
Proof. unfold excluded. by intros ->. Qed.

Lemma health_available_spec key u :
  health_available key u = (set_health (health_map u) u, negb (excluded key u)).
Proof.
  unfold health_available, excluded. change (health_map (set_health (health_map u) u)) with (health_map u).
  destruct (health_map u !! key) as [state|]; [by destruct (unhealthy_until state)|done].
Qed.

Lemma candidate_usable_off network key candidate settings u :
  interval settings <= 0 ->
  candidate_usable network key candidate settings u = (set_health (health_map u) u, negb (excluded key u)).
Proof.
  intros Hi. unfold candidate_usable. replace (interval settings >? 0) with false by lia.
  rewrite health_available_spec. by destruct (excluded key u).
Qed.

Lemma mark_failed_excluded key key' u :
  excluded key u = true -> excluded key (mark_failed key' u) = true.
Proof.
  intros He. unfold mark_failed, cool_down. set (state := mkHealthState _ _ _ _).
  assert (Hs : key' = key -> unhealthy_until state <> None).
  { intros ->. unfold excluded in He. unfold state, health_entry. cbn [unhealthy_until].
    destruct (health_map u !! key) as [st|]; [|done]. cbn. by destruct (unhealthy_until st). }
  destruct (_ >=? 3).
  - cbn [tick]. match goal with |- excluded _ (set_health (<[_ := ?s]> (health_map ?v)) _) = _ => rewrite (excluded_set key key' s v) end.
    destruct (bytes_eqb key' key); [done|]. by rewrite (excluded_same key u).
  - rewrite excluded_set. destruct (bytes_eqb key' key) eqn:E; [|done]. apply bytes_eqb_eq, Hs in E.
    by destruct (unhealthy_until state).
Qed.

Lemma mark_healthy_excluded key key' u : key' <> key -> excluded key (mark_healthy key' u) = excluded key u.
Proof.
  intros Hne. unfold mark_healthy. set (u1 := set_health (health_map u) u).
  change (health_map u1) with (health_map u). destruct (health_map u !! key') as [state|]; [|done].
  change (health_map u) with (health_map u1). rewrite excluded_set. apply bytes_eqb_neq in Hne. by rewrite Hne.
Qed.

Lemma mark_healthy_clears key u : excluded key (mark_healthy key u) = false.
Proof.
  unfold mark_healthy. set (u1 := set_health (health_map u) u).
  change (health_map u1) with (health_map u). destruct (health_map u !! key) as [state|] eqn:E.
  - change (health_map u) with (health_map u1). by rewrite excluded_set, bytes_eqb_refl.
  - unfold excluded. change (health_map u1) with (health_map u). by rewrite E.
Qed.

Lemma take_pooled_health route c u : health_map (fst (take_pooled route c u)) = health_map u.
Proof. unfold take_pooled. destruct (pool u !! _); [|done]. cbn [tick]. by destruct (pop_fresh _ _). Qed.

(** What of the state concerns the connections outside the pool. *)
Definition outside (u : Upstreams) : list bytes * Z := (dialled u, active u).

Lemma take_pooled_dialled route c u : outside (fst (take_pooled route c u)) = outside u.
Proof. unfold take_pooled. destruct (pool u !! _); [|done]. cbn [tick]. by destruct (pop_fresh _ _). Qed.

(** The permits stay as they are; the authorities dialled satisfy [P]. *)
Definition dials (P : bytes -> Prop) (u u' : Upstreams) : Prop :=
  active u' = active u /\ exists l, dialled u' = dialled u ++ l /\ Forall P l.

#[export] Instance dials_preorder P : PreOrder (dials P).
Proof.
  split.
  - intros u. split; [done|]. exists []. by rewrite app_nil_r.
  - intros u1 u2 u3 (Ha1 & l1 & E1 & H1) (Ha2 & l2 & E2 & H2). split; [congruence|]. exists (l1 ++ l2). rewrite E2, E1, <- app_assoc.
    split; [done|by apply Forall_app_2].
Qed.

Lemma dials_same P u u' : outside u' = outside u -> dials P u u'.
Proof. intros [= E Ha]. split; [done|]. exists []. by rewrite app_nil_r. Qed.

Lemma dials_mono (P Q : bytes -> Prop) u u' : (forall a, P a -> Q a) -> dials P u u' -> dials Q u u'.
Proof. intros HPQ (Ha & l & E & Hl). split; [done|]. exists l. split; [done|]. by eapply Forall_impl. Qed.

Definition authority_of (candidate authority : bytes) : Prop := strip_prefix candidate (str "http://") = Some authority.

Lemma connect_candidate_dials network (P : bytes -> Prop) c u :
  (forall a, authority_of c a -> P a) -> dials P u (fst (connect_candidate network c u)).
Proof.
  intros HP. unfold connect_candidate. destruct (strip_prefix c _) as [a|] eqn:E; [|reflexivity].
  split; [done|]. exists [a]. split; [done|]. constructor; [by apply HP|constructor].
Qed.
Lemma connect_candidate_health network c u : health_map (fst (connect_candidate network c u)) = health_map u.
Proof. unfold connect_candidate. by destruct (strip_prefix c _). Qed.

Lemma mark_failed_dialled key u : outside (mark_failed key u) = outside u.
Proof. unfold mark_failed, cool_down. by destruct (_ >=? 3). Qed.
Lemma mark_healthy_dialled key u : outside (mark_healthy key u) = outside u.
Proof. unfold mark_healthy. by destruct (health_map _ !! key). Qed.
Lemma mark_probe_failed_dialled key n u : outside (mark_probe_failed key n u) = outside u.
Proof. unfold mark_probe_failed, cool_down. by destruct (_ >=? _). Qed.
Lemma mark_probe_healthy_dialled key n u : outside (mark_probe_healthy key n u) = outside u.
Proof. done. Qed.
Lemma health_probe_due_dialled key n u : outside (fst (health_probe_due key n u)) = outside u.
Proof.
  unfold health_probe_due. change (health_map (set_health (health_map u) u)) with (health_map u).
  by destruct (health_map u !! key) as [[? ? [] ?]|].
Qed.

Lemma probe_dials network (P : bytes -> Prop) key c settings u :
  (forall a, authority_of c a -> P a) -> dials P u (fst (active_health_probe network key c settings u)).
Proof.
  intros HP. unfold active_health_probe. cbn [tick]. set (u1 := match health _ with Some _ => _ | None => _ end).
  assert (Hu1 : outside u1 = outside u) by (unfold u1; cbn [health]; by destruct (health u)).
  destruct (connect_candidate network c u1) as [u2 r] eqn:E.
  etrans; [apply (dials_same _ u u1 Hu1)|]. etrans; [apply (connect_candidate_dials network P c u1 HP)|]. rewrite E. cbn [fst].
  apply dials_same. destruct r; [destruct (probe_healthy _)|]; cbn [fst];
    rewrite ?mark_probe_failed_dialled, ?mark_probe_healthy_dialled; done.
Qed.

Lemma candidate_usable_dials network (P : bytes -> Prop) key c settings u :
  (forall a, authority_of c a -> P a) -> dials P u (fst (candidate_usable network key c settings u)).
Proof.
  intros HP. unfold candidate_usable. rewrite health_available_spec. set (u1 := set_health _ u).
  assert (H1 : dials P u u1) by by apply dials_same.
  assert (Hdue : forall v, dials P v (fst (health_probe_due key (interval settings) v))).
  { intros v. apply dials_same, health_probe_due_dialled. }
  destruct (interval settings >? 0) eqn:Hi; cbn [negb].
  2:{ by destruct (negb (negb (excluded key u))). }
  assert (Hrest : forall v, dials P u v -> dials P u (fst (
    (let '(u, failed) := (let '(u, due) := health_probe_due key (interval settings) v in
       if due then let '(u, healthy) := active_health_probe network key c settings u in (u, negb healthy) else (u, false)) in
     if failed then (u, false) else health_available key u)))).
  { intros v Hv. specialize (Hdue v). destruct (health_probe_due key (interval settings) v) as [v1 due]. cbn [fst] in Hdue.
    assert (H2 : dials P u v1) by (by etrans). destruct due; [|by rewrite health_available_spec; etrans; [exact H2|apply dials_same]].
    pose proof (probe_dials network P key c settings v1 HP) as Hp.
    destruct (active_health_probe network key c settings v1) as [v2 healthy]. cbn [fst] in Hp.
    assert (H3 : dials P u v2) by (by etrans). destruct healthy; cbn [negb]; [|done].
    by rewrite health_available_spec; etrans; [exact H3|apply dials_same]. }
  destruct (negb (negb (excluded key u))).
  - pose proof (Hdue u1) as H2. destruct (health_probe_due key (interval settings) u1) as [v due] eqn:E. cbn [fst] in H2.
    assert (H3 : dials P u v) by (by etrans). destruct due; cbn [negb]; [by apply Hrest|done].
  - by apply Hrest.
Qed.

Lemma try_candidates_dials network (P : bytes -> Prop) order route settings last u :
  (forall c a, c ∈ order -> authority_of c a -> P a) ->
  dials P u (fst (try_candidates network order route settings last u)) /\
  (forall connected, snd (try_candidates network order route settings last u) = Ok connected ->
     connected_candidate connected ∈ order).
Proof.
  revert last u. induction order as [|c order IH]; intros last u HP; cbn [try_candidates]; [done|].
  assert (HPc : forall a, authority_of c a -> P a) by (intros a; apply HP; left).
  assert (HPo : forall c' a, c' ∈ order -> authority_of c' a -> P a) by (intros; eapply HP; [right; done|done]).
  pose proof (candidate_usable_dials network P (health_key route c) c settings u HPc) as H1.
  destruct (candidate_usable network _ c settings u) as [u1 usable]. cbn [fst] in H1. destruct usable; cbn [negb].
  2:{ destruct (IH last u1 HPo) as [Hd Hc]. split; [by etrans|]. intros connected E. right. by apply Hc. }
  pose proof (dials_same P u1 _ (take_pooled_dialled route c u1)) as H2.
  destruct (take_pooled route c u1) as [u2 [stream|]]; cbn [fst snd] in *.
  { split; [by etrans|]. intros ? [= <-]. left. }
  pose proof (connect_candidate_dials network P c u2 HPc) as H3. destruct (connect_candidate network c u2) as [u3 [stream|e]]; cbn [fst snd] in *.
  - split; [|intros ? [= <-]; left]. do 3 (etrans; [eassumption|]).
    destruct (_ >? 0); [reflexivity|]. apply dials_same, mark_healthy_dialled.
  - destruct (IH (Some e) (mark_failed (health_key route c) u3) HPo) as [Hd Hc]. split.
    + do 3 (etrans; [eassumption|]). etrans; [apply dials_same, mark_failed_dialled|done].
    + intros connected E. right. by apply Hc.
Qed.

Lemma rotation_in candidates start c : c ∈ rotation candidates start -> c ∈ candidates.
Proof.
  unfold rotation. intros Hin. apply list_elem_of_In, in_map_iff in Hin as (k & <- & Hk).
  apply in_seq in Hk. apply list_elem_of_In, nth_In.
  pose proof (Z.mod_pos_bound ((start + Z.of_nat k) mod 2 ^ 64) (len candidates)) as Hb. unfold len in *. lia.
Qed.

Lemma connect_upstream_dials network route settings u :
  let P a := exists c, c ∈ candidates_of route /\ authority_of c a in
  dials P u (fst (connect_upstream_with_health network route settings u)) /\
  (forall connected, snd (connect_upstream_with_health network route settings u) = Ok connected ->
     connected_candidate connected ∈ candidates_of route).
Proof.
  intros P. unfold connect_upstream_with_health. destruct (candidates_of route) as [|c0 cs] eqn:Ec; [done|]. rewrite <- Ec.
  match goal with |- context [try_candidates network ?o _ _ _ ?v] => set (order := o); set (u1 := v) end.
  assert (Hin : forall c, c ∈ order -> c ∈ candidates_of route) by (intros c; apply rotation_in).
  destruct (try_candidates_dials network P order route settings None u1) as [Hd Hc].
  { intros c a Hco Ha. exists c. split; [|done]. apply Hin in Hco. by rewrite Ec in Hco. }
  split; [|intros connected E; by apply Hin, Hc]. etrans; [|exact Hd]. by apply dials_same.
Qed.

(** ** A candidate that fails without probes *)

Lemma connect_candidate_fails key u :
  0 <= failures (health_entry key u) -> failures (health_entry key (mark_failed key u)) =
    Z.min (failures (health_entry key u) + 1) (2 ^ 32 - 1) /\
  (2 <= failures (health_entry key u) -> excluded key (mark_failed key u) = true).
Proof.
  intros Hf. unfold mark_failed. set (n := failures (health_entry key u)) in *. unfold cool_down. cbn [failures].
  unfold saturating_add_u32. destruct (Z.geb_spec (Z.min (n + 1) (2 ^ 32 - 1)) 3) as [Hge|Hlt]; cbn [tick].
  - split; [|intros _].
    + unfold health_entry at 1. unfold health_map at 1. cbn [set_health health default id]. by rewrite lookup_insert_eq.
    + match goal with |- excluded _ (set_health (<[_ := ?s]> (health_map ?v)) _) = _ => rewrite (excluded_set key key s v) end.
      by rewrite bytes_eqb_refl.
  - split; [|lia]. unfold health_entry at 1. unfold health_map at 1. cbn [set_health health default id]. by rewrite lookup_insert_eq.
Qed.

Lemma try_candidates_excluded network order route settings last key u :
  interval settings <= 0 -> excluded key u = true ->
  let r := try_candidates network order route settings last u in
  excluded key (fst r) = true /\
  dials (fun a => exists c, c ∈ order /\ health_key route c <> key /\ authority_of c a) u (fst r) /\
  (forall connected, snd r = Ok connected -> health_key route (connected_candidate connected) <> key).
Proof.
  intros Hi. revert last u. induction order as [|c order IH]; intros last u He; cbn [try_candidates]; [done|].
  rewrite candidate_usable_off by done. set (u1 := set_health (health_map u) u).
  assert (He1 : excluded key u1 = true) by done.
  assert (Hmono : forall v v', dials (fun a => exists c', c' ∈ order /\ health_key route c' <> key /\ authority_of c' a) v v' ->
    dials (fun a => exists c', c' ∈ c :: order /\ health_key route c' <> key /\ authority_of c' a) v v').
  { intros v v'. apply dials_mono. intros a (c' & Hin & Hc'). exists c'. split; [by right|done]. }
  destruct (decide (health_key route c = key)) as [Hk|Hk].
  - rewrite Hk, He. cbn [negb]. destruct (IH last u1 He1) as (H1 & H2 & H3). split_and!; [done| |done].
    etrans; [by apply (dials_same _ u u1)|by apply Hmono].
  - destruct (excluded (health_key route c) u) eqn:Hc; cbn [negb].
    { destruct (IH last u1 He1) as (H1 & H2 & H3). split_and!; [done| |done].
      etrans; [by apply (dials_same _ u u1)|by apply Hmono]. }
    pose proof (take_pooled_health route c u1) as Hth. pose proof (take_pooled_dialled route c u1) as Htd.
    destruct (take_pooled route c u1) as [u2 [stream|]]; cbn [fst snd] in *.
    { split_and!; [by rewrite (excluded_same key u1)|by apply dials_same|by intros ? [= <-]]. }
    pose proof (connect_candidate_health network c u2) as Hch.
    pose proof (connect_candidate_dials network (fun a => exists c', c' ∈ c :: order /\ health_key route c' <> key /\ authority_of c' a) c u2
      ltac:(intros a Ha; exists c; split_and!; [left|done|done])) as Hcd.
    assert (He3 : excluded key (fst (connect_candidate network c u2)) = true).
    { rewrite (excluded_same key u1); [done|]. by rewrite Hch, Hth. }
    assert (Hd3 : dials (fun a => exists c', c' ∈ c :: order /\ health_key route c' <> key /\ authority_of c' a) u (fst (connect_candidate network c u2))).
    { etrans; [by apply (dials_same _ u u2)|done]. }
    destruct (connect_candidate network c u2) as [u3 [stream|e]]; cbn [fst snd] in *.
    + replace (interval settings >? 0) with false by lia. split_and!.
      * by rewrite mark_healthy_excluded.
      * etrans; [exact Hd3|]. apply dials_same, mark_healthy_dialled.
      * by intros ? [= <-].
    + destruct (IH (Some e) (mark_failed (health_key route c) u3)) as (H1 & H2 & H3); [by apply mark_failed_excluded|].
      split_and!; [done| |done]. etrans; [exact Hd3|]. etrans; [apply dials_same, mark_failed_dialled|by apply Hmono].
Qed.

(** Requests one after the other, each to a route of its own. *)
Fixpoint connect_all (network : list bytes -> bytes -> option (list (option Io))) (settings : HealthSettings)
  (routes : list ProxyRoute) (u : Upstreams) : Upstreams * list (result ConnectedUpstream IoErr) :=
  match routes with
  | [] => (u, [])
  | route :: routes =>
      let '(u, r) := connect_upstream_with_health network route settings u in
      let '(u, rs) := connect_all network settings routes u in (u, r :: rs)
  end.

(** C31: Without health probes, which are off by default, an upstream
    that has failed three times is out for good.  Three failures exclude it; an
    excluded candidate is neither dialled nor used by any later request,
    whatever the clock says, so that the cool-down of ten seconds never ends. *)
Theorem failed_upstream_never_returns :
  (forall key u, 0 <= failures (health_entry key u) ->
     excluded key (mark_failed key (mark_failed key (mark_failed key u))) = true) /\
  (forall network settings routes key u u' results, interval settings <= 0 -> excluded key u = true ->
     connect_all network settings routes u = (u', results) ->
     excluded key u' = true /\
     dials (fun a => exists route c, route ∈ routes /\ c ∈ candidates_of route /\ health_key route c <> key /\ authority_of c a) u u' /\
     Forall2 (fun route r => match r with
                             | Ok connected => health_key route (connected_candidate connected) <> key
                             | Err _ => True
                             end) routes results).
Proof.
  split.
  - intros key u Hf. destruct (connect_candidate_fails key u Hf) as [H1 _].
    destruct (connect_candidate_fails key (mark_failed key u) ltac:(lia)) as [H2 _].
    apply (connect_candidate_fails key (mark_failed key (mark_failed key u)) ltac:(lia)). lia.
  - intros network settings routes key u u' results Hi. revert u results.
    induction routes as [|route routes IH]; intros u results He; cbn [connect_all].
    { intros [= <- <-]. split_and!; [done|reflexivity|constructor]. }
    destruct (connect_upstream_with_health network route settings u) as [u1 r] eqn:E1.
    destruct (connect_all network settings routes u1) as [u2 rs] eqn:E2. intros [= <- <-].
    assert (H : excluded key u1 = true /\
      dials (fun a => exists c, c ∈ candidates_of route /\ health_key route c <> key /\ authority_of c a) u u1 /\
      forall connected, r = Ok connected -> health_key route (connected_candidate connected) <> key).
    { unfold connect_upstream_with_health in E1. destruct (candidates_of route) as [|c0 cs] eqn:Ec.
      { injection E1 as <- <-. done. }
      match type of E1 with try_candidates network ?o _ _ _ ?v = _ => set (order := o) in *; set (v1 := v) in * end.
      destruct (try_candidates_excluded network order route settings None key v1 Hi) as (Ha & Hb & Hc); [by rewrite (excluded_same key u)|].
      rewrite E1 in Ha, Hb, Hc. cbn [fst snd] in *. split_and!; [done| |done].
      eapply dials_mono; [|exact Hb]. intros a (c & Hin & Hr). exists c. split; [|done].
      unfold order in Hin. by apply rotation_in in Hin. }
    destruct H as (Ha & Hd & Hc). destruct (IH u1 rs Ha E2) as (Hb & Hd' & Hf). split_and!; [done| |].
    + etrans; [eapply dials_mono; [|exact Hd]|eapply dials_mono; [|exact Hd']].
      * intros a (c & Hin & Hr). exists route, c. split; [left|by split].
      * intros a (route' & c & Hin & Hr). exists route', c. split; [by right|done].
    + constructor; [|done]. destruct r as [connected|]; [by apply Hc|done].
Qed.

(** ** Taking turns *)

(** Every candidate of the route is tried, none has an idle connection, and all
    accept. *)
Record ready (network : list bytes -> bytes -> option (list (option Io))) (route : ProxyRoute) (u : Upstreams) : Prop := {
  ready_valid : forall c, c ∈ candidates_of route -> exists a, authority_of c a;
  ready_healthy : forall c, c ∈ candidates_of route -> excluded (health_key route c) u = false;
  ready_idle : forall c, c ∈ candidates_of route -> default [] (pool u !! pool_key route c) = [];
  ready_up : forall h a, exists io addresses, network h a = Some addresses /\ head (omap id addresses) = Some io;
}.

Lemma rotation_head candidates start :
  candidates <> [] -> exists rest, rotation candidates start =
    nth (Z.to_nat (start mod 2 ^ 64 mod len candidates)) candidates [] :: rest.
Proof.
  intros Hne. unfold rotation. destruct (length candidates) as [|n] eqn:E; [by destruct candidates|].
  cbn [seq map]. change (Z.of_nat 0) with 0. rewrite Z.add_0_r. by eexists.
Qed.

Definition turn_of (route : ProxyRoute) (u : Upstreams) : Z :=
  default 0 (round_robin u !! join_key [proxy_host route; proxy_prefix route]).

Lemma connect_ready network route settings u :
  interval settings <= 0 -> ready network route u -> candidates_of route <> [] ->
  exists u' stream, connect_upstream_with_health network route settings u =
    (u', Ok (mkConnected stream (nth (Z.to_nat (turn_of route u mod 2 ^ 64 mod len (candidates_of route))) (candidates_of route) []))) /\
    ready network route u' /\ turn_of route u' = (turn_of route u + 1) mod 2 ^ 64.
Proof.
  intros Hi [Hv Hh Hp Hn] Hne. unfold connect_upstream_with_health. destruct (candidates_of route) as [|c0 cs] eqn:Ec; [done|].
  rewrite <- Ec in *. fold (turn_of route u).
  match goal with |- context [try_candidates network _ _ _ _ ?v] => set (u1 := v) end.
  destruct (rotation_head (candidates_of route) (turn_of route u) Hne) as (rest & ->). cbn [try_candidates].
  set (c := nth _ (candidates_of route) []).
  assert (Hc : c ∈ candidates_of route).
  { apply list_elem_of_In, nth_In. pose proof (Z.mod_pos_bound (turn_of route u mod 2 ^ 64) (len (candidates_of route))) as Hb.
    unfold len in *. rewrite Ec in *. cbn [length] in *. lia. }
  rewrite candidate_usable_off by done. change (excluded ?k u1) with (excluded k u). rewrite Hh by done. cbn [negb].
  set (u2 := set_health (health_map u1) u1).
  destruct (take_pooled route c u2) as [u3 out] eqn:Et.
  assert (Hout : out = None /\ pool u3 = pool u \/ out = None /\ pool u3 = <[pool_key route c := []]> (pool u)).
  { unfold take_pooled in Et. change (pool u2) with (pool u) in Et. specialize (Hp c Hc).
    destruct (pool u !! pool_key route c) as [q|]; [|injection Et as <- <-; by left]. cbn in Hp. subst q. cbn in Et.
    injection Et as <- <-. by right. }
  pose proof (take_pooled_health route c u2) as Hth. rewrite Et in Hth. cbn [fst] in Hth.
  assert (Hrr : round_robin u3 = round_robin u1).
  { unfold take_pooled in Et. destruct (pool u2 !! _); [|by injection Et as <- <-]. cbn [tick] in Et.
    destruct (pop_fresh _ _). by injection Et as <- <-. }
  destruct (Hv c Hc) as (a & Ha). destruct (Hn (dialled u3) a) as (io & addresses & Hnet & Hio).
  assert (Hconn : connect_candidate network c u3 = (set_dialled (dialled u3 ++ [a]) u3, Ok io)).
  { unfold connect_candidate. unfold authority_of in Ha. rewrite Ha, Hnet. destruct addresses; [done|]. by rewrite Hio. }
  assert (out = None) as -> by (by destruct Hout as [[? _]|[? _]]). rewrite Hconn.
  replace (interval settings >? 0) with false by lia. set (u4 := set_dialled _ u3).
  assert (Hmh : forall k, excluded k (mark_healthy (health_key route c) u4) = if bytes_eqb (health_key route c) k then false else excluded k u).
  { intros k. destruct (bytes_eqb (health_key route c) k) eqn:E.
    - apply bytes_eqb_eq in E as <-. apply mark_healthy_clears.
    - apply bytes_eqb_neq in E. rewrite mark_healthy_excluded by done. apply excluded_same. exact Hth. }
  eexists _, io. split; [reflexivity|]. split.
  - constructor; [done| | |done].
    + intros c' Hc'. rewrite Hmh. case_match; [done|by apply Hh].
    + intros c' Hc'. assert (Hpool : pool (mark_healthy (health_key route c) u4) = pool u3).
      { unfold mark_healthy. by destruct (health_map _ !! _). }
      rewrite Hpool. destruct Hout as [[_ ->]|[_ ->]]; [by apply Hp|].
      destruct (decide (pool_key route c' = pool_key route c)) as [->|Hk]; [by rewrite lookup_insert_eq|].
      rewrite lookup_insert_ne by done. by apply Hp.
  - unfold turn_of at 1. assert (Hr : round_robin (mark_healthy (health_key route c) u4) = round_robin u1).
    { unfold mark_healthy. destruct (health_map _ !! _); cbn; by rewrite Hrr. }
    rewrite Hr. unfold u1. cbn [set_round_robin round_robin]. by rewrite lookup_insert_eq.
Qed.

(** Candidates take turns.  While every candidate of a route
    is healthy and accepts, successive requests go to them round and round,
    starting where the last request left off. *)
Theorem candidates_take_turns network route settings n u :
  interval settings <= 0 -> ready network route u -> candidates_of route <> [] ->
  0 <= turn_of route u -> turn_of route u + Z.of_nat n < 2 ^ 64 ->
  exists u' results, connect_all network settings (repeat route n) u = (u', results) /\
    Forall2 (fun r k => exists stream, r = Ok (mkConnected stream
               (nth (Z.to_nat ((turn_of route u + Z.of_nat k) mod len (candidates_of route))) (candidates_of route) [])))
      results (seq 0 n).
Proof.
  intros Hi Hr Hne. revert u Hr. induction n as [|n IH]; intros u Hr H0 Hlt; [exists u, []; by split|].
  destruct (connect_ready network route settings u Hi Hr Hne) as (u1 & stream & E & Hr1 & Ht).
  rewrite Z.mod_small in Ht by lia. destruct (IH u1 Hr1) as (u' & results & E' & Hf); [lia|lia|].
  eexists u', _. cbn [repeat connect_all]. rewrite E, E'. split; [reflexivity|]. cbn [seq]. constructor.
  - exists stream. rewrite (Z.mod_small (turn_of route u)) by lia. by rewrite Z.add_0_r.
  - rewrite <- seq_shift. apply Forall2_fmap_r. eapply Forall2_impl; [exact Hf|]. intros r k (s & ->). exists s.
    rewrite Ht. do 5 f_equal. lia.
Qed.
