(* ===== verification/WebSocketProps.v ===== *)
(** * Properties of the WebSocket relay

    The tunnel delivers what either side says, in order, and ends.  What passes
    before it is open is in [UpgradeProps]. *)

From S2P Require Import Prelude RustStd Io Config Http H2Headers Text Fs Metrics Limits Handler Connection FastCgi FastCgiRelay FastCgiProps Upstreams Proxy ProxyRelay WebSocket.

(** What a reader delivers while the loop comes back for more: up to the end of
    the stream or a failure. *)
Fixpoint later_bytes (r : Reader) : bytes :=
  match r with
  | RData (b :: d) :: r => (b :: d) ++ later_bytes r
  | RWouldBlock :: r => later_bytes r
  | _ => []
  end.

Lemma read_later n r r' x :
  0 < n -> read r n = (r', x) ->
  match x with
  | ReadOk [] => later_bytes r = [] /\ (reader_size r' <= reader_size r)%nat
  | ReadOk d => later_bytes r = d ++ later_bytes r' /\ (reader_size r' < reader_size r)%nat
  | ReadWouldBlock => later_bytes r = later_bytes r' /\ (reader_size r' < reader_size r)%nat
  | ReadErr => True
  end.
Proof.
  intros Hn Hr. pose proof (read_size _ _ _ _ Hn Hr) as Hs. destruct r as [|[d| |] r]; cbn [read] in Hr.
  - by injection Hr as <- <-.
  - destruct d as [|b d].
    { rewrite len_nil in Hr. replace (0 <=? n) with true in Hr by lia. injection Hr as <- <-. cbn. split; [done|lia]. }
    destruct (Z.leb_spec (len (b :: d)) n) as [Hle|Hgt]; injection Hr as <- <-.
    + destruct Hs as [|Hs]; [done|]. done.
    + destruct (Z.to_nat n) as [|k] eqn:Hk; [lia|]. cbn [take drop]. destruct Hs as [|Hs]; [done|]. split; [|exact Hs].
      cbn [later_bytes]. destruct (drop k d) as [|c f] eqn:Hd.
      { exfalso. apply (f_equal length) in Hd. rewrite length_drop in Hd. unfold len in Hgt. cbn in *. lia. }
      rewrite <- (take_drop k d) at 1. rewrite Hd. cbn. by rewrite <- app_assoc.
  - injection Hr as <- <-. destruct Hs; [done|]. done.
  - by injection Hr as <- <-.
Qed.

(** Sockets do not take nothing of something. *)
Definition never_zero (room : list WriteOutcome) : Prop := Forall (fun o => forall n, o = Wrote n -> 0 < n) room.

(** ** The stages of a round *)

Lemma pump_in_spec closed buffer p p' closed' buffer' progress :
  pump_in closed buffer p = (p', Ok (closed', buffer', progress)) ->
  peer_out p' = peer_out p /\ peer_wire p' = peer_wire p /\
  (reader_size (peer_in p') <= reader_size (peer_in p))%nat /\
  ((closed' = closed /\ buffer' = buffer /\ peer_in p' = peer_in p /\ (closed = true \/ buffer <> [])) \/
   (closed = false /\ buffer = [] /\ closed' = true /\ buffer' = [] /\ later_bytes (peer_in p) = []) \/
   (closed = false /\ buffer = [] /\ closed' = false /\ later_bytes (peer_in p) = buffer' ++ later_bytes (peer_in p') /\
    (reader_size (peer_in p') < reader_size (peer_in p))%nat)).
Proof.
  unfold pump_in. destruct closed; cbn [negb andb].
  { intros [= <- <- <- <-]. split_and!; try done. left. by split_and!; [..|left]. }
  destruct (bytes_eqb buffer []) eqn:Hb; [apply bytes_eqb_eq in Hb as ->|apply bytes_eqb_neq in Hb].
  2:{ intros [= <- <- <- <-]. split_and!; try done. left. by split_and!; [..|right]. }
  destruct (read (peer_in p) IO_CHUNK) as [r x] eqn:Hr. apply read_later in Hr; [|done].
  destruct x as [[|b d]| |]; intros [= <- <- <- <-]; cbn [peer_out peer_wire peer_in].
  - destruct Hr. split_and!; [done..|]. right. left. by split_and!.
  - destruct Hr as [Hl Hs]. split_and!; [done|done|lia|]. right. right. by split_and!.
  - destruct Hr as [Hl Hs]. split_and!; [done|done|lia|]. right. right. by split_and!.
Qed.

Lemma pump_out_spec closed buffer p p' closed' buffer' progress :
  never_zero (peer_out p) -> pump_out closed buffer p = (p', Ok (closed', buffer', progress)) ->
  peer_in p' = peer_in p /\ closed' = closed /\ never_zero (peer_out p') /\
  peer_wire p' ++ buffer' = peer_wire p ++ buffer /\ (exists d, peer_wire p' = peer_wire p ++ d) /\
  (length (peer_out p') <= length (peer_out p))%nat /\
  (buffer = [] /\ buffer' = [] \/ buffer <> [] /\ (buffer' = [] \/ (length (peer_out p') < length (peer_out p))%nat)).
Proof.
  unfold pump_out. intros Hz. destruct (bytes_eqb buffer []) eqn:Hb; [apply bytes_eqb_eq in Hb as ->|apply bytes_eqb_neq in Hb].
  { intros [= <- <- <- <-]. split_and!; try done; [by exists []; rewrite app_nil_r|by left]. }
  unfold peer_write. destruct (peer_out p) as [|[n| |] out]; cbn [rbind].
  - replace (len buffer =? 0) with false.
    2:{ destruct buffer; [done|]. rewrite len_cons. pose proof (len_nonneg buffer). lia. }
    intros [= <- <- <- <-]. cbn [peer_in peer_out peer_wire]. unfold len. rewrite Nat2Z.id, drop_all, app_nil_r.
    split_and!; try done; [by eexists|by right; split; [|left]].
  - apply Forall_cons in Hz as [Hn Hz]. specialize (Hn n eq_refl).
    assert (Hl : 0 < len buffer) by (destruct buffer; [done|]; rewrite len_cons; pose proof (len_nonneg buffer); lia).
    rewrite Z.max_r by lia. destruct (Z.eqb_spec (Z.min n (len buffer)) 0); [lia|].
    intros [= <- <- <- <-]. cbn [peer_in peer_out peer_wire length].
    split_and!; [done|done|done|by rewrite <- app_assoc, take_drop|by eexists|lia|right; split; [done|right; lia]].
  - apply Forall_cons in Hz as [_ Hz]. intros [= <- <- <- <-]. cbn [peer_in peer_out peer_wire length].
    split_and!; [done..|by exists []; rewrite app_nil_r|lia|right; split; [done|right; lia]].
  - by apply Forall_cons in Hz as [_ Hz].
Qed.

(** ** A round *)

(** One direction: [wire] holds what has arrived, [buffer] what is on its way,
    and the sender's reader the rest of [whole]. *)
Definition flows (whole sent_before : bytes) (closed : bool) (sender receiver : Peer) (buffer : bytes) : Prop :=
  exists sent rest, peer_wire receiver ++ buffer = sent_before ++ sent /\ whole = sent ++ rest /\
    rest = (if closed then [] else later_bytes (peer_in sender)).

Definition arrived (before : bytes) (receiver : Peer) : Prop := exists d, peer_wire receiver = before ++ d.

Section Round.
Context (client_says upstream_says client_wire upstream_wire : bytes).

Record tunnel_ok (t : Tunnel) : Prop := {
  tunnel_up : flows client_says upstream_wire (client_closed t) (tn_client t) (tn_upstream t) (client_to_upstream t);
  tunnel_down : flows upstream_says client_wire (upstream_closed t) (tn_upstream t) (tn_client t) (upstream_to_client t);
  tunnel_up_arrived : arrived upstream_wire (tn_upstream t);
  tunnel_down_arrived : arrived client_wire (tn_client t);
  tunnel_client_room : never_zero (peer_out (tn_client t));
  tunnel_upstream_room : never_zero (peer_out (tn_upstream t));
}.

Lemma flows_in whole before closed sender receiver buffer sender' closed' buffer' progress :
  flows whole before closed sender receiver buffer ->
  pump_in closed buffer sender = (sender', Ok (closed', buffer', progress)) ->
  flows whole before closed' sender' receiver buffer'.
Proof.
  intros (sent & rest & Hw & Hs & Hr) E. apply pump_in_spec in E as (_ & _ & _ & [Hx|[Hx|Hx]]).
  - destruct Hx as (-> & -> & Hin & _). exists sent, rest. by rewrite Hin.
  - destruct Hx as (-> & -> & -> & -> & Hl). exists sent, rest. split_and!; [done|done|]. by rewrite Hr.
  - destruct Hx as (-> & -> & -> & Hl & _). exists (sent ++ buffer'), (later_bytes (peer_in sender')).
    rewrite app_nil_r in Hw. split_and!; [by rewrite Hw, app_assoc| |done]. by rewrite Hs, Hr, Hl, app_assoc.
Qed.

Lemma flows_out whole before closed sender receiver buffer receiver' x x' buffer' progress :
  flows whole before closed sender receiver buffer -> never_zero (peer_out receiver) ->
  pump_out x buffer receiver = (receiver', Ok (x', buffer', progress)) ->
  flows whole before closed sender receiver' buffer'.
Proof.
  intros (sent & rest & Hw & Hs & Hr) Hz E. apply pump_out_spec in E as (_ & _ & _ & Heq & _); [|done].
  exists sent, rest. split_and!; [|done|done]. by rewrite Heq.
Qed.

Lemma flows_ends whole before closed s r buffer s' r' :
  flows whole before closed s r buffer -> peer_in s' = peer_in s -> peer_wire r' = peer_wire r ->
  flows whole before closed s' r' buffer.
Proof. intros (sent & rest & Hw & Hs & Hr) Hi Hp. exists sent, rest. by rewrite Hi, Hp. Qed.

Lemma arrived_out before x buffer p p' x' buffer' progress :
  arrived before p -> never_zero (peer_out p) -> pump_out x buffer p = (p', Ok (x', buffer', progress)) -> arrived before p'.
Proof.
  intros (d & Hd) Hz E. apply pump_out_spec in E as (_ & _ & _ & _ & (e & He) & _); [|done].
  exists (d ++ e). by rewrite He, Hd, app_assoc.
Qed.

Definition delivered (whole before : bytes) (receiver : Peer) : Prop :=
  exists d rest, peer_wire receiver = before ++ d /\ whole = d ++ rest.

Lemma flows_delivered whole before closed sender receiver buffer :
  flows whole before closed sender receiver buffer -> arrived before receiver -> delivered whole before receiver.
Proof.
  intros (sent & rest & Hw & Hs & _) (d & Hd). exists d, (buffer ++ rest). split; [done|].
  rewrite Hd, <- app_assoc in Hw. apply app_inv_head in Hw as <-. by rewrite Hs, app_assoc.
Qed.

Lemma delivered_wire whole before p p' :
  delivered whole before p -> peer_wire p' = peer_wire p -> delivered whole before p'.
Proof. intros (d & rest & H & E) Hw. exists d, rest. by rewrite Hw. Qed.

Lemma pump_in_wire closed buffer p p' r : pump_in closed buffer p = (p', r) -> peer_wire p' = peer_wire p.
Proof.
  unfold pump_in. destruct (_ && _); [|by intros [= <- _]].
  destruct (read _ _) as [r' x]. by intros [= <- _].
Qed.

Lemma pump_out_failure closed buffer p p' e : pump_out closed buffer p = (p', Err e) -> peer_wire p' = peer_wire p.
Proof.
  unfold pump_out, peer_write. destruct (bytes_eqb buffer []); [done|].
  destruct (peer_out p) as [|[n| |] out]; cbn [rbind]; try case_match; try done; by intros [= <- _].
Qed.

(** A round keeps the flows; where it fails, what has arrived still is a part
    of what was said. *)
Lemma relay_round_ok deadline t t' r :
  tunnel_ok t -> relay_round deadline t = (t', r) ->
  delivered client_says upstream_wire (tn_upstream t') /\ delivered upstream_says client_wire (tn_client t') /\
  (forall last, r = Ok last -> tunnel_ok t').
Proof.
  intros [Hup Hdown Hua Hda Hcr Hur]. unfold relay_round.
  cbn [tn_client tn_upstream client_to_upstream upstream_to_client client_closed upstream_closed last_progress tn_clock].
  pose proof (flows_delivered _ _ _ _ _ _ Hup Hua) as Du. pose proof (flows_delivered _ _ _ _ _ _ Hdown Hda) as Dd.
  destruct (pump_in (client_closed t) (client_to_upstream t) (tn_client t)) as [client [[[c1 up] p1]|e]] eqn:E1; pose proof (pump_in_wire _ _ _ _ _ E1) as W1.
  2:{ intros [= <- <-]. split_and!; [done|by eapply delivered_wire|done]. }
  destruct (stamp p1 _ _) as [l1 k1].
  destruct (pump_in (upstream_closed t) (upstream_to_client t) (tn_upstream t)) as [ups [[[u1 down] p2]|e]] eqn:E2; pose proof (pump_in_wire _ _ _ _ _ E2) as W2.
  2:{ intros [= <- <-]. split_and!; [by eapply delivered_wire..|done]. }
  destruct (stamp p2 _ _) as [l2 k2].
  pose proof (flows_in _ _ _ _ _ _ _ _ _ _ Hup E1) as Fup. pose proof (flows_in _ _ _ _ _ _ _ _ _ _ Hdown E2) as Fdown.
  pose proof (pump_in_spec _ _ _ _ _ _ _ E1) as (O1 & _). pose proof (pump_in_spec _ _ _ _ _ _ _ E2) as (O2 & _).
  assert (Nu : never_zero (peer_out ups)) by by rewrite O2. assert (Nc : never_zero (peer_out client)) by by rewrite O1.
  apply (flows_ends _ _ _ _ _ _ client ups) in Fup; [|done|done].
  apply (flows_ends _ _ _ _ _ _ ups client) in Fdown; [|done|done].
  assert (Au : arrived upstream_wire ups) by (destruct Hua as [d Hd]; exists d; by rewrite W2).
  assert (Ac : arrived client_wire client) by (destruct Hda as [d Hd]; exists d; by rewrite W1).
  destruct (pump_out u1 up ups) as [ups' [[[u2 up'] p3]|e]] eqn:E3.
  2:{ intros [= <- <-]. split_and!; [|by eapply delivered_wire|done].
      eapply delivered_wire; [exact Du|]. cbn [tn_upstream]. by rewrite (pump_out_failure _ _ _ _ _ E3). }
  destruct (stamp p3 _ _) as [l3 k3].
  pose proof (flows_out _ _ _ _ _ _ _ _ _ _ _ Fup Nu E3) as Fup'. pose proof (arrived_out _ _ _ _ _ _ _ _ Au Nu E3) as Au'.
  pose proof (pump_out_spec _ _ _ _ _ _ _ Nu E3) as (I3 & -> & Nu' & _).
  pose proof (flows_delivered _ _ _ _ _ _ Fup' Au') as Du'.
  destruct (pump_out c1 down client) as [client' [[[c2 down'] p4]|e]] eqn:E4.
  2:{ intros [= <- <-]. split_and!; [done| |done].
      eapply delivered_wire; [exact Dd|]. cbn [tn_client]. by rewrite (pump_out_failure _ _ _ _ _ E4). }
  destruct (stamp p4 _ _) as [l4 k4].
  pose proof (flows_out _ _ _ _ _ _ _ _ _ _ _ Fdown Nc E4) as Fdown'. pose proof (arrived_out _ _ _ _ _ _ _ _ Ac Nc E4) as Ac'.
  pose proof (pump_out_spec _ _ _ _ _ _ _ Nc E4) as (I4 & -> & Nc' & _).
  assert (Hok : forall k, tunnel_ok (mkTunnel client' ups' up' down' c1 u1 l4 k)).
  { intros k. split; cbn; try done; by eapply flows_ends. }
  case_match; intros [= <- <-]; (split_and!; [done|by eapply flows_delivered|by intros]).
Qed.
End Round.

(** ** The loop ends *)

Lemma relay_round_shrinks deadline t t' :
  never_zero (peer_out (tn_client t)) -> never_zero (peer_out (tn_upstream t)) ->
  relay_round deadline t = (t', Ok false) ->
  never_zero (peer_out (tn_client t')) /\ never_zero (peer_out (tn_upstream t')) /\ (tunnel_size t' < tunnel_size t)%nat.
Proof.
  intros Hcr Hur. unfold relay_round.
  cbn [tn_client tn_upstream client_to_upstream upstream_to_client client_closed upstream_closed last_progress tn_clock].
  destruct (pump_in (client_closed t) (client_to_upstream t) (tn_client t)) as [client [[[c1 up] p1]|e]] eqn:E1; [|done].
  destruct (stamp p1 _ _) as [l1 k1].
  destruct (pump_in (upstream_closed t) (upstream_to_client t) (tn_upstream t)) as [ups [[[u1 down] p2]|e]] eqn:E2; [|done].
  destruct (stamp p2 _ _) as [l2 k2].
  apply pump_in_spec in E1 as (O1 & _). apply pump_in_spec in E2 as (O2 & _ & _ & S2).
  destruct (pump_out u1 up ups) as [ups' [[[u2 up'] p3]|e]] eqn:E3; [|done].
  destruct (stamp p3 _ _) as [l3 k3].
  apply pump_out_spec in E3 as (I3 & -> & Nu' & _); [|by rewrite O2].
  destruct (pump_out c1 down client) as [client' [[[c2 down'] p4]|e]] eqn:E4; [|done].
  destruct (stamp p4 _ _) as [l4 k4].
  apply pump_out_spec in E4 as (I4 & -> & Nc' & _ & _ & L4 & S4); [|by rewrite O1].
  destruct (u1 && bytes_eqb down' []) eqn:Hend; [done|]. intros [= <- _]. split_and!; [done..|].
  unfold tunnel_size. cbn [tn_client tn_upstream client_to_upstream upstream_to_client client_closed upstream_closed].
  rewrite I3, O1 in *.
  set (pending b := (if bytes_eqb b [] then 0 else 1)%nat).
  assert (P0 : pending [] = 0%nat) by done.
  assert (P1 : forall b, b <> [] -> pending b = 1%nat).
  { intros b Hb. apply bytes_eqb_neq in Hb. unfold pending. by rewrite Hb. }
  assert (P2 : forall b, (pending b <= 1)%nat) by (intros b; unfold pending; case_match; lia).
  fold (pending down') (pending (upstream_to_client t)). specialize (P2 down').
  destruct S2 as [(-> & -> & -> & [Hc|Hd])|[(Hc & Hd & -> & -> & _)|(Hc & Hd & -> & _ & Hs)]].
  - rewrite Hc in *. destruct S4 as [[_ ->]|[Hn [->|S4]]]; [done| |]; rewrite (P1 _ Hn); lia.
  - destruct S4 as [[? _]|[Hn [->|S4]]]; [done| |]; rewrite (P1 _ Hn); lia.
  - exfalso. destruct S4 as [[_ ->]|[? _]]; done.
  - rewrite Hc, Hd, P0. destruct S4 as [[_ ->]|[Hn [->|S4]]]; lia.
Qed.

Lemma relay_rounds_fuel deadline fuel extra t :
  never_zero (peer_out (tn_client t)) -> never_zero (peer_out (tn_upstream t)) -> (tunnel_size t < fuel)%nat ->
  relay_rounds (fuel + extra) deadline t = relay_rounds fuel deadline t.
Proof.
  revert t. induction fuel as [|fuel IH]; intros t Hc Hu Hf; [lia|]. cbn [relay_rounds Nat.add].
  destruct (relay_round deadline t) as [t' [[|]|e]] eqn:E; [done| |done].
  apply relay_round_shrinks in E as (Hc' & Hu' & Hs); [|done|done]. apply IH; [done|done|lia].
Qed.

(** ** Nothing is lost *)

Definition unbroken (p : Peer) : Prop := ~ In RFail (peer_in p) /\ ~ In WriteFails (peer_out p).

(** No two readings of the clock are a time-out apart. *)
Definition patient (deadline : Z) (last : Z) (clock : nat -> Z) : Prop :=
  forall n, duration_since (clock n) last < deadline /\ forall m, duration_since (clock n) (clock m) < deadline.

Lemma stamp_patient deadline p last clock last' clock' :
  patient deadline last clock -> stamp p last clock = (last', clock') -> patient deadline last' clock'.
Proof.
  intros H. unfold stamp. destruct p; intros [= <- <-]; [|done].
  intros n. split; [apply H|]. intros m. apply H.
Qed.

Lemma read_unbroken r n r' x : ~ In RFail r -> read r n = (r', x) -> x <> ReadErr /\ ~ In RFail r'.
Proof.
  intros Hr. destruct r as [|[d| |] r]; cbn [read].
  - by intros [= <- <-].
  - destruct (_ <=? _); intros [= <- <-]; (split; [done|]); intros Hi; apply Hr; cbn in *; [by right|].
    destruct Hi as [?|?]; [done|by right].
  - intros [= <- <-]. split; [done|]. intros Hi. apply Hr. by right.
  - exfalso. apply Hr. by left.
Qed.

Lemma pump_in_unbroken closed buffer p p' r :
  unbroken p -> pump_in closed buffer p = (p', r) -> unbroken p' /\ exists v, r = Ok v.
Proof.
  intros [Hi Ho]. unfold pump_in. destruct (_ && _); [|by intros [= <- <-]; split_and!; eauto].
  destruct (read (peer_in p) IO_CHUNK) as [i x] eqn:E. apply read_unbroken in E as [Hx Hi']; [|done].
  destruct x as [[|b d]| |]; intros [= <- <-]; split_and!; eauto; done.
Qed.

Lemma pump_out_unbroken closed buffer p p' r :
  unbroken p -> pump_out closed buffer p = (p', r) -> unbroken p' /\ exists v, r = Ok v.
Proof.
  intros [Hi Ho]. unfold pump_out. destruct (bytes_eqb buffer []); [by intros [= <- <-]; unfold unbroken; split_and!; eauto|].
  unfold peer_write. destruct (peer_out p) as [|[n| |] out]; cbn [rbind].
  - case_match; intros [= <- <-]; unfold unbroken; split_and!; eauto.
  - apply not_in_cons in Ho as [_ Ho]. case_match; intros [= <- <-]; unfold unbroken; split_and!; eauto.
  - apply not_in_cons in Ho as [_ Ho]. intros [= <- <-]; unfold unbroken; split_and!; eauto.
  - exfalso. apply Ho. by left.
Qed.

Lemma relay_round_unbroken deadline t t' r :
  unbroken (tn_client t) -> unbroken (tn_upstream t) -> patient deadline (last_progress t) (tn_clock t) ->
  relay_round deadline t = (t', r) ->
  unbroken (tn_client t') /\ unbroken (tn_upstream t') /\ patient deadline (last_progress t') (tn_clock t') /\
  exists last, r = Ok last /\ (last = true -> upstream_closed t' = true /\ upstream_to_client t' = []).
Proof.
  intros Hc Hu Hp. unfold relay_round.
  cbn [tn_client tn_upstream client_to_upstream upstream_to_client client_closed upstream_closed last_progress tn_clock].
  destruct (pump_in (client_closed t) _ (tn_client t)) as [client r1] eqn:E1.
  apply pump_in_unbroken in E1 as [Hc1 [[[c1 up] p1] ->]]; [|done].
  destruct (stamp p1 _ _) as [l1 k1] eqn:T1. apply (stamp_patient deadline) in T1; [|done].
  destruct (pump_in (upstream_closed t) _ (tn_upstream t)) as [ups r2] eqn:E2.
  apply pump_in_unbroken in E2 as [Hu1 [[[u1 down] p2] ->]]; [|done].
  destruct (stamp p2 _ _) as [l2 k2] eqn:T2. apply (stamp_patient deadline) in T2; [|done].
  destruct (pump_out u1 up ups) as [ups' r3] eqn:E3.
  apply pump_out_unbroken in E3 as [Hu2 [[[u2 up'] p3] ->]]; [|done].
  destruct (stamp p3 _ _) as [l3 k3] eqn:T3. apply (stamp_patient deadline) in T3; [|done].
  destruct (pump_out c1 down client) as [client' r4] eqn:E4.
  apply pump_out_unbroken in E4 as [Hc2 [[[c2 down'] p4] ->]]; [|done].
  destruct (stamp p4 _ _) as [l4 k4] eqn:T4. apply (stamp_patient deadline) in T4; [|done].
  destruct (u2 && bytes_eqb down' []) eqn:Hend; intros [= <- <-]; cbn.
  - apply andb_true_iff in Hend as [Hend Hd]. apply bytes_eqb_eq in Hd. split_and!; eauto.
  - split_and!; [done|done|by intros n; split; [apply T4|intros m; apply T4]|]. eexists. split; [done|].
    pose proof (proj1 (T4 O)). lia.
Qed.

(** ** What the client says arrives too, while the upstream stays *)

(** Everything the client will say has been passed on. *)
Definition client_served (t : Tunnel) : Prop := client_closed t = true /\ client_to_upstream t = [].

(** The rounds that may go by until then. *)
Definition client_size (t : Tunnel) : nat :=
  (reader_size (peer_in (tn_client t)) + length (peer_out (tn_upstream t))
   + (if bytes_eqb (client_to_upstream t) [] then 0 else 1) + (if client_closed t then 0 else 1))%nat.

(** A socket that for the next [n] calls has something to say or would block. *)
Definition stays (n : nat) (r : Reader) : Prop := (n <= length r)%nat /\ ~ In (RData []) r.

Lemma read_stays k r n r' x :
  0 < n -> stays (S k) r -> read r n = (r', x) -> x <> ReadOk [] /\ stays k r'.
Proof.
  intros Hn [Hl Hr]. destruct r as [|[d| |] r]; cbn [length] in Hl; [lia|..]; cbn [read].
  - assert (Hd : d <> []) by (intros ->; apply Hr; by left).
    destruct (Z.leb_spec (len d) n) as [Hle|Hgt]; intros [= <- <-]; (split; [|split; [cbn; lia|]]).
    + by intros [= ->].
    + intros Hi. apply Hr. by right.
    + intros [= E]. destruct d as [|b d]; [done|]. apply (f_equal length) in E. rewrite length_take in E. cbn in E. lia.
    + intros [E|Hi]; [|by apply Hr; right]. injection E as E. apply (f_equal length) in E. rewrite length_drop in E.
      unfold len in Hgt. cbn in E. lia.
  - intros [= <- <-]. split; [done|]. split; [lia|]. intros Hi. apply Hr. by right.
  - intros [= <- <-]. split; [done|]. split; [lia|]. intros Hi. apply Hr. by right.
Qed.

Lemma pump_in_stays k buffer p p' closed' buffer' progress :
  stays (S k) (peer_in p) -> pump_in false buffer p = (p', Ok (closed', buffer', progress)) -> closed' = false /\ stays k (peer_in p').
Proof.
  intros Hs. unfold pump_in. cbn [negb andb]. destruct (bytes_eqb buffer []).
  2:{ intros [= <- <- _ _]. split; [done|]. destruct Hs. split; [lia|done]. }
  destruct (read (peer_in p) IO_CHUNK) as [r x] eqn:E. eapply read_stays in E as [Hx Hr]; [|done|exact Hs].
  by destruct x as [[|b d]| |]; intros [= <- <- _ _].
Qed.

Lemma client_round deadline t t' last :
  never_zero (peer_out (tn_client t)) -> never_zero (peer_out (tn_upstream t)) ->
  relay_round deadline t = (t', Ok last) ->
  (client_served t -> client_served t') /\
  (client_served t \/ client_served t' \/ (client_size t' < client_size t)%nat) /\
  (forall k, upstream_closed t = false -> stays (S k) (peer_in (tn_upstream t)) ->
     upstream_closed t' = false /\ stays k (peer_in (tn_upstream t'))).
Proof.
  intros Hcr Hur. unfold relay_round.
  cbn [tn_client tn_upstream client_to_upstream upstream_to_client client_closed upstream_closed last_progress tn_clock].
  destruct (pump_in (client_closed t) (client_to_upstream t) (tn_client t)) as [client [[[c1 up] p1]|e]] eqn:E1; [|done].
  destruct (stamp p1 _ _) as [l1 k1].
  destruct (pump_in (upstream_closed t) (upstream_to_client t) (tn_upstream t)) as [ups [[[u1 down] p2]|e]] eqn:E2; [|done].
  destruct (stamp p2 _ _) as [l2 k2].
  assert (Hst : forall k, upstream_closed t = false -> stays (S k) (peer_in (tn_upstream t)) -> u1 = false /\ stays k (peer_in ups))
    by (intros k Hu Hk; rewrite Hu in E2; by eapply pump_in_stays).
  apply pump_in_spec in E1 as (O1 & _ & _ & S1). apply pump_in_spec in E2 as (O2 & _).
  destruct (pump_out u1 up ups) as [ups' [[[u2 up'] p3]|e]] eqn:E3; [|done].
  destruct (stamp p3 _ _) as [l3 k3].
  apply pump_out_spec in E3 as (I3 & -> & Nu' & _ & _ & L3 & S3); [|by rewrite O2].
  destruct (pump_out c1 down client) as [client' [[[c2 down'] p4]|e]] eqn:E4; [|done].
  destruct (stamp p4 _ _) as [l4 k4].
  apply pump_out_spec in E4 as (I4 & -> & Nc' & _); [|by rewrite O1].
  assert (Hgoal : forall k', let t' := mkTunnel client' ups' up' down' c1 u1 l4 k' in
    (client_served t -> client_served t') /\
    (client_served t \/ client_served t' \/ (client_size t' < client_size t)%nat) /\
    (forall k, upstream_closed t = false -> stays (S k) (peer_in (tn_upstream t)) ->
       upstream_closed t' = false /\ stays k (peer_in (tn_upstream t')))).
  { intros k' t''. subst t''. unfold client_served, client_size. cbn [client_closed client_to_upstream tn_client tn_upstream upstream_closed].
    rewrite I3, I4 in *. rewrite O2 in *.
    assert (P : forall b : bytes, (if bytes_eqb b [] then 0 else 1)%nat = if bool_decide (b = []) then 0%nat else 1%nat).
    { intros b. case_bool_decide as Hb; [by subst|]. apply bytes_eqb_neq in Hb. by rewrite Hb. }
    rewrite !P. split_and!; [|..].
    - intros [Hc Hb]. rewrite Hc, Hb in *.
      destruct S1 as [(-> & -> & _)|[(? & _)|(? & _)]]; [|done..]. by destruct S3 as [[_ ->]|[]].
    - destruct S1 as [(-> & -> & -> & Hcase)|[(Hc & Hb & -> & -> & _)|(Hc & Hb & -> & _ & Hs)]].
      + destruct S3 as [[Hb ->]|[Hb S3]].
        * left. destruct Hcase as [Hc|Hc]; [by split|done].
        * rewrite (bool_decide_false (client_to_upstream t = [])) by done. destruct S3 as [->|S3]; [|right; right; case_bool_decide; lia].
          right. right. rewrite bool_decide_true by done. lia.
      + right. left. split; [done|]. by destruct S3 as [[_ ->]|[]].
      + rewrite Hc, Hb. right. right. rewrite (bool_decide_true (@nil Z = [])) by done.
        destruct S3 as [[_ ->]|[_ [->|S3]]]; [rewrite bool_decide_true by done; lia..|]. case_bool_decide; lia.
    - intros k Hu Hk. by destruct (Hst k Hu Hk) as [-> Hk']. }
  case_match; intros [= <- <-]; apply Hgoal.
Qed.

Section Rounds.
Context (client_says upstream_says client_wire upstream_wire : bytes).

Lemma relay_rounds_delivered deadline fuel t :
  tunnel_ok client_says upstream_says client_wire upstream_wire t ->
  let '(t', r) := relay_rounds fuel deadline t in
  delivered client_says upstream_wire (tn_upstream t') /\ delivered upstream_says client_wire (tn_client t').
Proof.
  revert t. induction fuel as [|fuel IH]; intros t Ht; cbn [relay_rounds].
  - destruct Ht. split; by eapply flows_delivered.
  - destruct (relay_round deadline t) as [t' r] eqn:E.
    destruct (relay_round_ok _ _ _ _ _ _ _ _ Ht E) as (Du & Dd & Hn).
    destruct r as [[|]|e]; [done| |done]. apply IH. by eapply Hn.
Qed.

Lemma relay_rounds_complete deadline fuel t :
  tunnel_ok client_says upstream_says client_wire upstream_wire t -> (tunnel_size t < fuel)%nat ->
  unbroken (tn_client t) -> unbroken (tn_upstream t) -> patient deadline (last_progress t) (tn_clock t) ->
  let '(t', r) := relay_rounds fuel deadline t in
  r = Ok tt /\ peer_wire (tn_client t') = client_wire ++ upstream_says.
Proof.
  revert t. induction fuel as [|fuel IH]; intros t Ht Hf Hc Hu Hp; [lia|]. cbn [relay_rounds].
  destruct (relay_round deadline t) as [t' r] eqn:E.
  destruct (relay_round_unbroken _ _ _ _ Hc Hu Hp E) as (Hc' & Hu' & Hp' & last & -> & Hend).
  destruct (relay_round_ok _ _ _ _ _ _ _ _ Ht E) as (_ & _ & Hn). specialize (Hn _ eq_refl).
  destruct last.
  - split; [done|]. destruct (Hend eq_refl) as [Hcl Hd]. destruct Hn as [_ (sent & rest & Hw & Hs & Hr) _ _ _ _].
    rewrite Hcl in Hr. rewrite Hd, app_nil_r in Hw. by rewrite Hw, Hs, Hr, app_nil_r.
  - destruct Ht. apply relay_round_shrinks in E as (_ & _ & Hs); [|done|done]. apply IH; [done|lia|done..].
Qed.

Lemma relay_rounds_client deadline fuel t :
  tunnel_ok client_says upstream_says client_wire upstream_wire t -> (tunnel_size t < fuel)%nat ->
  unbroken (tn_client t) -> unbroken (tn_upstream t) -> patient deadline (last_progress t) (tn_clock t) ->
  client_served t \/ upstream_closed t = false /\ stays (client_size t) (peer_in (tn_upstream t)) ->
  peer_wire (tn_upstream (fst (relay_rounds fuel deadline t))) = upstream_wire ++ client_says.
Proof.
  revert t. induction fuel as [|fuel IH]; intros t Ht Hf Hc Hu Hp Hs; [lia|]. cbn [relay_rounds].
  destruct (relay_round deadline t) as [t' r] eqn:E.
  destruct (relay_round_unbroken _ _ _ _ Hc Hu Hp E) as (Hc' & Hu' & Hp' & last & -> & Hend).
  destruct (relay_round_ok _ _ _ _ _ _ _ _ Ht E) as (_ & _ & Hn). specialize (Hn _ eq_refl).
  destruct (client_round _ _ _ _ (tunnel_client_room _ _ _ _ _ Ht) (tunnel_upstream_room _ _ _ _ _ Ht) E) as (Hkeep & Hmove & Hstay).
  assert (Hs' : client_served t' \/ upstream_closed t' = false /\ stays (client_size t') (peer_in (tn_upstream t'))).
  { destruct Hs as [Hs|[Ho Hs]]; [left; by apply Hkeep|].
    destruct Hmove as [Hd|[Hd|Hlt]]; [left; by apply Hkeep|by left|]. right.
    destruct (client_size t) as [|k] eqn:Hk; [lia|]. destruct (Hstay k Ho Hs) as [Ho' [Hl Hi]]. split; [done|]. split; [lia|done]. }
  destruct last.
  - destruct (Hend eq_refl) as [Hcl _]. destruct Hs' as [[Hd Hb]|[Ho _]]; [|congruence]. cbn [fst].
    destruct Hn as [(sent & rest & Hw & Hsay & Hr) _ _ _ _ _]. rewrite Hd in Hr. rewrite Hb, app_nil_r in Hw.
    by rewrite Hw, Hsay, Hr, app_nil_r.
  - destruct Ht. apply relay_round_shrinks in E as (_ & _ & Hlt); [|done|done]. apply IH; [done|lia|done..].
Qed.
End Rounds.

Lemma start_ok client upstream clock :
  never_zero (peer_out client) -> never_zero (peer_out upstream) ->
  tunnel_ok (later_bytes (peer_in client)) (later_bytes (peer_in upstream)) (peer_wire client) (peer_wire upstream)
    (mkTunnel client upstream [] [] false false (clock O) (fun n => clock (S n))).
Proof.
  intros Hc Hu. split; cbn; try done; try by (exists []; rewrite app_nil_r).
  all: eexists [], _; split_and!; [by rewrite !app_nil_r|done|done].
Qed.


