(* ===== verification/ProxyWorld.v ===== *)
(** * What the proxy's computations leave on the wires

    Postconditions of the computations that write to one connection, with the
    rules for their composition.  A failed write leaves a part of its data, so a
    computation that fails leaves a prefix of what it sends when it succeeds. *)

From S2P Require Import Prelude RustStd Io Config Http H2Headers Text Fs Metrics Limits Handler Connection FastCgi FastCgiRelay FastCgiProps Upstreams Proxy ProxyRelay WebSocket WebSocketProps.

(** ** Writing *)

(** [m] sends [d], or fails after a part of it, and reads nothing. *)
Definition sends {E A} (m : ST Io E A) (d : bytes) : Prop :=
  forall io io' r, m io = (io', r) ->
    incoming io' = incoming io /\
    exists e, wire io' = wire io ++ e /\ e `prefix_of` d /\ forall a, r = Ok a -> e = d.

Lemma sends_ret {E A} (a : A) : sends (E := E) (st_ret a) [].
Proof. intros io io' r [= <- <-]. split; [done|]. exists []. by rewrite app_nil_r. Qed.

Lemma sends_err {E A} (e : E) d : sends (A := A) (st_err e) d.
Proof. intros io io' r [= <- <-]. split; [done|]. exists []. rewrite app_nil_r. split_and!; [done|apply prefix_nil|done]. Qed.

Lemma sends_bind {E A B} (m : ST Io E A) (k : A -> ST Io E B) d1 d2 :
  sends m d1 -> (forall a, sends (k a) d2) -> sends (st_bind m k) (d1 ++ d2).
Proof.
  intros Hm Hk io io' r. unfold st_bind. destruct (m io) as [io1 [a|e]] eqn:E1.
  - apply Hm in E1 as (Hi1 & e1 & Hw1 & _ & He1). specialize (He1 a eq_refl) as ->. intros E2.
    apply Hk in E2 as (Hi2 & e2 & Hw2 & [p ->] & He2). split; [congruence|].
    exists (d1 ++ e2). split_and!; [by rewrite Hw2, Hw1, app_assoc|exists p; by rewrite app_assoc|].
    intros b Hb. by rewrite (He2 b Hb) at 1.
  - apply Hm in E1 as (Hi1 & e1 & Hw1 & [p ->] & _). intros [= <- <-]. split; [done|].
    exists e1. split_and!; [done|exists (p ++ d2); by rewrite app_assoc|done].
Qed.

Lemma sends_map_err {E E' A} (f : E -> E') (m : ST Io E A) d : sends m d -> sends (map_err f m) d.
Proof.
  intros Hm io io' r. unfold map_err. destruct (m io) as [io1 x] eqn:E1. intros [= <- <-].
  apply Hm in E1 as (Hi & e & Hw & Hp & He). split; [done|]. exists e. split_and!; [done..|].
  intros a. destruct x; intros [= <-]. by eapply He.
Qed.

Lemma io_write_sends io d io' b :
  io_write io d = (io', b) ->
  incoming io' = incoming io /\ exists e, wire io' = wire io ++ e /\ e `prefix_of` d /\ (b = true -> e = d).
Proof.
  unfold io_write. destruct (faults io) as [|[|k] fs]; intros [= <- <-]; (split; [done|]); cbn [wire].
  - by exists d.
  - by exists d.
  - exists (take k d). split_and!; [done| |done]. exists (drop k d). by rewrite take_drop.
Qed.

Lemma sends_write d : sends (fcgi_write d) d.
Proof.
  intros io io' r. unfold fcgi_write. destruct (io_write io d) as [io1 b] eqn:E. intros [= <- <-].
  apply io_write_sends in E as (Hi & e & Hw & Hp & He). split; [done|]. exists e. split_and!; [done..|].
  destruct b; [by intros; apply He|done].
Qed.

Lemma sends_write_all d : sends (write_all d) d.
Proof.
  intros io io' r. unfold write_all. destruct (io_write io d) as [io1 b] eqn:E. intros [= <- <-].
  apply io_write_sends in E as (Hi & e & Hw & Hp & He). split; [done|]. exists e. split_and!; [done..|].
  destruct b; [by intros; apply He|done].
Qed.

Lemma sends_flush : sends flush [].
Proof.
  intros io io' r. unfold flush, io_flush. destruct (faults io) as [|[|k] fs]; intros [= <- <-];
    (split; [done|exists []; rewrite app_nil_r; by split_and!]).
Qed.

(** The response [send_error] writes. *)
Definition error_answer (s : StatusCode) (message : bytes) : bytes :=
  response_head (with_body (set_close_connection (response_new s) true) message TEXT) ++ message.

Lemma sends_response gz_reader file_at r d :
  body_source r = BodyBytes d -> sends (send_to gz_reader file_at r) (response_head r ++ d).
Proof.
  intros Hb. unfold send_to. apply sends_bind; [apply sends_write_all|intros _].
  rewrite <- (app_nil_r d). apply sends_bind; [|intros _; apply sends_flush].
  rewrite Hb. cbn [send_body]. case_bool_decide as Hd; [subst d; apply sends_ret|apply sends_write_all].
Qed.

(** ** The client's side of a relay *)

(** [m] tells the client [d], or fails after a part of it, and leaves the
    upstream alone. *)
Definition tells {A} (m : ST Relay IoErr A) (d : bytes) : Prop :=
  forall w w' r, m w = (w', r) ->
    upstream w' = upstream w /\ incoming (client w') = incoming (client w) /\
    exists e, wire (client w') = wire (client w) ++ e /\ e `prefix_of` d /\ forall a, r = Ok a -> e = d.

Lemma tells_client {A} (m : ST Io IoErr A) d : sends m d -> tells (on_client m) d.
Proof.
  intros Hm w w' r. unfold on_client. destruct (m (client w)) as [io x] eqn:E. intros [= <- <-].
  apply Hm in E as (Hi & He). by split_and!.
Qed.

Lemma tells_error s message : tells (send_error s message) (error_answer s message).
Proof. by apply tells_client, sends_map_err, sends_response. Qed.

Lemma tells_bad_gateway message : tells (bad_gateway message) (error_answer BadGateway message).
Proof. apply tells_error. Qed.

(** ** Reading from the upstream *)

Lemma read_upstream_spec n w w' r :
  0 < n -> read_upstream n w = (w', r) ->
  client w' = client w /\ wire (upstream w') = wire (upstream w) /\
  (reader_size (incoming (upstream w')) <= reader_size (incoming (upstream w)))%nat /\
  forall d, r = Ok d -> d <> [] ->
    later_bytes (incoming (upstream w)) = d ++ later_bytes (incoming (upstream w')) /\
    reader_bytes (incoming (upstream w)) = d ++ reader_bytes (incoming (upstream w')) /\
    (reader_size (incoming (upstream w')) < reader_size (incoming (upstream w)))%nat.
Proof.
  intros Hn. unfold read_upstream, on_upstream, io_read.
  destruct (read (incoming (upstream w)) n) as [i x] eqn:E. intros [= <- <-].
  cbn [client upstream wire incoming]. split_and!; [done|done| |].
  - by eapply reader_size_read.
  - intros d Hx Hd. pose proof (read_later _ _ _ _ Hn E) as Hl.
    destruct x as [e| |]; try done. injection Hx as ->. split_and!; [|by eapply read_bytes|];
      destruct d; [done|by destruct Hl|done|by destruct Hl].
Qed.

(** ** Relations kept by a computation *)

Definition respects {S E A} (R : S -> S -> Prop) (m : ST S E A) : Prop :=
  forall s s' r, m s = (s', r) -> R s s'.

Section Respects.
Context {S E : Type} (R : S -> S -> Prop) `{!PreOrder R}.

Lemma along_ret {A} (a : A) : respects (E := E) R (st_ret a).
Proof. by intros s s' r [= <- <-]. Qed.
Lemma along_err {A} (e : E) : respects (A := A) R (st_err e).
Proof. by intros s s' r [= <- <-]. Qed.
Lemma along_res {A} (x : result A E) : respects R (st_res x).
Proof. by intros s s' r [= <- <-]. Qed.
Lemma along_bind {A B} (m : ST S E A) (k : A -> ST S E B) :
  respects R m -> (forall a, respects R (k a)) -> respects R (st_bind m k).
Proof.
  intros Hm Hk s s' r E1. apply st_bind_inv in E1 as [(a & s1 & E1 & E2)|(e & E1 & _)].
  - etrans; [by eapply Hm|by eapply Hk].
  - by eapply Hm.
Qed.
End Respects.

Create HintDb respects.
#[export] Hint Resolve along_ret along_err along_res : respects.
#[export] Hint Extern 0 (PreOrder _) => apply _ : respects.

Ltac respects := repeat first
  [ solve [eauto with respects] | apply along_bind; [apply _| |intros ?] | case_match ].

(** Relations seen through a part of the state. *)
#[export] Instance along_preorder {S T} (f : S -> T) (R : T -> T -> Prop) `{!PreOrder R} : PreOrder (fun s s' => R (f s) (f s')).
Proof. split; [by intros s|intros x y z; apply transitivity]. Qed.

Lemma respects_relay {A} (R : Relay -> Relay -> Prop) (m : ST Relay IoErr A) :
  respects R m -> respects (fun w w' => R (relay w) (relay w')) (on_relay m).
Proof. intros Hm w w' r. unfold on_relay. destruct (m (relay w)) as [x y] eqn:E. intros [= <- <-]. by eapply Hm. Qed.

Lemma on_relay_inv {A} (m : ST Relay IoErr A) w w' r :
  on_relay m w = (w', r) -> exists x, m (relay w) = (x, r) /\ w' = mkProxying (shared w) x.
Proof. unfold on_relay. destruct (m (relay w)) as [x y] eqn:E. intros [= <- <-]. by exists x. Qed.

Lemma relay_shared {A} (R : Upstreams -> Upstreams -> Prop) `{!PreOrder R} (m : ST Relay IoErr A) :
  respects (fun w w' => R (shared w) (shared w')) (on_relay m).
Proof. intros w w' r. unfold on_relay. destruct (m (relay w)) as [x y] eqn:E. by intros [= <- <-]. Qed.

Lemma shared_relay {A} (R : Relay -> Relay -> Prop) `{!PreOrder R} (f : Upstreams -> Upstreams * A) :
  respects (fun w w' => R (relay w) (relay w')) (on_shared f).
Proof. intros w w' r. unfold on_shared. destruct (f (shared w)) as [x y] eqn:E. by intros [= <- <-]. Qed.

Lemma respects_shared {A} (R : Upstreams -> Upstreams -> Prop) (f : Upstreams -> Upstreams * A) :
  (forall u, R u (fst (f u))) -> respects (fun w w' => R (shared w) (shared w')) (on_shared f).
Proof. intros Hf w w' r. unfold on_shared. specialize (Hf (shared w)). destruct (f (shared w)) as [x y]. by intros [= <- <-]. Qed.

Lemma respects_get (R : Proxying -> Proxying -> Prop) `{!PreOrder R} : respects R get_upstream.
Proof. by intros w w' r [= <- <-]. Qed.
#[export] Hint Resolve respects_relay relay_shared shared_relay respects_shared respects_get : respects.

(** ** The relay of a response

    What everything in the relay keeps: it reads from the upstream and writes to
    the client. *)

Class RelayRelation (R : Relay -> Relay -> Prop) : Prop := {
  relay_preorder :: PreOrder R;
  relay_read : forall n, respects R (read_upstream n);
  relay_write : forall d, respects R (on_client (fcgi_write d));
  relay_error : forall status message, respects R (send_error status message);
}.
#[export] Hint Resolve relay_read relay_write relay_error : respects.
#[export] Hint Extern 0 (RelayRelation _) => apply _ : respects.

(** Nothing is written to the upstream; nothing is read from the client. *)
Definition wrote_same (w w' : Relay) : Prop := wire (upstream w') = wire (upstream w).
Definition read_same (w w' : Relay) : Prop := incoming (client w') = incoming (client w).

#[export] Instance wrote_same_relation : RelayRelation wrote_same.
Proof.
  assert (Hc : forall A (m : ST Io IoErr A), respects wrote_same (on_client m)).
  { intros A m w w' r. unfold on_client. destruct (m (client w)). by intros [= <- <-]. }
  split; [split; [done|intros x y z; unfold wrote_same; congruence]| |intros; apply Hc..].
  intros n w w' r. unfold read_upstream, on_upstream, io_read. destruct (read _ n). by intros [= <- <-].
Qed.

#[export] Instance read_same_relation : RelayRelation read_same.
Proof.
  split; [split; [done|intros x y z; unfold read_same; congruence]| | |].
  - intros n w w' r. unfold read_upstream, on_upstream, io_read. destruct (read _ n). by intros [= <- <-].
  - intros d w w' r E. by apply (tells_client _ _ (sends_write d)) in E as (_ & ? & _).
  - intros status message w w' r E. by apply tells_error in E as (_ & ? & _).
Qed.

Section Relays.
Context (R : Relay -> Relay -> Prop) `{!RelayRelation R}.
Context (GzWriter : Type) (gz_new : Z -> GzWriter) (gz_write : GzWriter -> bytes -> GzWriter * bytes)
  (gz_finish : GzWriter -> bytes).
Abbreviation along := (fun s s' : Writing GzWriter => R (fst s) (fst s')).

Lemma bad_gateway_respects message : respects R (bad_gateway message).
Proof. apply relay_error. Qed.
Hint Resolve bad_gateway_respects : respects.

Lemma read_head_respects fuel max buf : respects R (read_head fuel max buf).
Proof. revert buf. induction fuel as [|fuel IH]; intros buf; cbn [read_head]; respects. Qed.
Hint Resolve read_head_respects : respects.

Lemma connections_respects {A} (m : ST Relay IoErr A) : respects R m -> respects along (on_connections GzWriter m).
Proof. intros Hm s s' r. unfold on_connections. destruct (m (fst s)) eqn:E. intros [= <- <-]. by eapply Hm. Qed.
Hint Resolve connections_respects : respects.

Lemma write_body_respects head d : respects along (write_body GzWriter gz_write head d).
Proof.
  intros s s' r. unfold write_body. destruct head; [by intros [= <- <-]|]. destruct (snd s) as [writer|].
  - destruct (gz_write writer d) as [writer' out]. destruct (on_client (fcgi_write out) (fst s)) eqn:E. intros [= <- <-].
    by eapply relay_write.
  - intros E. eapply connections_respects; [apply relay_write|exact E].
Qed.
Hint Resolve write_body_respects : respects.

Lemma copy_length_respects fuel head remaining : respects along (copy_length GzWriter gz_write fuel head remaining).
Proof. revert remaining. induction fuel as [|fuel IH]; intros remaining; cbn [copy_length]; respects. Qed.
Lemma copy_all_respects fuel head : respects along (copy_all GzWriter gz_write fuel head).
Proof. induction fuel as [|fuel IH]; cbn [copy_all]; respects. Qed.
Hint Resolve copy_length_respects copy_all_respects : respects.

Lemma relay_upstream_body_respects head content_length already :
  respects along (relay_upstream_body GzWriter gz_write head content_length already).
Proof.
  intros s s' r. unfold relay_upstream_body. destruct content_length; intros E;
    match type of E with ?m s = _ => assert (Hm : respects along m) by respects; exact (Hm _ _ _ E) end.
Qed.

Lemma finishing_respects gzip (m : ST (Writing GzWriter) IoErr unit) :
  respects along m -> respects R (finishing GzWriter gz_finish gzip m).
Proof.
  intros Hm w w' r. unfold finishing. destruct (m (w, gzip)) as [[w1 [writer|]] x] eqn:E; apply Hm in E; cbn [fst] in E.
  - destruct (on_client (fcgi_write (gz_finish writer)) w1) as [w2 y] eqn:E2. intros [= <- <-].
    etrans; [exact E|]. by eapply relay_write.
  - by intros [= <- <-].
Qed.
Hint Resolve relay_upstream_body_respects finishing_respects : respects.

Lemma response_respects max head gzip level :
  respects R (stream_upstream_response GzWriter gz_new gz_write gz_finish max head gzip level).
Proof.
  intros w w' r. unfold stream_upstream_response. intros E.
  match type of E with ?m w = _ => assert (Hm : respects R m) by respects; exact (Hm _ _ _ E) end.
Qed.

Context (network : list bytes -> bytes -> option (list (option Io))) (error_text : IoErr -> bytes).
Hint Resolve response_respects : respects.

Lemma relay_response_respects req route candidate config :
  respects (fun w w' => R (relay w) (relay w')) (relay_response GzWriter gz_new gz_write gz_finish req route candidate config).
Proof. unfold relay_response. respects. Qed.
End Relays.
#[export] Hint Resolve bad_gateway_respects relay_response_respects : respects.
