(* ===== verification/UpgradeProps.v ===== *)
(** * Properties of the WebSocket handshake

    Nothing of an upstream reaches the client before its answer has been
    checked, and from then on the tunnel passes on what it says. *)

From S2P Require Import Prelude RustStd Io Config Http H2Headers Text Fs Metrics Limits Handler Connection FastCgi FastCgiRelay FastCgiProps Upstreams Proxy ProxyRelay WebSocket WebSocketProps ProxyWorld.

(** ** The upstream's answer *)

Lemma read_handshake_spec fuel response w w' r :
  read_handshake fuel response w = (w', r) ->
  client w' = client w /\ wire (upstream w') = wire (upstream w) /\
  forall answer, r = Ok (Some answer) ->
    (exists d, answer = response ++ d /\ later_bytes (incoming (upstream w)) = d ++ later_bytes (incoming (upstream w'))) /\
    (exists pos, find_subslice answer CRLF2 = Some pos) /\ len answer <= MAX_UPSTREAM_HEADERS.
Proof.
  revert response w. induction fuel as [|fuel IH]; intros response w; cbn [read_handshake]; [by intros [= <- <-]|].
  unfold st_bind. destruct (read_upstream 1024 w) as [w1 [d|e]] eqn:E1.
  all: apply read_upstream_spec in E1 as (Hc & Hw & _ & Hd); [|done].
  2:{ by intros [= <- <-]. }
  destruct d as [|b d]; [by intros [= <- <-]|]. destruct (Hd _ eq_refl) as (Hl & _); [done|].
  destruct (Z.gtb_spec (len (response ++ b :: d)) MAX_UPSTREAM_HEADERS) as [|Hle]; [by intros [= <- <-]|].
  destruct (find_subslice (response ++ b :: d) CRLF2) as [pos|] eqn:Hp.
  - intros [= <- <-]. split_and!; [done|done|]. intros answer [= <-]. split_and!; [by exists (b :: d)|by exists pos|done].
  - intros E2. apply IH in E2 as (Hc2 & Hw2 & Ha). split_and!; [by rewrite Hc2|by rewrite Hw2|].
    intros answer Ho. destruct (Ha _ Ho) as ((e & -> & He) & Hf). split; [|done].
    exists ((b :: d) ++ e). rewrite Hl, He. by rewrite !app_assoc.
Qed.

Lemma read_handshake_fuel fuel extra response w :
  (reader_size (incoming (upstream w)) < fuel)%nat ->
  read_handshake (fuel + extra) response w = read_handshake fuel response w.
Proof.
  revert response w. induction fuel as [|fuel IH]; intros response w Hf; [lia|]. cbn [read_handshake Nat.add].
  unfold st_bind. destruct (read_upstream 1024 w) as [w1 [d|e]] eqn:E1; [|done].
  apply read_upstream_spec in E1 as (_ & _ & _ & Hd); [|done].
  destruct d as [|b d]; [done|]. destruct (Hd _ eq_refl) as (_ & _ & Hs); [done|].
  destruct (_ >? _); [done|]. case_match; [done|]. apply IH. lia.
Qed.

(** ** The upgrade *)

Section Upgrade.
Context (network : list bytes -> bytes -> option (list (option Io))) (error_text : IoErr -> bytes).
Context (sha1 : bytes -> bytes) (base64_encode : bytes -> bytes) (base64_decode : bytes -> option bytes).

(** What a client has received that was refused: nothing, or an error, perhaps
    cut off. *)
Definition refused (out : bytes) : Prop := exists status message, out `prefix_of` error_answer status message.

Lemma refused_nil : refused [].
Proof. exists BadGateway, []. apply prefix_nil. Qed.

(** An answer that accepts the upgrade the client asked for. *)
Record accepts (req : HttpRequest) (answer : bytes) : Prop := {
  accepts_valid : valid_upgrade base64_decode req = true;
  accepts_text : utf8_valid answer = true;
  accepts_status : starts_with answer (str "HTTP/1.1 101 ") = true;
  accepts_key : accept_of answer =
    Some (websocket_accept sha1 base64_encode (default [] (get_header req (str "Sec-WebSocket-Key"))));
  accepts_head : exists pos, find_subslice answer CRLF2 = Some pos;
}.

Lemma run_tunnel_delivers env config w w' r :
  never_zero (client_room env) -> never_zero (upstream_room env) -> run_tunnel env config w = (w', r) ->
  (exists d rest, wire (client w') = wire (client w) ++ d /\ later_bytes (incoming (upstream w)) = d ++ rest) /\
  (exists d rest, wire (upstream w') = wire (upstream w) ++ d /\ later_bytes (incoming (client w)) = d ++ rest).
Proof.
  intros Hc Hu. unfold run_tunnel, relay_tunnel. set (start := mkTunnel _ _ _ _ _ _ _ _).
  assert (Hok := start_ok (tn_client start) (tn_upstream start) (tunnel_clock env) Hc Hu : tunnel_ok _ _ _ _ start).
  pose proof (relay_rounds_delivered _ _ _ _ (from_secs (Z.max (Z.max (read_timeout config) 1) 1)) (S (tunnel_size start)) _ Hok) as Hd.
  destruct (relay_rounds _ _ start) as [t x]. destruct Hd as [Du Dd]. intros [= <- <-]. split; [exact Dd|exact Du].
Qed.

(** What comes of the connection [stream]. *)
Definition outcome (req : HttpRequest) (stream : Io) (before after : Relay) : Prop :=
  exists out, wire (client after) = wire (client before) ++ out /\
    (refused out \/
     exists answer rest d,
       accepts req answer /\ later_bytes (incoming stream) = answer ++ rest /\ out `prefix_of` answer ++ rest /\
       wire (upstream after) = wire stream ++ websocket_request req ++ d /\
       d `prefix_of` later_bytes (incoming (client before))).

Lemma outcome_same req stream w w' : wire (client w') = wire (client w) -> outcome req stream w w'.
Proof. intros Hw. exists []. rewrite app_nil_r. split; [done|]. left. apply refused_nil. Qed.

Lemma outcome_error {A} (m : ST Relay IoErr A) status message req stream w0 w w' r :
  wire (client w) = wire (client w0) -> tells m (error_answer status message) -> m w = (w', r) -> outcome req stream w0 w'.
Proof.
  intros Hw0 Hm E. apply Hm in E as (_ & _ & e & Hw & Hp & _). exists e. split; [by rewrite Hw, Hw0|].
  left. by exists status, message.
Qed.

Lemma relay_then {A} (m : ST Relay IoErr A) (b : option bool) w w' r :
  (let! _ := on_relay m in st_ret b) w = (w', r) -> exists y, m (relay w) = (relay w', y).
Proof.
  intros E. apply st_bind_inv in E as [(a & w1 & E & [= <- <-])|(e & E & _)]; apply on_relay_inv in E as (x & E & ->); by eexists.
Qed.

Lemma relay_two (m1 m2 : ST Relay IoErr unit) (b : option bool) w w' r :
  (let! _ := on_relay m1 in let! _ := on_relay m2 in st_ret b) w = (w', r) ->
  exists y, (let! _ := m1 in m2) (relay w) = (relay w', y).
Proof.
  intros E. unfold st_bind, on_relay, st_ret in *. destruct (m1 (relay w)) as [x [[]|e]]; [|injection E as <- <-; eauto].
  cbn [relay] in E. destruct (m2 x) as [y [[]|e]]; injection E as <- <-; eauto.
Qed.

Lemma accepted_tunnel env config req stream answer w0 w w' r :
  never_zero (client_room env) -> never_zero (upstream_room env) ->
  accepts req answer -> client w = client w0 -> wire (upstream w) = wire stream ++ websocket_request req ->
  later_bytes (incoming stream) = answer ++ later_bytes (incoming (upstream w)) ->
  (let! _ := on_client (fcgi_write answer) in run_tunnel env config) w = (w', r) ->
  outcome req stream w0 w'.
Proof.
  intros Hc Hu Ha Hw Hup Hl E. apply st_bind_inv in E as [([] & w1 & E1 & E2)|(e & E1 & _)];
    apply (tells_client _ _ (sends_write _)) in E1 as (Hu1 & Hi1 & x & Hw1 & Hp1 & Hx).
  - specialize (Hx tt eq_refl) as ->. apply run_tunnel_delivers in E2 as [(a & ra & Hwa & Hra) (b & rb & Hwb & Hrb)]; [|done..].
    rewrite Hu1 in Hra, Hwb. rewrite Hi1, Hw in Hrb. exists (answer ++ a). split; [by rewrite Hwa, Hw1, Hw, app_assoc|].
    right. exists answer, (later_bytes (incoming (upstream w))), b. split_and!; [done|done| | |].
    + rewrite Hra. exists ra. by rewrite app_assoc.
    + by rewrite Hwb, Hup, app_assoc.
    + rewrite Hrb. by exists rb.
  - exists x. split; [by rewrite Hw1, Hw|]. right. exists answer, (later_bytes (incoming (upstream w))), [].
    split_and!; [done|done|by apply prefix_app_r|by rewrite Hu1, app_nil_r|apply prefix_nil].
Qed.

(** After the connection: the request, the answer and its checks. *)
Definition upgrade_on (env : TunnelEnv) (req : HttpRequest) (config : ServerConfig) (stream : Io) : ST Proxying IoErr (option bool) :=
  let! _ := use_upstream stream in
  let! _ := on_relay (on_upstream (fcgi_write (websocket_request req))) in
  let! answer := on_relay (fun w => read_handshake (S (reader_size (incoming (upstream w)))) [] w) in
  match answer with
  | None => st_ret (Some true)
  | Some response =>
      let text := if utf8_valid response then response else [] in
      if negb (starts_with text (str "HTTP/1.1 101 ")) then
        let! _ := on_relay (bad_gateway (str "upstream rejected WebSocket upgrade")) in st_ret (Some true)
      else if negb (bool_decide (accept_of text = Some (websocket_accept sha1 base64_encode
          (match get_header req (str "Sec-WebSocket-Key") with Some k => k | None => [] end)))) then
        let! _ := on_relay (bad_gateway (str "upstream WebSocket accept mismatch")) in st_ret (Some true)
      else
        let! _ := on_relay (on_client (fcgi_write response)) in
        let! _ := on_relay (run_tunnel env config) in
        st_ret (Some true)
  end.

Lemma upgrade_on_outcome env req config stream w w' r :
  never_zero (client_room env) -> never_zero (upstream_room env) -> valid_upgrade base64_decode req = true ->
  upgrade_on env req config stream w = (w', r) -> outcome req stream (relay w) (relay w').
Proof.
  intros Hc Hu Hv. unfold upgrade_on. intros E.
  apply st_bind_inv in E as [([] & w1 & [= <-] & E)|(e & [=] & _)].
  apply st_bind_inv in E as [([] & w2 & E1 & E)|(e & E & _)]; [|apply on_relay_inv in E as (x & E & ->)].
  2:{ unfold on_upstream in E. destruct (fcgi_write _ _) in E. injection E as <- _. by apply outcome_same. }
  apply on_relay_inv in E1 as (x & E1 & ->). unfold on_upstream in E1. cbn [relay upstream client] in E1.
  destruct (fcgi_write (websocket_request req) stream) as [io y] eqn:Ew. injection E1 as <- ->.
  apply sends_write in Ew as (Hi & d & Hw & _ & Hd). specialize (Hd tt eq_refl) as ->.
  apply st_bind_inv in E as [(answer & w3 & E2 & E)|(e & E2 & _)]; apply on_relay_inv in E2 as (x & E2 & ->);
    cbn [relay upstream] in E2; apply read_handshake_spec in E2 as (Hcl & Hup & Ha); cbn [client upstream] in *.
  2:{ apply outcome_same. cbn [relay]. by rewrite Hcl. }
  destruct answer as [answer|]; [|injection E as <- <-; apply outcome_same; cbn [relay]; by rewrite Hcl].
  destruct (Ha _ eq_refl) as ((e & He & Hl) & Hp & _). cbn in He. subst e.
  set (text := if utf8_valid answer then answer else []) in E.
  destruct (starts_with text (str "HTTP/1.1 101 ")) eqn:Hs; cbn [negb] in E.
  2:{ apply relay_then in E as [y E]. eapply outcome_error; [|apply tells_bad_gateway|exact E]. cbn [relay]. by rewrite Hcl. }
  case_bool_decide as Hk; cbn [negb] in E.
  2:{ apply relay_then in E as [y E]. eapply outcome_error; [|apply tells_bad_gateway|exact E]. cbn [relay]. by rewrite Hcl. }
  apply relay_two in E as [y E]. cbn [relay] in E.
  assert (Ht : utf8_valid answer = true /\ text = answer) by (unfold text in *; by destruct (utf8_valid answer)).
  destruct Ht as [Ht Hta]. rewrite Hta in *.
  eapply accepted_tunnel; [exact Hc|exact Hu| |exact Hcl|by rewrite Hup|by rewrite Hi in Hl|exact E]. by split.
Qed.

(** C26: a WebSocket upgrade is guarded.  Unless the request carries a key of 16
    bytes and version 13, and the upstream answers it with a 101 whose accept
    value belongs to that key, the client receives nothing but an error of the
    server's own.  Otherwise the upstream has received the request as rewritten
    and then a prefix of what the client says, and the client a prefix of what
    the upstream says, from the answer on. *)
Theorem upgrade_guarded env req route config w w' r :
  never_zero (client_room env) -> never_zero (upstream_room env) ->
  websocket network sha1 base64_encode base64_decode env req route config w = (w', r) ->
  exists out, wire (client (relay w')) = wire (client (relay w)) ++ out /\
    (refused out \/
     exists u u' stream answer rest d,
       connect_upstream network route u = (u', Ok stream) /\
       accepts req answer /\ later_bytes (incoming stream) = answer ++ rest /\ out `prefix_of` answer ++ rest /\
       wire (upstream (relay w')) = wire stream ++ websocket_request req ++ d /\
       d `prefix_of` later_bytes (incoming (client (relay w)))).
Proof.
  intros Hc Hu. unfold websocket, with_permit.
  destruct (acquire_upstream_permit (shared w)) as [u0 [[]|e]].
  2:{ intros [= <- <-]. exists []. rewrite app_nil_r. split; [done|]. left. apply refused_nil. }
  match goal with |- context [let '(_, _) := ?m ?s in _] => destruct (m s) as [w1 x] eqn:E end.
  intros [= <- <-]. cbn [relay].
  destruct (valid_upgrade base64_decode req) eqn:Hv; cbn [negb] in E.
  2:{ apply st_bind_inv in E as [([] & w2 & E & [= <- <-])|(e & E & _)];
        apply on_relay_inv in E as (y & E & ->); cbn [relay] in *;
        apply tells_error in E as (_ & _ & out & Hw & Hp & _);
        exists out; (split; [done|]); left; eexists _, _; exact Hp. }
  unfold st_bind at 1, on_shared in E. cbn [shared relay] in E.
  destruct (connect_upstream network route u0) as [u1 [stream|e]] eqn:Ec; unfold st_bind at 1, st_res in E.
  2:{ injection E as <- <-. exists []. rewrite app_nil_r. split; [done|]. left. apply refused_nil. }
  change (upgrade_on env req config stream (mkProxying u1 (relay w)) = (w1, x)) in E.
  apply upgrade_on_outcome in E as (out & Hw & Ho); [|done..]. cbn [relay] in *. exists out. split; [exact Hw|].
  destruct Ho as [Ho|(answer & rest & d & Ho)]; [by left|right]. exists u0, u1, stream, answer, rest, d. by split.
Qed.
End Upgrade.
