(* ===== verification/ProxyRequestProps.v ===== *)
(** * Properties of the request an upstream receives

    Its server reads the request that was forwarded, and nothing else: the two
    servers agree on where it ends.  For HTTP/2 clients this fails, since their
    header values may hold line breaks. *)

From S2P Require Import Prelude RustStd Io Config Http H2Headers Text Fs Metrics Limits Stream Handler HandlerProps Connection FastCgi FastCgiRelay FastCgiProps Upstreams Proxy ProxyRelay.

(** ** A reader of requests *)

Definition read_field (line : bytes) : option (bytes * bytes) :=
  match split_once 58 line with
  | Some (name, value) => Some (name, match strip_prefix value (str " ") with Some v => v | None => value end)
  | None => None
  end.

(** The method, the target, the version and the fields of the first request,
    and what follows its head. *)
Definition read_request (l : bytes) : option (bytes * bytes * bytes * list (bytes * bytes) * bytes) :=
  match find_subslice l CRLF2 with
  | None => None
  | Some pos =>
      match split_crlf (take (Z.to_nat pos) l) with
      | line :: lines =>
          match split_on 32 line, mapM read_field lines with
          | [m; u; v], Some fields => Some (m, u, v, fields, drop (Z.to_nat (pos + 4)) l)
          | _, _ => None
          end
      | [] => None
      end
  end.

(** ** Lines *)

Lemma split_crlf_line l : no_crlf l -> split_crlf l = [l].
Proof.
  induction 1 as [|b l [Hb _] Hl IH]; [done|]. destruct l as [|c l]; [done|].
  change (split_crlf (b :: c :: l)) with (if (b =? 13) && (c =? 10) then [] :: split_crlf l else cons_head b (split_crlf (c :: l))).
  rewrite eqb_neq_false by done. cbn [andb]. by rewrite IH.
Qed.

Lemma split_crlf_cons l rest : no_crlf l -> split_crlf (l ++ CRLF ++ rest) = l :: split_crlf rest.
Proof.
  induction 1 as [|b l [Hb _] Hl IH]; [by destruct rest|].
  assert (Hs : split_crlf (b :: l ++ CRLF ++ rest) = cons_head b (split_crlf (l ++ CRLF ++ rest))).
  { destruct (l ++ CRLF ++ rest) as [|c k] eqn:E; [by destruct l|].
    change (split_crlf (b :: c :: k)) with (if (b =? 13) && (c =? 10) then [] :: split_crlf k else cons_head b (split_crlf (c :: k))).
    by rewrite eqb_neq_false by done. }
  cbn [app]. by rewrite Hs, IH.
Qed.

Lemma split_crlf_lines ls : ls <> [] -> Forall no_crlf ls ->
  exists k, concat (map line_end ls) = k ++ CRLF /\ split_crlf k = ls.
Proof.
  intros Hne Hls. induction Hls as [|l ls Hl Hls IH]; [done|]. destruct ls as [|l2 ls].
  - exists l. split; [cbn; by rewrite app_nil_r|by apply split_crlf_line].
  - destruct IH as (k & Hk & Hs); [done|]. exists (l ++ CRLF ++ k). split.
    + rewrite concat_map_cons, Hk. unfold line_end at 1. by rewrite <- !app_assoc.
    + by rewrite split_crlf_cons, Hs.
Qed.

(** A head of clean lines is read back as these lines. *)
Lemma read_head_lines line lines rest :
  Forall (fun l => no_crlf l /\ l <> []) (line :: lines) ->
  read_request (concat (map line_end (line :: lines)) ++ CRLF ++ rest) =
  match split_on 32 line, mapM read_field lines with
  | [m; u; v], Some fields => Some (m, u, v, fields, rest)
  | _, _ => None
  end.
Proof.
  intros Hls. destruct (split_crlf_lines (line :: lines)) as (k & Hk & Hs); [done|eapply Forall_impl; [exact Hls|by intros l [? _]]|].
  unfold read_request, find_subslice. rewrite find_from_lines by done. rewrite Hk, len_app.
  change (len CRLF) with 2. replace (0 + (len k + 2) - 2) with (len k) by lia. rewrite <- !app_assoc.
  replace (take (Z.to_nat (len k)) _) with k by (unfold len; by rewrite Nat2Z.id, take_app_length).
  rewrite Hs. replace (drop (Z.to_nat (len k + 4)) _) with rest; [done|].
  replace (Z.to_nat (len k + 4)) with (length (k ++ CRLF ++ CRLF)) by (rewrite !length_app; unfold len; cbn; lia).
  change (k ++ CRLF ++ CRLF ++ rest) with (k ++ CRLF ++ CRLF ++ rest).
  rewrite (app_assoc CRLF CRLF rest), (app_assoc k _ rest). by rewrite drop_app_length.
Qed.

Definition field_line (h : bytes * bytes) : bytes := fst h ++ str ": " ++ snd h.

Lemma read_field_line h : 58 ∉ fst h -> read_field (field_line h) = Some h.
Proof.
  intros Hn. unfold read_field, field_line. change (str ": " ++ snd h) with (58 :: 32 :: snd h).
  rewrite split_once_skip.
  - destruct h. cbn. reflexivity.
  - apply Forall_forall. intros b Hb ->. done.
Qed.

Lemma mapM_field_lines hs : Forall (fun h => 58 ∉ fst h) hs -> mapM read_field (map field_line hs) = Some hs.
Proof.
  induction 1 as [|h hs Hh _ IH]; [done|]. cbn [map mapM]. rewrite read_field_line by done.
  cbn [mbind option_bind]. by rewrite IH.
Qed.

(** ** The request *)

(** Neither a line break nor a space. *)
Definition word (l : bytes) : Prop := Forall (fun b => b <> 13 /\ b <> 10 /\ b <> 32) l.

Lemma word_no_crlf l : word l -> no_crlf l.
Proof. intros H. eapply Forall_impl; [exact H|]. cbn. tauto. Qed.
Lemma word_no_space l : word l -> 32 ∉ l.
Proof. intros H Hi. eapply Forall_forall in H; [|exact Hi]. tauto. Qed.
Lemma word_drop n l : word l -> word (drop n l).
Proof. intros H. by apply Forall_drop. Qed.

(** A request whose parts fit on their lines. *)
Record sendable (req : HttpRequest) : Prop := {
  sendable_method : word (method_display (method req));
  sendable_uri : word (uri req);
  sendable_host : forall h, get_header req (str "Host") = Some h -> no_crlf h;
}.

(** The fields of the request sent on. *)
Definition forwarded_fields (connection remote : bytes) (secure : bool) (n : Z) (req : HttpRequest) : list (bytes * bytes) :=
  let host := default [] (get_header req (str "Host")) in
  List.filter forwarded_header (headers req) ++
  [(str "Host", host); (str "X-Forwarded-For", remote);
   (str "X-Forwarded-Proto", if secure then str "https" else str "http");
   (str "X-Forwarded-Host", host); (str "Connection", connection); (str "Content-Length", to_string n)].

Lemma upstream_request_lines connection route req remote secure n :
  upstream_request connection route req remote secure n =
  concat (map line_end ((method_display (method req) ++ str " " ++ upstream_target route req ++ str " HTTP/1.1")
                        :: map field_line (forwarded_fields connection remote secure n req))) ++ CRLF.
Proof.
  unfold upstream_request, forwarded_fields. rewrite concat_map_cons, map_app, map_app, concat_app.
  assert (Hl : concat (map line_end (map field_line (List.filter forwarded_header (headers req))))
               = concat (map header_line (List.filter forwarded_header (headers req)))).
  { rewrite map_map. f_equal. apply map_ext. intros h. unfold line_end, field_line, header_line. by rewrite <- !app_assoc. }
  rewrite Hl. unfold line_end, field_line. cbn [map concat fst snd]. rewrite app_nil_r, <- !app_assoc. reflexivity.
Qed.

Lemma valid_header_ok name value : valid_header name value = true ->
  name <> [] /\ Forall (fun b => is_header_byte b = true) name /\ no_crlf value.
Proof.
  unfold valid_header. intros ((Hn & Hb)%andb_true_iff & Hv)%andb_true_iff. split_and!.
  - apply bytes_eqb_neq. by destruct (bytes_eqb name []).
  - apply Forall_forall. intros b Hi%list_elem_of_In. by apply (proj1 (forallb_forall _ _) Hb).
  - apply Forall_forall. intros b Hi%list_elem_of_In. destruct (existsb _ value) eqn:E; [done|].
    assert (Hne : ((b =? 13) || (b =? 10) || (b =? 0)) <> true); [|lia].
    intros Ht. apply not_true_iff_false in E. apply E, existsb_exists. by exists b.
Qed.

Lemma header_name_clean name : Forall (fun b => is_header_byte b = true) name -> no_crlf name /\ 58 ∉ name.
Proof.
  intros Hn. split; [eapply Forall_impl; [exact Hn|apply header_byte_no_break]|].
  intros Hi. eapply Forall_forall in Hn; [|exact Hi]. by vm_compute in Hn.
Qed.

Lemma forwarded_header_ok h : forwarded_header h = true ->
  fst h <> [] /\ Forall (fun b => is_header_byte b = true) (fst h) /\ no_crlf (snd h) /\ hop_by_hop (fst h) = false /\
  eq_ignore_ascii_case (fst h) (str "Host") = false /\ eq_ignore_ascii_case (fst h) (str "Content-Length") = false.
Proof.
  unfold forwarded_header. intros [Hn Hv]%andb_true_iff. apply valid_header_ok in Hv as (H1 & H2 & H3).
  apply negb_true_iff, orb_false_iff in Hn as [[Hh Hhost]%orb_false_iff Hl]. by split_and!.
Qed.

Lemma forwarded_fields_ok connection remote secure n req :
  sendable req -> word connection -> no_crlf remote ->
  Forall (fun h => fst h <> [] /\ Forall (fun b => is_header_byte b = true) (fst h) /\ no_crlf (snd h))
    (forwarded_fields connection remote secure n req).
Proof.
  intros Hr Hc Hm. unfold forwarded_fields. apply Forall_app. split.
  - apply Forall_forall. intros h Hh%list_elem_of_In. apply filter_In in Hh as [_ Hh].
    by apply forwarded_header_ok in Hh as (? & ? & ? & _).
  - assert (Hhost : no_crlf (default [] (get_header req (str "Host")))).
    { destruct (get_header req (str "Host")) eqn:E; [by apply (sendable_host _ Hr)|constructor]. }
    repeat constructor; cbn [fst snd]; try done; try (by apply Forall_true_dec); try by apply word_no_crlf.
    + by destruct secure; apply no_crlf_dec.
    + apply no_crlf_to_string.
Qed.

Lemma target_word route req : sendable req -> word (upstream_target route req).
Proof.
  intros Hr. unfold upstream_target, strip_prefix. destruct (starts_with (uri req) (proxy_prefix route));
    case_match; try (by repeat constructor); try by apply word_drop, (sendable_uri _ Hr). apply (sendable_uri _ Hr).
Qed.

Lemma hop_by_hop_lower a b : eq_ignore_ascii_case a b = true -> hop_by_hop a = hop_by_hop b.
Proof. unfold eq_ignore_ascii_case, hop_by_hop. by intros ->%bytes_eqb_eq. Qed.

Lemma no_values name (P : bytes * bytes -> bool) hs :
  (forall h, P h = true -> eq_ignore_ascii_case (fst h) name = false) -> values_of name (List.filter P hs) = [].
Proof.
  intros HP. unfold values_of. induction hs as [|h hs IH]; [done|]. cbn [List.filter].
  destruct (P h) eqn:E; [|done]. cbn [List.filter]. by rewrite HP.
Qed.

Lemma values_of_app name hs ks : values_of name (hs ++ ks) = values_of name hs ++ values_of name ks.
Proof. unfold values_of. by rewrite List.filter_app, map_app. Qed.

(** ** Where requests come from *)

Section Accepted.
Context `{UnicodeCase}.

Lemma method_word m : forallb is_ascii_alphabetic m = true -> word (method_display (method_from m)).
Proof.
  intros Hm. unfold method_from.
  assert (Hu : to_uppercase m = to_ascii_uppercase m).
  { apply to_uppercase_ascii. apply Forall_forall. intros b Hb%list_elem_of_In.
    apply (proj1 (forallb_forall _ _) Hm) in Hb. unfold is_ascii_alphabetic, is_ascii_uppercase, is_ascii_lowercase in Hb. lia. }
  rewrite Hu. repeat case_match; cbn [method_display]; try (by repeat constructor).
  apply Forall_forall. intros b Hb%list_elem_of_In. unfold to_ascii_uppercase in Hb. apply in_map_iff in Hb as (a & <- & Ha).
  apply (proj1 (forallb_forall _ _) Hm) in Ha.
  unfold is_ascii_alphabetic, is_ascii_uppercase, is_ascii_lowercase in Ha. unfold byte_to_upper, is_ascii_lowercase. case_match; lia.
Qed.

Lemma get_header_in req name v : get_header req name = Some v -> exists h, h ∈ headers req /\ snd h = v.
Proof.
  unfold get_header. destruct (find _ (headers req)) as [h|] eqn:E; [|done]. intros [= <-].
  apply find_some in E as [E _]. exists h. by split; [apply list_elem_of_In|].
Qed.

(** Requests this server accepts over HTTP/1.1 can be sent on. *)
Lemma accepted_sendable buffer config rest req :
  parse_request buffer config = (rest, Ok (Some req)) -> sendable req.
Proof.
  unfold parse_request. destruct (parse_head buffer config) as [[h|]|] eqn:Hh; [|done..].
  case_match; [done|]. intros [= _ <-]. split.
  - apply parse_head_ok in Hh as (hb & _ & Hok). destruct (head_ok_lines _ _ _ Hok) as (l & m & lines & _ & Hrl & Hm & _).
    cbn [into_request method]. rewrite Hm. apply method_word. apply Hrl.
  - cbn [into_request uri]. apply parse_head_ok in Hh as (hb & _ & Hok).
    destruct (head_ok_lines _ _ _ Hok) as (l & m & lines & _ & (_ & _ & _ & _ & _ & _ & _ & Hu) & _).
    eapply Forall_impl; [exact Hu|]. cbn. intros b Hb. split_and!; lia.
  - intros v Hv. apply get_header_in in Hv as (f & Hf & <-). cbn [into_request headers] in Hf.
    apply parse_head_ok in Hh as (hb & _ & Hok). apply head_fields in Hok.
    eapply Forall_forall in Hok; [|exact Hf]. apply Hok.
Qed.
End Accepted.

(** C22: the upstream and the proxy agree on the request, for every request
    accepted over HTTP/1.1 and any other whose method and target hold no blank or
    line break and whose host no line break (over HTTP/2 a target may, and
    [h2_path_splits_request] is what comes of it).  Whatever follows it on the
    connection, the first request an upstream reads has the method, the target
    without the route's prefix, HTTP/1.1, the client's fields and the proxy's own.
    Of the client's, all that are well formed are there but [Host],
    [Content-Length] and the hop-by-hop ones by the proxy's list of names (those
    the client's [Connection] names are passed on); the only hop-by-hop field is
    the proxy's [Connection].  The only length is the announced one, the request
    is not chunked, and what follows its head is what the proxy writes next. *)
Theorem forwarded_request_read `{UnicodeCase} connection route req remote secure n more :
  (exists buffer config rest, parse_request buffer config = (rest, Ok (Some req))) \/ sendable req ->
  word connection -> no_crlf remote -> 0 <= n <= USIZE_MAX ->
  let fields := forwarded_fields connection remote secure n req in
  read_request (upstream_request connection route req remote secure n ++ more) =
    Some (method_display (method req), upstream_target route req, str "HTTP/1.1", fields, more) /\
  (forall h, h ∈ headers req -> valid_header (fst h) (snd h) = true -> hop_by_hop (fst h) = false ->
     eq_ignore_ascii_case (fst h) (str "Host") = false -> eq_ignore_ascii_case (fst h) (str "Content-Length") = false -> h ∈ fields) /\
  (forall h, h ∈ fields -> hop_by_hop (fst h) = true -> h = (str "Connection", connection)) /\
  values_of (str "Transfer-Encoding") fields = [] /\
  values_of (str "Host") fields = [default [] (get_header req (str "Host"))] /\
  values_of (str "Content-Length") fields = [to_string n] /\ parse_usize (to_string n) = Some n.
Proof.
  intros Hs Hc Hm Hn fields.
  assert (Hr : sendable req) by (destruct Hs as [(buffer & config & rest & Hs)|]; [by eapply accepted_sendable|done]).
  pose proof (forwarded_fields_ok connection remote secure n req Hr Hc Hm) as Hf. fold fields in Hf.
  assert (Hown : forall name, (forall h, forwarded_header h = true -> eq_ignore_ascii_case (fst h) name = false) ->
    values_of name fields = values_of name (drop (length (List.filter forwarded_header (headers req))) fields)).
  { intros name Hname. unfold fields, forwarded_fields. rewrite values_of_app, no_values, drop_app_length by done. done. }
  split_and!.
  - rewrite upstream_request_lines. fold fields. rewrite <- app_assoc, read_head_lines.
    + rewrite mapM_field_lines.
      * change (str " " ++ upstream_target route req ++ str " HTTP/1.1")
          with (32 :: (upstream_target route req ++ 32 :: str "HTTP/1.1")).
        rewrite split_on_first by apply word_no_space, (sendable_method _ Hr).
        by rewrite split_on_first by apply word_no_space, target_word, Hr.
      * eapply Forall_impl; [exact Hf|]. intros h (_ & Hh & _). by apply header_name_clean.
    + constructor.
      * split; [|destruct (method_display (method req)); discriminate].
        repeat apply no_crlf_app; try by apply no_crlf_dec.
        -- apply word_no_crlf, (sendable_method _ Hr).
        -- by apply word_no_crlf, target_word.
      * apply Forall_map. eapply Forall_impl; [exact Hf|]. intros h (Hne & Hh & Hv). cbn. split.
        -- unfold field_line. apply no_crlf_app; [by apply header_name_clean|]. apply no_crlf_app; [by apply no_crlf_dec|done].
        -- unfold field_line. destruct (fst h); discriminate.
  - intros h Hin Hv Hhop Hhost Hlen. apply elem_of_app. left. apply list_elem_of_In, filter_In. split; [by apply list_elem_of_In|].
    unfold forwarded_header. by rewrite Hv, Hhop, Hhost, Hlen.
  - intros h Hh. unfold fields, forwarded_fields in Hh. apply elem_of_app in Hh as [Hh|Hh].
    + apply list_elem_of_In, filter_In in Hh as [_ Hh]. apply forwarded_header_ok in Hh as (_ & _ & _ & Hh & _). congruence.
    + apply list_elem_of_In in Hh. cbn [In] in Hh.
      destruct Hh as [<-|[<-|[<-|[<-|[<-|[<-|[]]]]]]]; cbn [fst]; first [discriminate|reflexivity].
  - rewrite Hown.
    + unfold fields, forwarded_fields. by rewrite drop_app_length.
    + intros h Hh. apply forwarded_header_ok in Hh as (_ & _ & _ & Hh & _).
      destruct (eq_ignore_ascii_case _ _) eqn:E; [|done]. apply hop_by_hop_lower in E. rewrite E in Hh. by vm_compute in Hh.
  - rewrite Hown; [unfold fields, forwarded_fields; by rewrite drop_app_length|]. by intros h (_ & _ & _ & _ & Hh & _)%forwarded_header_ok.
  - rewrite Hown; [unfold fields, forwarded_fields; by rewrite drop_app_length|]. by intros h (_ & _ & _ & _ & _ & Hh)%forwarded_header_ok.
  - by apply parse_usize_to_string.
Qed.

(** ** HTTP/2 requests *)

Lemma strip_prefix_app p l : strip_prefix (p ++ l) p = Some l.
Proof.
  unfold strip_prefix. replace (starts_with (p ++ l) p) with true; [by rewrite drop_app_length|].
  symmetry. apply starts_with_spec. by exists l.
Qed.

(** A path below [prefix] that holds the rest of a request and [second]. *)
Definition splitting_path (prefix second : bytes) : bytes :=
  prefix ++ str "/ HTTP/1.1" ++ CRLF ++ str "Host: x" ++ CRLF2 ++ second.

Definition splitting_fields (prefix second : bytes) : list (bytes * bytes) :=
  [(str ":method", str "GET"); (str ":scheme", str "http"); (str ":path", splitting_path prefix second)].

(** An HTTP/2 client can write requests of its own on the connection to an
    upstream.  The checks on a request's header list look at names only: a path
    with line breaks passes them, and is written to the upstream as it is.  The
    upstream then reads a request that ends inside the path, and as the next one
    whatever bytes the client has put behind. *)
Theorem h2_path_splits_request `{UnicodeCase} (s : Stream) (route : ProxyRoute) (second remote : bytes) (secure : bool) :
  request_headers s = splitting_fields (proxy_prefix route) second -> request_body s = [] ->
  let req := h2_request s in
  validate_request_headers (request_headers s) = Ok tt /\
  validate_content_length (headers req) (len (body req)) = Ok tt /\
  (proxy_host route = str "*" -> route_matches route req = true) /\
  exists tail,
    read_request (upstream_request (str "close") route req remote secure (len (body req))) =
    Some (str "GET", str "/", str "HTTP/1.1", [(str "Host", str "x")], second ++ tail).
Proof.
  intros Hs Hb req. assert (Hreq : req = mkHttpRequest (method_from (str "GET")) (splitting_path (proxy_prefix route) second) (str "HTTP/2.0") [] []).
  { subst req. unfold h2_request. by rewrite Hs, Hb. }
  rewrite Hs, Hreq. split_and!; [done|done| |].
  { intros Hh. unfold route_matches, route_host_matches. rewrite Hh. change (bytes_eqb (str "*") (str "*")) with true. cbn [orb andb uri].
    apply starts_with_spec. by eexists. }
  unfold upstream_request, upstream_target. cbn [method uri headers body List.filter map concat app]. unfold splitting_path.
  rewrite strip_prefix_app.
  assert (Hm : method_display (method_from (str "GET")) = str "GET").
  { unfold method_from. rewrite to_uppercase_ascii; [done|]. repeat constructor; lia. }
  rewrite Hm. match goal with |- context [bytes_eqb ?x []] => change (bytes_eqb x []) with false end. cbv iota.
  rewrite <- !app_assoc.
  match goal with |- context [CRLF2 ++ second ++ ?t] => exists t;
    change (str "GET" ++ str " " ++ str "/ HTTP/1.1" ++ CRLF ++ str "Host: x" ++ CRLF2 ++ second ++ t)
      with (concat (map line_end [str "GET / HTTP/1.1"; str "Host: x"]) ++ CRLF ++ (second ++ t)) end.
  rewrite read_head_lines; [reflexivity|].
  repeat constructor; try discriminate; by apply no_crlf_dec.
Qed.
