(* ===== verification/ProxyEntries.v ===== *)
(** * What the proxy's entries do to an upstream

    The connection is one to a candidate of the route; it receives the rewritten
    request and the announced body, in order, and nothing else; the permit goes
    back however the entry ends. *)

From S2P Require Import Prelude RustStd Io Config Http H2Headers Text Fs Metrics Limits Handler Connection FastCgi FastCgiRelay FastCgiProps Upstreams Proxy ProxyRelay WebSocket UpstreamProps WebSocketProps ProxyWorld.

(** ** The body of a request *)

Lemma write_upstream c w w' r :
  on_upstream (fcgi_write c) w = (w', r) ->
  client w' = client w /\ incoming (upstream w') = incoming (upstream w) /\
  exists e, wire (upstream w') = wire (upstream w) ++ e /\ e `prefix_of` c /\ forall a, r = Ok a -> e = c.
Proof.
  unfold on_upstream. destruct (fcgi_write c (upstream w)) as [io x] eqn:E. intros [= <- <-].
  apply sends_write in E as (Hi & He). by split_and!.
Qed.

(** What is forwarded of [n] announced bytes, from [data] on. *)
Definition forwards (n : Z) (data : bytes) (w w' : Relay) (r : result bytes IoErr) : Prop :=
  wire (client w') = wire (client w) /\ incoming (upstream w') = incoming (upstream w) /\
  exists d, wire (upstream w') = wire (upstream w) ++ d /\ d `prefix_of` take (Z.to_nat n) data /\
    forall rest, r = Ok rest -> len d = n /\ data = d ++ rest ++ reader_bytes (incoming (client w')).

Lemma forwards_chunk c data n w w1 w' r k :
  len c <= n -> wire (client w1) = wire (client w) -> upstream w1 = upstream w ->
  (forall w2, forall r', k w2 = (w', r') -> client w2 = client w1 -> forwards (n - len c) data w2 w' r') ->
  (let! _ := on_upstream (fcgi_write c) in k) w1 = (w', r) -> forwards n (c ++ data) w w' r.
Proof.
  intros Hc Hw1 Hu1 Hk E.
  assert (Ht : take (Z.to_nat n) (c ++ data) = c ++ take (Z.to_nat (n - len c)) data).
  { replace (Z.to_nat n) with (length c + Z.to_nat (n - len c))%nat by (unfold len in *; lia). by rewrite take_app_add. }
  apply st_bind_inv in E as [([] & w2 & E1 & E2)|(e & E1 & ->)]; apply write_upstream in E1 as (Hcl & Hi & x & Hw & Hp & Hx).
  - specialize (Hx tt eq_refl) as ->. destruct (Hk _ _ E2 Hcl) as (Ha & Hb & d & Hd & Hdp & Hr).
    split_and!; [by rewrite Ha, Hcl, Hw1|by rewrite Hb, Hi, Hu1|]. exists (c ++ d). split_and!.
    + by rewrite Hd, Hw, Hu1, app_assoc.
    + rewrite Ht. by apply prefix_app.
    + intros rest Hrest. destruct (Hr _ Hrest) as [Hl ->]. rewrite len_app, <- app_assoc. split; [lia|done].
  - split_and!; [by rewrite Hcl, Hw1|by rewrite Hi, Hu1|]. exists x. split_and!; [by rewrite Hw, Hu1| |done].
    rewrite Ht. by apply prefix_app_r.
Qed.

Lemma forward_request_body_spec fuel buffered n w w' r :
  0 <= n -> forward_request_body fuel buffered n w = (w', r) ->
  forwards n (buffered ++ reader_bytes (incoming (client w))) w w' r.
Proof.
  revert buffered n w r. induction fuel as [|fuel IH]; intros buffered n w r Hn; cbn [forward_request_body].
  all: destruct (Z.leb_spec n 0) as [Hle|Hgt].
  1,3: intros [= <- <-]; split_and!; [done|done|]; exists []; rewrite app_nil_r; split_and!; [done|apply prefix_nil|];
    intros rest [= <-]; rewrite len_nil; split; [lia|done].
  { intros [= <- <-]. split_and!; [done|done|]. exists []. rewrite app_nil_r. split_and!; [done|apply prefix_nil|done]. }
  destruct buffered as [|b buffered].
  - intros E. apply st_bind_inv in E as [(d & w1 & E1 & E2)|(e & E1 & ->)]; unfold on_client, io_read in E1;
      destruct (read (incoming (client w)) (Z.min n IO_CHUNK)) as [i x] eqn:Er.
    + destruct x as [[|c d']| |]; try done. injection E1 as <- <-.
      assert (Hio : 0 < Z.min n IO_CHUNK) by (unfold IO_CHUNK; lia).
      pose proof (read_bytes _ _ _ _ Hio Er ltac:(done)) as Hb. pose proof (read_len _ _ _ _ (Z.lt_le_incl _ _ Hio) Er) as Hl.
      cbn [app]. rewrite Hb.
      eapply forwards_chunk; [| | |intros w2 r' Ek Hcl|exact E2]; [lia|done|done|].
      apply IH in Ek; [|lia]. rewrite Hcl in Ek. exact Ek.
    + injection E1 as <- _. split_and!; [done|done|]. exists []. rewrite app_nil_r. split_and!; [done|apply prefix_nil|done].
  - intros E. set (buf := b :: buffered) in *. set (m := Z.min n (len buf)) in *.
    rewrite <- (take_drop (Z.to_nat m) buf), <- app_assoc.
    assert (Hm : len (take (Z.to_nat m) buf) = m).
    { unfold len. rewrite length_take. unfold m, len in *. lia. }
    eapply forwards_chunk; [| | |intros w2 r' Ek Hcl|exact E]; [lia|done|done|].
    apply IH in Ek; [|lia]. rewrite Hcl, Hm in *. exact Ek.
Qed.

(** ** The entries *)

(** [m] writes [d] to the upstream, or fails after a part of it. *)
Definition feeds {A} (m : ST Proxying IoErr A) (d : bytes) : Prop :=
  forall w w' r, m w = (w', r) ->
    exists e, wire (upstream (relay w')) = wire (upstream (relay w)) ++ e /\ e `prefix_of` d /\ forall a, r = Ok a -> e = d.

Lemma feeds_nothing {A} (m : ST Proxying IoErr A) : respects (fun w w' => wrote_same (relay w) (relay w')) m -> feeds m [].
Proof. intros Hm w w' r E. apply Hm in E. exists []. rewrite app_nil_r. by split_and!. Qed.

Lemma feeds_bind {A B} (m : ST Proxying IoErr A) (k : A -> ST Proxying IoErr B) d1 d2 :
  feeds m d1 -> (forall a, feeds (k a) d2) -> feeds (st_bind m k) (d1 ++ d2).
Proof.
  intros Hm Hk w w' r E. apply st_bind_inv in E as [(a & w1 & E1 & E2)|(e & E1 & ->)]; apply Hm in E1 as (x & Hw & Hp & Hx).
  - specialize (Hx a eq_refl) as ->. apply Hk in E2 as (y & Hwy & Hpy & Hy). exists (d1 ++ y).
    split_and!; [by rewrite Hwy, Hw, app_assoc|by apply prefix_app|]. intros b Hb. by rewrite (Hy b Hb).
  - exists x. split_and!; [done|by apply prefix_app_r|done].
Qed.

Lemma feeds_last {A B} (m : ST Proxying IoErr A) (k : A -> ST Proxying IoErr B) d :
  feeds m d -> (forall a, respects (fun w w' => wrote_same (relay w) (relay w')) (k a)) -> feeds (st_bind m k) d.
Proof. intros Hm Hk. rewrite <- (app_nil_r d). apply feeds_bind; [done|]. intros a. apply feeds_nothing, Hk. Qed.

Lemma feeds_write d : feeds (on_relay (on_upstream (fcgi_write d))) d.
Proof.
  intros w w' r E. unfold on_relay in E. destruct (on_upstream (fcgi_write d) (relay w)) as [x y] eqn:E1. injection E as <- <-.
  apply write_upstream in E1 as (_ & _ & He). exact He.
Qed.

Lemma feeds_body (b : bytes) : feeds (if bytes_eqb b [] then st_ret tt else on_relay (on_upstream (fcgi_write b))) b.
Proof.
  destruct (bytes_eqb b []) eqn:E; [apply bytes_eqb_eq in E as ->; apply feeds_nothing; respects|apply feeds_write].
Qed.

Section Entries.
Context (GzWriter : Type) (gz_new : Z -> GzWriter) (gz_write : GzWriter -> bytes -> GzWriter * bytes)
  (gz_finish : GzWriter -> bytes).
Context (network : list bytes -> bytes -> option (list (option Io))) (error_text : IoErr -> bytes).

(** A connection the selection for [route] has come up with. *)
Definition connects (route : ProxyRoute) (stream : Io) : Prop :=
  exists settings u u' candidate,
    connect_upstream_with_health network route settings u = (u', Ok (mkConnected stream candidate)).

Lemma retry_connects route m settings u u' connected :
  connect_with_retry network route m settings u = (u', Ok connected) -> connects route (connected_stream connected).
Proof.
  unfold connect_with_retry. generalize (@None IoErr) as last. revert u. induction (retry_attempts m) as [|n IH]; intros u last; [done|].
  cbn [connect_attempts]. destruct (connect_upstream_with_health network route settings u) as [u1 [c|e]] eqn:E; [|apply IH].
  intros [= <- <-]. exists settings, u, u1, (connected_candidate c). by destruct c.
Qed.

Lemma upstream_connects route u u' stream :
  connect_upstream network route u = (u', Ok stream) -> connects route stream.
Proof.
  unfold connect_upstream. destruct (connect_upstream_with_health _ _ _ u) as [u1 [c|e]] eqn:E; [|done].
  intros [= <- <-]. eexists _, u, u1, (connected_candidate c). rewrite E. by destruct c.
Qed.

(** No connection was made, or one to a candidate of the route, which was sent a
    part of [d], and all of it when [done]. *)
Definition fed (route : ProxyRoute) (d : bytes) (before after : Relay) (done : Prop) : Prop :=
  upstream after = upstream before \/
  exists stream e, connects route stream /\ wire (upstream after) = wire stream ++ e /\ e `prefix_of` d /\ (done -> e = d).

Lemma feeds_fed {A} route stream (m : ST Proxying IoErr A) d w w' r before :
  connects route stream -> feeds m d -> (let! _ := use_upstream stream in m) w = (w', r) ->
  fed route d before (relay w') (exists a, r = Ok a).
Proof.
  intros Hs Hm E. apply st_bind_inv in E as [([] & w1 & [= <-] & E)|(e & [=] & _)].
  apply Hm in E as (e & Hw & Hp & He). right. exists stream, e. split_and!; [done|exact Hw|done|]. intros [a Ha]. by eapply He.
Qed.

Lemma with_permit_inv {A} (m : ST Proxying IoErr A) w w' r :
  with_permit m w = (w', r) ->
  (relay w' = relay w /\ exists e, r = Err e) \/ exists u w1, m (mkProxying u (relay w)) = (w1, r) /\ relay w' = relay w1.
Proof.
  unfold with_permit. destruct (acquire_upstream_permit (shared w)) as [u [[]|e]]; [|intros [= <- <-]; left; eauto].
  destruct (m _) as [w1 x] eqn:E. intros [= <- <-]. right. eauto.
Qed.

Lemma on_shared_inv {A} (f : Upstreams -> Upstreams * A) w w' r :
  on_shared f w = (w', r) -> exists a, f (shared w) = (shared w', a) /\ r = Ok a /\ relay w' = relay w.
Proof. unfold on_shared. destruct (f (shared w)) as [u a]. intros [= <- <-]. by exists a. Qed.

Lemma failure_same e w w' r : connection_failed error_text e w = (w', r) -> upstream (relay w') = upstream (relay w).
Proof.
  intros E. unfold connection_failed, on_relay in E. destruct (bad_gateway _ (relay w)) as [x y] eqn:E1. injection E as <- _.
  apply tells_bad_gateway in E1 as (Hu & _). exact Hu.
Qed.

Lemma fed_left route d before after (P : Prop) : upstream after = upstream before -> fed route d before after P.
Proof. by left. Qed.

Lemma fed_ok route d before after (P Q : Prop) : fed route d before after P -> (Q -> P) -> fed route d before after Q.
Proof. intros [H|(stream & e & ? & ? & ? & He)] HQ; [by left|]. right. exists stream, e. split_and!; [done..|]. eauto. Qed.

Lemma proxy_http_fed req route config remote secure w w' r :
  proxy_http GzWriter gz_new gz_write gz_finish network error_text req route config remote secure w = (w', r) ->
  fed route (upstream_request (str "keep-alive") route req remote secure (len (body req)) ++ body req)
    (relay w) (relay w') (r = Ok tt).
Proof.
  intros E. apply with_permit_inv in E as [[-> _]|(u & w1 & E & ->)]; [by apply fed_left|].
  apply st_bind_inv in E as [(connected & w2 & E1 & E)|(e & E1 & _)]; apply on_shared_inv in E1 as (a & E1 & Ha & Hw2); [|done].
  injection Ha as <-. destruct connected as [connected|e].
  - apply retry_connects in E1. eapply fed_ok.
    + eapply feeds_fed; [exact E1| |exact E]. apply feeds_bind; [apply feeds_write|intros _].
      apply feeds_last; [apply feeds_body|intros _]. respects.
    + intros ->. by exists tt.
  - apply failure_same in E. apply fed_left. by rewrite E, Hw2.
Qed.

Lemma begin_h2_fed req config remote secure now w w' r :
  proxy_begin_h2 network req config remote secure now w = (w', r) ->
  upstream (relay w') = upstream (relay w) \/
  exists route, select_proxy_route req config = Some route /\
    fed route (upstream_request (str "close") route req remote secure (len (body req)) ++ body req)
      (relay w) (relay w') (exists pending, r = Ok (Some pending)).
Proof.
  unfold proxy_begin_h2. destruct (select_proxy_route req config) as [route|]; [|intros [= <- <-]; by left].
  intros E. apply st_bind_inv in E as [([] & w1 & E1 & E)|(e & [=] & _)]. injection E1 as <-.
  destruct (is_websocket_upgrade req); [injection E as <- <-; by left|].
  destruct (acquire_upstream_permit _) as [u [[]|e]]; [|injection E as <- <-; by left].
  match type of E with context [let '(_, _) := ?m ?s in _] => destruct (m s) as [w2 x] eqn:E2 end.
  assert (Hw : relay w' = relay w2) by (destruct x; by injection E as <- _).
  apply st_bind_inv in E2 as [(connected & w3 & E1 & E2)|(e & E1 & _)]; apply on_shared_inv in E1 as (a & E1 & Ha & Hw3); [|done].
  injection Ha as <-. destruct connected as [stream|e].
  2:{ injection E2 as <- _. left. by rewrite Hw, Hw3. }
  right. exists route. split; [done|]. rewrite Hw. eapply fed_ok.
  - eapply feeds_fed; [by eapply upstream_connects| |exact E2]. apply feeds_bind; [apply feeds_write|intros _].
    apply feeds_last; [apply feeds_body|intros _]. respects.
  - intros [pending ->]. destruct x as [p|]; [|done]. by exists p.
Qed.


(** The streamed body and the response, once the request's head is written. *)
Lemma stream_then_respond route request candidate config buffered n w w' r before :
  0 <= n -> client (relay w) = client before ->
  (let! buffered := on_relay (fun w => forward_request_body (S (length buffered + reader_size (incoming (client w)))) buffered n w) in
   let! _ := relay_response GzWriter gz_new gz_write gz_finish request route candidate config in
   st_ret (buffered, Some true)) w = (w', r) ->
  let data := buffered ++ reader_bytes (incoming (client before)) in
  exists e, wire (upstream (relay w')) = wire (upstream (relay w)) ++ e /\ e `prefix_of` take (Z.to_nat n) data /\
    (forall a, r = Ok a -> e = take (Z.to_nat n) data) /\
    forall rest, r = Ok (rest, Some true) ->
      len (take (Z.to_nat n) data) = n /\ data = take (Z.to_nat n) data ++ rest ++ reader_bytes (incoming (client (relay w'))).
Proof.
  intros Hn Hc E data.
  apply st_bind_inv in E as [(rest & w1 & E1 & E)|(e & E1 & ->)]; unfold on_relay in E1;
    (destruct (forward_request_body _ buffered n (relay w)) as [x y] eqn:Ef); injection E1 as <- ->;
    apply (forward_request_body_spec _ _ _ _ _ _ Hn) in Ef as (_ & _ & d & Hd & Hp & Hr); rewrite Hc in *; fold data in Hp, Hr.
  2:{ exists d. by split_and!. }
  destruct (Hr _ eq_refl) as [Hl Hdata].
  assert (Ht : take (Z.to_nat n) data = d).
  { rewrite Hdata. replace (Z.to_nat n) with (length d) by (unfold len in Hl; lia). by rewrite take_app_length. }
  rewrite Ht. exists d.
  assert (Hk : wire (upstream (relay w')) = wire (upstream x) /\ incoming (client (relay w')) = incoming (client x)).
  { apply st_bind_inv in E as [([] & w2 & E2 & [= <- <-])|(e & E2 & _)];
      (split; [eapply (relay_response_respects wrote_same) in E2; exact E2|
               eapply (relay_response_respects read_same) in E2; exact E2]). }
  destruct Hk as [-> Hi]. split_and!; [done|done|done|].
  intros rest' Hrest. split; [done|]. rewrite Hi.
  apply st_bind_inv in E as [([] & w2 & E2 & [= _ <-])|(e & E2 & ->)]; [|done]. by injection Hrest as <-.
Qed.

Lemma streaming_fed buffered head route config remote secure w w' r :
  0 <= content_length head ->
  let request := into_request head [] in
  let data := buffered ++ reader_bytes (incoming (client (relay w))) in
  let announced := take (Z.to_nat (content_length head)) data in
  with_permit (
    let! connected := on_shared (connect_with_retry network route (method request) (health_settings config)) in
    match connected with
    | Err e => let! _ := connection_failed error_text e in st_ret (buffered, Some true)
    | Ok connected =>
        let! _ := use_upstream (connected_stream connected) in
        let! _ := on_relay (on_upstream (fcgi_write
                    (upstream_request (str "keep-alive") route request remote secure (content_length head)))) in
        let! buffered := on_relay (fun w => forward_request_body (S (length buffered + reader_size (incoming (client w))))
                                              buffered (content_length head) w) in
        let! _ := relay_response GzWriter gz_new gz_write gz_finish request route (connected_candidate connected) config in
        st_ret (buffered, Some true)
    end) w = (w', r) ->
  upstream (relay w') = upstream (relay w) \/
  fed route (upstream_request (str "keep-alive") route request remote secure (content_length head) ++ announced)
    (relay w) (relay w') (exists a, r = Ok a) /\
  forall rest, r = Ok (rest, Some true) ->
    len announced = content_length head /\ data = announced ++ rest ++ reader_bytes (incoming (client (relay w'))).
Proof.
  intros Hn request data announced E. apply with_permit_inv in E as [[-> _]|(u & w1 & E & ->)]; [by left|].
  apply st_bind_inv in E as [(connected & w2 & E1 & E)|(e & E1 & _)]; apply on_shared_inv in E1 as (a & E1 & Ha & Hw2); [|done].
  injection Ha as <-. destruct connected as [connected|e].
  2:{ left. apply st_bind_inv in E as [([] & w3 & E & [= <- <-])|(e' & E & _)]; apply failure_same in E; by rewrite E, Hw2. }
  right. apply retry_connects in E1.
  apply st_bind_inv in E as [([] & w3 & [= <-] & E)|(e & [=] & _)].
  apply st_bind_inv in E as [([] & w4 & E2 & E)|(e & E2 & ->)]; apply on_relay_inv in E2 as (y & E2 & ->);
    apply write_upstream in E2 as (Hc & _ & x & Hw & Hp & Hx); cbn [relay upstream client] in *; rewrite Hw2 in Hc.
  - specialize (Hx tt eq_refl) as ->.
    apply (stream_then_respond route request _ config buffered (content_length head) _ w1 r (relay w)) in E as (e & He & Hpe & Hok & Hrest);
      [|done|done].
    fold data announced in Hpe, Hok, Hrest. cbn [relay] in He. rewrite Hw in He. split; [|exact Hrest].
    right. eexists _, (_ ++ e). split_and!; [exact E1|by rewrite He, app_assoc|by apply prefix_app|]. intros [a ->]. by rewrite (Hok a eq_refl).
  - split; [|done]. right. exists (connected_stream connected), x. split_and!; [done|exact Hw|by apply prefix_app_r|by intros []].
Qed.

(** C24: what an upstream receives.  Each entry leaves the connections alone or
    uses one to a candidate of the route, and what it writes there is a prefix
    of the rewritten request and its body: the whole of both when the entry
    returns without an error.  A streamed body is exactly as many bytes of what
    the client sends as were announced, those received with the head first; what
    follows stays for the next request. *)
Theorem upstream_receives (req : HttpRequest) (head : HttpRequestHead) (route : ProxyRoute) (config : ServerConfig)
    (remote buffered : bytes) (secure : bool) (now : Z) (w : Proxying) :
  0 <= content_length head ->
  let request := into_request head [] in
  let data := buffered ++ reader_bytes (incoming (client (relay w))) in
  let announced := take (Z.to_nat (content_length head)) data in
  (forall w' r, proxy_http GzWriter gz_new gz_write gz_finish network error_text req route config remote secure w = (w', r) ->
     fed route (upstream_request (str "keep-alive") route req remote secure (len (body req)) ++ body req)
       (relay w) (relay w') (r = Ok tt)) /\
  (forall w' r, proxy_begin_h2 network req config remote secure now w = (w', r) ->
     upstream (relay w') = upstream (relay w) \/
     exists route, select_proxy_route req config = Some route /\
       fed route (upstream_request (str "close") route req remote secure (len (body req)) ++ body req)
         (relay w) (relay w') (exists pending, r = Ok (Some pending))) /\
  (forall w' r, proxy_streaming_body GzWriter gz_new gz_write gz_finish network error_text buffered head config remote secure w = (w', r) ->
     upstream (relay w') = upstream (relay w) \/
     exists route, select_proxy_route request config = Some route /\
       fed route (upstream_request (str "keep-alive") route request remote secure (content_length head) ++ announced)
         (relay w) (relay w') (exists a, r = Ok a) /\
       forall rest, r = Ok (rest, Some true) ->
         len announced = content_length head /\ data = announced ++ rest ++ reader_bytes (incoming (client (relay w')))).
Proof.
  intros Hn request data announced. split_and!.
  - apply proxy_http_fed.
  - apply begin_h2_fed.
  - intros w' r E. unfold proxy_streaming_body in E. fold request in E.
    destruct (select_proxy_route request config) as [route'|]; [|injection E as <- <-; by left].
    destruct (is_websocket_upgrade request); [injection E as <- <-; by left|].
    apply (streaming_fed _ _ _ _ _ _ _ _ _ Hn) in E as [E|E]; [by left|]. right. exists route'. by split.
Qed.
End Entries.

(** ** Permits and authorities *)

(** The authorities of the candidates of the configured routes. *)
Definition configured (config : ServerConfig) (authority : bytes) : Prop :=
  exists route c, route ∈ proxy_routes config /\ c ∈ candidates_of route /\ authority_of c authority.

Lemma max_by_key_in {A} (f : A -> Z) l x : max_by_key f l = Some x -> x ∈ l.
Proof.
  induction l as [|y l IH]; [done|]. cbn [max_by_key]. destruct (max_by_key f l) as [z|].
  - case_match; intros [= <-]; [left|right; by apply IH].
  - intros [= <-]. left.
Qed.

Lemma selected_route req config route : select_proxy_route req config = Some route -> route ∈ proxy_routes config.
Proof.
  intros E. apply max_by_key_in in E. apply list_elem_of_In, filter_In in E as [E _]. by apply list_elem_of_In.
Qed.

Section Confined.
Context (config : ServerConfig).
Context (GzWriter : Type) (gz_new : Z -> GzWriter) (gz_write : GzWriter -> bytes -> GzWriter * bytes)
  (gz_finish : GzWriter -> bytes).
Context (network : list bytes -> bytes -> option (list (option Io))) (error_text : IoErr -> bytes).
Context (sha1 : bytes -> bytes) (base64_encode : bytes -> bytes) (base64_decode : bytes -> option bytes).
Abbreviation confined := (fun w w' : Proxying => dials (configured config) (shared w) (shared w')).

Lemma connect_confined route settings u :
  route ∈ proxy_routes config -> dials (configured config) u (fst (connect_upstream_with_health network route settings u)).
Proof.
  intros Hr. eapply dials_mono; [|apply connect_upstream_dials]. intros a (c & Hc & Ha). by exists route, c.
Qed.

Lemma retry_confined route m settings u :
  route ∈ proxy_routes config -> dials (configured config) u (fst (connect_with_retry network route m settings u)).
Proof.
  intros Hr. unfold connect_with_retry. generalize (@None IoErr) as last. revert u.
  induction (retry_attempts m) as [|n IH]; intros u last; cbn [connect_attempts]; [done|].
  pose proof (connect_confined route settings u Hr) as H1. destruct (connect_upstream_with_health network route settings u) as [u1 [c|e]]; [done|].
  etrans; [exact H1|apply IH].
Qed.

Lemma upstream_confined route u :
  route ∈ proxy_routes config -> dials (configured config) u (fst (connect_upstream network route u)).
Proof.
  intros Hr. unfold connect_upstream. pose proof (connect_confined route health_settings_default u Hr) as H1.
  by destruct (connect_upstream_with_health _ _ _ u).
Qed.

Lemma return_confined route c stream u : dials (configured config) u (return_pooled route c stream u).
Proof. apply dials_same. unfold return_pooled. cbn [tick]. repeat case_match; done. Qed.

Lemma with_permit_confined {A} (m : ST Proxying IoErr A) w w' r :
  0 <= active (shared w) -> respects confined m -> with_permit m w = (w', r) -> dials (configured config) (shared w) (shared w').
Proof.
  intros Ha Hm. unfold with_permit, acquire_upstream_permit. destruct (Z.geb_spec (active (shared w)) MAX_ACTIVE_UPSTREAMS) as [|Hlt].
  { by intros [= <- <-]. }
  destruct (m _) as [w1 x] eqn:E. intros [= <- <-]. apply Hm in E as (Ha1 & l & Hl & HP). cbn [shared set_active active dialled] in *.
  split; [|by exists l]. unfold drop_permit. cbn [set_active active]. rewrite Ha1. unfold MAX_ACTIVE_UPSTREAMS in Hlt.
  rewrite Z.mod_small; lia.
Qed.
#[local] Hint Resolve retry_confined upstream_confined return_confined : respects.
#[local] Instance configured_dials : PreOrder (dials (configured config)) := _.

Lemma shared_confined {A} (f : Upstreams -> Upstreams * A) :
  (forall u, dials (configured config) u (fst (f u))) -> respects confined (on_shared f).
Proof. apply respects_shared. Qed.

Lemma use_confined stream : respects confined (use_upstream stream).
Proof. by intros w w' r [= <- <-]. Qed.

Lemma on_relay_confined {A} (m : ST Relay IoErr A) : respects confined (on_relay m).
Proof. apply (relay_shared (dials (configured config))). Qed.

Lemma relay_response_confined req route c :
  respects confined (relay_response GzWriter gz_new gz_write gz_finish req route c config).
Proof.
  unfold relay_response. apply along_bind; [apply _|apply on_relay_confined|intros reusable].
  destruct reusable; [|apply along_ret, _]. apply along_bind; [apply _|apply respects_get, _|intros stream].
  apply shared_confined. intros u. apply return_confined.
Qed.
#[local] Hint Resolve use_confined on_relay_confined relay_response_confined : respects.

Lemma handle_confined env req remote secure w w' r :
  0 <= active (shared w) ->
  proxy_handle GzWriter gz_new gz_write gz_finish network error_text sha1 base64_encode base64_decode env req config remote secure w = (w', r) ->
  dials (configured config) (shared w) (shared w').
Proof.
  intros Ha. unfold proxy_handle. destruct (select_proxy_route req config) as [route|] eqn:Hr; [|by intros [= <- <-]].
  apply selected_route in Hr. intros E. apply st_bind_inv in E as [([] & w1 & E1 & E)|(e & [=] & _)]. injection E1 as <-.
  destruct (is_websocket_upgrade req).
  - unfold websocket in E. apply with_permit_confined in E; [exact E|exact Ha|].
    respects; apply shared_confined; intros u; by apply upstream_confined.
  - match type of E with context [proxy_http ?a ?b ?c ?d ?e ?f ?g ?h ?i ?j ?k ?l] => destruct (proxy_http a b c d e f g h i j k l) as [w2 x] eqn:E2 end.
    assert (Hw : shared w' = shared w2) by (destruct x; by injection E as <- _). rewrite Hw.
    unfold proxy_http in E2. apply with_permit_confined in E2; [exact E2|exact Ha|].
    apply along_bind; [apply _|apply shared_confined; intros u; by apply retry_confined|intros connected]. respects.
Qed.

Lemma streaming_confined buffered head remote secure w w' r :
  0 <= active (shared w) ->
  proxy_streaming_body GzWriter gz_new gz_write gz_finish network error_text buffered head config remote secure w = (w', r) ->
  dials (configured config) (shared w) (shared w').
Proof.
  intros Ha. unfold proxy_streaming_body. destruct (select_proxy_route _ config) as [route|] eqn:Hr; [|by intros [= <- <-]].
  apply selected_route in Hr. destruct (is_websocket_upgrade _); [by intros [= <- <-]|].
  intros E. apply with_permit_confined in E; [exact E|exact Ha|].
  apply along_bind; [apply _|apply shared_confined; intros u; by apply retry_confined|intros connected]. respects.
Qed.

(** A response in progress keeps its permit. *)
Lemma begin_confined req remote secure now w w' r :
  0 <= active (shared w) ->
  proxy_begin_h2 network req config remote secure now w = (w', r) ->
  match r with
  | Ok (Some pending) => active (shared w') = active (shared w) + 1 /\ dials (configured config) (shared w) (drop_permit (shared w'))
  | _ => dials (configured config) (shared w) (shared w')
  end.
Proof.
  intros Ha. unfold proxy_begin_h2. destruct (select_proxy_route req config) as [route|] eqn:Hr; [|by intros [= <- <-]].
  apply selected_route in Hr. intros E. apply st_bind_inv in E as [([] & w1 & E1 & E)|(e & [=] & _)]. injection E1 as <-.
  destruct (is_websocket_upgrade req); [by injection E as <- <-|].
  unfold acquire_upstream_permit in E. cbn [shared] in E.
  destruct (Z.geb_spec (active (shared w)) MAX_ACTIVE_UPSTREAMS) as [|Hlt]; [by injection E as <- <-|].
  match type of E with context [let '(_, _) := ?m ?s in _] => destruct (m s) as [w2 x] eqn:E2; assert (Hm : respects confined m) end.
  { apply along_bind; [apply _|apply shared_confined; intros u; by apply upstream_confined|intros connected]. respects. }
  apply Hm in E2 as (Ha2 & l & Hl & HP). cbn [shared set_active active dialled] in *.
  assert (Hd : dials (configured config) (shared w) (drop_permit (shared w2))).
  { split; [|by exists l]. unfold drop_permit. cbn [set_active active]. rewrite Ha2. unfold MAX_ACTIVE_UPSTREAMS in Hlt. rewrite Z.mod_small; lia. }
  destruct x as [p|e]; injection E as <- <-; [by split|exact Hd].
Qed.

(** The proxy stays within its configuration.  No request component names an
    upstream: whatever a request holds and however it ends, the authorities
    dialled for it, health probes included, are those of candidates of the
    configured routes.  And the permits balance: an entry leaves as many as it
    found, but for an HTTP/2 response in progress, which keeps its own. *)
Theorem proxy_confined env req head buffered remote secure now w :
  0 <= active (shared w) ->
  (forall w' r,
     proxy_handle GzWriter gz_new gz_write gz_finish network error_text sha1 base64_encode base64_decode env req config remote secure w = (w', r) ->
     dials (configured config) (shared w) (shared w')) /\
  (forall w' r,
     proxy_streaming_body GzWriter gz_new gz_write gz_finish network error_text buffered head config remote secure w = (w', r) ->
     dials (configured config) (shared w) (shared w')) /\
  (forall w' r, proxy_begin_h2 network req config remote secure now w = (w', r) ->
     match r with
     | Ok (Some pending) => active (shared w') = active (shared w) + 1 /\ dials (configured config) (shared w) (drop_permit (shared w'))
     | _ => dials (configured config) (shared w) (shared w')
     end).
Proof.
  intros Ha. split_and!; intros w' r.
  - by apply handle_confined.
  - by apply streaming_confined.
  - by apply begin_confined.
Qed.
End Confined.
