(* ===== verification/ProxyResponses.v ===== *)
(** * Properties of the relay of an upstream's response

    From an upstream that keeps to the protocol, in pieces of any size, the client
    receives the head as rewritten and the body; what the connection is good for
    afterwards; the loops end. *)

From S2P Require Import Prelude RustStd Io Config Http H2Headers Text Fs Metrics Limits Handler Connection FastCgi FastCgiRelay FastCgiProps FastCgiStream Upstreams Proxy ProxyRelay.

(** ** Worlds

    The upstream has [r] left to say, the client has been told [d] since [w], and
    its connection takes everything. *)
Definition relayed (w : Relay) (r : Reader) (d : bytes) : Relay :=
  mkRelay (mkIo (wire (upstream w)) (faults (upstream w)) r) (mkIo (wire (client w) ++ d) [] (incoming (client w)))
    (relay_log w) (relay_metrics w).

Lemma relayed_start w : faults (client w) = [] -> w = relayed w (incoming (upstream w)) [].
Proof. intros Hf. unfold relayed. rewrite app_nil_r. destruct w as [[] [] ? ?]. cbn in *. by subst. Qed.

Lemma read_relayed w r d n r' x :
  read r n = (r', ReadOk x) -> read_upstream n (relayed w r d) = (relayed w r' d, Ok x).
Proof. intros Hr. unfold read_upstream, on_upstream, io_read. cbn [upstream relayed incoming]. by rewrite Hr. Qed.

Lemma write_relayed w r d x : on_client (fcgi_write x) (relayed w r d) = (relayed w r (d ++ x), Ok tt).
Proof. unfold on_client, fcgi_write, io_write, relayed. cbn. by rewrite app_assoc. Qed.

(** ** The head *)

(** A head is complete when its end is all of it. *)
Definition complete_head (raw : bytes) : Prop := find_subslice raw CRLF2 = Some (len raw - 4).

Lemma head_found raw content buf rest :
  complete_head raw -> buf ++ rest = raw ++ content ->
  find_subslice buf CRLF2 = if len raw <=? len buf then Some (len raw - 4) else None.
Proof.
  intros Hraw E. destruct (Z.leb_spec (len raw) (len buf)) as [Hle|Hlt].
  - assert (exists k, buf = raw ++ k) as [k ->].
    { exists (drop (length raw) buf). rewrite <- (take_drop (length raw) buf) at 1. f_equal.
      apply (f_equal (take (length raw))) in E. rewrite take_app_length in E. rewrite take_app_le in E; [done|].
      unfold len in *. lia. }
    unfold find_subslice. by apply find_from_app.
  - destruct (find_subslice buf CRLF2) as [j|] eqn:Hj; [|done]. exfalso.
    assert (exists k, raw = buf ++ k) as [k Hk].
    { exists (drop (length buf) raw). rewrite <- (take_drop (length buf) raw) at 1. f_equal.
      apply (f_equal (take (length buf))) in E. rewrite take_app_length in E. rewrite take_app_le in E; [done|].
      unfold len in *. lia. }
    pose proof (find_from_app _ _ _ _ k Hj) as Hj'. rewrite <- Hk in Hj'. unfold complete_head, find_subslice in Hraw.
    rewrite Hraw in Hj'. injection Hj' as <-. apply find_from_bound in Hj. change (len CRLF2) with 4 in Hj. lia.
Qed.

Lemma read_head_clean fuel max buf raw content w r :
  complete_head raw -> len raw <= max -> reader_clean r -> buf ++ reader_bytes r = raw ++ content ->
  len buf < len raw -> (reader_size r < fuel)%nat ->
  exists buf' r', read_head fuel max buf (relayed w r []) = (relayed w r' [], Ok (Ok (buf', len raw))) /\
    reader_clean r' /\ buf' ++ reader_bytes r' = raw ++ content /\ len raw <= len buf' /\ (reader_size r' < reader_size r)%nat.
Proof.
  intros Hraw Hmax. revert buf r. induction fuel as [|fuel IH]; intros buf r Hc E Hlt Hf; [lia|]. cbn [read_head].
  destruct (Z.gtb_spec (len buf) max) as [|_]; [lia|].
  destruct (read_clean 4096 r ltac:(lia) Hc) as [->|(d & r1 & Hr & Hd & Hne & Hc1 & Hs & Hb)].
  { cbn [reader_bytes] in E. rewrite app_nil_r in E. subst buf. rewrite len_app in Hlt. pose proof (len_nonneg content). lia. }
  erewrite bind_ok by (by apply read_relayed). destruct d as [|b d]; [done|]. cbv beta iota.
  rewrite Hb, app_assoc in E. rewrite (head_found _ _ _ _ Hraw E).
  destruct (Z.leb_spec (len raw) (len (buf ++ b :: d))) as [Hle|Hgt].
  - exists (buf ++ b :: d), r1. replace (len raw - 4 + 4) with (len raw) by lia. by split_and!.
  - destruct (IH (buf ++ b :: d) r1 Hc1 E Hgt ltac:(lia)) as (buf' & r' & -> & ? & ? & ? & ?). exists buf', r'. split_and!; try done. lia.
Qed.

(** ** The body *)

Section Body.
Context (GzWriter : Type) (gz_new : Z -> GzWriter) (gz_write : GzWriter -> bytes -> GzWriter * bytes)
  (gz_finish : GzWriter -> bytes).

(** What writing pieces of a body puts out, through a gzip writer or not. *)
Fixpoint emit (gzip : option GzWriter) (pieces : list bytes) : option GzWriter * bytes :=
  match pieces with
  | [] => (gzip, [])
  | p :: pieces =>
      let '(gzip, out) := match gzip with Some g => let '(g, out) := gz_write g p in (Some g, out) | None => (None, p) end in
      let '(gzip, rest) := emit gzip pieces in (gzip, out ++ rest)
  end.

Lemma emit_plain pieces : emit None pieces = (None, concat pieces).
Proof. induction pieces as [|p pieces IH]; [done|]. cbn [emit concat]. by rewrite IH. Qed.

(** What reaches the client of pieces of a body. *)
Definition told (head : bool) (gzip : option GzWriter) (pieces : list bytes) : option GzWriter * bytes :=
  if head then (gzip, []) else emit gzip pieces.

Lemma write_body_relayed head gzip w r d p :
  write_body GzWriter gz_write head p (relayed w r d, gzip) =
  ((relayed w r (d ++ snd (told head gzip [p])), fst (told head gzip [p])), Ok tt).
Proof.
  unfold write_body, told. destruct head; [cbn; by rewrite app_nil_r|]. cbn [emit fst snd]. destruct gzip as [g|].
  - destruct (gz_write g p) as [g' out]. cbn [fst snd]. rewrite write_relayed. by rewrite app_nil_r.
  - unfold on_connections. cbn [fst snd]. rewrite write_relayed. by rewrite app_nil_r.
Qed.

Lemma told_cons head gzip p pieces :
  told head gzip (p :: pieces) =
  (fst (told head (fst (told head gzip [p])) pieces), snd (told head gzip [p]) ++ snd (told head (fst (told head gzip [p])) pieces)).
Proof.
  unfold told. destruct head; [done|]. cbn [emit].
  destruct (match gzip with Some g => _ | None => _ end) as [g' out]. cbn [fst snd]. rewrite app_nil_r.
  by destruct (emit g' pieces).
Qed.

Lemma read_body w gzip d r n r' x :
  read r n = (r', ReadOk x) ->
  on_connections GzWriter (read_upstream n) (relayed w r d, gzip) = ((relayed w r' d, gzip), Ok x).
Proof. intros Hr. unfold on_connections. cbn [fst snd]. by erewrite read_relayed. Qed.

Lemma copy_length_clean fuel head gzip n w r d :
  reader_clean r -> 0 <= n -> (reader_size r < fuel)%nat ->
  exists pieces r',
    copy_length GzWriter gz_write fuel head n (relayed w r d, gzip) =
      ((relayed w r' (d ++ snd (told head gzip pieces)), fst (told head gzip pieces)), Ok (n - len (concat pieces))) /\
    concat pieces = take (Z.to_nat n) (reader_bytes r) /\ reader_bytes r' = drop (Z.to_nat n) (reader_bytes r).
Proof.
  revert gzip n r d. induction fuel as [|fuel IH]; intros gzip n r d Hc Hn Hf; [lia|]. cbn [copy_length].
  assert (Hnil : told head gzip [] = (gzip, [])) by (unfold told; by destruct head).
  destruct (Z.leb_spec n 0) as [Hle|Hgt].
  { replace n with 0 by lia. exists [], r. rewrite Hnil. cbn. by rewrite app_nil_r. }
  destruct (read_clean (Z.min n IO_CHUNK) r ltac:(unfold IO_CHUNK; lia) Hc) as [->|(x & r1 & Hr & Hd & Hne & Hc1 & Hs & Hb)].
  { erewrite bind_ok by (by apply read_body). exists [], []. rewrite Hnil. cbn. rewrite app_nil_r, take_nil, drop_nil. by rewrite Z.sub_0_r. }
  erewrite bind_ok by (by apply read_body). destruct x as [|b x]; [done|]. cbv beta iota. set (p := b :: x) in *.
  erewrite bind_ok by apply write_body_relayed. cbv beta.
  destruct (IH (fst (told head gzip [p])) (n - len p) r1 (d ++ snd (told head gzip [p])) Hc1 ltac:(lia) ltac:(lia)) as (pieces & r' & -> & Hp & Hr').
  assert (Hsplit : Z.to_nat n = (length p + Z.to_nat (n - len p))%nat) by (unfold len in *; lia).
  exists (p :: pieces), r'. rewrite (told_cons head gzip p pieces). cbn [fst snd concat]. rewrite len_app, app_assoc. split_and!.
  - by replace (n - (len p + len (concat pieces))) with (n - len p - len (concat pieces)) by lia.
  - by rewrite Hb, Hsplit, take_app_add, Hp.
  - by rewrite Hb, Hsplit, drop_app_add, Hr'.
Qed.

Lemma copy_all_clean fuel head gzip w r d :
  reader_clean r -> (reader_size r < fuel)%nat ->
  exists pieces r',
    copy_all GzWriter gz_write fuel head (relayed w r d, gzip) =
      ((relayed w r' (d ++ snd (told head gzip pieces)), fst (told head gzip pieces)), Ok tt) /\
    concat pieces = reader_bytes r /\ reader_bytes r' = [].
Proof.
  revert gzip r d. induction fuel as [|fuel IH]; intros gzip r d Hc Hf; [lia|]. cbn [copy_all].
  assert (Hnil : told head gzip [] = (gzip, [])) by (unfold told; by destruct head).
  destruct (read_clean (8 * 1024) r ltac:(lia) Hc) as [->|(x & r1 & Hr & Hd & Hne & Hc1 & Hs & Hb)].
  { erewrite bind_ok by (by apply read_body). exists [], []. rewrite Hnil. cbn. by rewrite app_nil_r. }
  erewrite bind_ok by (by apply read_body). destruct x as [|b x]; [done|]. cbv beta iota. set (p := b :: x) in *.
  erewrite bind_ok by apply write_body_relayed. cbv beta.
  destruct (IH (fst (told head gzip [p])) r1 (d ++ snd (told head gzip [p])) Hc1 ltac:(lia)) as (pieces & r' & -> & Hp & Hr').
  exists (p :: pieces), r'. rewrite (told_cons head gzip p pieces). cbn [fst snd concat]. rewrite app_assoc, Hb, Hp. by split_and!.
Qed.

(** How much of a body its length lets through. *)
Definition limited (content_length : option Z) (l : bytes) : bytes :=
  match content_length with Some n => take (Z.to_nat n) l | None => l end.

Definition body_result (content_length : option Z) (l : bytes) : result unit IoErr :=
  match content_length with
  | Some n => if len l <? n then Err (Custom EofReached (str "upstream Content-Length does not match body")) else Ok tt
  | None => Ok tt
  end.

Lemma relay_body_clean head gzip content_length already w r d :
  reader_clean r -> (forall n, content_length = Some n -> 0 <= n) ->
  exists pieces r',
    relay_upstream_body GzWriter gz_write head content_length already (relayed w r d, gzip) =
      ((relayed w r' (d ++ snd (told head gzip pieces)), fst (told head gzip pieces)), body_result content_length (already ++ reader_bytes r)) /\
    concat pieces = limited content_length (already ++ reader_bytes r) /\
    reader_bytes r' = match content_length with Some n => drop (Z.to_nat (n - len already)) (reader_bytes r) | None => [] end.
Proof.
  intros Hc Hn. unfold relay_upstream_body. cbn [fst upstream relayed incoming]. destruct content_length as [n|].
  - specialize (Hn n eq_refl). set (m := Z.min n (len already)). set (fuel := S (reader_size r)).
    pose proof (len_nonneg already) as Hl. assert (Htake : len (take (Z.to_nat m) already) = m) by (unfold len in *; rewrite length_take; lia).
    assert (Hfirst : exists first, (if bytes_eqb already [] then st_ret tt else write_body GzWriter gz_write head (take (Z.to_nat m) already)) (relayed w r d, gzip)
        = ((relayed w r (d ++ snd (told head gzip first)), fst (told head gzip first)), Ok tt) /\ concat first = take (Z.to_nat m) already /\
        forall pieces, told head gzip (first ++ pieces) = (fst (told head (fst (told head gzip first)) pieces), snd (told head gzip first) ++ snd (told head (fst (told head gzip first)) pieces))).
    { destruct (bytes_eqb already []) eqn:Ha.
      - apply bytes_eqb_eq in Ha as ->. exists []. assert (Hnil : told head gzip [] = (gzip, [])) by (unfold told; by destruct head).
        rewrite Hnil. cbn. rewrite app_nil_r, take_nil. split_and!; [done..|]. intros pieces. by destruct (told head gzip pieces).
      - exists [take (Z.to_nat m) already]. split_and!; [apply write_body_relayed|cbn; by rewrite app_nil_r|]. intros pieces. apply told_cons. }
    destruct Hfirst as (first & Hw & Hf & Happ). erewrite bind_ok by exact Hw. cbv beta.
    destruct (copy_length_clean fuel head (fst (told head gzip first)) (n - m) w r (d ++ snd (told head gzip first)) Hc ltac:(lia) ltac:(lia))
      as (pieces & r' & Hcopy & Hp & Hr'). erewrite bind_ok by exact Hcopy. cbv beta.
    exists (first ++ pieces), r'. rewrite Happ. cbn [fst snd]. rewrite app_assoc, concat_app, Hf, Hp. split_and!.
    + unfold body_result. rewrite len_app.
      assert (Hlp : len (take (Z.to_nat (n - m)) (reader_bytes r)) = Z.min (n - m) (len (reader_bytes r))).
      { unfold len in *. rewrite length_take. lia. }
      rewrite Hlp. pose proof (len_nonneg (reader_bytes r)).
      destruct (Z.ltb_spec (len already + len (reader_bytes r)) n) as [Hlt|Hge].
      * replace (n - m - _ =? 0) with false by lia. done.
      * replace (n - m - _ =? 0) with true by lia. done.
    + cbn [limited]. destruct (Z.le_gt_cases n (len already)) as [Hle|Hgt].
      * replace m with n by lia. rewrite Z.sub_diag. change (Z.to_nat 0) with 0%nat. rewrite take_0, app_nil_r.
        rewrite take_app_le; [done|unfold len in *; lia].
      * replace m with (len already) by lia. rewrite (take_ge already) by (unfold len; lia).
        replace (Z.to_nat n) with (length already + Z.to_nat (n - len already))%nat by (unfold len in *; lia).
        by rewrite take_app_add.
    + rewrite Hr'. destruct (Z.le_gt_cases n (len already)) as [Hle|Hgt]; [|by replace m with (len already) by lia].
      replace (Z.to_nat (n - m)) with 0%nat by lia. by replace (Z.to_nat (n - len already)) with 0%nat by lia.
  - erewrite bind_ok by apply write_body_relayed. cbv beta.
    destruct (copy_all_clean (S (reader_size r)) head (fst (told head gzip [already])) w r (d ++ snd (told head gzip [already])) Hc ltac:(lia))
      as (pieces & r' & Hcopy & Hp & Hr'). rewrite Hcopy. exists (already :: pieces), r'.
    rewrite (told_cons head gzip already pieces). cbn [fst snd concat limited body_result]. rewrite app_assoc, Hp. by split_and!.
Qed.

(** What a compressing relay sends for the pieces of a body. *)
Definition compressed (level : Z) (pieces : list bytes) : bytes :=
  match emit (Some (gz_new level)) pieces with
  | (Some writer, out) => out ++ gz_finish writer
  | (None, out) => out
  end.

Lemma emit_some g pieces : exists g' out, emit (Some g) pieces = (Some g', out).
Proof.
  revert g. induction pieces as [|p pieces IH]; intros g; [by eexists _, _|]. cbn [emit].
  destruct (gz_write g p) as [g1 o1]. destruct (IH g1) as (g2 & o2 & ->). by eexists _, _.
Qed.

Lemma finishing_plain (m : ST (Writing GzWriter) IoErr unit) w w' r :
  m (w, None) = ((w', None), r) -> finishing GzWriter gz_finish None m w = (w', r).
Proof. intros E. unfold finishing. by rewrite E. Qed.

Lemma finishing_gzip (m : ST (Writing GzWriter) IoErr unit) g g' w w' r d x :
  m (w, Some g) = ((relayed w' r d, Some g'), Ok x) ->
  finishing GzWriter gz_finish (Some g) m w = (relayed w' r (d ++ gz_finish g'), Ok tt).
Proof. intros E. unfold finishing. rewrite E, write_relayed. done. Qed.

Lemma parse_length_nonneg raw h n : parse_proxy_head raw = Ok h -> ph_content_length (parsed_head h) = Some n -> 0 <= n.
Proof.
  intros E Hn. unfold parse_proxy_head in E. destruct (negb _); [done|]. destruct (split_crlf raw) as [|l lines]; [done|].
  destruct (negb _); [done|]. apply rbind_ok in E as (status & _ & E). apply rbind_ok in E as (acc & Hf & [= <-]). cbn [parsed_head] in Hn.
  assert (Hok : match ph_content_length acc with Some n => 0 <= n | None => True end); [|by rewrite Hn in Hok].
  refine (fold_result_inv (fun acc => match ph_content_length acc with Some n => 0 <= n | None => True end) _ _ _ _ _ _ Hf); [|exact I].
  clear. intros acc line acc' Ha E. unfold proxy_header in E. apply rbind_ok in E as ([name value] & _ & E).
  destruct (negb _ || _); [by injection E as <-|]. apply rbind_ok in E as (cl & Hcl & [= <-]). cbn [ph_content_length].
  destruct (eq_ignore_ascii_case _ _); [|by injection Hcl as <-]. apply rbind_ok in Hcl as (k & Hk & [= <-]).
  destruct (parse_u64 _) as [k'|] eqn:Hp; [|done]. injection Hk as <-. apply parse_unsigned_bound in Hp; [lia|].
  unfold U64_MAX. lia.
Qed.

(** C25: a response is relayed whole.  From an upstream that sends, in pieces of
    any size, a head within the limit and a body, the client receives the head
    as rewritten and, unless it asked with HEAD, exactly the body: the announced
    length of it, or all of it up to the end of the stream; through the encoder
    when it is compressed.  A body shorter than announced is an error.  The
    connection goes back to the pool only for a response of known length over
    HTTP/1.1 that does not close it, and then nothing of the body is left on it. *)
Theorem response_relayed w raw content h max head accept_gzip level :
  faults (client w) = [] -> reader_clean (incoming (upstream w)) ->
  reader_bytes (incoming (upstream w)) = raw ++ content -> complete_head raw -> len raw <= max ->
  parse_proxy_head raw = Ok h ->
  let compress := proxy_compresses accept_gzip head h in
  let length := if compress then None else ph_content_length (parsed_head h) in
  exists pieces w' r,
    stream_upstream_response GzWriter gz_new gz_write gz_finish max head accept_gzip level w = (w', r) /\
    concat pieces = limited length content /\
    wire (client w') = wire (client w) ++ proxy_head compress h ++
      (if head then [] else if compress then compressed level pieces else limited length content) /\
    wire (upstream w') = wire (upstream w) /\
    match r with
    | Ok reusable =>
        reusable = parsed_http11 h && match length with Some _ => true | None => false end && negb (ph_close (parsed_head h)) /\
        match length with Some n => n <= len content | None => True end /\
        (exists k, match length with Some n => drop (Z.to_nat n) content | None => [] end = k ++ reader_bytes (incoming (upstream w')))
    | Err e => exists n, length = Some n /\ len content < n
    end.
Proof.
  intros Hf Hc Hb Hraw Hmax Hp compress length. set (r0 := incoming (upstream w)) in *.
  assert (Hrun : forall A (m : ST Relay IoErr A), m w = m (relayed w r0 [])) by (intros A m; f_equal; exact (relayed_start w Hf)).
  rewrite Hrun.
  unfold stream_upstream_response. cbn [upstream relayed incoming].
  destruct (read_head_clean (S (reader_size r0)) max [] raw content w r0 Hraw Hmax Hc Hb) as (buf & r1 & Hread & Hc1 & Hbuf & Hle & Hs).
  { unfold complete_head in Hraw. apply find_from_bound in Hraw. change (len CRLF2) with 4 in Hraw. rewrite len_nil. lia. }
  { lia. }
  assert (Hbuf' : buf = raw ++ drop (Z.to_nat (len raw)) buf).
  { rewrite <- (take_drop (Z.to_nat (len raw)) buf) at 1. f_equal.
    apply (f_equal (take (Z.to_nat (len raw)))) in Hbuf. unfold len in *. rewrite Nat2Z.id in *. rewrite take_app_length in Hbuf.
    rewrite take_app_le in Hbuf; [done|lia]. }
  set (already := drop (Z.to_nat (len raw)) buf) in *.
  assert (Hcontent : already ++ reader_bytes r1 = content).
  { rewrite Hbuf', <- app_assoc in Hbuf. by apply app_inv_head in Hbuf. }
  erewrite bind_ok by exact Hread. cbv beta iota.
  assert (Htake : take (Z.to_nat (len raw)) buf = raw).
  { rewrite Hbuf'. unfold len. by rewrite Nat2Z.id, take_app_length. }
  rewrite Htake, Hp. fold compress. fold length. fold already. erewrite bind_ok by apply write_relayed. cbv beta.
  change ([] ++ proxy_head compress h) with (proxy_head compress h).
  destruct (relay_body_clean head (if compress then Some (gz_new level) else None) length already w r1 (proxy_head compress h) Hc1)
    as (pieces & r2 & Hbody & Hpieces & Hr2).
  { intros n Hn. unfold length in Hn. destruct compress; [done|]. by eapply parse_length_nonneg. }
  rewrite Hcontent in Hbody, Hpieces. exists pieces.
  assert (Hleft : exists k, match length with Some n => drop (Z.to_nat n) content | None => [] end = k ++ reader_bytes r2).
  { rewrite Hr2. destruct length as [n|]; [|by exists []]. rewrite <- Hcontent.
    exists (drop (Z.to_nat n) already). rewrite drop_app. do 2 f_equal. unfold len. lia. }
  destruct compress eqn:Hcomp.
  - assert (Hhead : head = false).
    { unfold compress, proxy_compresses in Hcomp. by destruct head; [rewrite andb_false_r in Hcomp|]. }
    subst head. unfold length in *. cbn [body_result limited] in *.
    destruct (emit_some (gz_new level) pieces) as (g' & out & He). unfold told in Hbody. rewrite He in Hbody. cbn [fst snd] in Hbody.
    apply finishing_gzip in Hbody. erewrite bind_ok by exact Hbody. cbv beta. eexists _, _. split; [reflexivity|].
    unfold compressed. rewrite He. cbn [relayed client upstream wire incoming]. split_and!; [done|by rewrite <- app_assoc|done| |done|exact Hleft].
    by rewrite !andb_false_r.
  - assert (Htold : told head None pieces = (None, if head then [] else concat pieces)).
    { unfold told. destruct head; [done|apply emit_plain]. }
    rewrite Htold in Hbody. cbn [fst snd] in Hbody. apply finishing_plain in Hbody.
    unfold st_bind at 1. rewrite Hbody.
    assert (Hwire : forall x, wire (client w) ++ (proxy_head false h ++ x) = wire (client w) ++ proxy_head false h ++ x) by done.
    destruct (body_result length content) as [[]|e] eqn:Hres.
    + eexists _, _. split; [reflexivity|]. cbn [relayed client upstream wire incoming]. split_and!; [done| |done| | |exact Hleft].
      * destruct head; [done|]. by rewrite Hpieces.
      * by rewrite andb_true_r.
      * unfold body_result in Hres. destruct length as [n|]; [|done]. destruct (Z.ltb_spec (len content) n); [done|lia].
    + eexists _, _. split; [reflexivity|]. cbn [relayed client upstream wire incoming]. split_and!; [done| |done|].
      * destruct head; [done|]. by rewrite Hpieces.
      * unfold body_result in Hres. destruct length as [n|]; [|done]. destruct (Z.ltb_spec (len content) n); [|done]. by exists n.
Qed.
End Body.
