(* ===== verification/ProxyStreams.v ===== *)
(** * Properties of proxied HTTP/2 responses, and the end of the proxy's loops *)

From S2P Require Import Prelude RustStd Io Config Http H2Headers Text Fs Metrics Limits HandlerProps Handler Connection FastCgi FastCgiRelay FastCgiProps Upstreams Proxy ProxyRelay WebSocket WebSocketProps ProxyWorld ProxyRequestProps ProxyResponses UpgradeProps.

(** ** The reader of a body *)

(** The byte stream the HTTP/2 driver models the reader by. *)
Definition body_stream (s : H2ProxyReader) : Reader :=
  if pr_offset s <? len (pr_prefix s) then RData (drop (Z.to_nat (pr_offset s)) (pr_prefix s)) :: pr_stream s else pr_stream s.

Lemma body_stream_read n s s' x :
  0 < n -> 0 <= pr_offset s -> proxy_read n s = (s', x) -> read (body_stream s) n = (body_stream s', x) /\ 0 <= pr_offset s'.
Proof.
  intros Hn Ho. unfold proxy_read, body_stream. destruct (Z.ltb_spec (pr_offset s) (len (pr_prefix s))) as [Hlt|Hge].
  - intros [= <- <-]. cbn [read pr_offset pr_prefix pr_stream]. set (rest := drop _ _).
    assert (Hl : len rest = len (pr_prefix s) - pr_offset s) by (unfold rest, len in *; rewrite length_drop; lia).
    rewrite <- Hl. unfold slice. fold rest. replace (pr_offset s + Z.min n (len rest) - pr_offset s) with (Z.min n (len rest)) by lia.
    destruct (Z.leb_spec (len rest) n) as [Hle|Hgt].
    + rewrite Z.min_r by lia. replace (pr_offset s + len rest <? len (pr_prefix s)) with false by lia.
      rewrite take_ge by (unfold len; lia). split; [done|lia].
    + rewrite Z.min_l by lia. replace (pr_offset s + n <? len (pr_prefix s)) with true by lia.
      unfold rest. rewrite drop_drop. split; [|lia]. do 4 f_equal. lia.
  - destruct (read (pr_stream s) n) as [r y]. intros [= <- <-]. cbn [pr_offset pr_prefix pr_stream].
    replace (pr_offset s <? len (pr_prefix s)) with false by lia. done.
Qed.

(** ** The head *)

Record upstream_header_ok (h : bytes * bytes) : Prop := {
  uho_name : fst h <> [] /\ Forall (fun b => is_header_byte b = true) (fst h);
  uho_value : no_crlf (snd h);
  uho_hop : hop_by_hop (fst h) = false;
}.

(** The headers of a head, and the length they announce: that of the last
    Content-Length. *)
Record upstream_head_ok (h : UpstreamHead) : Prop := {
  uhh_headers : Forall upstream_header_ok (uh_headers h);
  uhh_length : match last (values_of (str "Content-Length") (uh_headers h)) with
               | Some v => exists n, parse_u64 v = Some n /\ uh_content_length h = Some n
               | None => uh_content_length h = None
               end;
}.

Lemma upstream_head_line_ok acc line acc' : upstream_head_ok acc -> upstream_head_line acc line = Ok acc' -> upstream_head_ok acc'.
Proof.
  intros [Hh Hl] E. unfold upstream_head_line in E. apply rbind_ok in E as ([name value] & _ & E).
  destruct (valid_header (trim name) (trim value)) eqn:Hv; cbn [negb] in E; [|done]. apply valid_header_ok in Hv as (H1 & H2 & H3).
  destruct (eq_ignore_ascii_case (trim name) (str "Transfer-Encoding")); [by injection E as <-|].
  destruct (hop_by_hop (trim name)) eqn:Hhop; [by injection E as <-|]. apply rbind_ok in E as (cl & Hcl & [= <-]).
  split; cbn [uh_headers uh_content_length].
  - apply Forall_app_2; [done|]. constructor; [by split|constructor].
  - rewrite values_of_snoc. destruct (eq_ignore_ascii_case (trim name) (str "Content-Length")).
    + rewrite last_snoc. apply rbind_ok in Hcl as (k & Hk & [= <-]). exists k. destruct (parse_u64 _); [|done]. by injection Hk as ->.
    + rewrite app_nil_r. by injection Hcl as <-.
Qed.

Lemma parse_upstream_head_ok raw response length no_body :
  parse_upstream_head raw = Ok (response, length, no_body) ->
  exists headers, resp_headers response = (str "Server", str "veysrs/0.6.1") :: headers /\
    upstream_head_ok (mkUpstreamHead headers length false).
Proof.
  unfold parse_upstream_head. intros E. apply rbind_ok in E as (pos & _ & E). cbv zeta in E. destruct (negb _); [done|].
  destruct (split_crlf _) as [|status_line lines]; [done|]. destruct (negb _); [done|].
  apply rbind_ok in E as (status & _ & E). apply rbind_ok in E as (h & Hh & E). destruct (uh_chunked h); [done|]. injection E as <- <- <-.
  exists (uh_headers h). split; [done|].
  assert (Hok : upstream_head_ok h); [|by destruct Hok; split].
  refine (fold_result_inv upstream_head_ok _ _ _ _ upstream_head_line_ok _ Hh). split; [constructor|done].
Qed.

Lemma read_growth_later r n r' d : 0 < n -> read r n = (r', ReadOk d) -> d <> [] -> later_bytes r = d ++ later_bytes r'.
Proof. intros Hn Hr Hd. pose proof (read_later _ _ _ _ Hn Hr) as Hl. destruct d; [done|]. apply Hl. Qed.

Lemma poll_loop_found fuel clock p p' x :
  proxy_poll_loop fuel clock p = (p', Ok (Some x)) ->
  exists pos, find_subslice (pp_buffer p') CRLF2 = Some pos /\ finish_upstream_head p' (pos + 4) = Ok x /\
    pp_method p' = pp_method p /\ pp_max_headers p' = pp_max_headers p /\
    pp_buffer p ++ later_bytes (pp_stream p) = pp_buffer p' ++ later_bytes (pp_stream p').
Proof.
  revert clock p. induction fuel as [|fuel IH]; intros clock p; cbn [proxy_poll_loop]; [done|].
  destruct (_ <=? _); [done|]. destruct (find_subslice (pp_buffer p) CRLF2) as [pos|] eqn:Hf.
  - intros [= <- Hx]. apply rbind_ok in Hx as (y & Hy & [= <-]). exists pos. by split_and!.
  - destruct (_ >? _); [done|]. destruct (read (pp_stream p) 4096) as [r y] eqn:Hr. destruct y as [[|b d]| |]; [done| |done|done].
    intros E. apply IH in E as (pos & H1 & H2 & H3 & H4 & H5). exists pos. split_and!; [done..|].
    cbn [pp_buffer pp_stream] in H5. apply read_growth_later in Hr; [|lia|done]. by rewrite Hr, app_assoc.
Qed.

(** C28: what an HTTP/2 stream gets of an upstream's response.  When the poll for a
    head ends with one, that head lies within the limit and has been checked: its
    fields cannot split a head, none belongs to the connection, and the length
    is that of its last Content-Length.  Without a body the length is zero; else
    the reader delivers what the upstream says after the head, each of its reads
    what a read of that stream gives, waiting and failures included. *)
Theorem h2_response_checked clock p p' response reader length :
  proxy_poll clock p = (p', Ok (Some (response, reader, length))) ->
  exists raw rest headers announced no_body,
    pp_buffer p ++ later_bytes (pp_stream p) = raw ++ rest /\
    parse_upstream_head raw = Ok (response, announced, no_body) /\ len raw <= pp_max_headers p /\
    resp_headers response = (str "Server", str "veysrs/0.6.1") :: headers /\
    upstream_head_ok (mkUpstreamHead headers announced false) /\ clean_headers response /\
    match reader with
    | None => length = Some 0 /\ (no_body = true \/ pp_method p = Head \/ announced = Some 0)
    | Some s =>
        length = announced /\ no_body = false /\ pp_method p <> Head /\ announced <> Some 0 /\
        later_bytes (body_stream s) = rest /\
        (forall n s' x, 0 < n -> proxy_read n s = (s', x) -> read (body_stream s) n = (body_stream s', x) /\ 0 <= pr_offset s')
    end.
Proof.
  intros E. apply poll_loop_found in E as (pos & Hpos & Hfin & Hmeth & Hmax & Hall).
  unfold finish_upstream_head in Hfin. destruct (Z.gtb_spec (pos + 4) (pp_max_headers p')) as [|Hle]; [done|].
  apply rbind_ok in Hfin as ([[resp announced] no_body] & Hparse & Hfin).
  set (raw := take (Z.to_nat (pos + 4)) (pp_buffer p')) in *. set (prefix := drop (Z.to_nat (pos + 4)) (pp_buffer p')) in *.
  destruct (parse_upstream_head_ok _ _ _ _ Hparse) as (headers & Hresp & Hok).
  pose proof (find_from_bound _ _ _ _ Hpos) as [H0 Hb]. change (len CRLF2) with 4 in Hb.
  assert (Hraw : len raw = pos + 4) by (unfold raw, len in *; rewrite length_take; lia).
  assert (Hrest : pp_buffer p ++ later_bytes (pp_stream p) = raw ++ (prefix ++ later_bytes (pp_stream p'))).
  { rewrite Hall. unfold raw, prefix. by rewrite app_assoc, take_drop. }
  assert (Hclean : clean_headers resp).
  { unfold clean_headers. rewrite Hresp. constructor; [split; by apply no_crlf_dec|].
    eapply Forall_impl; [apply Hok|]. intros h [[_ Hn] Hv _]. split; [by apply header_name_clean|done]. }
  exists raw, (prefix ++ later_bytes (pp_stream p')), headers, announced, no_body.
  destruct (no_body || bool_decide (pp_method p' = Head) || bool_decide (announced = Some 0)) eqn:Hbody.
  - injection Hfin as <- <- <-. split_and!; try done; [lia|]. rewrite !orb_true_iff, !bool_decide_eq_true, Hmeth in Hbody. tauto.
  - injection Hfin as <- <- <-. rewrite !orb_false_iff, !bool_decide_eq_false, Hmeth in Hbody. destruct Hbody as [[Hn Hh] Ha].
    split_and!; try done; [lia| |].
    + unfold body_stream. cbn [pr_offset pr_prefix pr_stream]. destruct prefix as [|b l] eqn:Hp; [done|].
      replace (0 <? len (b :: l)) with true; [done|]. rewrite len_cons. pose proof (len_nonneg l). lia.
    + intros n s' x Hnn. by apply body_stream_read.
Qed.

(** ** The loops end *)

Lemma bind_ext {S E A B} (m : ST S E A) (k k' : A -> ST S E B) s :
  (forall a s1, m s = (s1, Ok a) -> k a s1 = k' a s1) -> st_bind m k s = st_bind m k' s.
Proof. intros Hk. unfold st_bind. destruct (m s) as [s1 [a|e]]; [by apply Hk|done]. Qed.

Section Loops.
Context (GzWriter : Type) (gz_new : Z -> GzWriter) (gz_write : GzWriter -> bytes -> GzWriter * bytes)
  (gz_finish : GzWriter -> bytes).

Lemma read_head_fuel fuel extra max buf w :
  (reader_size (incoming (upstream w)) < fuel)%nat -> read_head (fuel + extra) max buf w = read_head fuel max buf w.
Proof.
  revert buf w. induction fuel as [|fuel IH]; intros buf w Hf; [lia|]. cbn [read_head Nat.add].
  destruct (_ >? _); [done|]. unfold st_bind. destruct (read_upstream 4096 w) as [w1 [d|e]] eqn:E; [|done].
  apply read_upstream_spec in E as (_ & _ & _ & Hd); [|lia]. destruct d as [|b d]; [done|].
  destruct (Hd _ eq_refl) as (_ & _ & Hs); [done|]. case_match; [done|]. apply IH. lia.
Qed.

(** The size of what the upstream still says does not grow. *)
Definition not_longer (w w' : Relay) : Prop := (reader_size (incoming (upstream w')) <= reader_size (incoming (upstream w)))%nat.

#[local] Instance not_longer_relation : RelayRelation not_longer.
Proof.
  assert (Hc : forall A (m : ST Io IoErr A), respects not_longer (on_client m)).
  { intros A m w w' r. unfold on_client. destruct (m (client w)). intros [= <- <-]. unfold not_longer. cbn. lia. }
  split; [split; [intros w; unfold not_longer; lia|intros x y z; unfold not_longer; lia]| |intros; apply Hc..].
  intros n w w' r. unfold read_upstream, on_upstream, io_read. destruct (read _ n) as [i x] eqn:E. intros [= <- <-].
  unfold not_longer. cbn [upstream incoming]. destruct (incoming (upstream w)) as [|e l] eqn:Hi; [cbn in E; by injection E as <- _|].
  destruct (Z.le_gt_cases n 0) as [Hn|Hn]; [|by eapply reader_size_read].
  destruct e as [d| |]; cbn [read] in E; [|injection E as <- _; cbn; lia..].
  destruct (len d <=? n); injection E as <- _; cbn [reader_size event_size]; [lia|]. rewrite length_drop. lia.
Qed.

Lemma copy_length_fuel fuel extra head n s :
  (reader_size (incoming (upstream (fst s))) < fuel)%nat ->
  copy_length GzWriter gz_write (fuel + extra) head n s = copy_length GzWriter gz_write fuel head n s.
Proof.
  revert n s. induction fuel as [|fuel IH]; intros n s Hf; [lia|]. cbn [copy_length Nat.add].
  destruct (Z.leb_spec n 0) as [|Hn]; [done|]. unfold st_bind, on_connections.
  destruct (read_upstream (Z.min n IO_CHUNK) (fst s)) as [w1 [d|e]] eqn:E; [|done].
  apply read_upstream_spec in E as (_ & _ & _ & Hd); [|unfold IO_CHUNK; lia]. destruct d as [|b d]; [done|].
  destruct (Hd _ eq_refl) as (_ & _ & Hs); [done|].
  destruct (write_body GzWriter gz_write head (b :: d) (w1, snd s)) as [s2 [[]|e]] eqn:E2; [|done].
  apply (write_body_respects not_longer) in E2. unfold not_longer in E2. cbn [fst] in E2. apply IH. lia.
Qed.

Lemma copy_all_fuel fuel extra head s :
  (reader_size (incoming (upstream (fst s))) < fuel)%nat ->
  copy_all GzWriter gz_write (fuel + extra) head s = copy_all GzWriter gz_write fuel head s.
Proof.
  revert s. induction fuel as [|fuel IH]; intros s Hf; [lia|]. cbn [copy_all Nat.add]. unfold st_bind, on_connections.
  destruct (read_upstream (8 * 1024) (fst s)) as [w1 [d|e]] eqn:E; [|done].
  apply read_upstream_spec in E as (_ & _ & _ & Hd); [|lia]. destruct d as [|b d]; [done|].
  destruct (Hd _ eq_refl) as (_ & _ & Hs); [done|].
  destruct (write_body GzWriter gz_write head (b :: d) (w1, snd s)) as [s2 [[]|e]] eqn:E2; [|done].
  apply (write_body_respects not_longer) in E2. unfold not_longer in E2. cbn [fst] in E2. apply IH. lia.
Qed.

Lemma forward_request_fuel fuel extra buffered n w :
  (length buffered + reader_size (incoming (client w)) < fuel)%nat ->
  forward_request_body (fuel + extra) buffered n w = forward_request_body fuel buffered n w.
Proof.
  revert buffered n w. induction fuel as [|fuel IH]; intros buffered n w Hf; [lia|]. cbn [forward_request_body Nat.add].
  destruct (Z.leb_spec n 0) as [|Hn]; [done|].
  assert (Hwrite : forall c w1 (k k' : ST Relay IoErr bytes), (forall w2, client w2 = client w1 -> k w2 = k' w2) ->
    (let! _ := on_upstream (fcgi_write c) in k) w1 = (let! _ := on_upstream (fcgi_write c) in k') w1).
  { intros c w1 k k' Hk. unfold st_bind, on_upstream. destruct (fcgi_write c (upstream w1)) as [io [[]|e]]; [|done]. by apply Hk. }
  destruct buffered as [|b buffered].
  - apply bind_ext. intros data w1 E1. unfold on_client, io_read in E1. destruct (read (incoming (client w)) (Z.min n IO_CHUNK)) as [i x] eqn:Er.
    assert (Hio : 0 < Z.min n IO_CHUNK) by (unfold IO_CHUNK; lia).
    assert (Hs : x = ReadOk [] \/ (reader_size i < reader_size (incoming (client w)))%nat).
    { destruct (read_size _ _ _ _ Hio Er) as [Hnil|Hs]; [left|by right]. rewrite Hnil in Er. by injection Er. }
    destruct x as [[|c d]| |]; try done. injection E1 as <- <-. destruct Hs as [|Hs]; [done|].
    apply Hwrite. intros w2 Hw2. apply IH. rewrite Hw2. cbn [client incoming length] in *. lia.
  - apply Hwrite. intros w2 Hw2. apply IH. rewrite Hw2. rewrite length_drop. cbn [length] in *.
    set (l := b :: buffered). assert (0 < len l) by (unfold l; rewrite len_cons; pose proof (len_nonneg buffered); lia).
    assert (length l = S (length buffered)) by done. unfold len in *. lia.
Qed.

Lemma poll_loop_more fuel extra clock p :
  (S (reader_size (pp_stream p)) < fuel)%nat -> proxy_poll_loop (fuel + extra) clock p = proxy_poll_loop fuel clock p.
Proof.
  revert clock p. induction fuel as [|fuel IH]; intros clock p Hf; [lia|]. cbn [proxy_poll_loop Nat.add].
  destruct (_ <=? _); [done|]. destruct (find_subslice _ _); [done|]. destruct (_ >? _); [done|].
  destruct (read (pp_stream p) 4096) as [r x] eqn:E. destruct x as [[|b d]| |]; [done| |done|done].
  apply IH. cbn [pp_stream]. pose proof (read_later _ _ _ _ (eq_refl : 0 < 4096) E) as [_ Hs]. lia.
Qed.

(** The proxy's loops end.  The number of rounds of each is bounded by what the
    other side still says: with more fuel than that the reading of a head, the
    two copies of a body, the forwarding of a request's body, the poll for a head
    and the WebSocket handshake have the results they have with the fuel they
    are given. *)
Theorem proxy_loops_end extra max buffered n head writing w clock p :
  let said := reader_size (incoming (upstream w)) in
  let copying := reader_size (incoming (upstream (fst writing))) in
  let sent := (length buffered + reader_size (incoming (client w)))%nat in
  read_head (S said + extra)%nat max [] w = read_head (S said) max [] w /\
  copy_length GzWriter gz_write (S copying + extra)%nat head n writing = copy_length GzWriter gz_write (S copying) head n writing /\
  copy_all GzWriter gz_write (S copying + extra)%nat head writing = copy_all GzWriter gz_write (S copying) head writing /\
  forward_request_body (S sent + extra)%nat buffered n w = forward_request_body (S sent) buffered n w /\
  proxy_poll_loop (S (S (reader_size (pp_stream p))) + extra)%nat clock p = proxy_poll clock p /\
  read_handshake (S said + extra)%nat [] w = read_handshake (S said) [] w.
Proof.
  intros said copying sent. split_and!; [apply read_head_fuel|apply copy_length_fuel|apply copy_all_fuel|apply forward_request_fuel|
    apply poll_loop_more|apply read_handshake_fuel]; lia.
Qed.
End Loops.
