(* ===== verification/ProxyEffects.v ===== *)
(** * The proxy at work

    Two upstreams behind one route, on which the theorems are run, and where the
    proxy departs from what it means to do. *)

From S2P Require Import Prelude RustStd Io Config ConfigSet Http H2Headers Text Fs Metrics Limits Flow Stream Handler Connection FastCgi FastCgiRelay FastCgiProps Upstreams Proxy ProxyRelay WebSocket HealthChecker UpstreamProps WebSocketProps ProxyWorld UpgradeProps ProxyRequestProps ProxyEntries ProxyResponses ProxyStreams.

Section Examples.
#[local] Existing Instance ascii_case.

Definition api_route : ProxyRoute := mkProxyRoute (str "*") (str "/api") (str "http://one, http://two").
Definition api_config : ServerConfig := set_proxy_routes [api_route] server_config_default.
Definition api_request (m : Method) (fields : list (bytes * bytes)) (content : bytes) : HttpRequest :=
  mkHttpRequest m (str "/api/x?q=1") (str "HTTP/1.1") ((str "Host", str "a.example") :: fields) content.

(** A digest that copies, for SHA-1 and base64. *)
Definition copy (l : bytes) : bytes := l.

(** Nothing connected yet; the clock stands still. *)
Definition quiet : Upstreams := mkUpstreams ∅ None ∅ 0 (fun _ => 0) [].

(** A network where every name leads to a server that says [d] in one piece. *)
Definition serving (d : bytes) (dialled : list bytes) (name : bytes) : option (list (option Io)) :=
  Some [Some (mkIo [] [] [RData d])].

Definition world (upstream : Io) (client : Reader) : Proxying :=
  mkProxying quiet (mkRelay upstream (mkIo [] [] client) [] metrics_zero).

Definition answer_head (fields : bytes) : bytes := str "HTTP/1.1 200 OK" ++ CRLF ++ fields ++ CRLF.
Definition plain_head : bytes := str "HTTP/1.1 200 OK" ++ CRLF ++ str "Content-Length: 5" ++ CRLF.
Definition plain_answer : bytes := plain_head ++ CRLF.

(** The relay with an encoder that copies. *)
Definition relays (head gzip : bool) (said : list bytes) : Relay * result bool IoErr :=
  stream_upstream_response unit (fun _ => tt) pair (fun _ => []) 1000 head gzip 6
    (mkRelay (mkIo [] [] (map RData said)) (mkIo [] [] []) [] metrics_zero).

(** The entry for whole requests, with SHA-1 and base64 that copy. *)
Definition proxied (d : bytes) (req : HttpRequest) : Proxying * result (option bool) IoErr :=
  proxy_handle unit (fun _ => tt) pair (fun _ => []) (serving d) (fun _ => []) copy copy Some
    (mkTunnelEnv [] [] (fun _ => 0)) req api_config (str "10.0.0.1") false (world (mkIo [] [] []) []).

(** ** Witnesses *)

Lemma idle_pool_bounded_witness :
  let u := return_pooled api_route (str "http://one") (mkIo (str "x") [] []) quiet in
  total_idle (pool u) <= 256.
Proof.
  intros u. destruct (idle_pool_bounded u [(Return api_route (str "http://one") (mkIo (str "x") [] []), None)]) as [[_ H] _].
  - apply (pool_run_next quiet [] (Return api_route (str "http://one") (mkIo (str "x") [] []))). by apply pool_run_start.
  - exact H.
Defined.

Lemma failed_upstream_never_returns_witness :
  excluded (str "k") (mark_failed (str "k") (mark_failed (str "k") (mark_failed (str "k") quiet))) = true.
Proof. apply (proj1 failed_upstream_never_returns). vm_compute. discriminate. Defined.

(** Probing every second, two candidates are probed once before the first nap; the
    thread is stopped in its second cycle, as it is about to probe. *)
Definition probing_config : ServerConfig := set_upstream_health_interval 1 api_config.
Definition checker_moments : list CheckerEvent := repeat Step 28 ++ [Others quiet; Step].
Definition checked : Checker := checker_run (serving plain_answer) probing_config (checker_start quiet) checker_moments.

Lemma health_checker_works_witness :
  map snd (probed checked) = [str "http://one"; str "http://two"] /\ len (naps checked) = 10 /\
  exists l, probed (checker_run (serving plain_answer) probing_config (checker_event (serving plain_answer) probing_config checked StopSignal)
    (repeat Step 4)) = probed checked ++ l /\ (length l <= 1)%nat.
Proof.
  split; [vm_compute; reflexivity|]. split; [vm_compute; reflexivity|].
  destruct (health_checker_works (serving plain_answer) probing_config quiet checker_moments) as (_ & _ & Hstop).
  exact (proj1 (Hstop (repeat Step 4))).
Defined.

Lemma candidates_take_turns_witness :
  exists u' results, connect_all (serving []) health_settings_default (repeat api_route 3) quiet = (u', results) /\
    map (fun r => match r with Ok c => connected_candidate c | Err _ => [] end) results = [str "http://one"; str "http://two"; str "http://one"].
Proof.
  destruct (candidates_take_turns (serving []) api_route health_settings_default 3 quiet) as (u' & results & E & Hr).
  - vm_compute. discriminate.
  - split.
    + intros c Hc. assert (Hin : In c [str "http://one"; str "http://two"]) by by apply list_elem_of_In.
      destruct Hin as [<-|[<-|[]]]; [exists (str "one")|exists (str "two")]; reflexivity.
    + intros c _. reflexivity.
    + intros c _. reflexivity.
    + intros h a. eexists _, _. split; reflexivity.
  - discriminate.
  - vm_compute. discriminate.
  - vm_compute. reflexivity.
  - exists u', results. split; [exact E|]. apply Forall2_length in Hr as Hl. change (length (seq 0 3)) with 3%nat in Hl.
    destruct results as [|r0 [|r1 [|r2 [|? ?]]]]; try discriminate Hl.
    inversion_clear Hr as [|? ? ? ? (s0 & ->) Hr1]. inversion_clear Hr1 as [|? ? ? ? (s1 & ->) Hr2].
    inversion_clear Hr2 as [|? ? ? ? (s2 & ->) _]. reflexivity.
Defined.

(** A client and an upstream that agree on an upgrade. *)
Definition upgrade_fields : list (bytes * bytes) :=
  [(str "Upgrade", str "websocket"); (str "Connection", str "Upgrade");
   (str "Sec-WebSocket-Key", str "0123456789abcdef"); (str "Sec-WebSocket-Version", str "13")].
Definition upgrade_answer : bytes :=
  str "HTTP/1.1 101 Switching" ++ CRLF ++ str "Sec-WebSocket-Accept: "
  ++ websocket_accept copy copy (str "0123456789abcdef") ++ CRLF2.
Definition upgraded (d : list bytes) : Proxying * result (option bool) IoErr :=
  websocket (fun _ _ => Some [Some (mkIo [] [] (map RData d))]) copy copy Some (mkTunnelEnv [] [] (fun _ => 0))
    (api_request Get upgrade_fields []) api_route api_config (world (mkIo [] [] []) [RData (str "ping")]).

Lemma upgrade_guarded_witness :
  exists out, wire (client (relay (fst (upgraded [upgrade_answer; str "pong"])))) = out /\ out = upgrade_answer ++ str "pong" /\
    accepts copy copy Some (api_request Get upgrade_fields []) upgrade_answer.
Proof.
  destruct (upgrade_guarded (fun _ _ => Some [Some (mkIo [] [] (map RData [upgrade_answer; str "pong"]))]) copy copy Some
    (mkTunnelEnv [] [] (fun _ => 0)) (api_request Get upgrade_fields []) api_route api_config (world (mkIo [] [] []) [RData (str "ping")])
    (fst (upgraded [upgrade_answer; str "pong"])) (snd (upgraded [upgrade_answer; str "pong"]))) as (out & Hw & _).
  - constructor.
  - constructor.
  - apply surjective_pairing.
  - exists out. split; [exact Hw|]. split.
    + change (wire (client (relay (world (mkIo [] [] []) [RData (str "ping")])))) with (@nil Z) in Hw. cbn [app] in Hw.
      rewrite <- Hw. vm_compute. reflexivity.
    + split; [reflexivity|vm_compute; reflexivity|reflexivity|vm_compute; reflexivity|].
      eexists. vm_compute. reflexivity.
Defined.

Lemma forwarded_request_read_witness :
  let req := api_request Get [(str "X-A", str "1"); (str "Keep-Alive", str "5")] [] in
  read_request (upstream_request (str "close") api_route req (str "10.0.0.1") false 0 ++ str "GET") =
    Some (str "GET", str "/x?q=1", str "HTTP/1.1", forwarded_fields (str "close") (str "10.0.0.1") false 0 req, str "GET").
Proof.
  intros req. apply (forwarded_request_read (str "close") api_route req (str "10.0.0.1") false 0 (str "GET")).
  - left. exists (str "GET /api/x?q=1 HTTP/1.1" ++ CRLF ++ str "Host: a.example" ++ CRLF ++ str "X-A: 1" ++ CRLF ++ str "Keep-Alive: 5" ++ CRLF2),
      server_config_default, []. vm_compute. reflexivity.
  - repeat constructor; discriminate.
  - by apply no_crlf_dec.
  - vm_compute. split; discriminate.
Defined.

Definition splitting_stream (second : bytes) : Stream :=
  mkStream 1 HalfClosedRemote (window_new 65535) (window_new 65535) (splitting_fields (str "/api") second) [] true true.

Lemma h2_path_splits_request_witness :
  let second := str "GET /admin HTTP/1.1" ++ CRLF ++ str "Host: b" ++ CRLF2 in
  exists tail, read_request (upstream_request (str "close") api_route (h2_request (splitting_stream second)) (str "10.0.0.1") true 0) =
    Some (str "GET", str "/", str "HTTP/1.1", [(str "Host", str "x")], second ++ tail) /\
    match read_request (second ++ tail) with
    | Some (_, target, _, _, _) => target = str "/admin"
    | None => False
    end.
Proof.
  intros second. destruct (h2_path_splits_request (splitting_stream second) api_route second (str "10.0.0.1") true) as (_ & _ & _ & tail & H).
  - reflexivity.
  - reflexivity.
  - exists tail. split; [exact H|]. vm_compute in H. injection H as <-. vm_compute. reflexivity.
Defined.

Lemma upstream_receives_witness :
  let req := api_request Post [] (str "ab") in
  let run := proxy_http unit (fun _ => tt) pair (fun _ => []) (serving (plain_answer ++ str "hello")) (fun _ => []) req api_route api_config (str "10.0.0.1") false (world (mkIo [] [] []) []) in
  exists stream, wire (upstream (relay (fst run))) = wire stream ++ upstream_request (str "keep-alive") api_route req (str "10.0.0.1") false 2 ++ str "ab".
Proof.
  intros req run.
  destruct (upstream_receives unit (fun _ => tt) pair (fun _ => []) (serving (plain_answer ++ str "hello")) (fun _ => []) req
    (mkHead Post (str "/api/x") (str "HTTP/1.1") [(str "Host", str "a.example")] 0 0) api_route api_config (str "10.0.0.1") [] false 0
    (world (mkIo [] [] []) [])) as (H & _ & _).
  - vm_compute. discriminate.
  - destruct (H (fst run) (snd run) (surjective_pairing _)) as [Hu|(stream & e & _ & Hw & _ & He)].
    + vm_compute in Hu. discriminate Hu.
    + exists stream. rewrite Hw. f_equal. apply He. vm_compute. reflexivity.
Defined.

Lemma proxy_confined_witness :
  active (shared (fst (proxied (plain_answer ++ str "hello") (api_request Get [] [])))) = 0 /\
  dialled (shared (fst (proxied (plain_answer ++ str "hello") (api_request Get [] [])))) = [str "one"].
Proof.
  destruct (proxy_confined api_config unit (fun _ => tt) pair (fun _ => []) (serving (plain_answer ++ str "hello")) (fun _ => []) copy copy Some
    (mkTunnelEnv [] [] (fun _ => 0)) (api_request Get [] []) (mkHead Get (str "/api/x") (str "HTTP/1.1") [] 0 0) [] (str "10.0.0.1") false 0
    (world (mkIo [] [] []) [])) as (H & _ & _).
  - vm_compute. discriminate.
  - destruct (H (fst (proxied (plain_answer ++ str "hello") (api_request Get [] []))) (snd (proxied (plain_answer ++ str "hello") (api_request Get [] []))))
      as [Ha _]; [apply surjective_pairing|]. split; [exact Ha|]. vm_compute. reflexivity.
Defined.

Lemma response_relayed_witness :
  wire (client (fst (relays false false [plain_answer ++ str "he"; str "llo"]))) =
    str "HTTP/1.1 200 OK" ++ CRLF ++ str "Content-Length: 5" ++ CRLF ++ str "Connection: close" ++ CRLF2 ++ str "hello".
Proof.
  destruct (response_relayed unit (fun _ => tt) pair (fun _ => [])
    (mkRelay (mkIo [] [] (map RData [plain_answer ++ str "he"; str "llo"])) (mkIo [] [] []) [] metrics_zero) plain_answer (str "hello")
    (mkParsedHead true 200 (mkProxyHead plain_head (Some 5) None false false false)) 1000 false false 6) as (pieces & w' & r & E & Hp & Hw & _).
  - reflexivity.
  - repeat constructor; by eexists _, _.
  - reflexivity.
  - vm_compute. reflexivity.
  - vm_compute. discriminate.
  - vm_compute. reflexivity.
  - unfold relays. rewrite E. cbn [fst]. rewrite Hw. reflexivity.
Defined.

Lemma h2_response_checked_witness :
  let p := mkH2ProxyPending [RData (str "lo")] (plain_answer ++ str "hel") 1000 Get 5 in
  exists raw rest, (plain_answer ++ str "hel") ++ str "lo" = raw ++ rest /\ rest = str "hello" /\
    snd (proxy_poll (fun _ => 0) p) <> Ok None.
Proof.
  intros p.
  destruct (h2_response_checked (fun _ => 0) p p
    (mkResponse (from_u16 200) [(str "Server", str "veysrs/0.6.1"); (str "Content-Length", str "5")] (BodyBytes []) false)
    (Some (mkH2ProxyReader [RData (str "lo")] (str "hel") 0)) (Some 5)) as (raw & rest & headers & a & nb & Hall & _ & _ & _ & _ & _ & Hr).
  - vm_compute. reflexivity.
  - exists raw, rest. split; [exact Hall|]. split; [|vm_compute; discriminate].
    destruct Hr as (_ & _ & _ & _ & Hrest & _). rewrite <- Hrest. reflexivity.
Defined.

(** ** Where the proxy departs from what it means to do *)

(** A compressed response: [compressed_lines] leaves out the line break that
    ends its last line, and the next field runs into it. *)
Example compressed_proxy_head_runs_together :
  proxy_head true (mkParsedHead true 200 (mkProxyHead (str "HTTP/1.1 200 OK" ++ CRLF ++ str "Content-Type: text/html" ++ CRLF)
    None (Some (str "text/html")) false false false)) =
  str "HTTP/1.1 200 OK" ++ CRLF ++ str "Content-Type: text/html" ++ CRLF ++ str "Content-Encoding: gzip" ++ CRLF
  ++ str "Vary: Accept-EncodingConnection: close" ++ CRLF2.
Proof. vm_compute. reflexivity. Qed.

(** A response to HEAD announces a length and has no body: the relay waits for
    the body and fails when its head has gone out. *)
Example head_response_fails :
  let '(w, r) := relays true false [plain_answer] in
  wire (client w) = plain_head ++ str "Connection: close" ++ CRLF2 /\
  r = Err (Custom EofReached (str "upstream Content-Length does not match body")).
Proof. vm_compute. auto. Qed.

(** A chunked response loses the field that says so and keeps its chunks. *)
Example chunked_response_bare :
  wire (client (fst (relays false false [answer_head (str "Transfer-Encoding: chunked" ++ CRLF) ++ str "5" ++ CRLF ++ str "hello"]))) =
  str "HTTP/1.1 200 OK" ++ CRLF ++ str "Connection: close" ++ CRLF2 ++ str "5" ++ CRLF ++ str "hello".
Proof. vm_compute. reflexivity. Qed.

(** Fields named in Connection belong to the connection, and go on to the
    client; so do two lengths that disagree. *)
Example named_fields_relayed :
  wire (client (fst (relays false false [answer_head (str "Connection: X-Hop" ++ CRLF ++ str "X-Hop: 1" ++ CRLF)]))) =
  str "HTTP/1.1 200 OK" ++ CRLF ++ str "X-Hop: 1" ++ CRLF ++ str "Connection: close" ++ CRLF2.
Proof. vm_compute. reflexivity. Qed.

Example disagreeing_lengths_relayed :
  let '(w, r) := relays false false [answer_head (str "Content-Length: 3" ++ CRLF ++ str "Content-Length: 5" ++ CRLF) ++ str "hello"] in
  wire (client w) = str "HTTP/1.1 200 OK" ++ CRLF ++ str "Content-Length: 3" ++ CRLF ++ str "Content-Length: 5" ++ CRLF
    ++ str "Connection: close" ++ CRLF2 ++ str "hello" /\ r = Ok true.
Proof. vm_compute. auto. Qed.

(** A first WebSocket frame that comes with the 101 becomes part of the text of
    the head; its first byte is not UTF-8. *)
Example early_frame_rejected :
  starts_with (wire (client (relay (fst (upgraded [upgrade_answer ++ [129; 1; 97]]))))) (str "HTTP/1.1 502 ") = true /\
  wire (client (relay (fst (upgraded [upgrade_answer; [129; 1; 97]])))) = upgrade_answer ++ [129; 1; 97].
Proof. vm_compute. auto. Qed.

(** A prefix with a slash at its end takes the slash of the target with it. *)
Example target_without_slash :
  upstream_target (mkProxyRoute (str "*") (str "/api/") (str "http://one")) (api_request Get [] []) = str "x?q=1".
Proof. vm_compute. reflexivity. Qed.

(** An IPv6 host may have the port 80 and no other. *)
Example ipv6_host_port :
  let host v := request_host (mkHttpRequest Get (str "/") (str "HTTP/1.1") [(str "Host", v)] []) in
  host (str "[::1]:80") = Some (str "::1") /\ host (str "[::1]:8080") = None /\ host (str "a.example:8080") = Some (str "a.example").
Proof. vm_compute. auto. Qed.
End Examples.
