(* ===== verification/Listener.v ===== *)
(** * One connection (src/server/listener.rs, [serve_stream])

    The protocol of a new connection is found out, then its requests are
    answered one after the other.  The parts that answer are an interface: the
    handler, the two entries each of the proxy and of FastCGI, and the HTTP/2
    driver. *)

From S2P Require Import Prelude RustStd Io Config Http Handler Connection.

(** The connection, and what the process keeps beside it. *)
Record Serving {Shared : Type} : Type := mkServing {
  stream : Io;
  process : Shared;
}.
Arguments Serving Shared : clear implicits.

(** What a connection is served with.  [None] of [handle_request] and
    [serve_h2] is a panic. *)
Class Services : Type := {
  Shared : Type;
  effective_config : ServerConfig -> HttpRequest -> ServerConfig;
  handle_request : ServerConfig -> HttpRequest -> SocketAddr -> Shared -> option (Shared * HttpResponse);
  serve_h2 : ServerConfig -> bytes -> SocketAddr -> bool -> Serving Shared -> option (Serving Shared);
  proxy_matches : HttpRequest -> ServerConfig -> bool;
  proxy_streams : bytes -> HttpRequestHead -> ServerConfig -> SocketAddr -> bool ->
    ST (Serving Shared) IoErr (bytes * option bool);
  proxy_handles : HttpRequest -> ServerConfig -> SocketAddr -> bool -> ST (Serving Shared) IoErr (option bool);
  fastcgi_matches : Shared -> HttpRequest -> ServerConfig -> bool;
  fastcgi_streams : bytes -> HttpRequestHead -> ServerConfig -> SocketAddr -> bool ->
    ST (Serving Shared) IoErr (bytes * option bool);
  fastcgi_handles : HttpRequest -> ServerConfig -> SocketAddr -> bool -> ST (Serving Shared) IoErr (option bool);
}.

(** ** The protocol *)

(** The first bytes, and whether they are HTTP/2's preface; [None] when the
    connection is given up.  A second after its beginning the clock ends the
    wait for the rest of a preface. *)
Fixpoint read_preface (fuel : nat) (clock : nat -> Z) (deadline : Z) (buf : bytes) (io : Io) : Io * option (bytes * bool) :=
  match fuel with
  | O => (io, None)
  | S fuel =>
      let is_h2 buf := bytes_eqb (take (length CLIENT_PREFACE) buf) CLIENT_PREFACE in
      if len CLIENT_PREFACE <=? len buf then (io, Some (buf, is_h2 buf)) else
      let '(io, x) := io_read io 1024 in
      match x with
      | ReadOk [] => (io, None)
      | ReadOk d =>
          let buf := buf ++ d in
          if len CLIENT_PREFACE <=? len buf then (io, Some (buf, is_h2 buf))
          else if negb (starts_with CLIENT_PREFACE buf) then (io, Some (buf, false))
          else if deadline <=? clock O then (io, Some (buf, false))
          else read_preface fuel (fun n => clock (S n)) deadline buf io
      | ReadWouldBlock =>
          if (deadline <=? clock O) || (deadline <=? clock 1%nat) then (io, Some (buf, false))
          else read_preface fuel (fun n => clock (S (S n))) deadline buf io
      | ReadErr => (io, None)
      end
  end.

(** The first bytes of a connection that may not use HTTP/2. *)
Definition read_first (io : Io) : Io * option (bytes * bool) :=
  let '(io, x) := io_read io 1024 in
  (io, match x with ReadOk (b :: d) => Some (b :: d, false) | _ => None end).

Definition detect_protocol (config : ServerConfig) (clock : nat -> Z) (io : Io) : Io * option (bytes * bool) :=
  if http2_enabled config
  then read_preface (S (reader_size (incoming io))) (fun n => clock (S n)) (clock O + 1000000000) [] io
  else read_first io.

Section Serve.
Context `{UnicodeCase} {services : Services}.
(** The encoder of files and the operating system's [try_clone] and [seek]. *)
Context (gz_reader : Reader -> Z -> Reader) (file_at : bytes -> Z -> option Reader).
Context (error_text : IoErr -> bytes). (* [Display] of an error *)
Context (config : ServerConfig) (peer : SocketAddr) (secure : bool).

(** ** Answers *)

(** [let _ = response.send_to(stream)], and whether it succeeds. *)
Definition send (response : HttpResponse) (w : Serving Shared) : Serving Shared * bool :=
  let '(io, r) := send_to gz_reader file_at response (stream w) in
  (mkServing _ io (process w), match r with Ok _ => true | Err _ => false end).

Definition text_answer (s : StatusCode) (message : bytes) : HttpResponse :=
  with_body (set_close_connection (response_new s) true) message TEXT.
Definition status_answer (s : StatusCode) : HttpResponse :=
  text_answer s (to_string (code s) ++ str " " ++ reason_phrase s).

(** The error of a streamed request. *)
Definition streaming_status (e : IoErr) : StatusCode :=
  match e with Custom (TimedOut | EofReached) _ => RequestTimeout | _ => BadGateway end.
Definition gateway_answer (e : IoErr) : HttpResponse := text_answer BadGateway (str "502 Bad Gateway: " ++ error_text e).

(** ** Requests *)

(** What a step of the loop leads to: its end, a panic, or the next step with
    what is left of the buffer and the number of requests. *)
Inductive Flow : Type := Break | Panic | Continue (buf : bytes) (count : Z).

(** A request whose body is streamed to a proxy or a script; the buffer if there
    is none. *)
Definition serve_streaming (buf : bytes) (w : Serving Shared) : Serving Shared * option bytes :=
  match parse_head buf config with
  | Ok (Some head) =>
      let request := into_request head [] in
      let effective := effective_config config request in
      let proxy_route := proxy_matches request effective in
      let fastcgi_route := fastcgi_matches (process w) request effective && bool_decide (method request = Post) in
      if (proxy_route || fastcgi_route) && bool_decide (get_header request (str "Upgrade") = None) then
        let buf := drop (Z.to_nat (header_len head)) buf in
        let entry := if proxy_route then proxy_streams else fastcgi_streams in
        match entry buf head effective peer secure w with
        | (w, Ok (_, Some _)) => (w, None)
        | (w, Ok (buf, None)) => (w, Some buf)
        | (w, Err e) => (fst (send (status_answer (streaming_status e)) w), None)
        end
      else (w, Some buf)
  | _ => (w, Some buf)
  end.

(** A request that is whole, the [count]th. *)
Definition serve_request (req : HttpRequest) (count : Z) (buf : bytes) (w : Serving Shared) : Serving Shared * Flow :=
  let last := (max_requests_per_connection config <=? count) || negb (is_keep_alive req) in
  let effective := effective_config config req in
  let entries :=
    (let! a := proxy_handles req effective peer secure in
     match a with
     | Some b => st_ret (Some b)
     | None => fastcgi_handles req effective peer secure
     end) in
  match entries w with
  | (w, Ok (Some _)) => (w, Break)
  | (w, Err e) => (fst (send (gateway_answer e) w), Break)
  | (w, Ok None) =>
      match handle_request config req peer (process w) with
      | None => (w, Panic)
      | Some (p, resp) =>
          let '(w, sent) := send (set_close_connection resp last) (mkServing _ (stream w) p) in
          (w, if negb sent || last then Break else Continue buf count)
      end
  end.

(** More bytes. *)
Definition serve_read (buf : bytes) (count : Z) (w : Serving Shared) : Serving Shared * Flow :=
  let '(io, x) := io_read (stream w) 1024 in
  let w := mkServing _ io (process w) in
  match x with
  | ReadOk [] => (w, Break)
  | ReadOk d => (w, Continue (buf ++ d) count)
  | ReadWouldBlock =>
      (if bytes_eqb buf [] then w else fst (send (text_answer RequestTimeout (str "408 Request Timeout")) w), Break)
  | ReadErr => (w, Break)
  end.

Definition serve_round (buf : bytes) (count : Z) (w : Serving Shared) : Serving Shared * Flow :=
  match serve_streaming buf w with
  | (w, None) => (w, Break)
  | (w, Some buf) =>
      match parse_request buf config with
      | (buf, Ok (Some req)) => serve_request req (count + 1) buf w
      | (buf, Ok None) => serve_read buf count w
      | (_, Err ConnectionClosed) => (w, Break)
      | (_, Err e) => (fst (send (status_answer (status_from_error e)) w), Break)
      end
  end.

(** How serving a connection ends; [OutOfFuel] does not occur. *)
Inductive Served : Type := Finished | Panicked | OutOfFuel.

Fixpoint serve_requests (fuel : nat) (buf : bytes) (count : Z) (w : Serving Shared) : Serving Shared * Served :=
  match fuel with
  | O => (w, OutOfFuel)
  | S fuel =>
      match serve_round buf count w with
      | (w, Break) => (w, Finished)
      | (w, Panic) => (w, Panicked)
      | (w, Continue buf count) => serve_requests fuel buf count w
      end
  end.

(** Each round takes a request out of the buffer, or bytes out of the stream
    which a later one takes out of the buffer. *)
Definition serve_fuel (buf : bytes) (w : Serving Shared) : nat := S (length buf + 2 * reader_size (incoming (stream w))).

Definition serve_stream (clock : nat -> Z) (w : Serving Shared) : Serving Shared * Served :=
  match detect_protocol config clock (stream w) with
  | (io, None) => (mkServing _ io (process w), Finished)
  | (io, Some (buf, true)) =>
      let w := mkServing _ io (process w) in
      match serve_h2 config buf peer secure w with
      | Some w => (w, Finished)
      | None => (w, Panicked)
      end
  | (io, Some (buf, false)) =>
      let w := mkServing _ io (process w) in serve_requests (serve_fuel buf w) buf 0 w
  end.
End Serve.
