(* ===== verification/ListenerProps.v ===== *)
(** * Connections, proved

    What a client gets depends on the bytes it sends and not on how they arrive,
    and serving it ends; against the interface of the parts that answer, with
    the laws they must keep. *)

From S2P Require Import Prelude RustStd Io Config Http Handler Connection Listener.

(** ** The laws of the parts

    A part without a route for a request leaves everything alone, and none makes
    up input: what is left to read does not grow. *)
Class ServicesLaws (services : Services) : Prop := {
  proxy_declines : forall req config peer secure w,
    proxy_matches req config = false -> proxy_handles req config peer secure w = (w, Ok None);
  fastcgi_declines : forall req config peer secure w,
    fastcgi_matches (process w) req config = false -> fastcgi_handles req config peer secure w = (w, Ok None);
  entries_read : forall req config peer secure w w' r,
    proxy_handles req config peer secure w = (w', r) \/ fastcgi_handles req config peer secure w = (w', r) ->
    (reader_size (incoming (stream w')) <= reader_size (incoming (stream w)))%nat;
  streams_read : forall buf head config peer secure w w' r,
    proxy_streams buf head config peer secure w = (w', r) \/ fastcgi_streams buf head config peer secure w = (w', r) ->
    (reader_size (incoming (stream w')) <= reader_size (incoming (stream w)))%nat /\
    forall left, r = Ok (left, None) -> (length left <= length buf)%nat;
}.

(** ** What has been parsed does not change *)

Section Parsing.
Context `{UnicodeCase} (config : ServerConfig).

Lemma find_from_earlier h more n i j :
  find_from (h ++ more) n i = Some j -> j - i + len n <= len h -> find_from h n i = Some j.
Proof.
  intros Hf Hb. destruct (find_from_spec _ _ _ _ Hf) as (pre & post & E & -> & Hfirst).
  revert i Hf Hb. revert h E Hfirst. induction pre as [|x pre IH]; intros h E Hfirst i Hf Hb.
  - rewrite len_nil in *. assert (Hp : starts_with h n = true).
    { rewrite <- (starts_with_app h n more), E; [apply starts_with_spec; by exists post|]. unfold len in Hb. lia. }
    destruct h as [|y h]; cbn [find_from]; rewrite Hp; f_equal; lia.
  - rewrite len_cons in *. pose proof (len_nonneg pre). pose proof (len_nonneg n).
    destruct h as [|y h]; [rewrite len_nil in Hb; lia|]. cbn [app] in E. injection E as <- E. rewrite len_cons in Hb.
    cbn [find_from app] in *. pose proof (Hfirst O ltac:(cbn [length]; lia)) as Hhd. cbn [drop] in Hhd.
    rename Hhd into Hx.
    rewrite Hx in Hf. rewrite <- (starts_with_app (y :: h) n more) by (unfold len in Hb; cbn [length]; lia).
    cbn [app]. rewrite Hx. replace (i + (1 + len pre)) with (i + 1 + len pre) in * by lia.
    apply IH; [done| |done|lia]. intros k Hk. apply (Hfirst (S k)). cbn [length]. lia.
Qed.

(** A head is undecided, or what it is with whatever comes behind. *)
Lemma parse_head_stable buffer more :
  parse_head buffer config = Ok None \/ parse_head (buffer ++ more) config = parse_head buffer config.
Proof.
  unfold parse_head, find_subslice. destruct (find_from buffer CRLF2 0) as [e|] eqn:Hf.
  - right. rewrite (find_from_app _ _ _ _ more Hf). pose proof (find_from_bound _ _ _ _ Hf) as Hb.
    change (len CRLF2) with 4 in Hb. rewrite take_app_le; [done|]. unfold len in Hb. lia.
  - destruct (Z.gtb_spec (len buffer) (max_header_size config)) as [Hgt|]; [right|by left].
    rewrite len_app. pose proof (len_nonneg more).
    destruct (find_from (buffer ++ more) CRLF2 0) as [e|] eqn:Hm.
    + destruct (Z.gtb_spec (e + 4) (max_header_size config)) as [|Hle]; [done|].
      apply find_from_earlier in Hm; [congruence|]. change (len CRLF2) with 4. lia.
    + destruct (Z.gtb_spec (len buffer + len more) (max_header_size config)); [done|lia].
Qed.

Lemma parse_request_stable buffer more :
  len (buffer ++ more) < USIZE_MAX -> 0 <= max_request_size config ->
  parse_request buffer config = (buffer, Ok None) \/
  exists rest r, parse_request buffer config = (rest, r) /\ r <> Ok None /\
    parse_request (buffer ++ more) config = (rest ++ more, r) /\
    (forall req, r = Ok (Some req) -> (length rest < length buffer)%nat).
Proof.
  intros Hlen Hmax. rewrite len_app in Hlen. pose proof (len_nonneg more).
  destruct (parse_head_stable buffer more) as [Hn|Hs]; [left; unfold parse_request; by rewrite Hn|].
  destruct (parse_request buffer config) as [rest r] eqn:E. destruct r as [[req|]|e].
  - right. exists rest, (Ok (Some req)). assert (Hl : len buffer < USIZE_MAX) by lia.
    destruct (parse_request_incremental _ _ _ _ Hl Hmax E) as [(head & hb & _ & Hb & _) Hm].
    split_and!; [done..|]. intros _ _. apply (f_equal length) in Hb. rewrite !length_app in Hb. change (length CRLF2) with 4%nat in Hb. lia.
  - left. unfold parse_request in *. destruct (parse_head buffer config) as [[h|]|]; [|congruence|done].
    destruct (len buffer <? _); congruence.
  - right. exists rest, (Err e). split_and!; [done..| |done]. unfold parse_request in *. rewrite Hs.
    destruct (parse_head buffer config) as [[h|]|]; [|done|congruence].
    destruct (len buffer <? _); congruence.
Qed.

Lemma parse_request_shortens buffer rest req :
  0 <= max_request_size config -> parse_request buffer config = (rest, Ok (Some req)) -> (length rest < length buffer)%nat.
Proof.
  intros Hmax. unfold parse_request. destruct (parse_head buffer config) as [[h|]|] eqn:Hh; [|done..].
  destruct (len buffer <? _) eqn:Hl; [done|]. intros [= <- _]. zbool.
  destruct (parse_head_ok _ _ _ Hh) as (hb & Hb & Hok).
  pose proof (head_ok_len _ _ _ Hok) as Hlen. pose proof (announced_bounds _ _ _ (head_ok_length _ _ _ Hok) Hmax) as Hcl.
  apply (f_equal length) in Hb. rewrite !length_app in Hb. change (length CRLF2) with 4%nat in Hb.
  rewrite length_drop. unfold saturating_add_usize in *. pose proof (len_nonneg hb). assert (Hpos : 1 <= USIZE_MAX) by done.
  assert (1 <= Z.min (header_len h + content_length h) USIZE_MAX) by (apply Z.min_glb; lia).
  set (n := Z.min _ _) in *. clearbody n. unfold len in *. lia.
Qed.
End Parsing.

(** What a read delivers and leaves is less than there was. *)
Lemma read_shrinks r n r' d : 0 < n -> read r n = (r', ReadOk d) -> d <> [] ->
  (length d + 2 * reader_size r' < 2 * reader_size r)%nat.
Proof.
  intros Hn. unfold read. destruct r as [|[e| |] r]; try done.
  - by intros [= _ <-].
  - unfold len. destruct (Z.leb_spec (Z.of_nat (length e)) n); intros [= <- <-] Hne; cbn [reader_size event_size]; [lia|].
    rewrite length_take, length_drop. lia.
Qed.

(** ** Writing does not read *)

(** [m] neither looks at what is to be read nor changes it. *)
Definition blind {E A} (m : ST Io E A) : Prop := forall io r,
  m (mkIo (wire io) (faults io) r) =
  (let '(io', x) := m io in (mkIo (wire io') (faults io') r, x)) /\ incoming (fst (m io)) = incoming io.

Lemma blind_ret {E A} (a : A) : blind (E := E) (st_ret a).
Proof. done. Qed.
Lemma blind_err {E A} (e : E) : blind (A := A) (st_err e).
Proof. done. Qed.
Lemma blind_res {E A} (x : result A E) : blind (st_res x).
Proof. done. Qed.
Lemma blind_bind {E A B} (m : ST Io E A) (k : A -> ST Io E B) :
  blind m -> (forall a, blind (k a)) -> blind (st_bind m k).
Proof.
  intros Hm Hk io r. unfold st_bind. destruct (Hm io r) as [-> Hi]. destruct (m io) as [io' [a|e]].
  - destruct (Hk a io' r) as [-> Hj]. cbn [fst] in Hi. by rewrite Hj.
  - done.
Qed.
Lemma blind_write d : blind (write_all d).
Proof. intros io r. unfold write_all, io_write. cbn [faults wire incoming]. by destruct (faults io) as [|[]]. Qed.
Lemma blind_flush : blind flush.
Proof. intros io r. unfold flush, io_flush. cbn [faults wire incoming]. destruct (faults io) as [|[]] eqn:E; cbn; by rewrite ?E. Qed.

Create HintDb blind.
#[export] Hint Resolve blind_ret blind_err blind_res blind_write blind_flush : blind.
Ltac blind := repeat first [ solve [eauto with blind] | apply blind_bind; [|intros ?] | case_match ].

Lemma blind_chunks fuel chunked r : blind (write_chunked_loop fuel chunked r).
Proof. revert r. induction fuel as [|fuel IH]; intros r; cbn [write_chunked_loop]; blind. Qed.
Lemma blind_file fuel r : blind (copy_file fuel r).
Proof. revert r. induction fuel as [|fuel IH]; intros r; cbn [copy_file]; blind. Qed.
Lemma blind_range fuel r n : blind (copy_range fuel r n).
Proof. revert r n. induction fuel as [|fuel IH]; intros r n; cbn [copy_range]; blind. Qed.
#[export] Hint Resolve blind_chunks blind_file blind_range : blind.

Lemma blind_send gz_reader file_at resp : blind (send_to gz_reader file_at resp).
Proof. unfold send_to, send_body, write_chunked. blind. Qed.

(** ** The reference: the input as a whole *)

Section Connection.
Context `{UnicodeCase} {services : Services} `{!ServicesLaws services}.
Context (gz_reader : Reader -> Z -> Reader) (file_at : bytes -> Z -> option Reader) (error_text : IoErr -> bytes).
Context (config : ServerConfig) (peer : SocketAddr) (secure : bool).

Abbreviation send := (send gz_reader file_at).
Abbreviation serve_request := (serve_request gz_reader file_at error_text config peer secure).
Abbreviation serve_round := (serve_round gz_reader file_at error_text config peer secure).
Abbreviation serve_requests := (serve_requests gz_reader file_at error_text config peer secure).
Abbreviation serve_stream := (serve_stream gz_reader file_at error_text config peer secure).

(** A connection with nothing left to read. *)
Definition unread (w : Serving Shared) : Serving Shared :=
  mkServing _ (mkIo (wire (stream w)) (faults (stream w)) []) (process w).

(** The answers to everything a client sends, taken from the whole of it: each
    request is answered by the handler, the last one - of its kind or because
    there may be no more - with an announcement that the connection ends; a
    malformed request ends it with an error. *)
Fixpoint answer_stream (fuel : nat) (input : bytes) (count : Z) (w : Serving Shared) : Serving Shared * Served :=
  match fuel with
  | O => (w, OutOfFuel)
  | S fuel =>
      match parse_request input config with
      | (_, Ok None) => (w, Finished)
      | (_, Err ConnectionClosed) => (w, Finished)
      | (_, Err e) => (fst (send (status_answer (status_from_error e)) w), Finished)
      | (rest, Ok (Some req)) =>
          match handle_request config req peer (process w) with
          | None => (w, Panicked)
          | Some (p, resp) =>
              let last := (max_requests_per_connection config <=? count + 1) || negb (is_keep_alive req) in
              let '(w, sent) := send (set_close_connection resp last) (mkServing _ (stream w) p) in
              if negb sent || last then (w, Finished) else answer_stream fuel rest (count + 1) w
          end
      end
  end.

(** No route concerns the requests of this connection. *)
Definition unrouted : Prop := forall req p,
  proxy_matches req (effective_config config req) = false /\ fastcgi_matches p req (effective_config config req) = false.

Lemma send_unread resp w :
  send resp (unread w) = (unread (fst (send resp w)), snd (send resp w)) /\
  incoming (stream (fst (send resp w))) = incoming (stream w).
Proof.
  unfold Listener.send, unread. cbn [stream process].
  destruct (blind_send gz_reader file_at resp (stream w) []) as [-> Hi].
  destruct (send_to gz_reader file_at resp (stream w)) as [io x]. done.
Qed.

Lemma unrouted_streaming buf w : unrouted -> serve_streaming gz_reader file_at config peer secure buf w = (w, Some buf).
Proof.
  intros Hu. unfold serve_streaming. destruct (parse_head buf config) as [[head|]|]; [|done..].
  destruct (Hu (into_request head []) (process w)) as [-> ->]. done.
Qed.

Lemma unrouted_request req count buf w : unrouted ->
  serve_request req count buf w =
  match handle_request config req peer (process w) with
  | None => (w, Panic)
  | Some (p, resp) =>
      let last := (max_requests_per_connection config <=? count) || negb (is_keep_alive req) in
      let '(w, sent) := send (set_close_connection resp last) (mkServing _ (stream w) p) in
      (w, if negb sent || last then Break else Continue buf count)
  end.
Proof.
  intros Hu. unfold Listener.serve_request. destruct (Hu req (process w)) as [Hp Hf].
  unfold st_bind. rewrite proxy_declines, fastcgi_declines by done. done.
Qed.

(** A read of more bytes that are there, or the end. *)
Lemma serve_read_clean buf count w :
  reader_clean (incoming (stream w)) ->
  let '(w', flow) := serve_read gz_reader file_at buf count w in
  unread w' = unread w /\
  (reader_bytes (incoming (stream w)) = [] /\ flow = Break \/
   exists d, flow = Continue (buf ++ d) count /\ reader_clean (incoming (stream w')) /\
     reader_bytes (incoming (stream w)) = d ++ reader_bytes (incoming (stream w')) /\
     (length d + 2 * reader_size (incoming (stream w')) < 2 * reader_size (incoming (stream w)))%nat).
Proof.
  intros Hc. unfold serve_read, io_read. destruct (read_clean 1024 _ ltac:(lia) Hc) as [Hn|(d & r' & E & Hd & Hne & Hc' & Hs & Hb)].
  - rewrite Hn. cbn. split; [done|by left].
  - rewrite E. destruct d as [|b d]; [done|]. split; [done|]. right. exists (b :: d). split_and!; [done..|].
    cbn [stream incoming]. by eapply read_shrinks; [|exact E|].
Qed.

Lemma requests_answered fuel buf count w n :
  unrouted -> 0 <= max_request_size config -> reader_clean (incoming (stream w)) ->
  len (buf ++ reader_bytes (incoming (stream w))) < USIZE_MAX ->
  (length buf + 2 * reader_size (incoming (stream w)) < fuel)%nat ->
  (length (buf ++ reader_bytes (incoming (stream w))) < n)%nat ->
  let '(w1, r1) := serve_requests fuel buf count w in
  answer_stream n (buf ++ reader_bytes (incoming (stream w))) count (unread w) = (unread w1, r1).
Proof.
  intros Hu Hmax. revert buf count w n. induction fuel as [|fuel IH]; intros buf count w n Hc Hlen Hf Hn; [lia|].
  cbn [Listener.serve_requests]. unfold Listener.serve_round. rewrite unrouted_streaming by done.
  destruct (parse_request_stable config buf _ Hlen Hmax) as [Hp|(rest & r & Hp & Hr & Hm & Hshort)]; rewrite Hp.
  - pose proof (serve_read_clean buf count w Hc) as Hread.
    destruct (serve_read gz_reader file_at buf count w) as [w' flow]. destruct Hread as [Hw [[He ->]|(d & -> & Hc' & Hb & Hs)]].
    + rewrite He, app_nil_r in *. destruct n as [|n]; [lia|]. cbn [answer_stream]. by rewrite Hp, Hw.
    + rewrite Hb, app_assoc in *. rewrite <- Hw. apply IH; [done..| |done]. rewrite length_app. lia.
  - destruct n as [|n]; [lia|]. cbn [answer_stream]. rewrite Hm. destruct r as [[req|]|e]; [|done|].
    + rewrite unrouted_request by done. destruct (handle_request config req peer (process w)) as [[p resp]|] eqn:Hh;
        cbn [process unread]; rewrite Hh; [|done].
      cbv zeta. set (last := _ || negb (is_keep_alive req)).
      destruct (send_unread (set_close_connection resp last) (mkServing _ (stream w) p)) as [Hs Hi].
      unfold unread in Hs at 1. cbn [stream process] in Hs. cbn [stream unread]. rewrite Hs.
      destruct (send (set_close_connection resp last) (mkServing _ (stream w) p)) as [w' sent]. cbn [fst snd] in *.
      destruct (negb sent || last); [done|]. cbn [stream] in Hi. specialize (Hshort req eq_refl). rewrite !length_app in *.
      rewrite <- Hi. apply IH; rewrite ?Hi; [done| |lia|rewrite length_app; lia].
      rewrite !len_app in *. unfold len in *. lia.
    + destruct (decide (e = ConnectionClosed)) as [->|Hne]; [done|].
      destruct (send_unread (status_answer (status_from_error e)) w) as [Hs _].
      destruct e; try done; by rewrite Hs.
Qed.

(** ** The protocol *)

(** The bytes taken to find out the protocol, against the whole of what the
    client sends. *)
Definition detected (late : Prop) (io io' : Io) (buf : bytes) (h2 : bool) : Prop :=
  wire io' = wire io /\ faults io' = faults io /\ reader_clean (incoming io') /\
  if h2 then starts_with buf CLIENT_PREFACE = true
  else late \/ starts_with (buf ++ reader_bytes (incoming io')) CLIENT_PREFACE = false.

Lemma preface_starts buf more : len CLIENT_PREFACE <= len buf ->
  bytes_eqb (take (length CLIENT_PREFACE) buf) CLIENT_PREFACE = starts_with buf CLIENT_PREFACE /\
  starts_with (buf ++ more) CLIENT_PREFACE = starts_with buf CLIENT_PREFACE.
Proof.
  intros Hl. split; [|apply starts_with_app; unfold len in Hl; lia].
  apply Bool.eq_iff_eq_true. rewrite bytes_eqb_eq, starts_with_spec. split.
  - intros <-. exists (drop (length CLIENT_PREFACE) buf). by rewrite take_drop.
  - intros [r ->]. by rewrite take_app_length.
Qed.

Lemma read_preface_clean fuel clock deadline buf io :
  reader_clean (incoming io) -> (reader_size (incoming io) < fuel)%nat -> starts_with CLIENT_PREFACE buf = true ->
  match read_preface fuel clock deadline buf io with
  | (io', None) =>
      wire io' = wire io /\ faults io' = faults io /\
      starts_with CLIENT_PREFACE (buf ++ reader_bytes (incoming io)) = true /\
      len (buf ++ reader_bytes (incoming io)) < len CLIENT_PREFACE
  | (io', Some (buf', h2)) =>
      buf' ++ reader_bytes (incoming io') = buf ++ reader_bytes (incoming io) /\
      detected (exists n, deadline <= clock n) io io' buf' h2
  end.
Proof.
  revert clock buf io. induction fuel as [|fuel IH]; intros clock buf io Hc Hf Hp; [lia|]. cbn [read_preface].
  assert (Hfull : forall io' buf', len CLIENT_PREFACE <= len buf' -> wire io' = wire io -> faults io' = faults io ->
    reader_clean (incoming io') ->
    detected (exists n, deadline <= clock n) io io' buf' (bytes_eqb (take (length CLIENT_PREFACE) buf') CLIENT_PREFACE)).
  { intros io' buf' Hl Hw Hfl Hc'. destruct (preface_starts buf' (reader_bytes (incoming io')) Hl) as [-> Hs].
    unfold detected. rewrite Hs. split_and!; [done..|]. destruct (starts_with buf' CLIENT_PREFACE) eqn:E; [done|by right]. }
  destruct (Z.leb_spec (len CLIENT_PREFACE) (len buf)) as [Hl|Hshort]; [split; [done|by apply Hfull]|].
  unfold io_read. destruct (read_clean 1024 _ ltac:(lia) Hc) as [Hn|(d & r & E & Hd & Hne & Hc' & Hs & Hb)].
  { rewrite Hn. cbn [read]. cbn [reader_bytes wire faults]. by rewrite app_nil_r. }
  rewrite E, Hb. destruct d as [|b d]; [done|]. rewrite app_assoc. set (buf' := buf ++ b :: d).
  destruct (Z.leb_spec (len CLIENT_PREFACE) (len buf')) as [Hl|Hl]; [split; [done|by apply Hfull]|].
  destruct (starts_with CLIENT_PREFACE buf') eqn:Hpre; cbn [negb].
  - destruct (Z.leb_spec deadline (clock O)).
    + split; [done|]. split_and!; [done..|]. left. by eexists.
    + specialize (IH (fun n => clock (S n)) buf' (mkIo (wire io) (faults io) r) Hc' ltac:(cbn [incoming]; lia) Hpre).
      cbn [incoming wire faults] in IH. destruct (read_preface _ _ _ _ _) as [io' [[b' h2]|]]; [|exact IH].
      destruct IH as (Hbytes & Hw & Hfl & Hcl & Hx). split; [done|]. split_and!; [done..|]. destruct h2; [done|].
      destruct Hx as [[n Hn]|]; [|by right]. left. by exists (S n).
  - split; [done|]. split_and!; [done..|]. right. cbn [incoming].
    destruct (starts_with (buf' ++ reader_bytes r) CLIENT_PREFACE) eqn:Hx; [exfalso|done].
    apply starts_with_spec in Hx as [t Ht]. apply not_true_iff_false in Hpre. apply Hpre, starts_with_spec.
    exists (drop (length buf') CLIENT_PREFACE). rewrite <- (take_drop (length buf') CLIENT_PREFACE) at 1. f_equal.
    apply (f_equal (take (length buf'))) in Ht. rewrite take_app_length, take_app_le in Ht; [by symmetry|]. unfold len in Hl. lia.
Qed.

Lemma detect_clean clock io :
  let input := reader_bytes (incoming io) in
  reader_clean (incoming io) ->
  match detect_protocol config clock io with
  | (io', None) =>
      wire io' = wire io /\ faults io' = faults io /\
      (input = [] \/ http2_enabled config = true /\ starts_with CLIENT_PREFACE input = true /\ len input < len CLIENT_PREFACE)
  | (io', Some (buf, h2)) =>
      buf ++ reader_bytes (incoming io') = input /\ (h2 = true -> http2_enabled config = true) /\
      detected (http2_enabled config = false \/ exists n, clock O + 1000000000 <= clock n) io io' buf h2
  end.
Proof.
  intros input Hc. unfold detect_protocol. destruct (http2_enabled config).
  - pose proof (read_preface_clean (S (reader_size (incoming io))) (fun n => clock (S n)) (clock O + 1000000000) [] io Hc ltac:(lia) eq_refl) as Hp.
    destruct (read_preface _ _ _ _ _) as [io' [[buf h2]|]]; [|destruct Hp as (? & ? & Hp); split_and!; [done..|by right]].
    destruct Hp as (Hb & Hw & Hf & Hcl & Hx). split_and!; [done..|]. split_and!; [done..|]. destruct h2; [done|].
    destruct Hx as [[n Hn]|]; [left; right; by exists (S n)|by right].
  - unfold read_first, io_read. destruct (read_clean 1024 _ ltac:(lia) Hc) as [Hn|(d & r & E & Hd & Hne & Hc' & Hs & Hb)].
    + unfold input. rewrite Hn. cbn [read wire faults]. split_and!; [done..|by left].
    + rewrite E. destruct d as [|b d]; [done|]. split_and!; [by symmetry|done|]. split_and!; [done..|]. left. by left.
Qed.


(** ** Serving ends *)

(** What is left for the rounds to come. *)
Definition to_serve (buf : bytes) (w : Serving Shared) : nat := (length buf + 2 * reader_size (incoming (stream w)))%nat.

Lemma send_reads resp w : incoming (stream (fst (send resp w))) = incoming (stream w).
Proof. apply send_unread. Qed.

Lemma streaming_shrinks buf w w' buf' :
  serve_streaming gz_reader file_at config peer secure buf w = (w', Some buf') -> (to_serve buf' w' <= to_serve buf w)%nat.
Proof.
  unfold serve_streaming. destruct (parse_head buf config) as [[head|]|]; [|by intros [= <- <-]..].
  destruct (_ && _); [|by intros [= <- <-]]. cbv zeta.
  set (entry := if proxy_matches _ _ then _ else _). set (left := drop _ buf).
  destruct (entry left head (effective_config config (into_request head [])) peer secure w) as [w1 [[b [a|]]|e]] eqn:E;
    [done| |by destruct (send _ _)].
  intros [= <- <-]. unfold entry in E.
  destruct (streams_read left head (effective_config config (into_request head [])) peer secure w w1 (Ok (b, None))) as [Hr Hl].
  { destruct (proxy_matches _ _); [by left|by right]. }
  specialize (Hl _ eq_refl). unfold to_serve, left in *. rewrite length_drop in Hl. lia.
Qed.

Lemma request_shrinks req count buf w w' buf' count' :
  serve_request req count buf w = (w', Continue buf' count') -> (to_serve buf' w' <= to_serve buf w)%nat /\ buf' = buf.
Proof.
  unfold Listener.serve_request, st_bind. set (eff := effective_config config req).
  destruct (proxy_handles req eff peer secure w) as [w1 r1] eqn:E1. pose proof (entries_read _ _ _ _ _ _ _ (or_introl E1)) as H1.
  assert (Hanswer : forall w2, (reader_size (incoming (stream w2)) <= reader_size (incoming (stream w)))%nat ->
    match handle_request config req peer (process w2) with
    | None => (w2, Panic)
    | Some (p, resp) =>
        let '(w3, sent) := send (set_close_connection resp ((max_requests_per_connection config <=? count) || negb (is_keep_alive req)))
                             (mkServing _ (stream w2) p) in
        (w3, if negb sent || ((max_requests_per_connection config <=? count) || negb (is_keep_alive req)) then Break else Continue buf count)
    end = (w', Continue buf' count') -> (to_serve buf' w' <= to_serve buf w)%nat /\ buf' = buf).
  { intros w2 Hw. destruct (handle_request _ _ _ _) as [[p resp]|]; [|done].
    set (x := set_close_connection _ _). pose proof (send_reads x (mkServing _ (stream w2) p)) as Hs. cbn [stream] in Hs.
    destruct (send x _) as [w3 sent]. cbn [fst] in Hs. destruct (negb sent || _); [done|]. intros [= <- <- <-].
    split; [|done]. unfold to_serve. rewrite Hs. lia. }
  destruct r1 as [[b|]|e]; cbv beta iota zeta; [done| |by destruct (send _ _)].
  destruct (fastcgi_handles req eff peer secure w1) as [w2 r2] eqn:E2. pose proof (entries_read _ _ _ _ _ _ _ (or_intror E2)) as H2.
  destruct r2 as [[b|]|e]; [done| |by destruct (send _ _)]. apply Hanswer. lia.
Qed.

Lemma round_shrinks buf count w w' buf' count' :
  0 <= max_request_size config ->
  serve_round buf count w = (w', Continue buf' count') -> (to_serve buf' w' < to_serve buf w)%nat.
Proof.
  intros Hmax. unfold Listener.serve_round.
  destruct (serve_streaming _ _ _ _ _ buf w) as [w1 [b|]] eqn:E1; [|done]. apply streaming_shrinks in E1.
  destruct (parse_request b config) as [rest [[req|]|e]] eqn:Hp; [| |destruct e; done].
  - intros E. apply request_shrinks in E as [Hs ->]. apply parse_request_shortens in Hp; [|done]. unfold to_serve in *. lia.
  - assert (b = rest) as <-.
    { unfold parse_request in Hp. destruct (parse_head b config) as [[h|]|]; [|congruence|done]. destruct (_ <? _); congruence. }
    unfold serve_read, io_read. destruct (read (incoming (stream w1)) 1024) as [r [[|y d]| |]] eqn:Hr; [done| |by destruct (bytes_eqb b [])|done].
    intros [= <- <- <-]. apply read_shrinks in Hr; [|lia|done]. unfold to_serve in *. cbn [stream incoming]. rewrite length_app. lia.
Qed.

Lemma requests_end fuel buf count w :
  0 <= max_request_size config -> (to_serve buf w < fuel)%nat ->
  snd (serve_requests fuel buf count w) <> OutOfFuel /\
  forall extra, serve_requests (fuel + extra) buf count w = serve_requests fuel buf count w.
Proof.
  intros Hmax. revert buf count w. induction fuel as [|fuel IH]; intros buf count w Hf; [lia|].
  cbn [Listener.serve_requests Nat.add]. destruct (serve_round buf count w) as [w' [| |buf' count']] eqn:E; [by split..|].
  apply round_shrinks in E; [|done]. apply IH. lia.
Qed.

Lemma preface_ends fuel clock deadline buf io extra :
  (reader_size (incoming io) < fuel)%nat -> read_preface (fuel + extra) clock deadline buf io = read_preface fuel clock deadline buf io.
Proof.
  revert clock buf io. induction fuel as [|fuel IH]; intros clock buf io Hf; [lia|]. cbn [read_preface Nat.add].
  destruct (_ <=? _); [done|]. unfold io_read. destruct (read (incoming io) 1024) as [r x] eqn:E.
  assert (Hpos : 0 < 1024) by lia. destruct (read_size _ _ _ _ Hpos E) as [Hn|Hs].
  - rewrite Hn in E. injection E as <- <-. done.
  - destruct x as [[|b d]| |]; [done| | |done]; repeat (case_match; [done|]); apply IH; cbn [incoming]; lia.
Qed.

(** Serving a connection ends, whatever the client and the
    parts do: each round takes something from what the client still says, and
    with more fuel than that neither the search for the preface nor the loop
    over the requests would do anything else. *)
Theorem serving_ends clock w :
  0 <= max_request_size config ->
  snd (serve_stream clock w) <> OutOfFuel /\
  (forall deadline buf extra, read_preface (S (reader_size (incoming (stream w))) + extra) clock deadline buf (stream w) =
     read_preface (S (reader_size (incoming (stream w)))) clock deadline buf (stream w)) /\
  (forall buf count extra, serve_requests (serve_fuel buf w + extra) buf count w = serve_requests (serve_fuel buf w) buf count w).
Proof.
  intros Hmax. split_and!.
  - unfold Listener.serve_stream. destruct (detect_protocol config clock (stream w)) as [io [[buf []]|]]; [|apply requests_end|done].
    + by destruct (serve_h2 _ _ _ _ _).
    + done.
    + unfold serve_fuel, to_serve. lia.
  - intros. apply preface_ends. lia.
  - intros. apply requests_end; [done|]. unfold serve_fuel, to_serve. lia.
Qed.
End Connection.

(** ** What serving a connection keeps

    A relation between the process before and after that every part keeps holds
    of the whole connection, whatever its protocol; [known] is what the parts
    rely on in a configuration. *)
Class ServicesKeep `{UnicodeCase} (services : Services) (R : relation Shared) (known : ServerConfig -> Prop) : Prop := {
  services_preorder :: PreOrder R;
  services_config config req : known config -> known (effective_config config req);
  services_handler config req peer p p' resp : known config -> handle_request config req peer p = Some (p', resp) -> R p p';
  services_h2 config buf peer secure w w' : known config -> serve_h2 config buf peer secure w = Some w' -> R (process w) (process w');
  services_entries req config peer secure w w' r : known config ->
    proxy_handles req config peer secure w = (w', r) \/ fastcgi_handles req config peer secure w = (w', r) -> R (process w) (process w');
  services_streams buf head config peer secure w w' r : known config ->
    proxy_streams buf head config peer secure w = (w', r) \/ fastcgi_streams buf head config peer secure w = (w', r) ->
    R (process w) (process w');
}.

Section Keeps.
Context `{UnicodeCase} {services : Services} (R : relation Shared) (known : ServerConfig -> Prop) `{!ServicesKeep services R known}.
Context (gz_reader : Reader -> Z -> Reader) (file_at : bytes -> Z -> option Reader) (error_text : IoErr -> bytes).
Context (config : ServerConfig) (peer : SocketAddr) (secure : bool) (Hconfig : known config).
Abbreviation left_well := (fun w w' : Serving Shared => R (process w) (process w')).

Lemma send_keeps resp w : left_well w (fst (send gz_reader file_at resp w)).
Proof. unfold send. by destruct (send_to gz_reader file_at resp (stream w)). Qed.

Lemma streaming_keeps buf w : left_well w (fst (serve_streaming gz_reader file_at config peer secure buf w)).
Proof.
  unfold serve_streaming. destruct (parse_head buf config) as [[head|]|]; [|reflexivity..]. cbv zeta.
  destruct (_ && _); [|reflexivity]. set (entry := if proxy_matches _ _ then _ else _). set (eff := effective_config _ _).
  destruct (entry (drop (Z.to_nat (header_len head)) buf) head eff peer secure w) as [w1 r] eqn:E.
  assert (Hk : left_well w w1).
  { eapply services_streams; [|unfold entry in E; destruct (proxy_matches _ _); [left|right]; exact E]. by apply services_config. }
  destruct r as [[b [a|]]|e]; [exact Hk..|]. etrans; [exact Hk|apply send_keeps].
Qed.

Lemma request_keeps req count buf w : left_well w (fst (serve_request gz_reader file_at error_text config peer secure req count buf w)).
Proof.
  unfold serve_request, st_bind. set (eff := effective_config config req). assert (Heff : known eff) by by apply services_config.
  destruct (proxy_handles req eff peer secure w) as [w1 r1] eqn:E1.
  assert (H1 : left_well w w1) by (eapply services_entries; [exact Heff|by left]).
  etrans; [exact H1|]. destruct r1 as [[b|]|e]; [reflexivity| |apply send_keeps].
  destruct (fastcgi_handles req eff peer secure w1) as [w2 r2] eqn:E2.
  assert (H2 : left_well w1 w2) by (eapply services_entries; [exact Heff|by right]).
  etrans; [exact H2|]. destruct r2 as [[b|]|e]; [reflexivity| |apply send_keeps].
  destruct (handle_request config req peer (process w2)) as [[p resp]|] eqn:E3; [|reflexivity].
  apply services_handler in E3; [|exact Hconfig]. set (w3 := mkServing _ (stream w2) p). set (x := set_close_connection _ _).
  pose proof (send_keeps x w3) as Hs. destruct (send gz_reader file_at x w3) as [w4 sent]. by etrans.
Qed.

Lemma round_keeps buf count w : left_well w (fst (serve_round gz_reader file_at error_text config peer secure buf count w)).
Proof.
  unfold serve_round. pose proof (streaming_keeps buf w) as Hs.
  destruct (serve_streaming _ _ _ _ _ buf w) as [w1 [b|]]; [|exact Hs]. etrans; [exact Hs|].
  destruct (parse_request b config) as [rest [[req|]|e]]; [apply request_keeps| |].
  - unfold serve_read. destruct (io_read (stream w1) 1024) as [io [[|x d]| |]]; [reflexivity..| |reflexivity].
    destruct (bytes_eqb rest []); [reflexivity|]. etrans; [|apply send_keeps]. reflexivity.
  - destruct e; first [reflexivity|apply send_keeps].
Qed.

Lemma requests_keep fuel buf count w : left_well w (fst (serve_requests gz_reader file_at error_text config peer secure fuel buf count w)).
Proof.
  revert buf count w. induction fuel as [|fuel IH]; intros buf count w; cbn [serve_requests]; [reflexivity|].
  pose proof (round_keeps buf count w) as Hr. destruct (serve_round _ _ _ _ _ _ buf count w) as [w1 [| |b n]]; [exact Hr..|].
  etrans; [exact Hr|apply IH].
Qed.

Lemma serve_stream_keeps clock w : left_well w (fst (serve_stream gz_reader file_at error_text config peer secure clock w)).
Proof.
  unfold serve_stream. destruct (detect_protocol config clock (stream w)) as [io [[buf [|]]|]]; [| |reflexivity].
  - destruct (serve_h2 config buf peer secure (mkServing _ io (process w))) as [w'|] eqn:E; [|reflexivity].
    by apply services_h2 in E.
  - etrans; [|apply requests_keep]. reflexivity.
Qed.
End Keeps.
