(* ===== verification/BackendProps.v ===== *)
(** * A connection and what lies behind it

    What the HTTP/2 driver does to its backend, whatever the backend is: a
    relation that every call of the backend keeps holds between the beginning and
    the end of a connection, and a file body waiting to be sent is the rest of a
    file some answer of the handler carried. *)

From S2P Require Import Prelude RustStd Io Config Http Frame Hpack H2Headers Stream Handler HandlerProps Connection ProxyWorld.

Section Backend.
Context `{UnicodeCase} {B : Backend}.

(** ** What the calls keep *)

Definition no_file (r : result (option UpstreamHead) unit) : Prop :=
  forall response reader length, r = Ok (Some (response, reader, length)) -> body_file (body_source response) = None.

(** [R] relates the environments before and after a call; [good] is a property of
    environments it carries along; [known] holds of the configurations requests
    are answered with, and [fine] of a stream's request and the handler's answer to
    [peer] for it in a good environment.  The body of an upstream's response is its
    reader's. *)
Class BackendKeeps (peer : option SocketAddr) (R : relation Env) (good : Env -> Prop) (known : ServerConfig -> Prop)
  (fine : HttpRequest -> HttpResponse -> Prop) : Prop := {
  keeps_preorder :: PreOrder R;
  keeps_good e e' : R e e' -> good e -> good e';
  keeps_config e req : R e (fst (effective_config e req)) /\ known (snd (effective_config e req));
  keeps_answer e req : R e (fst (handle_request e req peer)) /\ (good e -> fine req (snd (handle_request e req peer)));
  keeps_proxy e req cfg from secure : known cfg -> R e (fst (proxy_begin_h2_response e req cfg from secure));
  keeps_proxy_poll e p : R e (fst (fst (proxy_poll e p))) /\ no_file (snd (proxy_poll e p));
  keeps_script e req cfg secure from : known cfg -> R e (fst (fastcgi_begin_h2_response e req cfg secure from));
  keeps_script_poll e p : R e (fst (fst (fastcgi_poll e p))) /\ no_file (snd (fastcgi_poll e p));
  keeps_file e : R e (fst (file_op e));
}.

Context (peer : option SocketAddr) (R : relation Env) (good : Env -> Prop) (known : ServerConfig -> Prop) (fine : HttpRequest -> HttpResponse -> Prop).
Context `{!BackendKeeps peer R good known fine}.

(** An answer of the handler to the request of the stream. *)
Definition answer_for (sid : Z) (resp : HttpResponse) : Prop := exists st, id st = sid /\ fine (h2_request st) resp.

(** The other heads: an upstream's, and the refusals of the driver. *)
Definition from_elsewhere (resp : HttpResponse) : Prop :=
  (exists text, resp = Connection.bad_gateway text) \/
  exists e s s' response reader length, snd (poll_source e s) = (s', Ok (Some (response, reader, length))) /\
    body_source resp = body_source response.

(** A reader an upstream's response came with, or an encoder over it. *)
Definition upstream_reader (source : Reader) : Prop :=
  exists e s s' response reader length, snd (poll_source e s) = (s', Ok (Some (response, Some reader, length))) /\
    (source = reader \/ exists level, source = gz_encoder reader level).

(** What is left of a reader after some reads. *)
Definition drained : relation Reader := rtc (fun r r' => exists n x, read r n = (r', x)).

(** What waits for a stream is what is left of the body of an answer to its
    request, or not the handler's. *)
Definition answered (p : PendingResponse) : Prop :=
  match pr_body p with
  | PB_Bytes data _ => exists resp, body_source resp = BodyBytes data /\ (answer_for (pr_stream_id p) resp \/ from_elsewhere resp)
  | PB_File r _ =>
      exists resp content, answer_for (pr_stream_id p) resp /\ body_file (body_source resp) = Some content /\
        (r = [] \/ exists d, r = [RData d] /\ d `suffix_of` content)
  | PB_Reader r _ =>
      exists source, drained source r /\
        ((exists resp file size level, answer_for (pr_stream_id p) resp /\ body_source resp = BodyGzipFile file size level /\
            source = gz_encoder [RData file] level) \/
         upstream_reader source)
  end.

Definition files_answered (w : World) : Prop := Forall answered (pending_responses (conn w)).

(** What a part of the driver keeps; [P] is what is known of its argument. *)
Record kept (P : Prop) (w w' : World) : Prop := {
  kept_env : R (env w) (env w');
  kept_files : P -> good (env w) -> files_answered w -> files_answered w';
}.

#[local] Instance kept_preorder P : PreOrder (kept P).
Proof.
  split; [intros w; by constructor|]. intros x y z [Re1 F1] [Re2 F2]. split; [by etransitivity|].
  intros Hp Hg Hx. apply F2; [done|by eapply keeps_good|by apply F1].
Qed.

Lemma kept_mono (P Q : Prop) {A} (m : M A) : (P -> Q) -> respects (kept Q) m -> respects (kept P) m.
Proof. intros Hpq Hm w w' r E. apply Hm in E as [He Hf]. split; auto. Qed.

(** ** The parts of the driver *)

(** Neither the environment nor the queue of bodies. *)
Definition untouched : relation World :=
  fun w w' => env w' = env w /\ pending_responses (conn w') = pending_responses (conn w).
#[local] Instance untouched_preorder : PreOrder untouched.
Proof. split; [by intros w|]. intros x y z [E1 Q1] [E2 Q2]. split; congruence. Qed.

Lemma touch_gets {A} (f : Conn -> A) : respects untouched (gets f).
Proof. by intros w w' r [= <- _]. Qed.
Lemma touch_modc f : (forall c, pending_responses (f c) = pending_responses c) -> respects untouched (modc f).
Proof. intros Hf w w' r [= <- _]. by split; cbn [conn]. Qed.
Lemma touch_write f : respects untouched (write_frame f).
Proof. intros w w' r. unfold write_frame. destruct (io_write _ _). by intros [= <- _]. Qed.
Lemma touch_flush : respects untouched flush_io.
Proof. intros w w' r. unfold flush_io. destruct (io_flush _). by intros [= <- _]. Qed.

Lemma finish_stream_queue sid c : pending_responses (finish_stream sid c) = pending_responses c.
Proof. unfold finish_stream, mark_closed_stream. by case_bool_decide. Qed.
Lemma mark_closed_queue sid c : pending_responses (mark_closed_stream sid c) = pending_responses c.
Proof. unfold mark_closed_stream. by case_bool_decide. Qed.

Hint Resolve touch_gets touch_write touch_flush : respects.
Hint Extern 1 (respects untouched (modc (finish_stream _))) => apply touch_modc, finish_stream_queue : respects.
Hint Extern 2 (respects untouched (modc _)) => apply touch_modc; reflexivity : respects.

Lemma touch_continuations fuel sid max block offset : respects untouched (write_continuations fuel sid max block offset).
Proof. revert offset. induction fuel as [|fuel IH]; intros offset; cbn [write_continuations]; respects. Qed.
Hint Resolve touch_continuations : respects.

Lemma same_queue P w w' : untouched w w' -> kept P w w'.
Proof. intros [He Hq]. split; [by rewrite He|]. unfold files_answered. by rewrite Hq. Qed.

Lemma untouched_kept P {A} (m : M A) : respects untouched m -> respects (kept P) m.
Proof. intros Hm w w' r E. by eapply same_queue, Hm. Qed.

Lemma kept_gets P {A} (f : Conn -> A) : respects (kept P) (gets f).
Proof. apply untouched_kept, touch_gets. Qed.
Lemma kept_modc P f : (forall c, pending_responses (f c) = pending_responses c) -> respects (kept P) (modc f).
Proof. intros Hf. by apply untouched_kept, touch_modc. Qed.
Lemma kept_write P f : respects (kept P) (write_frame f).
Proof. apply untouched_kept, touch_write. Qed.
Lemma kept_try_write P f : respects (kept P) (try_write_frame f).
Proof. intros w w' r. unfold try_write_frame. intros [= <- _]. by apply same_queue. Qed.
Lemma kept_flush P : respects (kept P) flush_io.
Proof. apply untouched_kept, touch_flush. Qed.
Lemma kept_try_flush P : respects (kept P) try_flush.
Proof. intros w w' r. unfold try_flush. intros [= <- _]. by apply same_queue. Qed.

Lemma kept_call P {A} (f : Env -> Env * A) : (forall e, R e (fst (f e))) -> respects (kept P) (call f).
Proof.
  intros Hf w w' r. unfold call. destruct (f (env w)) as [e a] eqn:E. intros [= <- _].
  split; [cbn [env]|done]. specialize (Hf (env w)). by rewrite E in Hf.
Qed.

Lemma kept_push P p : (P -> answered p) -> respects (kept P) (modc (push_pending_response p)).
Proof.
  intros Hp w w' r [= <- _]. split; [done|]. intros HP _ Hw. unfold files_answered in *. cbn.
  apply Forall_app_2; [done|]. repeat constructor. auto.
Qed.

Hint Resolve kept_gets kept_write kept_try_write kept_flush kept_try_flush : respects.
Hint Extern 1 (respects (kept _) (modc (finish_stream _))) => apply kept_modc, finish_stream_queue : respects.
Hint Extern 1 (respects (kept _) (modc (mark_closed_stream _))) => apply kept_modc, mark_closed_queue : respects.
Hint Extern 2 (respects (kept _) (modc _)) => apply kept_modc; reflexivity : respects.

(** ** Answers *)

Lemma file_call_kept P : respects (kept P) file_call.
Proof. unfold file_call. apply along_bind; [apply _|apply kept_call, keeps_file|intros ok]. respects. Qed.
Hint Resolve file_call_kept : respects.

Lemma body_kept P b : respects (kept P) (pending_body_of b).
Proof. unfold pending_body_of. respects. Qed.
Hint Resolve body_kept : respects.

(** The body of a response as it is queued. *)
Definition queued_as (b : BodySource) (body : PendingBody) : Prop :=
  match b with
  | BodyBytes data => body = PB_Bytes data 0
  | BodyFile file sz => body = PB_File [RData file] sz
  | BodyFileRange file start length => body = PB_File [RData (drop (Z.to_nat start) file)] length
  | BodyGzipFile file _ level => body = PB_Reader (gz_encoder [RData file] level) None
  end.

Lemma body_queued b w w' body : pending_body_of b w = (w', Ok body) -> queued_as b body.
Proof.
  unfold pending_body_of. destruct b as [data|file size|file start size|file size level]; cbn [queued_as]; [by intros [= _ <-]|..];
    intros E; repeat (apply st_bind_inv in E as [(? & ? & _ & E)|(? & _ & [=])]); by injection E as _ <-.
Qed.

Definition answerable (sid : Z) (resp : HttpResponse) : Prop :=
  answer_for sid resp \/ from_elsewhere resp /\ body_file (body_source resp) = None.

Lemma body_answered sid resp w w' body :
  pending_body_of (body_source resp) w = (w', Ok body) -> answerable sid resp -> answered (mkPendingResponse sid body).
Proof.
  intros E%body_queued Ha. unfold answered. cbn [pr_body pr_stream_id].
  destruct (body_source resp) as [data|file size|file start size|file size level] eqn:Hb; cbn in E; subst body.
  - exists resp. split; [done|]. destruct Ha as [Ha|[Ha _]]; [by left|by right].
  - destruct Ha as [Ha|[_ Hno]]; [|by rewrite Hb in Hno]. exists resp, file. rewrite Hb. split_and!; [done..|]. right. by exists file.
  - destruct Ha as [Ha|[_ Hno]]; [|by rewrite Hb in Hno]. exists resp, file. rewrite Hb. split_and!; [done..|]. right. eexists. split; [done|]. by apply suffix_drop.
  - destruct Ha as [Ha|[_ Hno]]; [|by rewrite Hb in Hno]. eexists. split; [apply rtc_refl|]. left. by exists resp, file, size, level.
Qed.

Lemma continuations_kept P fuel sid max block offset : respects (kept P) (write_continuations fuel sid max block offset).
Proof. apply untouched_kept, touch_continuations. Qed.
Hint Resolve continuations_kept : respects.

(** The body of a stream response, or what the handler's answer carries. *)
Definition may_queue (sid : Z) (resp : HttpResponse) (dynamic : option PendingBody) : Prop :=
  match dynamic with Some body => answered (mkPendingResponse sid body) | None => answerable sid resp end.

Lemma queue_kept sid resp dynamic : respects (kept (may_queue sid resp dynamic)) (queue_h2_stream_response sid resp dynamic).
Proof.
  unfold queue_h2_stream_response. do 3 (apply along_bind; [apply _|respects|intros ?]).
  apply along_bind; [apply _| |intros ?; respects]. case_match; [respects|].
  assert (Hbody : respects (kept (may_queue sid resp dynamic)) (match dynamic with Some body => st_ret body | None => pending_body_of (body_source resp) end))
    by respects.
  intros w w' r E. apply st_bind_inv in E as [(body & w1 & E1 & E)|(e & E1 & _)]; [|by eapply Hbody].
  pose proof (Hbody _ _ _ E1) as H1. etrans; [exact H1|]. revert E. apply kept_push.
  destruct dynamic as [d|]; [by injection E1 as _ <-|]. intros Hq. by eapply body_answered.
Qed.

Lemma queue_response_kept st resp : respects (kept (fine (h2_request st) resp)) (queue_h2_response (id st) resp).
Proof. eapply kept_mono; [|apply queue_kept]. intros Hf. left. by exists st. Qed.

Lemma queue_gateway_kept P sid text : respects (kept P) (queue_h2_response sid (Connection.bad_gateway text)).
Proof. eapply kept_mono; [|apply queue_kept]. intros _. right. split; [|done]. left. by exists text. Qed.
Hint Resolve queue_gateway_kept : respects.

Lemma static_kept P st :
  respects (kept P) (let! resp := call (fun e => handle_request e (h2_request st) peer) in queue_h2_response (id st) resp).
Proof.
  intros w w' r. unfold st_bind, call. destruct (keeps_answer (env w) (h2_request st)) as [Hr Hfine].
  destruct (handle_request (env w) (h2_request st) peer) as [e resp]. cbn [fst snd] in Hr, Hfine. intros E.
  apply queue_response_kept in E as [He Hf]. split; [by etransitivity|].
  intros _ Hg Hw. apply Hf; [by apply Hfine| |exact Hw]. by eapply keeps_good.
Qed.
Hint Resolve static_kept : respects.

Lemma await_kept P req cfg sid source : respects (kept P) (await_upstream req cfg sid source).
Proof. unfold await_upstream. respects. Qed.
Hint Resolve await_kept : respects.

Lemma dispatch_kept P st : respects (kept P) (dispatch_h2_request st peer).
Proof.
  unfold dispatch_h2_request. do 3 (apply along_bind; [apply _|respects|intros ?]). cbv zeta.
  intros w w' r. unfold st_bind at 1, call at 1. destruct (keeps_config (env w) (h2_request st)) as [Hr Hk].
  destruct (effective_config (env w) (h2_request st)) as [e cfg]. cbn [fst snd] in Hr, Hk.
  intros E. transitivity (mkWorld (conn w) (io w) e); [by split|]. revert E.
  set (peer' := match peer with Some a => a | None => unspecified_addr end).
  assert (Hproxy : respects (kept P) (call (fun e => proxy_begin_h2_response e (h2_request st) cfg peer' a1)))
    by (apply kept_call; intros ?; by apply keeps_proxy).
  assert (Hscript : respects (kept P) (call (fun e => fastcgi_begin_h2_response e (h2_request st) cfg a1 peer')))
    by (apply kept_call; intros ?; by apply keeps_script).
  match goal with |- ?m _ = _ -> _ => assert (Hm : respects (kept P) m) by respects end. apply Hm.
Qed.
Hint Resolve dispatch_kept : respects.

(** ** What a dispatch queues *)

Section Dispatched.
Context (same : relation Env) `{!PreOrder same}.
Context (same_config : forall e req, same e (fst (effective_config e req))).
Context (same_proxy : forall e req cfg from secure, same e (fst (proxy_begin_h2_response e req cfg from secure))).
Context (same_script : forall e req cfg secure from, same e (fst (fastcgi_begin_h2_response e req cfg secure from))).

(** Nothing else is queued than [Q]. *)
Definition adds (Q : PendingResponse -> Prop) : relation World :=
  fun w w' => forall p, p ∈ pending_responses (conn w') -> p ∈ pending_responses (conn w) \/ Q p.
#[local] Instance adds_preorder Q : PreOrder (adds Q).
Proof. split; [by left|]. intros x y z H1 H2 p [Hp|Hp]%H2; [by apply H1|by right]. Qed.

(** Nothing is queued, and the environment stays the same. *)
Definition quiet : relation World :=
  fun w w' => same (env w) (env w') /\ pending_responses (conn w') = pending_responses (conn w).
#[local] Instance quiet_preorder : PreOrder quiet.
Proof. split; [by intros w|]. intros x y z [E1 Q1] [E2 Q2]. split; [by etrans|congruence]. Qed.

Lemma untouched_adds Q {A} (m : M A) : respects untouched m -> respects (adds Q) m.
Proof. intros Hm w w' r E p. apply Hm in E as [_ Hq]. rewrite Hq. by left. Qed.
Lemma call_adds Q {A} (f : Env -> Env * A) : respects (adds Q) (call f).
Proof. intros w w' r. unfold call. destruct (f (env w)). intros [= <- _] p. by left. Qed.
Lemma untouched_quiet {A} (m : M A) : respects untouched m -> respects quiet m.
Proof. intros Hm w w' r E. apply Hm in E as [He Hq]. split; [by rewrite He|exact Hq]. Qed.
Lemma call_quiet {A} (f : Env -> Env * A) : (forall e, same e (fst (f e))) -> respects quiet (call f).
Proof.
  intros Hf w w' r. unfold call. specialize (Hf (env w)). destruct (f (env w)). by intros [= <- _].
Qed.
Hint Extern 2 (respects (adds _) _) => apply untouched_adds; solve [auto with respects] : respects.
Hint Resolve call_adds : respects.

(** The body of a response, for its stream. *)
Definition queued_for (sid : Z) (resp : HttpResponse) (p : PendingResponse) : Prop :=
  pr_stream_id p = sid /\ queued_as (body_source resp) (pr_body p).

Lemma queue_adds sid resp : respects (adds (queued_for sid resp)) (queue_h2_response sid resp).
Proof.
  unfold queue_h2_response, queue_h2_stream_response. do 3 (apply along_bind; [apply _|respects|intros ?]).
  apply along_bind; [apply _| |intros ?; respects]. case_match; [respects|].
  assert (Hbody : respects (adds (queued_for sid resp)) (pending_body_of (body_source resp)))
    by (unfold pending_body_of, file_call; respects).
  intros w w' r E. apply st_bind_inv in E as [(body & w1 & E1 & E)|(e & E1 & _)]; [|by eapply Hbody].
  etrans; [by eapply Hbody|]. injection E as <- _. intros p. cbn. rewrite elem_of_app, list_elem_of_singleton.
  intros [Hp| ->]; [by left|right]. split; [done|]. by eapply body_queued.
Qed.

(** After calls that leave the environment the same. *)
Definition begun (e0 : Env) (Q : PendingResponse -> Prop) {A} (m : M A) : Prop :=
  forall w w' r, m w = (w', r) -> same e0 (env w) -> adds Q w w'.

Lemma begun_bind e0 Q {A C} (m : M A) (k : A -> M C) :
  respects quiet m -> (forall a, begun e0 Q (k a)) -> begun e0 Q (st_bind m k).
Proof.
  intros Hm Hk w w' r E He.
  assert (Hq : forall w1 x, m w = (w1, x) -> same e0 (env w1) /\ adds Q w w1).
  { intros w1 x E1. apply Hm in E1 as [Hs Hp]. split; [by etrans|]. intros p. rewrite Hp. by left. }
  apply st_bind_inv in E as [(a & w1 & E1 & E)|(e & E1 & _)]; [|by eapply Hq].
  destruct (Hq _ _ E1) as [Hs Ha]. etrans; [exact Ha|]. by eapply Hk.
Qed.

(** What a dispatch may queue: the handler's answer to the stream's request, in
    an environment the same as [e0], or the driver's refusal. *)
Definition response_of (st : Stream) (e0 : Env) (resp : HttpResponse) : Prop :=
  (exists e, same e0 e /\ resp = snd (handle_request e (h2_request st) peer)) \/
  exists text, resp = Connection.bad_gateway text.
Definition dispatched (st : Stream) (e0 : Env) (p : PendingResponse) : Prop :=
  exists resp, response_of st e0 resp /\ queued_for (id st) resp p.

Lemma begun_queue st e0 resp : response_of st e0 resp -> begun e0 (dispatched st e0) (queue_h2_response (id st) resp).
Proof.
  intros Hr w w' r E _ p Hp. apply (queue_adds _ _ _ _ _ E) in Hp as [Hp|Hp]; [by left|right]. by exists resp.
Qed.

Lemma begun_static st e0 :
  begun e0 (dispatched st e0) (let! resp := call (fun e => handle_request e (h2_request st) peer) in queue_h2_response (id st) resp).
Proof.
  intros w w' r. unfold st_bind, call. destruct (handle_request (env w) (h2_request st) peer) as [e resp] eqn:Eh.
  intros E He p Hp. apply (queue_adds _ _ _ _ _ E) in Hp as [Hp|Hp]; [by left|right].
  exists resp. split; [|exact Hp]. left. exists (env w). by rewrite Eh.
Qed.

Lemma begun_respects e0 Q {A} (m : M A) : respects (adds Q) m -> begun e0 Q m.
Proof. intros Hm w w' r E _. by eapply Hm. Qed.

(** For the stream's number, the body of the handler's answer to the stream's
    request for the connection's peer; of the driver's refusal; or nothing. *)
Lemma dispatch_queues st w w' r :
  dispatch_h2_request st peer w = (w', r) -> adds (dispatched st (env w)) w w'.
Proof.
  intros E. refine ((_ : begun (env w) _ (dispatch_h2_request st peer)) w w' r E _); [|reflexivity]. clear E w' r.
  unfold dispatch_h2_request. set (e0 := env w).
  apply begun_bind; [by intros ? ? ? [= <- _]|intros _]. cbv zeta. apply begun_bind; [by intros ? ? ? [= <- _]|intros _].
  apply begun_bind; [apply untouched_quiet, touch_gets|intros secure]. apply begun_bind; [by apply call_quiet|intros cfg].
  assert (Hawait : forall req sid source, begun e0 (dispatched st e0) (await_upstream req cfg sid source)).
  { intros req sid source. apply begun_respects. unfold await_upstream. respects. }
  assert (Hgate : forall text, begun e0 (dispatched st e0) (queue_h2_response (id st) (Connection.bad_gateway text))).
  { intros text. apply begun_queue. right. by exists text. }
  set (from := match peer with Some a => a | None => unspecified_addr end).
  assert (Hscript : begun e0 (dispatched st e0) (if fastcgi_route_matches_request (h2_request st) cfg then
    let! r := call (fun e => fastcgi_begin_h2_response e (h2_request st) cfg secure from) in
    match r with
    | Ok (Some source) => await_upstream (h2_request st) cfg (id st) (PHS_FastCgi source)
    | Ok None => let! resp := call (fun e => handle_request e (h2_request st) peer) in queue_h2_response (id st) resp
    | Err _ => queue_h2_response (id st) (Connection.bad_gateway (str "502 Bad Gateway: FastCGI upstream failure"))
    end else let! resp := call (fun e => handle_request e (h2_request st) peer) in queue_h2_response (id st) resp)).
  { destruct (fastcgi_route_matches_request _ _); [|apply begun_static].
    apply begun_bind; [by apply call_quiet|intros [[source|]|err]]; [apply Hawait|apply begun_static|apply Hgate]. }
  destruct (proxy_route_matches_request _ _); [|exact Hscript].
  apply begun_bind; [by apply call_quiet|intros [[source|]|err]]; [apply Hawait|exact Hscript|apply Hgate].
Qed.
End Dispatched.

(** ** Frames *)

Lemma decoder_kept P {A} (f : HpackDecoder -> HpackDecoder * result A Http2ErrorCode) : respects (kept P) (on_decoder f).
Proof. unfold on_decoder. respects. Qed.
Hint Resolve decoder_kept : respects.

Lemma settings_kept P l : respects (kept P) (apply_settings l).
Proof. induction l as [|s l IH]; cbn [apply_settings]; [respects|]. unfold apply_setting, adjust_send_windows. respects. Qed.
Hint Resolve settings_kept : respects.

Lemma headers_complete_kept P sid st decoded es : respects (kept P) (headers_complete sid st decoded es peer).
Proof. unfold headers_complete. respects. Qed.
Hint Resolve headers_complete_kept : respects.

Lemma rst_stream_kept P sid : respects (kept P) (modc (process_rst_stream sid)).
Proof.
  intros w w' r [= <- _]. split; [done|]. intros _ _ Hw. unfold files_answered, process_rst_stream in *. cbn [conn].
  rewrite mark_closed_queue. cbn. rewrite Forall_forall in *. intros p Hp. apply list_elem_of_In, filter_In in Hp as [Hp _].
  apply Hw. by apply list_elem_of_In.
Qed.
Hint Resolve rst_stream_kept : respects.

Lemma frame_kept P f : respects (kept P) (process_frame f peer).
Proof.
  unfold process_frame, process_settings, process_ping, process_headers, refuse_stream, open_stream, process_continuation,
    process_data, account_data, process_window_update. respects.
Qed.

(** ** Responses *)

Lemma poll_source_keeps e s : R e (fst (poll_source e s)) /\ no_file (snd (snd (poll_source e s))).
Proof.
  destruct s as [p|p]; cbn [poll_source].
  - pose proof (keeps_proxy_poll e p) as Hp. by destruct (proxy_poll e p) as [[e1 p1] r].
  - pose proof (keeps_script_poll e p) as Hp. by destruct (fastcgi_poll e p) as [[e1 p1] r].
Qed.

Lemma compressed_body pending response reader length response' reader' length' :
  negotiate_compression pending (response, reader, length) = (response', reader', length') ->
  body_source response' = body_source response.
Proof. unfold negotiate_compression. repeat case_match; by intros [= <- _ _]. Qed.

Lemma compressed_reader pending response reader length response' rd length' :
  negotiate_compression pending (response, reader, length) = (response', Some rd, length') ->
  exists rd0, reader = Some rd0 /\ (rd = rd0 \/ exists level, rd = gz_encoder rd0 level).
Proof.
  unfold negotiate_compression. destruct reader as [rd0|]; [|done]. exists rd0. split; [done|].
  case_match; simplify_eq; [right; by eexists|by left].
Qed.

Lemma poll_one_kept P progressed : respects (kept P) (poll_one progressed).
Proof.
  unfold poll_one. apply along_bind; [apply _|respects|intros queue]. destruct queue as [|pending queue]; [respects|].
  apply along_bind; [apply _|respects|intros _]. intros w w' r. unfold st_bind at 1, call at 1.
  destruct (poll_source_keeps (env w) (ph_source pending)) as [Hr Hn].
  destruct (poll_source (env w) (ph_source pending)) as [e [source result]] eqn:Hpoll. cbn [fst snd] in Hr, Hn.
  intros E. transitivity (mkWorld (conn w) (io w) e); [by split|]. revert E.
  match goal with |- ?m _ = _ -> _ => assert (Hm : respects (kept P) m); [|apply Hm] end.
  destruct result as [[[[response reader] length]|]|x]; [|respects..].
  destruct (negotiate_compression _ _) as [[response' reader'] remaining] eqn:Hneg.
  pose proof (compressed_body _ _ _ _ _ _ _ Hneg) as Hc.
  apply along_bind; [apply _| |intros _; respects]. eapply kept_mono; [|apply queue_kept]. intros _.
  destruct reader' as [rd|]; cbn [option_map may_queue].
  - exists rd. split; [apply rtc_refl|]. right. destruct (compressed_reader _ _ _ _ _ _ _ Hneg) as (rd0 & -> & Hrd).
    exists (env w), (ph_source pending), source, response, rd0, length. split; [by rewrite Hpoll|exact Hrd].
  - right. rewrite Hc. split; [|by eapply Hn]. right. exists (env w), (ph_source pending), source, response, reader, length.
    split; [by rewrite Hpoll|exact Hc].
Qed.
Hint Resolve poll_one_kept : respects.

Lemma poll_rounds_kept P n progressed : respects (kept P) (poll_rounds n progressed).
Proof. revert progressed. induction n as [|n IH]; intros progressed; cbn [poll_rounds]; respects. Qed.
Hint Resolve poll_rounds_kept : respects.

Lemma poll_kept P : respects (kept P) poll_pending_headers.
Proof. unfold poll_pending_headers. respects. Qed.

(** A read from a body leaves the rest of it. *)
Lemma chunk_answered sid max b b' r :
  read_chunk max b = (b', r) -> answered (mkPendingResponse sid b) -> answered (mkPendingResponse sid b').
Proof.
  unfold answered. cbn [pr_body pr_stream_id]. destruct b as [data offset|file remaining|reader remaining]; cbn [read_chunk].
  - intros [= <- _]. done.
  - intros E (resp & content & Hf & Hb & Hr). destruct (read file (Z.min remaining max)) as [file' x] eqn:Hx.
    assert (Hleft : file' = [] \/ exists d, file' = [RData d] /\ d `suffix_of` content).
    { destruct Hr as [->|(d & -> & Hd)]; cbn [read] in Hx; [injection Hx as <- _; by left|].
      destruct (len d <=? _); injection Hx as <- _; [by left|right]. eexists. split; [done|]. etrans; [by apply suffix_drop|exact Hd]. }
    assert (exists n, b' = PB_File file' n) as [n ->] by (repeat case_match; simplify_eq; eauto). by exists resp, content.
  - cbv zeta. intros E (source & Hd & Hs).
    assert (exists r' n, b' = PB_Reader r' n /\ drained source r') as (r' & n & -> & Hd').
    { destruct (read reader (match remaining with Some remaining => Z.min remaining max | None => max end)) as [r' x] eqn:Hx.
      assert (Hr' : drained source r') by (eapply rtc_r; [exact Hd|by eexists _, _]).
      repeat case_match; simplify_eq; eauto. }
    by exists source.
Qed.

Lemma schedule_one_kept P quota sent : respects (kept P) (schedule_one quota sent).
Proof.
  unfold schedule_one. intros w w' r. unfold st_bind at 1, gets at 1. destruct (pending_responses (conn w)) as [|pending queue] eqn:Hq; [by intros [= <- _]|].
  unfold st_bind at 1, modc at 1. set (w1 := mkWorld (set_pending_responses queue (conn w)) (io w) (env w)). intros E.
  assert (Hk : kept (answered pending) w1 w').
  { revert E. match goal with |- ?m _ = _ -> _ => assert (Hm : respects (kept (answered pending)) m); [|apply Hm] end.
    destruct (send_stream_windows (conn w) !! pr_stream_id pending) as [win|]; [|respects].
    case_match; [apply along_bind; [apply _|by apply kept_push|intros _; respects]|].
    destruct (read_chunk _ (pr_body pending)) as [body x] eqn:Hc. pose proof (chunk_answered (pr_stream_id pending) _ _ _ _ Hc) as Hbody.
    assert (Hpush : respects (kept (answered pending)) (modc (push_pending_response (mkPendingResponse (pr_stream_id pending) body))))
      by by apply kept_push.
    unfold send_data. respects. }
  destruct Hk as [He Hf]. split; [exact He|]. intros _ Hg Hw. unfold files_answered in Hw. rewrite Hq in Hw.
  apply Forall_cons in Hw as [Hp Hw]. by apply Hf.
Qed.
Hint Resolve schedule_one_kept : respects.

Lemma schedule_rounds_kept P n quota sent : respects (kept P) (schedule_rounds n quota sent).
Proof. revert sent. induction n as [|n IH]; intros sent; cbn [schedule_rounds]; respects. Qed.
Hint Resolve schedule_rounds_kept : respects.

Lemma schedule_kept P : respects (kept P) schedule_pending_responses.
Proof. unfold schedule_pending_responses. respects. Qed.

(** ** The connection *)

Lemma send_frame_kept P f w : kept P w (fst (send_frame f w)).
Proof.
  unfold send_frame. destruct (io_write (io w) _) as [i [|]]; [|by apply same_queue].
  cbn [io]. destruct (io_flush i). by apply same_queue.
Qed.

Lemma goaway_kept P err w w' r :
  goaway_and_break err w = (w', r) \/ goaway_and_return err w = (w', r) -> kept P w w'.
Proof.
  unfold goaway_and_break, goaway_and_return, send_goaway. set (f := goaway_frame _ _). pose proof (send_frame_kept P f w) as Hk.
  destruct (send_frame f w) as [w1 ok]. by intros [[= <- _]|[= <- _]].
Qed.

Lemma fill_kept P fuel chunk n w : kept P w (fst (fill fuel chunk n w)).
Proof.
  revert w. induction fuel as [|fuel IH]; intros w; cbn [fill]; (case_match; [|reflexivity]); [reflexivity|].
  destruct (io_read (io w) chunk) as [i [[|b d]| |]]; [by apply same_queue| |by apply same_queue..].
  etrans; [|apply IH]. by apply same_queue.
Qed.

Lemma handle_frame_kept P frame w : kept P w (fst (handle_frame frame peer w)).
Proof.
  unfold handle_frame. destruct (process_frame frame peer w) as [w1 [u|err]] eqn:E; apply (frame_kept P) in E; [exact E|].
  destruct (goaway_and_break err w1) as [w2 r] eqn:E2. etrans; [exact E|]. eapply goaway_kept. by left.
Qed.

Lemma read_kept P w : kept P w (fst (read_and_handle peer w)).
Proof.
  unfold read_and_handle, fill_to. set (fuel := S _). pose proof (fill_kept P fuel 4096 FRAME_HEADER_SIZE w) as H1.
  destruct (fill fuel 4096 FRAME_HEADER_SIZE w) as [w1 [| | |]]; [|exact H1..]. etrans; [exact H1|]. clear H1. cbn [fst].
  assert (Hg : forall err v, kept P v (fst (goaway_and_return err v))).
  { intros err v. destruct (goaway_and_return err v) eqn:E. eapply goaway_kept. by right. }
  destruct (frame_header_parse _) as [h|]; [|apply Hg]. destruct (_ >? _); [apply Hg|].
  set (fuel2 := S _). set (n := FRAME_HEADER_SIZE + _). pose proof (fill_kept P fuel2 4096 n w1) as H2.
  destruct (fill fuel2 4096 n w1) as [w2 [| | |]]; [|exact H2..]. etrans; [exact H2|].
  destruct (frame_parse _ _) as [frame|]; [|apply Hg]. etrans; [|apply handle_frame_kept]. by apply same_queue.
Qed.

Lemma main_round_kept P w : kept P w (fst (main_round peer w)).
Proof.
  assert (Hg : forall err v, kept P v (fst (goaway_and_break err v))).
  { intros err v. eapply (goaway_kept P err v _ (snd (goaway_and_break err v))). left. by destruct (goaway_and_break err v). }
  unfold main_round. destruct (poll_pending_headers w) as [w1 [[|]|err]] eqn:E1; apply (poll_kept P) in E1; [exact E1| |by etrans].
  etrans; [exact E1|]. destruct (schedule_pending_responses w1) as [w2 [[|]|err]] eqn:E2; apply (schedule_kept P) in E2; [exact E2| |by etrans].
  etrans; [exact E2|]. destruct (deferred_frames (conn w2)); [apply read_kept|].
  etrans; [|apply handle_frame_kept]. by apply same_queue.
Qed.

Lemma main_loop_kept P fuel w : kept P w (fst (main_loop fuel peer w)).
Proof.
  revert w. induction fuel as [|fuel IH]; intros w; cbn [main_loop]; [reflexivity|].
  pose proof (main_round_kept P w) as Hr. destruct (main_round peer w) as [w1 [|r]]; [|exact Hr].
  etrans; [exact Hr|apply IH].
Qed.

Lemma preface_kept P buf w : kept P w (fst (check_preface buf w)).
Proof.
  unfold check_preface. set (w1 := mkWorld (set_read_buffer buf (conn w)) _ _). transitivity w1; [by apply same_queue|].
  unfold fill_to. set (fuel := S _). set (n := len CLIENT_PREFACE). pose proof (fill_kept P fuel 1024 n w1) as H1.
  destruct (fill fuel 1024 n w1) as [w2 [| | |]]; [|exact H1..]. etrans; [exact H1|]. cbn [fst].
  destruct (negb _).
  - unfold send_goaway. match goal with |- context [send_frame ?f w2] => pose proof (send_frame_kept P f w2) as Hs; by destruct (send_frame f w2) end.
  - cbn [fst conn io env]. set (w3 := mkWorld _ _ _). transitivity w3; [by apply same_queue|]. unfold send_server_settings.
    match goal with |- context [send_frame ?f w3] => pose proof (send_frame_kept P f w3) as Hs; by destruct (send_frame f w3) as [w4 [|]] end.
Qed.

(** From its beginning to any later moment, a connection keeps what its backend
    keeps. *)
Lemma connection_kept fuel buf w : kept True w (fst (handle_connection fuel buf peer w)).
Proof.
  unfold handle_connection. pose proof (preface_kept True buf w) as Hp. destruct (check_preface buf w) as [w1 [|r]]; [|exact Hp].
  etrans; [exact Hp|apply main_loop_kept].
Qed.
End Backend.
