(* ===== verification/Server.v ===== *)
(** * The server's parts put together (src/server/listener.rs)

    The handler, the proxy and FastCGI as the parts a connection is served with,
    over HTTP/1.1 and as what the HTTP/2 driver asks.  They share the counters
    and the log; the state of the upstreams belongs to the proxy. *)

From S2P Require Import Prelude RustStd Io Config Http Text Fs Metrics Handler Connection FastCgi FastCgiRelay FastCgiProps Upstreams Proxy ProxyRelay ProxyStreams WebSocket Listener.

(** What the environment contributes to one call: the clocks and the peer's name,
    the connection to a script's server, the sockets of a tunnel, the permits
    other responses hold (their threads', and those of bodies still being sent),
    and whether an operation on an open file succeeds. *)
Record Outside : Type := mkOutside {
  at_moment : Moment;
  script_server : option Io;
  tunnel : TunnelEnv;
  instants : nat -> Z;
  permits_held : nat;
  file_works : bool;
}.

Section Server.
Context `{UnicodeCase} {Fd : Type} (fs : FileSystem Fd) (walk_fuel h2_fuel : nat).
Context (GzWriter : Type) (gz_new : Z -> GzWriter) (gz_write : GzWriter -> bytes -> GzWriter * bytes)
  (gz_finish : GzWriter -> bytes) (gz_reader : Reader -> Z -> Reader).
Context (network : list bytes -> bytes -> option (list (option Io))) (error_text : IoErr -> bytes).
Context (sha1 : bytes -> bytes) (base64_encode : bytes -> bytes) (base64_decode : bytes -> option bytes).
Context (ip_text : bytes -> bytes). (* [Display] of an address *)

(** What the process keeps; [outside] is what is to come, call by call.  A panic
    of the handler ends the thread: what the HTTP/2 driver would do behind it is
    not looked at. *)
Record Process : Type := mkProcess {
  handler : RequestHandler.State;
  upstreams : Upstreams;
  relays : list RelayLog;
  outside : nat -> Outside;
  panicked : bool;
}.

(** The call takes its part off what is to come. *)
Definition called (p : Process) : Process :=
  mkProcess (handler p) (upstreams p) (relays p) (fun n => outside p (S n)) (panicked p).

(** A relay to this client, with the connection to [server]. *)
Definition relaying (server client : Io) (p : Process) : Relay :=
  mkRelay server client (relays p) (RequestHandler.metrics (handler p)).

Definition relayed (u : Upstreams) (r : Relay) (p : Process) : Process :=
  mkProcess (RequestHandler.on_metrics (fun _ => relay_metrics r) (handler p)) u (relay_log r) (outside p) (panicked p).

Definition no_io : Io := mkIo [] [] [].

(** A request for the handler. *)
Definition handled (config : ServerConfig) (req : HttpRequest) (peer : option SocketAddr) (p : Process)
  : option (Process * HttpResponse) :=
  match RequestHandler.handle_request walk_fuel fs config req (option_map ip peer) (at_moment (outside p O)) (handler p) with
  | Some (st, resp) => Some (called (mkProcess st (upstreams p) (relays p) (outside p) (panicked p)), resp)
  | None => None
  end.

(** ** What the HTTP/2 driver asks *)

Definition h2_handled (config : ServerConfig) (p : Process) (req : HttpRequest) (peer : option SocketAddr)
  : Process * HttpResponse :=
  match handled config req peer p with
  | Some x => x
  | None => (mkProcess (handler p) (upstreams p) (relays p) (outside p) true, response_new InternalServerError)
  end.

(** An [io::Error] the driver does not look at. *)
Definition any_error {A} (r : result A IoErr) : result A unit := match r with Ok a => Ok a | Err _ => Err tt end.

Definition h2_proxied (p : Process) (req : HttpRequest) (config : ServerConfig) (peer : SocketAddr) (secure : bool)
  : Process * result (option Proxy.H2ProxyPending) unit :=
  let o := outside p O in
  let '(x, r) := proxy_begin_h2 network req config (ip_text (ip peer)) secure (instants o O)
                   (mkProxying (set_active (Z.of_nat (permits_held o)) (upstreams p)) (relaying no_io no_io p)) in
  (called (relayed (shared x) (relay x) p), any_error r).

Definition h2_scripted (p : Process) (req : HttpRequest) (config : ServerConfig) (secure : bool) (peer : SocketAddr)
  : Process * result (option FastCgi.H2FastCgiPending) unit :=
  let o := outside p O in
  let permit := Z.of_nat (permits_held o) <? MAX_ACTIVE_UPSTREAMS in
  let '(connection, io) := match script_server o with Some io => (true, io) | None => (false, no_io) end in
  let '(_, r) := begin_h2_response walk_fuel fs permit connection req config secure (ip_text (ip peer)) (instants o O) io in
  (called p, any_error r).

(** The head of a response and the reader of its body, as the byte stream the
    reader is. *)
Definition h2_head {R} (as_stream : R -> Reader) (h : HttpResponse * option R * option Z) : Connection.UpstreamHead :=
  let '(response, reader, length) := h in (response, option_map as_stream reader, length).

Definition h2_polled {P R} (poll : (nat -> Z) -> P -> P * result (option (HttpResponse * option R * option Z)) IoErr)
  (as_stream : R -> Reader) (p : Process) (pending : P) : Process * P * result (option Connection.UpstreamHead) unit :=
  let '(pending, r) := poll (instants (outside p O)) pending in
  (called p, pending, any_error (let? h := r in Ok (option_map (h2_head as_stream) h))).

(** The readers are the streams of [FastCgiProps.fastcgi_reader_refines] and
    [ProxyStreams.body_stream_read]. *)
Definition server_backend (config : ServerConfig) : Backend := {|
  Env := Process;
  Connection.H2ProxyPending := Proxy.H2ProxyPending;
  Connection.H2FastCgiPending := FastCgi.H2FastCgiPending;
  Connection.effective_config p req := (p, RequestHandler.effective_config config req);
  Connection.handle_request := h2_handled config;
  proxy_route_matches_request := proxy_matches_request;
  proxy_begin_h2_response := h2_proxied;
  Connection.proxy_poll := h2_polled Proxy.proxy_poll body_stream;
  fastcgi_route_matches_request := FastCgi.route_matches_request walk_fuel fs;
  fastcgi_begin_h2_response := h2_scripted;
  fastcgi_poll := h2_polled FastCgi.poll body_reader;
  gz_encoder := gz_reader;
  file_op p := (called p, file_works (outside p O));
|}.

(** The driver's connection is new; its end is not looked at. *)
Definition driven (config : ServerConfig) (buf : bytes) (peer : SocketAddr) (secure : bool) (w : Serving Process)
  : option (Serving Process) :=
  let conn := with_secure (conn_new config) secure in
  let '(x, _) := handle_connection (B := server_backend config) h2_fuel buf (Some peer) (mkWorld (B := server_backend config) conn (stream w) (process w)) in
  if panicked (env x) then None else Some (mkServing _ (io x) (env x)).

(** ** What a connection is served with *)

Definition now (w : Serving Process) : Outside := outside (process w) O.

(** A call of the proxy, and of FastCGI. *)
Definition with_proxy {A} (m : ST Proxying IoErr A) : ST (Serving Process) IoErr A := fun w =>
  let '(x, r) := m (mkProxying (upstreams (process w)) (relaying no_io (stream w) (process w))) in
  (mkServing _ (client (relay x)) (relayed (shared x) (relay x) (process w)), r).
Definition with_script {A} (m : bool -> ST Relay IoErr A) : ST (Serving Process) IoErr A := fun w =>
  let '(x, r) :=
    match script_server (now w) with
    | Some io => m true (relaying io (stream w) (process w))
    | None => m false (relaying no_io (stream w) (process w))
    end in
  (mkServing _ (client x) (relayed (upstreams (process w)) x (process w)), r).

Definition server_services : Services := {|
  Listener.effective_config := RequestHandler.effective_config;
  Listener.handle_request config req peer := handled config req (Some peer);
  serve_h2 := driven;
  proxy_matches := proxy_matches_request;
  proxy_streams buf head config peer secure :=
    with_proxy (proxy_streaming_body GzWriter gz_new gz_write gz_finish network error_text buf head config (ip_text (ip peer)) secure);
  proxy_handles req config peer secure := fun w =>
    with_proxy (proxy_handle GzWriter gz_new gz_write gz_finish network error_text sha1 base64_encode base64_decode
                  (tunnel (now w)) req config (ip_text (ip peer)) secure) w;
  fastcgi_matches _ req config := FastCgi.route_matches_request walk_fuel fs req config;
  fastcgi_streams buf head config peer secure :=
    with_script (fun connection =>
      handle_streaming_body GzWriter gz_new gz_write gz_finish walk_fuel fs connection buf head config secure (ip_text (ip peer)));
  fastcgi_handles req config peer secure :=
    with_script (fun connection =>
      handle_fastcgi GzWriter gz_new gz_write gz_finish walk_fuel fs connection req config secure (ip_text (ip peer)));
|}.
End Server.
