(* ===== verification/ServerProps.v ===== *)
(** * The server's parts keep their laws

    The handler, the proxy and FastCGI discharge the interface a connection is
    served with, and the entries for streamed bodies take what they are given. *)

From S2P Require Import Prelude RustStd Io Config Http Text Fs Metrics Handler Connection FastCgi FastCgiRelay Upstreams Proxy ProxyRelay WebSocket ProxyWorld UpgradeProps ProxyEntries Listener ListenerProps Server.

(** ** No more input than there was

    And nothing that counts as a request of the handler. *)

Definition request_counters (m : Metrics) : Z * Z := (requests_total m, requests_active m).

Record heard (w w' : Relay) : Prop := {
  heard_input : (reader_size (incoming (client w')) <= reader_size (incoming (client w)))%nat;
  heard_counters : request_counters (relay_metrics w') = request_counters (relay_metrics w);
}.

Lemma read_not_longer r n r' x : 0 < n -> read r n = (r', x) -> (reader_size r' <= reader_size r)%nat.
Proof. intros Hn E. destruct (read_size _ _ _ _ Hn E) as [->|]; [|lia]. injection E as <- _. done. Qed.

#[export] Instance heard_preorder : PreOrder heard.
Proof. split; [by split|]. intros x y z [] []. split; [lia|congruence]. Qed.

Lemma same_heard w w' :
  incoming (client w') = incoming (client w) -> request_counters (relay_metrics w') = request_counters (relay_metrics w) -> heard w w'.
Proof. intros Hi Hc. by split; [rewrite Hi|]. Qed.

Lemma client_metrics {A} (m : ST Io IoErr A) w w' r : on_client m w = (w', r) -> relay_metrics w' = relay_metrics w.
Proof. unfold on_client. destruct (m (client w)). by intros [= <- _]. Qed.

Lemma upstream_heard {A} (m : ST Io IoErr A) : respects heard (on_upstream m).
Proof. intros w w' r. unfold on_upstream. destruct (m (upstream w)). intros [= <- _]. by apply same_heard. Qed.

Lemma write_heard d : respects heard (on_client (fcgi_write d)).
Proof.
  intros w w' r E. apply same_heard; [by apply (tells_client _ _ (sends_write d)) in E as (_ & ? & _)|by rewrite (client_metrics _ _ _ _ E)].
Qed.

Lemma error_heard status message : respects heard (send_error status message).
Proof.
  intros w w' r E. apply same_heard; [by apply tells_error in E as (_ & ? & _)|by rewrite (client_metrics _ _ _ _ E)].
Qed.

#[export] Instance heard_relation : RelayRelation heard.
Proof. split; [apply _|intros; apply upstream_heard|apply write_heard|apply error_heard]. Qed.

Lemma log_heard l : respects heard (log_relay l).
Proof. intros w w' r [= <- _]. by apply same_heard. Qed.
Lemma count_heard : respects heard count_fastcgi.
Proof. intros w w' r [= <- _]. by apply same_heard. Qed.
Lemma logging_heard {A} (m : ST Relay IoErr A) : respects heard m -> respects heard (logging_failure m).
Proof.
  intros Hm w w' r. unfold logging_failure. destruct (m w) as [w1 [a|e]] eqn:E; intros [= <- _]; apply Hm in E; by destruct E.
Qed.
#[export] Hint Resolve upstream_heard write_heard error_heard log_heard count_heard logging_heard : respects.
Hint Extern 0 (respects heard (bad_gateway _)) => apply error_heard : respects.

(** ** FastCGI *)

Section FastCgi.
Context (GzWriter : Type) (gz_new : Z -> GzWriter) (gz_write : GzWriter -> bytes -> GzWriter * bytes)
  (gz_finish : GzWriter -> bytes).
Context `{UnicodeCase} {Fd : Type} (fs : FileSystem Fd).

Lemma relay_body_heard head gzip d : respects heard (relay_body GzWriter gz_write head gzip d).
Proof. unfold relay_body. respects. Qed.
Hint Resolve relay_body_heard : respects.

Lemma relay_stdout_heard max head gz level s d : respects heard (relay_stdout GzWriter gz_new gz_write max head gz level s d).
Proof. unfold relay_stdout, refuse. respects. Qed.
Hint Resolve relay_stdout_heard : respects.

Lemma relay_record_heard max head gz level s : respects heard (relay_record GzWriter gz_new gz_write max head gz level s).
Proof. unfold relay_record, refuse. respects. Qed.
Hint Resolve relay_record_heard : respects.

Lemma relay_end_heard s : respects heard (relay_end GzWriter gz_finish s).
Proof. unfold relay_end. respects. Qed.
Hint Resolve relay_end_heard : respects.

Lemma relay_loop_heard fuel max head gz level s :
  respects heard (relay_loop GzWriter gz_new gz_write gz_finish fuel max head gz level s).
Proof. revert s. induction fuel as [|fuel IH]; intros s; cbn [relay_loop]; respects. Qed.

Lemma stream_response_heard max head gz level : respects heard (stream_response GzWriter gz_new gz_write gz_finish max head gz level).
Proof. intros w w' r. apply relay_loop_heard. Qed.
Hint Resolve stream_response_heard : respects.

Lemma send_request_head_heard req route script script_uri secure remote n :
  respects heard (send_request_head req route script script_uri secure remote n).
Proof. unfold send_request_head. respects. Qed.
Hint Resolve send_request_head_heard : respects.

Lemma handle_fastcgi_heard fuel connection req config secure remote :
  respects heard (handle_fastcgi GzWriter gz_new gz_write gz_finish fuel fs connection req config secure remote).
Proof. unfold handle_fastcgi. respects. apply logging_heard. respects. Qed.

(** The body comes out of what was buffered first. *)
Lemma forward_body_heard fuel buffered n : respects heard (forward_body fuel buffered n).
Proof.
  revert buffered n. induction fuel as [|fuel IH]; intros buffered n; cbn [forward_body]; [respects|].
  destruct (Z.leb_spec n 0); [respects|]. destruct buffered as [|b l]; [|respects].
  apply along_bind; [apply _| |intros d; respects]. intros w w' r. unfold on_client, io_read.
  destruct (read (incoming (client w)) (Z.min n (16 * 1024))) as [r1 x] eqn:E. intros [= <- _].
  split; [|done]. cbn [client incoming]. eapply read_not_longer; [|exact E]. lia.
Qed.
Hint Resolve forward_body_heard : respects.

Lemma streaming_fastcgi_heard fuel connection buffered head config secure remote :
  respects heard (handle_streaming_body GzWriter gz_new gz_write gz_finish fuel fs connection buffered head config secure remote).
Proof.
  unfold handle_streaming_body. respects.
  intros w w' r. apply forward_body_heard.
Qed.
End FastCgi.

(** ** The proxy *)

Lemma pump_in_heard closed buffer p p' x : pump_in closed buffer p = (p', x) -> (reader_size (peer_in p') <= reader_size (peer_in p))%nat.
Proof.
  unfold pump_in. destruct (_ && _); [|by intros [= <- _]]. destruct (read (peer_in p) IO_CHUNK) as [r y] eqn:E.
  intros [= <- _]. cbn [peer_in]. eapply read_not_longer; [|exact E]. done.
Qed.

Lemma pump_out_heard closed buffer p p' x : pump_out closed buffer p = (p', x) -> peer_in p' = peer_in p.
Proof.
  unfold pump_out, peer_write. destruct (bytes_eqb buffer []); [by intros [= <- _]|].
  destruct (peer_out p) as [|[] ?]; by intros [= <- _].
Qed.

Definition tunnel_heard (t t' : Tunnel) : Prop :=
  (reader_size (peer_in (tn_client t')) <= reader_size (peer_in (tn_client t)))%nat.

Lemma relay_round_heard deadline t t' x : relay_round deadline t = (t', x) -> tunnel_heard t t'.
Proof.
  unfold relay_round, tunnel_heard. destruct (pump_in _ _ (tn_client t)) as [c r1] eqn:E1. apply pump_in_heard in E1.
  destruct r1 as [[[c1 up] p1]|]; [|by intros [= <- _]]. destruct (stamp _ _ _) as [l1 k1].
  destruct (pump_in _ _ _) as [u r2]. destruct r2 as [[[u1 down] p2]|]; [|by intros [= <- _]].
  destruct (stamp _ _ _) as [l2 k2]. destruct (pump_out u1 up u) as [u' r3].
  destruct r3 as [[[u2 up'] p3]|]; [|by intros [= <- _]]. destruct (stamp _ _ _) as [l3 k3].
  destruct (pump_out _ _ c) as [c' r4] eqn:E4. apply pump_out_heard in E4.
  assert (Hc : (reader_size (peer_in c') <= reader_size (peer_in (tn_client t)))%nat) by by rewrite E4.
  destruct r4 as [[[c2 down'] p4]|]; [|by intros [= <- _]]. destruct (stamp _ _ _) as [l4 k4].
  destruct (_ && _); by intros [= <- _].
Qed.

Lemma relay_rounds_heard fuel deadline t t' x : relay_rounds fuel deadline t = (t', x) -> tunnel_heard t t'.
Proof.
  revert t. induction fuel as [|fuel IH]; intros t; cbn [relay_rounds]; [intros [= <- _]; unfold tunnel_heard; lia|].
  destruct (relay_round deadline t) as [t1 r] eqn:E. apply relay_round_heard in E.
  destruct r as [[]|]; [by intros [= <- _]| |by intros [= <- _]]. intros E2. apply IH in E2. unfold tunnel_heard in *. lia.
Qed.

Lemma run_tunnel_heard env config : respects heard (run_tunnel env config).
Proof.
  intros w w' r. unfold run_tunnel, relay_tunnel. destruct (relay_rounds _ _ _) as [t x] eqn:E. intros [= <- _].
  apply relay_rounds_heard in E. by split.
Qed.

Lemma read_handshake_heard fuel response : respects heard (read_handshake fuel response).
Proof. revert response. induction fuel as [|fuel IH]; intros response; cbn [read_handshake]; respects. Qed.

Lemma forward_request_body_heard fuel buffered n : respects heard (forward_request_body fuel buffered n).
Proof.
  revert buffered n. induction fuel as [|fuel IH]; intros buffered n; cbn [forward_request_body]; [respects|].
  destruct (Z.leb_spec n 0); [respects|]. destruct buffered as [|b l]; [|respects].
  apply along_bind; [apply _| |intros d; respects]. intros w w' r. unfold on_client, io_read.
  destruct (read (incoming (client w)) (Z.min n IO_CHUNK)) as [r1 x] eqn:E. intros [= <- _].
  split; [|done]. cbn [client incoming]. eapply read_not_longer; [|exact E]. unfold IO_CHUNK. lia.
Qed.
#[export] Hint Resolve run_tunnel_heard read_handshake_heard forward_request_body_heard : respects.

Section Proxy.
Context (GzWriter : Type) (gz_new : Z -> GzWriter) (gz_write : GzWriter -> bytes -> GzWriter * bytes)
  (gz_finish : GzWriter -> bytes).
Context (network : list bytes -> bytes -> option (list (option Io))) (error_text : IoErr -> bytes).
Context (sha1 : bytes -> bytes) (base64_encode : bytes -> bytes) (base64_decode : bytes -> option bytes).

(** The same of the proxy's world. *)
Definition client_heard (w w' : Proxying) : Prop := heard (relay w) (relay w').

#[export] Instance client_heard_preorder : PreOrder client_heard := along_preorder relay heard.

Lemma relay_client_heard {A} (m : ST Relay IoErr A) : respects heard m -> respects client_heard (on_relay m).
Proof. apply respects_relay. Qed.
Lemma shared_heard {A} (f : Upstreams -> Upstreams * A) : respects client_heard (on_shared f).
Proof. apply shared_relay, _. Qed.
Lemma use_heard io : respects client_heard (use_upstream io).
Proof. intros w w' r [= <- _]. by apply same_heard. Qed.
Lemma count_proxy_heard : respects client_heard count_proxy.
Proof. apply relay_client_heard. intros w w' r [= <- _]. by apply same_heard. Qed.
Lemma with_permit_heard {A} (m : ST Proxying IoErr A) : respects client_heard m -> respects client_heard (with_permit m).
Proof.
  intros Hm w w' r. unfold with_permit. destruct (acquire_upstream_permit (shared w)) as [u [x|e]].
  - destruct (m _) as [w1 y] eqn:E. intros [= <- _]. apply Hm in E. exact E.
  - intros [= <- _]. by apply same_heard.
Qed.
Lemma relay_response_heard req route candidate config :
  respects client_heard (relay_response GzWriter gz_new gz_write gz_finish req route candidate config).
Proof. apply relay_response_respects, _. Qed.
Lemma get_heard : respects client_heard get_upstream.
Proof. apply respects_get, _. Qed.
Hint Resolve relay_client_heard shared_heard use_heard get_heard count_proxy_heard with_permit_heard relay_response_heard : respects.

Lemma failure_heard e : respects client_heard (connection_failed error_text e).
Proof. unfold connection_failed. apply relay_client_heard, error_heard. Qed.
Hint Resolve failure_heard : respects.

Lemma proxy_http_heard req route config remote secure :
  respects client_heard (proxy_http GzWriter gz_new gz_write gz_finish network error_text req route config remote secure).
Proof. apply with_permit_heard. respects. Qed.

Lemma websocket_heard env req route config :
  respects client_heard (websocket network sha1 base64_encode base64_decode env req route config).
Proof.
  apply with_permit_heard.
  assert (Hsay : forall (m : ST Relay IoErr unit) (b : option bool), respects heard m ->
    respects client_heard (st_bind (on_relay m) (fun _ => st_ret b))).
  { intros m b Hm. apply along_bind; [apply _|by apply relay_client_heard|intros u; apply along_ret, _]. }
  destruct (negb (valid_upgrade _ req)); [apply Hsay, error_heard|].
  apply along_bind; [apply _|apply shared_heard|intros connected].
  apply along_bind; [apply _|apply along_res, _|intros io]. apply along_bind; [apply _|apply use_heard|intros u].
  apply along_bind; [apply _|apply relay_client_heard, upstream_heard|intros u1].
  apply along_bind; [apply _|apply relay_client_heard; intros w w' r; apply read_handshake_heard|intros [response|]]; [|apply along_ret, _].
  cbv zeta. destruct (negb (starts_with _ _)); [apply Hsay, error_heard|].
  destruct (negb (bool_decide _)); [apply Hsay, error_heard|].
  apply along_bind; [apply _|apply relay_client_heard, write_heard|intros u2]. apply Hsay, run_tunnel_heard.
Qed.

Lemma proxy_handle_heard env req config remote secure :
  respects client_heard (proxy_handle GzWriter gz_new gz_write gz_finish network error_text sha1 base64_encode base64_decode
                           env req config remote secure).
Proof.
  unfold proxy_handle. destruct (select_proxy_route req config) as [route|]; [|respects].
  apply along_bind; [apply _|apply count_proxy_heard|intros a]. destruct (is_websocket_upgrade req); [apply websocket_heard|].
  intros w w' r. destruct (proxy_http _ _ _ _ _ _ _ _ _ _ _ w) as [w1 [x|e]] eqn:E; intros [= <- _]; apply proxy_http_heard in E; by destruct E.
Qed.

Lemma proxy_streaming_heard buffered head config remote secure :
  respects client_heard (proxy_streaming_body GzWriter gz_new gz_write gz_finish network error_text buffered head config remote secure).
Proof.
  unfold proxy_streaming_body. destruct (select_proxy_route _ _) as [route|]; [|respects].
  destruct (is_websocket_upgrade _); [respects|]. apply with_permit_heard. respects. apply relay_client_heard.
  intros w w' r. apply forward_request_body_heard.
Qed.

Lemma begin_heard req config remote secure now : respects client_heard (proxy_begin_h2 network req config remote secure now).
Proof.
  unfold proxy_begin_h2. destruct (select_proxy_route req config) as [route|]; [|respects].
  apply along_bind; [apply _|apply count_proxy_heard|intros u]. destruct (is_websocket_upgrade req); [respects|].
  intros w w' r. destruct (acquire_upstream_permit (shared w)) as [v [x|e]]; [|by intros [= <- _]].
  match goal with |- context [let '(_, _) := ?m ?s in _] => destruct (m s) as [w1 y] eqn:E; assert (Hm : respects client_heard m) by respects end.
  apply Hm in E. destruct y; intros [= <- _]; exact E.
Qed.
End Proxy.

(** ** Routes *)

Lemma max_by_key_some {A} (f : A -> Z) x l : exists y, max_by_key f (x :: l) = Some y.
Proof. cbn [max_by_key]. destruct (max_by_key f l) as [y|]; [|by eexists]. case_match; by eexists. Qed.

(** A request matches when a route is selected for it. *)
Lemma selected_matches req config :
  proxy_matches_request req config = match select_proxy_route req config with Some _ => true | None => false end.
Proof.
  unfold proxy_matches_request, select_proxy_route. induction (proxy_routes config) as [|route l IH]; [done|]. cbn [existsb List.filter].
  destruct (route_matches route req); [|exact IH]. cbn [orb]. by destruct (max_by_key_some (fun r => len (proxy_prefix r)) route (List.filter (fun r => route_matches r req) l)) as [y ->].
Qed.

Lemma no_upgrade req : get_header req (str "Upgrade") = None -> is_websocket_upgrade req = false.
Proof. unfold is_websocket_upgrade. by intros ->. Qed.

Section Taken.
Context (GzWriter : Type) (gz_new : Z -> GzWriter) (gz_write : GzWriter -> bytes -> GzWriter * bytes)
  (gz_finish : GzWriter -> bytes).
Context (network : list bytes -> bytes -> option (list (option Io))) (error_text : IoErr -> bytes).
Context `{UnicodeCase} {Fd : Type} (fs : FileSystem Fd) (fuel : nat).

(** An answer of a streamed request, or nothing at all. *)
Lemma proxy_streaming_declines buffered head config remote secure w w' left :
  proxy_streaming_body GzWriter gz_new gz_write gz_finish network error_text buffered head config remote secure w = (w', Ok (left, None)) ->
  left = buffered /\ (select_proxy_route (into_request head []) config = None \/ is_websocket_upgrade (into_request head []) = true).
Proof.
  unfold proxy_streaming_body. destruct (select_proxy_route _ _) as [route|]; [|intros [= _ <-]; auto].
  destruct (is_websocket_upgrade _); [intros [= _ <-]; auto|]. unfold with_permit.
  destruct (acquire_upstream_permit (shared w)) as [u [x|e]]; [|done].
  match goal with |- (let '(w1, r) := ?m ?s in _) = _ -> _ => assert (Hm : forall w1 l, m s <> (w1, Ok (l, None))) end.
  { intros w1 l E. apply st_bind_inv in E as [(connected & s1 & E1 & E)|(e & _ & [=])].
    destruct connected as [connected|e].
    - repeat (apply st_bind_inv in E as [(? & ? & ? & E)|(? & _ & [=])]). by injection E.
    - apply st_bind_inv in E as [(? & ? & ? & E)|(? & _ & [=])]. by injection E. }
  match goal with |- (let '(w1, r) := ?m ?s in _) = _ -> _ => destruct (m s) as [v r] eqn:E end.
  intros [= <- ->]. by destruct (Hm v left).
Qed.

Lemma fastcgi_streaming_declines connection buffered head config secure remote w w' left :
  handle_streaming_body GzWriter gz_new gz_write gz_finish fuel fs connection buffered head config secure remote w = (w', Ok (left, None)) ->
  left = buffered /\ (select_route fuel fs (into_request head []) config = None \/ method (into_request head []) <> Post).
Proof.
  unfold handle_streaming_body. destruct (select_route _ _ _ _) as [[route script_uri]|]; [|intros [= _ <-]; auto].
  destruct (bool_decide_reflect (method (into_request head []) = Post)) as [Hpost|Hpost]; cbn [negb]; [|intros [= _ <-]; auto].
  intros E. exfalso. apply st_bind_inv in E as [(inside & w1 & _ & E)|(e & _ & [=])].
  destruct (negb inside); [apply st_bind_inv in E as [(u & w2 & _ & E)|(e & _ & [=])]; by injection E|].
  apply st_bind_inv in E as [(script & w2 & _ & E)|(e & _ & [=])]. destruct (negb connection); [done|].
  repeat (apply st_bind_inv in E as [(? & ? & ? & E)|(? & _ & [=])]). by injection E.
Qed.
End Taken.

(** ** The server *)

Section Server.
Context `{UnicodeCase} {Fd : Type} (fs : FileSystem Fd) (walk_fuel h2_fuel : nat).
Context (GzWriter : Type) (gz_new : Z -> GzWriter) (gz_write : GzWriter -> bytes -> GzWriter * bytes)
  (gz_finish : GzWriter -> bytes) (gz_reader : Reader -> Z -> Reader).
Context (network : list bytes -> bytes -> option (list (option Io))) (error_text : IoErr -> bytes).
Context (sha1 : bytes -> bytes) (base64_encode : bytes -> bytes) (base64_decode : bytes -> option bytes).
Context (ip_text : bytes -> bytes).

Definition server : Services :=
  server_services fs walk_fuel h2_fuel GzWriter gz_new gz_write gz_finish gz_reader network error_text sha1 base64_encode base64_decode ip_text.

(** A call that does nothing leaves the connection and the process as they were. *)
Lemma relayed_same server io (p : Process) : relayed (upstreams p) (relaying server io p) p = p.
Proof. by destruct p as [[? ? ? ?] ? ? ? ?]. Qed.

Lemma serving_same (w : Serving Process) : mkServing Process (stream w) (process w) = w.
Proof. by destruct w. Qed.

Lemma with_proxy_heard {A} (m : ST Proxying IoErr A) (w w' : Serving Process) r :
  respects client_heard m -> with_proxy m w = (w', r) -> (reader_size (incoming (stream w')) <= reader_size (incoming (stream w)))%nat.
Proof. intros Hm. unfold with_proxy. destruct (m _) as [x y] eqn:E. intros [= <- _]. apply Hm in E. apply E. Qed.

Lemma with_script_heard {A} (m : bool -> ST Relay IoErr A) (w w' : Serving Process) r :
  (forall connection, respects heard (m connection)) -> with_script m w = (w', r) ->
  (reader_size (incoming (stream w')) <= reader_size (incoming (stream w)))%nat.
Proof.
  intros Hm. unfold with_script. destruct (script_server (now w)) as [io|].
  - destruct (m true _) as [x y] eqn:E. intros [= <- _]. apply Hm in E. apply E.
  - destruct (m false _) as [x y] eqn:E. intros [= <- _]. apply Hm in E. apply E.
Qed.

Lemma with_proxy_result {A} (m : ST Proxying IoErr A) (w w' : Serving Process) r :
  with_proxy m w = (w', r) -> exists x x', m x = (x', r).
Proof. unfold with_proxy. destruct (m _) as [x y] eqn:E. intros [= _ <-]. eauto. Qed.

Lemma with_script_result {A} (m : bool -> ST Relay IoErr A) (w w' : Serving Process) r :
  with_script m w = (w', r) -> exists connection x x', m connection x = (x', r).
Proof.
  unfold with_script. destruct (script_server (now w)) as [io|].
  - destruct (m true _) as [x y] eqn:E. intros [= _ <-]. eauto.
  - destruct (m false _) as [x y] eqn:E. intros [= _ <-]. eauto.
Qed.

#[export] Instance server_laws : ServicesLaws server.
Proof.
  split.
  - intros req config peer secure w Hp. cbn in *. unfold with_proxy, proxy_handle. rewrite selected_matches in Hp.
    destruct (select_proxy_route req config); [done|]. cbn. by rewrite relayed_same, serving_same.
  - intros req config peer secure w Hf. cbn in *. unfold with_script, handle_fastcgi. unfold FastCgi.route_matches_request in Hf.
    destruct (select_route walk_fuel fs req config); [done|].
    destruct (script_server (now w)); cbn; by rewrite relayed_same, serving_same.
  - intros req config peer secure w w' r [E|E].
    + eapply with_proxy_heard; [|exact E]. apply proxy_handle_heard.
    + eapply with_script_heard; [|exact E]. intros connection. apply handle_fastcgi_heard.
  - intros buf head config peer secure w w' r [E|E]; split.
    + eapply with_proxy_heard; [|exact E]. apply proxy_streaming_heard.
    + intros left ->. apply with_proxy_result in E as (x & x' & E). by apply proxy_streaming_declines in E as [-> _].
    + eapply with_script_heard; [|exact E]. intros connection. apply streaming_fastcgi_heard.
    + intros left ->. apply with_script_result in E as (connection & x & x' & E). by apply fastcgi_streaming_declines in E as [-> _].
Qed.

(** C20: A request whose body is to be streamed is taken whole.
    When the loop has taken a head off the buffer because a route matches it,
    the entry it is handed to answers it or fails: either the connection ends,
    or buffer and connection are as they were, so that a body is never parsed as
    the next request. *)
Theorem streamed_request_taken file_at (config : ServerConfig) (peer : SocketAddr) (secure : bool) buf buf' (w w' : Serving Process) :
  serve_streaming (services := server) gz_reader file_at config peer secure buf w = (w', Some buf') -> buf' = buf /\ w' = w.
Proof.
  unfold serve_streaming. destruct (parse_head buf config) as [[head|]|]; [|by intros [= <- <-]..]. cbv zeta.
  set (req := into_request head []). set (eff := Listener.effective_config config req).
  destruct (bool_decide_reflect (get_header req (str "Upgrade") = None)) as [Hup|]; [|rewrite andb_false_r; by intros [= <- <-]].
  rewrite andb_true_r. destruct (proxy_matches req eff) eqn:Hp.
  - cbn [orb]. destruct (proxy_streams _ _ _ _ _ _) as [w1 [[left [a|]]|e]] eqn:E; [done| |by destruct (send _ _ _ _)].
    exfalso. apply with_proxy_result in E as (x & x' & E). apply proxy_streaming_declines in E as [_ [Hn|Hu]].
    + cbn in Hp. rewrite selected_matches in Hp. subst req eff. cbn in *. by rewrite Hn in Hp.
    + by rewrite no_upgrade in Hu.
  - cbn [orb]. match goal with |- context [fastcgi_matches ?p ?r ?c] => destruct (fastcgi_matches p r c) eqn:Hf end; [|by intros [= <- <-]].
    destruct (bool_decide_reflect (method req = Post)) as [Hpost|]; [|by intros [= <- <-]]. cbn [andb].
    destruct (fastcgi_streams _ _ _ _ _ _) as [w1 [[left [a|]]|e]] eqn:E; [done| |by destruct (send _ _ _ _)].
    exfalso. apply with_script_result in E as (connection & x & x' & E). apply fastcgi_streaming_declines in E as [_ [Hn|Hne]]; [|done].
    cbn in Hf. unfold FastCgi.route_matches_request in Hf. subst req eff. cbn in *. by rewrite Hn in Hf.
Qed.
End Server.
