(* ===== verification/ServerSafety.v ===== *)
(** * What serving connections does to the server

    Over HTTP/1.1 and over HTTP/2 the process stays within its configuration,
    keeps its books, and lets out no file the rules do not admit. *)

From S2P Require Import Prelude RustStd Io Config Http Frame H2Headers Text Limits Fs ConfigCache Metrics Handler HandlerProps HandlerEffects Connection FastCgi FastCgiRelay FastCgiProps Upstreams UpstreamProps Proxy ProxyRelay ProxyStreams WebSocket ProxyWorld UpgradeProps ProxyEntries Listener ListenerProps BackendProps Server ServerProps.

(** ** The relation *)

(** The upstreams: new attempts to connect are ones [P] allows. *)
Record dials_only (P : bytes -> Prop) (u u' : Upstreams) : Prop := {
  only_active : 0 <= active u -> 0 <= active u';
  only_dialled : 0 <= active u -> exists l, dialled u' = dialled u ++ l /\ Forall P l;
}.

#[export] Instance dials_only_preorder P : PreOrder (dials_only P).
Proof.
  split; [intros u; split; [done|exists []; by rewrite app_nil_r]|].
  intros x y z [A1 D1] [A2 D2]. split; [auto|]. intros Ha. destruct (D1 Ha) as (l1 & E1 & H1). destruct (D2 (A1 Ha)) as (l2 & E2 & H2).
  exists (l1 ++ l2). rewrite E2, E1, app_assoc. split; [done|by apply Forall_app_2].
Qed.

Lemma dials_dials_only P u u' : (0 <= active u -> dials P u u') -> dials_only P u u'.
Proof. intros Hd. split; intros Ha; destruct (Hd Ha) as [He Hl]; [by rewrite He|exact Hl]. Qed.

Lemma same_counters_books f st :
  request_counters (f (RequestHandler.metrics st)) = request_counters (RequestHandler.metrics st) ->
  books_kept st (RequestHandler.on_metrics f st).
Proof.
  intros Hf. injection Hf as Ht Ha.
  unfold RequestHandler.on_metrics. split; cbn; unfold in_range; [done|by rewrite Ht, Ha|].
  intros [Hr _]. exists []. by rewrite app_nil_r, len_nil, Z.add_0_r, as_u64_small, Ht, Ha.
Qed.

(** What is known of a configuration: the candidates of its routes. *)
Definition known_routes (P : bytes -> Prop) (config : ServerConfig) : Prop := forall a, configured config a -> P a.

Record behaved (P : bytes -> Prop) (p p' : Process) : Prop := {
  behaved_dials : dials_only P (upstreams p) (upstreams p');
  behaved_books : books_kept (handler p) (handler p');
}.

#[export] Instance behaved_preorder P : PreOrder (behaved P).
Proof. split; [by split|]. intros x y z [] []. split; by etrans. Qed.

(** A call that leaves the handler and the upstreams alone. *)
Lemma behaved_same P p p' : upstreams p' = upstreams p -> handler p' = handler p -> behaved P p p'.
Proof. intros Hu Hh. by split; [rewrite Hu|rewrite Hh]. Qed.

(** A relay counts no request. *)
Lemma relayed_behaved P u r (p : Process) w :
  dials_only P (upstreams p) u -> heard w r -> relay_metrics w = RequestHandler.metrics (handler p) -> behaved P p (relayed u r p).
Proof. intros Hu [_ Hc] Hm. split; [exact Hu|]. apply same_counters_books. by rewrite Hc, Hm. Qed.

Section Safety.
Context `{UnicodeCase} {Fd : Type} (fs : FileSystem Fd) (walk_fuel h2_fuel : nat).
Context (GzWriter : Type) (gz_new : Z -> GzWriter) (gz_write : GzWriter -> bytes -> GzWriter * bytes)
  (gz_finish : GzWriter -> bytes) (gz_reader : Reader -> Z -> Reader).
Context (network : list bytes -> bytes -> option (list (option Io))) (error_text : IoErr -> bytes).
Context (sha1 : bytes -> bytes) (base64_encode : bytes -> bytes) (base64_decode : bytes -> option bytes).
Context (ip_text : bytes -> bytes).
Abbreviation backend := (server_backend fs walk_fuel gz_reader network ip_text).
Abbreviation services :=
  (server fs walk_fuel h2_fuel GzWriter gz_new gz_write gz_finish gz_reader network error_text sha1 base64_encode base64_decode ip_text).

Lemma effective_routes config req : proxy_routes (RequestHandler.effective_config config req) = proxy_routes config.
Proof. unfold RequestHandler.effective_config. by destruct (select_vhost config req). Qed.

Lemma known_effective P config req : known_routes P config -> known_routes P (RequestHandler.effective_config config req).
Proof. intros Hk a (route & c & Hr & Hc). apply Hk. rewrite effective_routes in Hr. by exists route, c. Qed.

Lemma handled_behaved P config req peer p p' resp :
  handled fs walk_fuel config req peer p = Some (p', resp) -> behaved P p p'.
Proof.
  unfold handled. destruct (RequestHandler.handle_request _ _ _ _ _ _ _) as [[st r]|] eqn:E; [|done]. intros [= <- <-].
  split; [reflexivity|]. by eapply handler_books.
Qed.

(** ** The HTTP/2 driver's backend *)

Lemma polled_behaved {A R} poll (as_stream : R -> Reader) P p (pending : A) :
  behaved P p (fst (fst (h2_polled poll as_stream p pending))).
Proof. unfold h2_polled. destruct (poll _ pending). by apply behaved_same. Qed.

Lemma polled_no_file {A R} poll (as_stream : R -> Reader) p (pending : A) :
  (forall clock a a' response reader length, poll clock a = (a', Ok (Some (response, reader, length))) -> body_file (body_source response) = None) ->
  no_file (snd (h2_polled poll as_stream p pending)).
Proof.
  intros Hp response reader length. unfold h2_polled. destruct (poll _ pending) as [a r] eqn:E. cbn [snd].
  destruct r as [[[[resp rd] n]|]|e]; cbn; [|done..]. intros [= <- <- <-]. by eapply Hp.
Qed.

Lemma proxy_head_no_file clock p p' response reader length :
  Proxy.proxy_poll clock p = (p', Ok (Some (response, reader, length))) -> body_file (body_source response) = None.
Proof.
  intros E. apply poll_loop_found in E as (pos & _ & E & _). unfold finish_upstream_head in E. destruct (_ >? _); [done|].
  apply rbind_ok in E as ([[resp n] no_body] & Hp & E). assert (Hb : body_source resp = BodyBytes []).
  { unfold parse_upstream_head in Hp. apply rbind_ok in Hp as (? & _ & Hp). cbv zeta in Hp. destruct (negb _); [done|].
    destruct (split_crlf _); [done|]. destruct (negb _); [done|]. apply rbind_ok in Hp as (? & _ & Hp).
    apply rbind_ok in Hp as (h & _ & Hp). destruct (uh_chunked h); [done|]. by injection Hp as <- _ _. }
  destruct (_ || _); injection E as <- _ _; by rewrite Hb.
Qed.

Lemma script_head_no_file clock p p' response reader length :
  FastCgi.poll clock p = (p', Ok (Some (response, reader, length))) -> body_file (body_source response) = None.
Proof.
  intros E. apply poll_finish in E as (pos & E & _). unfold finish_head in E. apply rbind_ok in E as (h & _ & E).
  destruct (match fh_content_length h with Some limit => _ | None => false end); [done|]. cbv zeta in E.
  destruct (_ || _); by injection E as <- _ _.
Qed.

Lemma h2_proxied_behaved P p req config peer secure :
  known_routes P config -> behaved P p (fst (h2_proxied network ip_text p req config peer secure)).
Proof.
  intros Hk. unfold h2_proxied. set (o := outside p O). set (w := mkProxying _ _).
  destruct (proxy_begin_h2 network req config (ip_text (ip peer)) secure (instants o O) w) as [x r] eqn:E. cbn [fst].
  assert (Hb : behaved P p (relayed (shared x) (relay x) p)); [|by destruct Hb; split].
  apply relayed_behaved with (w := relay w); [|by eapply begin_heard|done].
  assert (Ha : 0 <= active (shared w)) by (cbn; lia).
  assert (Hd : dials_only P (shared w) (shared x)).
  { pose proof (begin_confined config network req (ip_text (ip peer)) secure (instants o O) w x r Ha E) as Hc.
    assert (Hm : forall u u', dials (configured config) u u' -> dials_only P u u').
    { intros u u' Hu. apply dials_dials_only. intros _. eapply dials_mono; [exact Hk|exact Hu]. }
    destruct r as [[pending|]|e]; [|by apply Hm..]. destruct Hc as [Hact [_ Hdial]]. split; [cbn in *; lia|].
    intros _. destruct Hdial as (l & El & Hl). exists l. split; [exact El|]. eapply Forall_impl; [exact Hl|exact Hk]. }
  destruct Hd as [Hac Hd]. split; intros _; [by apply Hac|by apply Hd].
Qed.

Lemma h2_handled_behaved P config p req peer : behaved P p (fst (h2_handled fs walk_fuel config p req peer)).
Proof.
  unfold h2_handled. destruct (handled fs walk_fuel config req peer p) as [[p' resp]|] eqn:E; [by eapply handled_behaved|by apply behaved_same].
Qed.

Lemma handled_files config p req peer content :
  manager_ok (RequestHandler.manager (handler p)) ->
  body_file (body_source (snd (h2_handled fs walk_fuel config p req peer))) = Some content ->
  file_admitted fs (RequestHandler.effective_config config req) req (option_map ip peer) (RequestHandler.manager (handler p)) content.
Proof.
  intros Hm. unfold h2_handled, handled. destruct (RequestHandler.handle_request _ _ _ _ _ _ _) as [[st resp]|] eqn:E; [|done].
  cbn [snd]. intros Hb. by eapply handler_files_admitted.
Qed.

(** An answer of the handler of [p], and what it lets out: files, and the pages
    of a 404. *)
Record answer_admitted (config : ServerConfig) (req : HttpRequest) (peer : SocketAddr) (p : Process) (resp : HttpResponse) : Prop := {
  admitted_answer : resp = snd (h2_handled fs walk_fuel config p req (Some peer));
  admitted_file content : body_file (body_source resp) = Some content ->
    file_admitted fs (RequestHandler.effective_config config req) req (Some (ip peer)) (RequestHandler.manager (handler p)) content;
  admitted_page data : status resp = NotFound -> body_source resp = BodyBytes data ->
    data = str "404 Not Found" \/
    page_admitted fs (RequestHandler.effective_config config req) req (Some (ip peer)) (RequestHandler.manager (handler p)) data;
}.

Lemma answers_admitted config p req peer :
  manager_ok (RequestHandler.manager (handler p)) ->
  answer_admitted config req peer p (snd (h2_handled fs walk_fuel config p req (Some peer))).
Proof.
  intros Hm. split; [done|by intros content; apply (handled_files config p req (Some peer))|].
  intros data. unfold h2_handled, handled. destruct (RequestHandler.handle_request _ _ _ _ _ _ _) as [[st resp]|] eqn:E; [|done].
  cbn [snd]. by eapply handler_pages_admitted.
Qed.

(** The rule cache after a request's lookup. *)
Definition looks_up (config : ServerConfig) (m m' : ConfigManager) : Prop :=
  exists req path d, let server := RequestHandler.effective_config config req in
    get_config_for_dir fs (Some (config_file server)) (root_dir server) path (dev_mode server) m = Some (m', d).

Lemma answer_looks_up fuel config req peer now m counters m' resp :
  RequestHandler.answer fuel fs (RequestHandler.effective_config config req) req peer now m counters = Some (m', resp) ->
  rtc (looks_up config) m m'.
Proof.
  unfold RequestHandler.answer. case_match; [by intros [= <- _]|]. destruct (check_method req); [by intros [= <- _]|].
  destruct (resolve_path req) as [[cp rp]|]; [|by intros [= <- _]].
  destruct (get_config_for_dir _ _ _ _ _ _) as [[m1 d]|] eqn:E; [|done].
  destruct (respond _ _ _ _ _ _ _ _ _); [|done]. intros [= <- _]. apply rtc_once. by exists req, rp, d.
Qed.

(** The rules [p] goes by are [p0]'s after some lookups. *)
Definition rules_after (config : ServerConfig) (p0 p : Process) : Prop :=
  rtc (looks_up config) (RequestHandler.manager (handler p0)) (RequestHandler.manager (handler p)).
#[export] Instance rules_after_preorder config : PreOrder (rules_after config).
Proof. split; [intros p; apply rtc_refl|intros x y z H1 H2; unfold rules_after in *; by etrans]. Qed.

Lemma same_rules_after config p p' : RequestHandler.manager (handler p') = RequestHandler.manager (handler p) -> rules_after config p p'.
Proof. unfold rules_after. intros ->. apply rtc_refl. Qed.

Lemma h2_handled_rules config p req peer : rules_after config p (fst (h2_handled fs walk_fuel config p req peer)).
Proof.
  unfold h2_handled, handled. destruct (RequestHandler.handle_request _ _ _ _ _ _ _) as [[st resp]|] eqn:E; [|by apply same_rules_after].
  cbn [fst]. apply handle_request_inv in E as [(_ & _ & Hm & _)|(r & _ & Ha & _)]; [by apply same_rules_after|].
  by eapply answer_looks_up.
Qed.

Lemma rules_after_ok config p p' :
  rules_after config p p' -> manager_ok (RequestHandler.manager (handler p)) -> manager_ok (RequestHandler.manager (handler p')).
Proof.
  unfold rules_after. induction 1 as [|m m1 m2 (req & path & d & Hg) _ IH]; [done|]. intros Hm. apply IH. by eapply get_config_ok.
Qed.

(** The proxy and the scripts leave the rules and the rate limiter alone. *)
Definition same_rules (p p' : Process) : Prop :=
  RequestHandler.manager (handler p') = RequestHandler.manager (handler p) /\
  RequestHandler.limiter (handler p') = RequestHandler.limiter (handler p).
#[export] Instance same_rules_preorder : PreOrder same_rules.
Proof. split; [by split|]. intros x y z [] []. split; congruence. Qed.

Lemma h2_proxied_rules p req config peer secure : same_rules p (fst (h2_proxied network ip_text p req config peer secure)).
Proof. unfold h2_proxied. by destruct (proxy_begin_h2 _ _ _ _ _ _ _). Qed.
Lemma h2_scripted_rules p req config secure peer : same_rules p (fst (h2_scripted fs walk_fuel ip_text p req config secure peer)).
Proof.
  unfold h2_scripted. destruct (script_server (outside p O)); by destruct (begin_h2_response _ _ _ _ _ _ _ _ _ _).
Qed.

(** An answer a connection that began with [p0] may carry. *)
Definition may_answer (config : ServerConfig) (peer : SocketAddr) (p0 : Process) (req : HttpRequest) (resp : HttpResponse) : Prop :=
  exists p, rules_after config p0 p /\ answer_admitted config req peer p resp.

#[export] Instance backend_admits config peer p0 :
  BackendKeeps (B := backend config) (Some peer) (rules_after config)
    (fun p => manager_ok (RequestHandler.manager (handler p)) /\ rules_after config p0 p) (fun _ => True) (may_answer config peer p0).
Proof.
  split; cbn.
  - apply _.
  - intros p p' Hr [Hm H0]. split; [by eapply rules_after_ok|by etrans].
  - by split.
  - intros p req. split; [apply h2_handled_rules|]. intros [Hm H0]. exists p. split; [exact H0|by apply answers_admitted].
  - intros p req cfg from secure _. apply same_rules_after, h2_proxied_rules.
  - intros p pending. split; [|apply polled_no_file, proxy_head_no_file]. unfold h2_polled. destruct (Proxy.proxy_poll _ pending). by apply same_rules_after.
  - intros p req cfg secure from _. apply same_rules_after, h2_scripted_rules.
  - intros p pending. split; [|apply polled_no_file, script_head_no_file]. unfold h2_polled. destruct (FastCgi.poll _ pending). by apply same_rules_after.
  - intros p. by apply same_rules_after.
Qed.

#[export] Instance backend_keeps P config peer :
  known_routes P config ->
  BackendKeeps (B := backend config) peer (behaved P) (fun p => manager_ok (RequestHandler.manager (handler p))) (known_routes P) (fun _ _ => True).
Proof.
  intros Hk. split; cbn.
  - apply _.
  - intros p p' [_ [Hb _ _]]. exact Hb.
  - intros p req. split; [reflexivity|by apply known_effective].
  - intros p req. split; [apply h2_handled_behaved|done].
  - intros p req cfg from secure Hc. by apply h2_proxied_behaved.
  - intros p pending. split; [apply polled_behaved|apply polled_no_file, proxy_head_no_file].
  - intros p req cfg secure from Hc. unfold h2_scripted. destruct (script_server (outside p O)) as [io|];
      (destruct (begin_h2_response _ _ _ _ _ _ _ _ _ _) as [x r]; by apply behaved_same).
  - intros p pending. split; [apply polled_behaved|apply polled_no_file, script_head_no_file].
  - intros p. by apply behaved_same.
Qed.

(** ** The parts a connection is served with *)

Lemma driven_behaved P config buf peer secure w w' :
  known_routes P config -> driven fs walk_fuel h2_fuel gz_reader network ip_text config buf peer secure w = Some w' ->
  behaved P (process w) (process w').
Proof.
  intros Hk. unfold driven. set (w0 := mkWorld _ _ _). pose proof (backend_keeps P config (Some peer) Hk) as Hkeep.
  pose proof (connection_kept (B := backend config) (Some peer) _ _ _ _ h2_fuel buf w0) as Hc.
  destruct (handle_connection _ _ _ w0) as [x r]. destruct (panicked (env x)); [done|]. intros [= <-]. apply (kept_env _ _ _ _ _ _ Hc).
Qed.

Lemma proxied_behaved {A} P config (m : ST Proxying IoErr A) (w w' : Serving Process) r :
  known_routes P config -> respects client_heard m ->
  (forall v v' x, 0 <= active (shared v) -> m v = (v', x) -> dials (configured config) (shared v) (shared v')) ->
  with_proxy m w = (w', r) -> behaved P (process w) (process w').
Proof.
  intros Hk Hh Hd. unfold with_proxy. destruct (m _) as [x y] eqn:E. intros [= <- _]. cbn [process].
  apply relayed_behaved with (w := relaying no_io (stream w) (process w)); [|by apply Hh in E|done].
  apply dials_dials_only. intros Ha. eapply dials_mono; [exact Hk|]. exact (Hd (mkProxying _ _) _ _ Ha E).
Qed.

Lemma scripted_behaved {A} P (m : bool -> ST Relay IoErr A) (w w' : Serving Process) r :
  (forall connection, respects heard (m connection)) -> with_script m w = (w', r) -> behaved P (process w) (process w').
Proof.
  intros Hh. unfold with_script. destruct (script_server (now w)) as [io|];
    (match goal with |- context [m ?b ?s] => destruct (m b s) as [x y] eqn:E end; intros [= <- _]; cbn [process];
     eapply relayed_behaved; [reflexivity|by eapply Hh|done]).
Qed.

#[export] Instance services_keep P : ServicesKeep services (behaved P) (known_routes P).
Proof.
  split; cbn.
  - apply _.
  - intros config req. apply known_effective.
  - intros config req peer p p' resp _. apply handled_behaved.
  - intros config buf peer secure w w' Hk. by apply driven_behaved.
  - intros req config peer secure w w' r Hk [E|E].
    + eapply proxied_behaved; [exact Hk| | |exact E]; [apply proxy_handle_heard|intros v v' x; apply handle_confined].
    + eapply scripted_behaved; [|exact E]. intros connection. apply handle_fastcgi_heard.
  - intros buf head config peer secure w w' r Hk [E|E].
    + eapply proxied_behaved; [exact Hk| | |exact E]; [apply proxy_streaming_heard|intros v v' x; apply streaming_confined].
    + eapply scripted_behaved; [|exact E]. intros connection. apply streaming_fastcgi_heard.
Qed.

(** ** What a connection leaves behind *)

(** C23: What serving a connection does to the process, whatever the client says
    and in whichever protocol.  The authorities dialled are those of candidates
    of the configured routes, health probes included; the rule cache stays well
    formed; each request that is counted has its line in the log, and none stays
    active. *)
Theorem connection_behaved file_at config peer secure clock (w : Serving Process) :
  let p := process w in
  let p' := process (fst (serve_stream (services := services) gz_reader file_at error_text config peer secure clock w)) in
  (0 <= active (upstreams p) -> exists l, dialled (upstreams p') = dialled (upstreams p) ++ l /\ Forall (configured config) l) /\
  (manager_ok (RequestHandler.manager (handler p)) -> manager_ok (RequestHandler.manager (handler p'))) /\
  (in_range (RequestHandler.metrics (handler p)) -> exists lines,
     RequestHandler.log (handler p') = RequestHandler.log (handler p) ++ lines /\
     requests_total (RequestHandler.metrics (handler p')) = as_u64 (requests_total (RequestHandler.metrics (handler p)) + len lines) /\
     requests_active (RequestHandler.metrics (handler p')) = requests_active (RequestHandler.metrics (handler p))).
Proof.
  intros p p'. assert (Hk : known_routes (configured config) config) by by intros a.
  destruct (serve_stream_keeps (services := services) (behaved (configured config)) (known_routes (configured config))
    gz_reader file_at error_text config peer secure Hk clock w) as [[_ Hd] [Hm _ Hl]].
  split_and!; [exact Hd|exact Hm|exact Hl].
Qed.

(** C10: Static files go out only as the rules admit.  A file in the body of an
    answer, and the page of a 404, are admitted for the very request answered: its
    method, its target, the peer, the merged rules of every directory on the way
    looked up in the process's rule cache, and the document root of the request's
    host, beneath which the file, no directory, is reached by plain names without
    following links.  Over HTTP/1.1 this holds of every answer of the handler.
    Over HTTP/2, a dispatch queues for the stream's number nothing but the body of
    the handler's answer to the stream's request for the connection's peer, by the
    rules and the rate limiter the process had, or a 502 of the driver; and at
    every moment of a connection what waits for a stream is what is left of the
    body of such an answer to a request of a stream with that number, by the rules
    the connection's lookups left, or of an upstream's or of a 502. *)
Theorem served_files_admitted config peer :
  (forall req (p p' : Process) resp,
     manager_ok (RequestHandler.manager (handler p)) ->
     Listener.handle_request (Services := services) config req peer p = Some (p', resp) ->
     answer_admitted config req peer p resp) /\
  (forall st (w w' : World (B := backend config)) r pending,
     manager_ok (RequestHandler.manager (handler (env w))) ->
     dispatch_h2_request st (Some peer) w = (w', r) ->
     pending ∈ pending_responses (conn w') ->
     pending ∈ pending_responses (conn w) \/
     pr_stream_id pending = Stream.id st /\ exists resp, queued_as (B := backend config) (body_source resp) (pr_body pending) /\
       ((exists p, same_rules (env w) p /\ answer_admitted config (h2_request st) peer p resp) \/
        exists text, resp = Connection.bad_gateway text)) /\
  (forall fuel buf secure io (p : Process) w' r pending,
     manager_ok (RequestHandler.manager (handler p)) ->
     handle_connection (B := backend config) fuel buf (Some peer)
       (mkWorld (B := backend config) (with_secure (conn_new config) secure) io p) = (w', r) ->
     pending ∈ pending_responses (conn w') ->
     answered (B := backend config) (may_answer config peer p) pending).
Proof.
  split_and!.
  - intros req p p' resp Hm Hh. pose proof (answers_admitted config p req peer Hm) as Ha.
    unfold h2_handled in Ha. cbn in Hh. by rewrite Hh in Ha.
  - intros st w w' r pending Hm E Hin.
    destruct (dispatch_queues (B := backend config) (Some peer) same_rules (fun p req => reflexivity p)
      (fun p req cfg from secure => h2_proxied_rules p req cfg from secure)
      (fun p req cfg secure from => h2_scripted_rules p req cfg secure from) st w w' r E pending Hin) as [Hp|(resp & Hr & Hs & Hq)]; [by left|right].
    split; [exact Hs|]. exists resp. split; [exact Hq|]. destruct Hr as [(p & Hp & ->)|Hr]; [left|by right].
    exists p. split; [exact Hp|]. apply answers_admitted. by destruct Hp as [-> _].
  - intros fuel buf secure io p w' r pending Hm E Hin. pose proof (backend_admits config peer p) as Hkeep.
    destruct (connection_kept (B := backend config) (Some peer) _ _ _ _ fuel buf (mkWorld (B := backend config) (with_secure (conn_new config) secure) io p))
      as [_ Hq]. rewrite E in Hq. specialize (Hq I (conj Hm (reflexivity p)) ltac:(constructor)). unfold files_answered in Hq. rewrite Forall_forall in Hq.
    by apply Hq.
Qed.
End Safety.
