(* ===== verification/ServerEnds.v ===== *)
(** * Connections end

    With enough fuel for the HTTP/2 driver, serving a connection ends in every
    case, and more fuel changes nothing. *)

From S2P Require Import Prelude RustStd Io Config Http Frame Connection ConnInv ConnReach Termination Text Limits Fs ConfigCache Metrics Handler FastCgi FastCgiRelay Upstreams Proxy ProxyRelay WebSocket Listener ListenerProps Server ServerProps.

(** ** What the protocol is found out from *)

Lemma io_read_typed io n io' x :
  Forall event_ok (incoming io) -> io_read io n = (io', x) -> Forall event_ok (incoming io') /\ forall d, x = ReadOk d -> bytes_ok d.
Proof.
  intros Hi. unfold io_read. destruct (read (incoming io) n) as [r y] eqn:E. intros [= <- <-]. by eapply read_typed.
Qed.

Lemma preface_typed fuel clock deadline buf io io' buf' h2 :
  bytes_ok buf -> Forall event_ok (incoming io) -> read_preface fuel clock deadline buf io = (io', Some (buf', h2)) ->
  bytes_ok buf' /\ Forall event_ok (incoming io').
Proof.
  revert clock buf io. induction fuel as [|fuel IH]; intros clock buf io Hb Hi; cbn [read_preface]; [done|].
  destruct (_ <=? _); [by intros [= <- <- _]|].
  destruct (io_read io 1024) as [io1 x] eqn:E. apply io_read_typed in E as [Hi1 Hd]; [|done].
  destruct x as [[|b d]| |]; [done| | |done].
  - assert (Hb' : bytes_ok (buf ++ b :: d)) by (apply Forall_app_2; [done|by apply Hd]).
    repeat (case_match; [by intros [= <- <- _]|]). by apply IH.
  - case_match; [by intros [= <- <- _]|]. by apply IH.
Qed.

Lemma detect_typed config clock io io' buf h2 :
  Forall event_ok (incoming io) -> detect_protocol config clock io = (io', Some (buf, h2)) ->
  bytes_ok buf /\ Forall event_ok (incoming io').
Proof.
  intros Hi. unfold detect_protocol. destruct (http2_enabled config); [by apply preface_typed|].
  unfold read_first. destruct (io_read io 1024) as [io1 x] eqn:E. apply io_read_typed in E as [Hi1 Hd]; [|done].
  intros [= <- Hx]. destruct x as [[|b d]| |]; try done. injection Hx as <- _. split; [by apply Hd|done].
Qed.

(** ** The end *)

Section Ends.
Context `{UnicodeCase} {Fd : Type} (fs : FileSystem Fd) (walk_fuel : nat).
Context (GzWriter : Type) (gz_new : Z -> GzWriter) (gz_write : GzWriter -> bytes -> GzWriter * bytes)
  (gz_finish : GzWriter -> bytes) (gz_reader : Reader -> Z -> Reader).
Context (network : list bytes -> bytes -> option (list (option Io))) (error_text : IoErr -> bytes).
Context (sha1 : bytes -> bytes) (base64_encode : bytes -> bytes) (base64_decode : bytes -> option bytes).
Context (ip_text : bytes -> bytes).

(** The server whose HTTP/2 driver has this fuel. *)
Definition fuelled (h2_fuel : nat) : Services :=
  server fs walk_fuel h2_fuel GzWriter gz_new gz_write gz_finish gz_reader network error_text sha1 base64_encode base64_decode ip_text.

(** C21: Serving a connection ends, whatever the client says, in whichever
    protocol, and however its bytes arrive, whatever upstreams and scripts say
    and whatever the files are: with enough fuel for the rounds of the HTTP/2
    driver the connection is finished, or its thread has panicked, and with more
    fuel nothing else happens. *)
Theorem every_connection_ends file_at config peer secure clock (w : Serving Process) :
  0 <= max_request_size config -> 0 <= http2_max_concurrent_streams config -> Forall event_ok (incoming (stream w)) ->
  exists fuel (w' : Serving Process) r, r <> OutOfFuel /\
    forall f, (fuel <= f)%nat ->
      serve_stream (services := fuelled f) gz_reader file_at error_text config peer secure clock w = (w', r).
Proof.
  intros Hmax Hn Hi. destruct (detect_protocol config clock (stream w)) as [io [[buf [|]]|]] eqn:E.
  - destruct (detect_typed _ _ _ _ _ _ Hi E) as [Hb Hi'].
    assert (Hd : exists fuel w' r, forall f, (fuel <= f)%nat ->
      handle_connection (B := server_backend fs walk_fuel gz_reader network ip_text config) f buf (Some peer)
        (mkWorld (B := server_backend fs walk_fuel gz_reader network ip_text config) (with_secure (conn_new config) secure) io (process w)) = (w', Some r)).
    { unfold handle_connection. destruct (check_preface _ _) as [w1 [|r]] eqn:Hp; [|by exists O, w1, r].
      apply check_preface_ok in Hp; [|done..]. destruct (main_loop_ends config Hmax (Some peer) w1 Hp) as (fuel & r & w2 & Hf).
      by exists fuel, w2, r. }
    destruct Hd as (fuel & x & r & Hf). exists fuel.
    exists (if panicked (env x) then mkServing _ io (process w) else mkServing _ (Connection.io x) (env x)),
      (if panicked (env x) then Panicked else Finished).
    split; [by destruct (panicked (env x))|]. intros f Hle. specialize (Hf f Hle). unfold serve_stream. change (@Shared (fuelled f)) with Process. rewrite E.
    change (@serve_h2 (fuelled f)) with (driven fs walk_fuel f gz_reader network ip_text). unfold driven. cbn [stream process].
    destruct (handle_connection _ _ _ _) as [x' r']. injection Hf as -> _. by destruct (panicked (env x)).
  - set (w1 := mkServing Process io (process w)).
    set (x := serve_requests (services := fuelled O) gz_reader file_at error_text config peer secure (serve_fuel (services := fuelled O) buf w1) buf 0 w1).
    exists O, (fst x), (snd x). split.
    + apply requests_end; [exact Hmax|]. unfold serve_fuel, to_serve. lia.
    + intros f _. rewrite <- surjective_pairing. unfold serve_stream. change (@Shared (fuelled f)) with Process. rewrite E. reflexivity.
  - exists O, (mkServing _ io (process w)), Finished. split; [done|]. intros f _. unfold serve_stream. change (@Shared (fuelled f)) with Process. by rewrite E.
Qed.
End Ends.
