(* ===== verification/Documents.v ===== *)
(** * Documents are delivered

    The other half of what a web server is for: a file that the rules let out
    does go out.  What the client of an HTTP/1.1 connection receives for it, from
    the bytes of its request to those of the answer, and what is written and queued
    for a stream of an HTTP/2 connection. *)

From S2P Require Import Prelude RustStd Io Config ConfigSet Http Limits Text Paths Conditional Rules RuleFile RuleProps Fs ConfigCache Metrics Handler HandlerProps HandlerEffects Connection Listener ListenerProps FastCgiRelay Upstreams Proxy ProxyRelay WebSocket Server ServerProps Frame Hpack Stream H2Headers Responses Scheduler.

(** ** Writing an answer *)

(** A file's handles: from an offset, the bytes from there to the end. *)
Definition hands_out (file_at : bytes -> Z -> option Reader) (content : bytes) : Prop := forall offset, 0 <= offset ->
  exists r, file_at content offset = Some r /\ reader_clean r /\ reader_bytes r = drop (Z.to_nat offset) content.

Lemma copy_file_ok fuel r io :
  reader_clean r -> faults io = [] -> (reader_size r < fuel)%nat ->
  copy_file fuel r io = (mkIo (wire io ++ reader_bytes r) [] (incoming io), Ok tt).
Proof.
  revert r io. induction fuel as [|f IH]; intros r io Hc Hf Hsz; [lia|]. cbn [copy_file].
  destruct (read_clean 65536 r ltac:(lia) Hc) as [->|(d & r' & Hread & Hd & Hne & Hc' & Hsz' & Hb)].
  - cbn. rewrite app_nil_r. destruct io as [w fs i]. cbn in Hf. by subst.
  - rewrite Hread. destruct d as [|x d]; [done|]. unfold st_bind. rewrite write_all_ok by done.
    rewrite IH by (done || lia). cbn [wire incoming]. by rewrite Hb, app_assoc.
Qed.

Lemma copy_range_ok fuel r n io :
  reader_clean r -> faults io = [] -> (reader_size r < fuel)%nat -> 0 <= n <= len (reader_bytes r) ->
  copy_range fuel r n io = (mkIo (wire io ++ take (Z.to_nat n) (reader_bytes r)) [] (incoming io), Ok tt).
Proof.
  revert r n io. induction fuel as [|f IH]; intros r n io Hc Hf Hsz Hn; [lia|]. cbn [copy_range].
  destruct (Z.leb_spec n 0) as [Hz|Hpos].
  - assert (n = 0) as -> by lia. cbn. rewrite app_nil_r. destruct io as [w fs i]. cbn in Hf. by subst.
  - destruct (read_clean (Z.min n 65536) r ltac:(lia) Hc) as [->|(d & r' & Hread & Hd & Hne & Hc' & Hsz' & Hb)]; [change (len (reader_bytes [])) with 0 in Hn; lia|].
    rewrite Hread. destruct d as [|x d]; [done|]. unfold st_bind. rewrite write_all_ok by done. set (dd := x :: d) in *.
    rewrite Hb in Hn. rewrite len_app in Hn. rewrite IH by (done || lia). cbn [wire incoming].
    rewrite Hb, take_app, (take_ge dd) by (unfold len in *; lia). rewrite <- app_assoc.
    by replace (Z.to_nat n - length dd)%nat with (Z.to_nat (n - len dd)) by (unfold len in *; lia).
Qed.

Section Written.
Context (gz_reader : Reader -> Z -> Reader) (file_at : bytes -> Z -> option Reader).

(** What is sent for a body on a working connection; [coded] is the form an
    encoder's output takes: chunks over HTTP/1.1. *)
Definition body_written (coded : Reader -> bytes -> Prop) (b : BodySource) (w : bytes) : Prop :=
  match b with
  | BodyBytes data => w = data
  | BodyFile file _ => w = file
  | BodyFileRange file offset n => w = take (Z.to_nat n) (drop (Z.to_nat offset) file)
  | BodyGzipFile file _ level => exists r, reader_bytes r = file /\ coded (gz_reader r level) w
  end.
Definition in_chunks (r : Reader) (w : bytes) : Prop := exists fuel, dechunk fuel w = Some (reader_bytes r).

(** The file behind a body can be read, and an encoder's output too. *)
Definition body_readable (b : BodySource) : Prop :=
  match b with
  | BodyBytes _ => True
  | BodyFile file n => hands_out file_at file /\ n = len file
  | BodyFileRange file offset n => hands_out file_at file /\ 0 <= offset /\ 0 <= n /\ offset + n <= len file
  | BodyGzipFile file n level => hands_out file_at file /\ n = len file /\ forall r, reader_clean r -> reader_clean (gz_reader r level)
  end.

Lemma send_body_ok b io : body_readable b -> faults io = [] ->
  exists w, send_body gz_reader file_at b io = (mkIo (wire io ++ w) [] (incoming io), Ok tt) /\ body_written in_chunks b w.
Proof.
  intros Hb Hf. destruct b as [data|file n|file offset n|file n level]; cbn [send_body body_readable body_written] in *.
  - exists data. split; [|done]. case_bool_decide as E; [|by apply write_all_ok].
    subst. rewrite app_nil_r. destruct io as [w fs i]. cbn in Hf. by subst.
  - destruct Hb as [Hb _]. destruct (Hb 0 ltac:(lia)) as (r & Hr & Hc & Hbytes). cbn [drop] in Hbytes. exists file. split; [|done].
    unfold st_bind, st_res. rewrite Hr. cbn [ok_or]. rewrite copy_file_ok by (done || lia). by rewrite Hbytes.
  - destruct Hb as (Hb & H0 & Hn & Hlen). destruct (Hb offset H0) as (r & Hr & Hc & Hbytes).
    exists (take (Z.to_nat n) (drop (Z.to_nat offset) file)). split; [|done].
    unfold st_bind, st_res. rewrite Hr. cbn [ok_or]. rewrite copy_range_ok; [by rewrite Hbytes|done|done|lia|].
    rewrite Hbytes. unfold len in *. rewrite length_drop. lia.
  - destruct Hb as (Hb & _ & Hgz). destruct (Hb 0 ltac:(lia)) as (r & Hr & Hc & Hbytes). cbn [drop] in Hbytes.
    destruct (write_chunked_round_trip (gz_reader r level) io (Hgz r Hc) Hf) as (w & Hw & Hd).
    exists w. split; [|exists r; split; [done|by eexists]]. unfold st_bind, st_res. rewrite Hr. exact Hw.
Qed.

Lemma send_to_ok resp io : body_readable (body_source resp) -> faults io = [] ->
  exists w, send_to gz_reader file_at resp io = (mkIo (wire io ++ response_head resp ++ w) [] (incoming io), Ok tt) /\
    body_written in_chunks (body_source resp) w.
Proof.
  intros Hb Hf. unfold send_to, st_bind. rewrite write_all_ok by done.
  destruct (send_body_ok (body_source resp) (mkIo (wire io ++ response_head resp) [] (incoming io)) Hb eq_refl) as (w & -> & Hw).
  exists w. split; [|exact Hw]. cbn [wire incoming]. unfold flush, io_flush. cbn. by rewrite <- app_assoc.
Qed.
End Written.

(** ** Queueing an answer *)

Section Queued.
Context `{UnicodeCase} {B : Backend}.
Implicit Types (w : World).

(** A connection whose transport takes everything from now on. *)
Definition on_wire (out : bytes) w : World := mkWorld (conn w) (mkIo (wire (io w) ++ out) [] (incoming (io w))) (env w).

Lemma write_frame_ok f w : faults (io w) = [] -> write_frame f w = (on_wire (frame_encode f) w, Ok tt).
Proof. intros Hf. unfold write_frame, io_write. by rewrite Hf. Qed.

Lemma on_wire_app a b w : on_wire b (on_wire a w) = on_wire (a ++ b) w.
Proof. unfold on_wire. cbn. by rewrite app_assoc. Qed.

Lemma continuations_ok fuel sid max block offset w :
  0 < max -> 0 <= offset <= len block -> (length block <= fuel + Z.to_nat offset)%nat -> faults (io w) = [] ->
  exists fs, write_continuations fuel sid max block offset w = (on_wire (concat (map frame_encode fs)) w, Ok tt) /\
    continuations sid max (drop (Z.to_nat offset) block) fs.
Proof.
  intros Hmax. revert offset w. induction fuel as [|f IH]; intros offset w Ho Hfuel Hf; cbn [write_continuations];
    destruct (Z.ltb_spec offset (len block)) as [Hlt|Hge]; try (unfold len in *; lia).
  1,3: exists []; rewrite drop_ge by (unfold len in *; lia); split; [|constructor]; unfold on_wire; cbn; rewrite app_nil_r;
    destruct w as [c [wi fa inc] e]; cbn in Hf; by subst.
  set (e := Z.min (offset + max) (len block)). assert (He : offset < e <= len block /\ e <= offset + max) by lia.
  unfold st_bind. rewrite write_frame_ok by done.
  destruct (IH e (on_wire (frame_encode (continuation_frame sid (slice block offset e) (e =? len block))) w) ltac:(lia) ltac:(unfold len in *; lia) eq_refl)
    as (fs & E & Hfs).
  rewrite E, on_wire_app. exists (continuation_frame sid (slice block offset e) (e =? len block) :: fs). split; [done|].
  rewrite (drop_slice block offset e), <- drop_nil_iff by lia. constructor; [rewrite slice_length; lia|done].
Qed.

(** The frames of an answer's head; [ended] says that nothing follows them. *)
Definition head_frames (max sid : Z) (resp : HttpResponse) (ended : bool) (out : bytes) : Prop :=
  exists first rest fs, encode_headers (response_fields resp) = first ++ rest /\ len first <= max /\ continuations sid max rest fs /\
    out = frame_encode (headers_frame sid first ended (bool_decide (rest = []))) ++ concat (map frame_encode fs).

(** Operations on open files succeed, now and later. *)
Definition files_work (good : Env -> Prop) : Prop := forall e, good e -> snd (file_op e) = true /\ good (fst (file_op e)).

Lemma file_call_ok good w : files_work good -> good (env w) ->
  exists e, file_call w = (mkWorld (conn w) (io w) e, Ok tt) /\ good e.
Proof.
  intros Hw Hg. destruct (Hw _ Hg) as [H1 H2]. unfold file_call, call, st_bind. destruct (file_op (env w)) as [e ok]. cbn in *. subst. by exists e.
Qed.

(** What an encoder makes of a file is what its reader says. *)
Definition in_data (r : Reader) (out : bytes) : Prop := out = script_bytes r.

Lemma pending_body_ok good b file_at w :
  files_work good -> good (env w) -> body_readable gz_encoder file_at b ->
  exists body e, pending_body_of b w = (mkWorld (conn w) (io w) e, Ok body) /\ body_written gz_encoder in_data b (body_content body).
Proof.
  intros Hw Hg Hb. assert (Hs : forall d, script_bytes [RData d] = d) by (intros [|x d]; cbn; by rewrite ?app_nil_r).
  destruct b as [data|file n|file offset n|file n level]; cbn [pending_body_of body_readable body_written] in *; unfold st_bind.
  - by exists (PB_Bytes data 0), (env w); destruct w.
  - destruct (file_call_ok good w Hw Hg) as (e & -> & _). destruct Hb as [_ ->]. eexists _, e. split; [done|]. cbn [body_content].
    rewrite Hs. apply take_ge. unfold len. lia.
  - destruct (file_call_ok good w Hw Hg) as (e & -> & He).
    destruct (file_call_ok good (mkWorld (conn w) (io w) e) Hw He) as (e' & E & _). rewrite E. eexists _, e'. split; [done|]. cbn [body_content]. by rewrite Hs.
  - destruct (file_call_ok good w Hw Hg) as (e & -> & _). eexists _, e. split; [done|]. cbn [body_content].
    exists [RData file]. split; [by destruct file; cbn; rewrite ?app_nil_r|done].
Qed.

(** A body that is left out is empty, or an encoder's output for an empty file. *)
Lemma left_out resp file_at body :
  body_readable gz_encoder file_at (body_source resp) -> has_body resp None = false ->
  body_written gz_encoder in_data (body_source resp) body -> body = [] \/ exists level, body_source resp = BodyGzipFile [] 0 level.
Proof.
  assert (Hl : forall file : bytes, len file <= 0 -> file = []) by (intros [|x l]; [done|]; unfold len; cbn [length]; lia).
  unfold has_body. destruct (body_source resp) as [data|file n|file offset n|file n level]; cbn; intros Hb Hn; zbool.
  - intros ->. by left.
  - destruct Hb as [_ ->]. intros ->. left. apply Hl. lia.
  - intros ->. left. by replace (Z.to_nat n) with 0%nat by lia.
  - destruct Hb as (_ & -> & _). right. exists level. by rewrite (Hl file) by lia.
Qed.

Lemma queue_ok good sid resp file_at w :
  files_work good -> good (env w) -> body_readable gz_encoder file_at (body_source resp) ->
  0 < peer_max_frame_size (conn w) -> faults (io w) = [] ->
  let ended := negb (has_body resp None) in
  exists out b e,
    queue_h2_response sid resp w =
      (on_wire out (mkWorld (if ended then finish_stream sid (conn w) else push_pending_response (mkPendingResponse sid b) (conn w)) (io w) e), Ok tt) /\
    head_frames (peer_max_frame_size (conn w)) sid resp ended out /\
    body_written gz_encoder in_data (body_source resp) (body_content b).
Proof.
  intros Hw Hg Hb Hmax Hf ended. unfold queue_h2_response, queue_h2_stream_response. fold ended.
  set (block := encode_headers (response_fields resp)). set (max := peer_max_frame_size (conn w)) in *. set (first := Z.min (len block) max).
  pose proof (len_nonneg block) as Hl. unfold st_bind at 1. change (gets peer_max_frame_size w) with (w, Ok (E := Http2ErrorCode) max). cbv iota.
  fold first. unfold st_bind at 1. rewrite write_frame_ok by done. set (f := headers_frame sid _ _ _).
  destruct (continuations_ok (length block) sid max block first (on_wire (frame_encode f) w) Hmax ltac:(lia) ltac:(lia) eq_refl) as (fs & E & Hfs).
  unfold st_bind at 1. rewrite E, on_wire_app. clear E. set (out := frame_encode f ++ concat (map frame_encode fs)).
  assert (Hout : head_frames max sid resp ended out).
  { destruct (first_fragment block max Hmax) as (H1 & H2 & H3). fold first in H1, H2, H3.
    exists (slice block 0 first), (drop (Z.to_nat first) block), fs. split; [exact H1|]. split; [exact H2|]. split; [exact Hfs|]. by rewrite H3. }
  clearbody out. destruct (pending_body_ok good (body_source resp) file_at (on_wire out w) Hw Hg Hb) as (b & e & E & Hbody).
  destruct ended eqn:Hended; unfold ended in Hended.
  - exists out, b, (env w). split; [|by split]. reflexivity.
  - exists out, b, e. split; [|by split].
    unfold st_bind. rewrite E. reflexivity.
Qed.
End Queued.

(** ** A header that stays *)

Section Headers.
Context (x : bytes * bytes).

Lemma custom_keeps r hs : x ∈ resp_headers r -> x ∈ resp_headers (apply_custom_headers r hs).
Proof.
  unfold apply_custom_headers. revert r. induction hs as [|h hs IH]; intros r Hx; [done|]. cbn [fold_left]. apply IH.
  apply elem_of_app. by left.
Qed.

Lemma drop_names_keeps names l :
  Forall (fun name => eq_ignore_ascii_case (fst x) name = false) names -> x ∈ l -> x ∈ drop_names names l.
Proof.
  unfold drop_names. intros Hn. revert l. induction Hn as [|name names Hx _ IH]; intros l Hin; [done|]. cbn [fold_left]. apply IH.
  apply list_elem_of_In, filter_In. split; [by apply list_elem_of_In|]. by rewrite Hx.
Qed.

Lemma rules_keep r d :
  Forall (fun name => eq_ignore_ascii_case (fst x) name = false) (remove_headers d) -> x ∈ resp_headers r -> x ∈ resp_headers (apply_rules r d).
Proof. intros Hn Hx. unfold apply_rules, apply_rule_headers. cbn. apply drop_names_keeps; [done|]. by do 2 apply custom_keeps. Qed.

Lemma cache_keeps r d now r' : cache_headers r d now = Some r' -> x ∈ resp_headers r -> x ∈ resp_headers r'.
Proof.
  unfold cache_headers. intros E Hx.
  assert (Hc : x ∈ resp_headers (match cache d with Some true => with_header r (str "Cache-Control") (str "public")
    | Some false => with_header r (str "Cache-Control") (str "no-store") | None => r end)).
  { destruct (cache d) as [[]|]; [apply elem_of_app; by left..|done]. }
  destruct (expires d); [destruct (_ >? _); [done|]|]; injection E as <-; [apply elem_of_app; by left|done].
Qed.

Lemma vary_keeps l : eq_ignore_ascii_case (fst x) (str "Vary") = false -> x ∈ l -> x ∈ ensure_vary_accept_encoding l.
Proof.
  intros Hv. induction l as [|[name value] l IH]; [by intros ?%elem_of_nil|]. cbn [ensure_vary_accept_encoding]. intros Hx.
  destruct (eq_ignore_ascii_case name (str "Vary")) eqn:E.
  - destruct (existsb _ _); [done|]. apply elem_of_cons in Hx as [Hn|Hx]; [rewrite Hn in Hv; cbn [fst] in Hv; congruence|by right].
  - apply elem_of_cons in Hx as [->|Hx]; [by left|right; by apply IH].
Qed.

Lemma compress_keeps server req r :
  eq_ignore_ascii_case (fst x) (str "Vary") = false -> is_gzip (body_source (compress_response server req r)) = false ->
  x ∈ resp_headers r -> x ∈ resp_headers (compress_response server req r).
Proof.
  intros Hv Hg Hx. unfold compress_response in *. cbv zeta in *.
  match goal with |- context [vary_etag_for_encoding (remove_header (resp_headers ?y) _) _] => set (r' := y) in * end.
  assert (Hx' : x ∈ resp_headers r') by (unfold r'; match goal with |- context [if ?b then put_headers _ _ else _] => destruct b end; [by apply vary_keeps|done]). clearbody r'.
  destruct (_ && static_accepts_gzip _); [|done]. by destruct (body_source r').
Qed.

Lemma security_keeps r server : x ∈ resp_headers r -> x ∈ resp_headers (apply_security_headers r server).
Proof.
  unfold apply_security_headers. cbn [put_headers resp_headers]. generalize [(str "X-Content-Type-Options", security_x_content_type_options server);
     (str "Referrer-Policy", security_referrer_policy server); (str "X-Frame-Options", security_x_frame_options server);
     (str "Content-Security-Policy", security_content_security_policy server)] as ds. generalize (resp_headers r) as l.
  intros l ds. revert l. induction ds as [|[n v] ds IH]; intros l Hx; [done|]. cbn [fold_left]. apply IH. unfold add_default_header. cbn [fst snd].
  destruct v as [v|]; [|done]. destruct (existsb _ _); [done|]. apply elem_of_app. by left.
Qed.
End Headers.

(** ** The handler's answer *)

Section Answered.
Context `{UnicodeCase} {Fd : Type} (walk_fuel : nat) (fs : FileSystem Fd).

(** A regular file with its content, found from the document root by opening its
    names, none a link. *)
Definition stored (root : bytes) (names : list bytes) (meta : Metadata) (content : bytes) : Prop :=
  (exists root_fd fd, file_open fs root = Some root_fd /\ open_walk fs root_fd names = Some fd /\
     open_directories fs root_fd names = None /\ metadata fs fd = Some meta /\ read_all fs fd = Some content) /\
  meta_is_dir meta = false /\ meta_len meta = len content.

(** A request for it that nothing stands against: it is for a document and not
    the counters, the rules admit it and do not send it elsewhere, and they let
    no answer expire after the end of time. *)
Record granted (server : ServerConfig) (req : HttpRequest) (peer : option bytes) (now : Z) (rules : ConfigManager)
  (names : list bytes) (d : DirectoryConfig) (meta : Metadata) (content : bytes) : Prop := {
  granted_document : bytes_eqb (hd [] (split_on 63 (uri req))) (str "/metrics") = false;
  granted_method : method req = Get \/ method req = Head;
  granted_target : exists cp m, resolve_path req = Ok (cp, join_with [47] names) /\ Forall safe_name names /\
    get_config_for_dir fs (Some (config_file server)) (root_dir server) (join_with [47] names) (dev_mode server) rules = Some (m, d) /\
    match redirect d with Some rule => redirect_source rule <> cp | None => True end;
  granted_rules : admitted d (match dir_deny_hidden_files d with Some b => b | None => deny_hidden_files server end) req names peer;
  granted_expires : forall s, expires d = Some s -> now + s <= I64_MAX;
  granted_file : exists root, canonicalize fs (root_dir server) = Some root /\ stored root names meta content;
}.

Lemma admitted_check d deny_hidden req names peer :
  Forall safe_name names -> admitted d deny_hidden req names peer ->
  check_access d deny_hidden req (join_with [47] names) peer = None.
Proof.
  intros Hs [Hm Hh Ha]. unfold check_access.
  assert (match methods d with
    | Some ms => if existsb (fun m => eq_ignore_ascii_case m (method_display (method req))) ms then None
        else Some (with_body (with_header (response_new MethodNotAllowed) (str "Allow") (join_with (str ", ") ms)) (str "405 Method Not Allowed") TEXT)
    | None => None end = None) as ->.
  { destruct (methods d) as [ms|]; [|done]. destruct (Hm ms eq_refl) as (m & Hin & Heq).
    assert (existsb (fun m => eq_ignore_ascii_case m (method_display (method req))) ms = true) as ->; [|done].
    apply existsb_true_elem. by exists m. }
  unfold has_hidden_component. rewrite normal_names_join by done.
  assert (deny_hidden && existsb (fun n => starts_with n [46]) names = false) as ->.
  { destruct deny_hidden; [|done]. by apply existsb_false_Forall, Hh. }
  destruct peer as [octets|]; [|done]. destruct (Ha octets eq_refl) as (H1 & H2 & H3). unfold denied.
  rewrite bool_decide_false by done. rewrite (proj2 (existsb_false_Forall _ _) H2). cbn [orb].
  destruct H3 as [->|(c & Hc & Hin)]; [done|]. rewrite (proj2 (existsb_true_elem _ _)) by (by exists c). cbn [negb]. by rewrite andb_false_r.
Qed.

Lemma join_nonempty names : Forall safe_name names -> names <> [] -> join_with [47] names <> [].
Proof.
  intros Hs Hn. destruct names as [|n [|n' names]]; [done| |]; cbn; inversion Hs as [|?? [Hne _]]; subst; by destruct n.
Qed.

Lemma stored_opens root names meta content indexes :
  Forall safe_name names -> stored root names meta content ->
  names <> [] /\ open_beneath_directory fs root (join_with [47] names) = None /\
  exists fd path, open_beneath_with_index walk_fuel fs root (join_with [47] names) indexes = Some (fd, path) /\
    metadata fs fd = Some meta /\ file_bytes fs fd = content.
Proof.
  intros Hs ((root_fd & fd & Hf & Hw & Hd & Hm & Hr) & Hdir & _). split_and!.
  - by intros ->.
  - unfold open_beneath_directory. by rewrite Hf, normal_names_join.
  - exists fd. eexists. split_and!; [|exact Hm|unfold file_bytes; by rewrite Hr].
    destruct walk_fuel; cbn [open_beneath_with_index]; by rewrite Hf, normal_names_join, Hw, Hm, Hdir.
Qed.

(** The answer, up to the headers of the whole server. *)
Lemma granted_answer server req peer (now : Moment) rules names d meta content counters :
  granted server req peer (system_now now) rules names d meta content ->
  exists m mime r, cache_headers (apply_rules (file_response req content (Some meta) mime) d) d (system_now now) = Some r /\
    RequestHandler.answer walk_fuel fs server req peer now rules counters = Some (m, strip_head_body req (compress_response server req r)).
Proof.
  intros [Hdoc Hmeth (cp & m & Hres & Hs & Hcfg & Hred) Hadm Hexp (root & Hcan & Hst)].
  destruct (stored_opens root names meta content (configured_indexes d) Hs Hst) as (Hne & Hdir & fd & path & Ho & Hm & Hb).
  pose proof (join_nonempty names Hs Hne) as Hj. unfold RequestHandler.answer. rewrite Hdoc.
  assert (check_method req = None) as -> by (unfold check_method; by destruct Hmeth as [-> | ->]).
  rewrite Hres, Hcfg. unfold respond. rewrite (admitted_check _ _ _ _ _ Hs Hadm).
  assert (check_redirect d cp = None) as ->.
  { unfold check_redirect. destruct (redirect d) as [rule|]; [|done]. by rewrite (proj2 (bytes_eqb_neq _ _) Hred). }
  rewrite Hcan. unfold directory_response. rewrite Hdir. unfold serve_file.
  assert (path_to_open d (join_with [47] names) = join_with [47] names) as -> by (unfold path_to_open; by destruct (join_with [47] names)).
  rewrite Ho, Hm, Hb. exists m, (rule_mime d path).
  assert (Hc : exists r, cache_headers (apply_rules (file_response req content (Some meta) (rule_mime d path)) d) d (system_now now) = Some r).
  { unfold cache_headers. destruct (expires d) as [s|] eqn:Es; [|by eexists]. specialize (Hexp s eq_refl).
    replace (system_now now + s >? I64_MAX) with false by lia. by eexists. }
  destruct Hc as [r Hc]. exists r. by rewrite Hc.
Qed.

(** The limiter lets a request through. *)
Definition let_through (config : ServerConfig) (peer : option bytes) (now : Moment) (st : RequestHandler.State) : Prop :=
  forall ip, peer = Some ip ->
    snd (allow_request (RequestHandler.limiter st) (instant_now now) ip (rate_limit_per_second config) (rate_limit_burst config)) = true.

Lemma granted_handled config req peer now st names d meta content :
  let server := RequestHandler.effective_config config req in
  let_through config peer now st ->
  granted server req peer (system_now now) (RequestHandler.manager st) names d meta content ->
  exists st' mime r, cache_headers (apply_rules (file_response req content (Some meta) mime) d) d (system_now now) = Some r /\
    RequestHandler.handle_request walk_fuel fs config req peer now st =
    Some (st', apply_security_headers (strip_head_body req (compress_response server req r)) config).
Proof.
  intros server Hl Hg. unfold RequestHandler.handle_request.
  assert (exists buckets, match peer with
    | Some ip => allow_request (RequestHandler.limiter st) (instant_now now) ip (rate_limit_per_second config) (rate_limit_burst config)
    | None => (RequestHandler.limiter st, true) end = (buckets, true)) as [buckets ->].
  { destruct peer as [ip|]; [|by eexists]. specialize (Hl ip eq_refl). destruct (allow_request _ _ _ _ _) as [b ok]. cbn in Hl. subst. by eexists. }
  cbn [negb].
  replace (match select_vhost config req with Some _ => RequestHandler.effective_config config req | None => config end)
    with server by (unfold server; destruct (select_vhost config req) eqn:E; [done|by apply effective_config_none]).
  unfold RequestHandler.handle_request_inner. cbn [RequestHandler.manager RequestHandler.metrics RequestHandler.on_metrics].
  destruct (granted_answer server req peer now (RequestHandler.manager st) names d meta content (guard_begin (RequestHandler.metrics st)) Hg)
    as (m & mime & r & Hc & ->).
  eexists _, mime, r. split; [exact Hc|reflexivity].
Qed.

(** ** What the answer is *)

(** An encoder only takes the place of a whole file. *)
Lemma compress_answer server req r :
  status (compress_response server req r) = status r /\
  (body_source (compress_response server req r) = body_source r \/
   exists file n, body_source r = BodyFile file n /\ status r = StatusOk /\ compression_enabled server = true /\
     static_accepts_gzip (get_header req (str "Accept-Encoding")) = true /\
     body_source (compress_response server req r) = BodyGzipFile file n (compression_level server)).
Proof.
  unfold compress_response. cbv zeta.
  match goal with |- context [vary_etag_for_encoding (remove_header (resp_headers ?y) _) _] => set (r' := y) end.
  assert (E : status r' = status r /\ body_source r' = body_source r)
    by (unfold r'; match goal with |- context [if ?b then put_headers _ _ else _] => by destruct b end).
  destruct E as [Es Eb]. clearbody r'. destruct (bool_decide (method req = Get)); cbn [andb]; [|by split; [|left]].
  destruct (bool_decide (status r = StatusOk)) eqn:Hok; cbn [andb]; [|by split; [|left]]. zbool.
  destruct ((compression_min_size server <=? body_len r) && response_mime_is_compressible r (compression_mime_types server)); cbn [andb]; [|by split; [|left]].
  destruct (compression_enabled server) eqn:He; cbn [andb]; [|by split; [|left]].
  destruct (static_accepts_gzip _) eqn:Ha; [|by split; [|left]].
  destruct (body_source r') as [data|file n|file offset n|file n level] eqn:E; rewrite ?E, ?Es; (split; [done|]); try by left.
  right. exists file, n. by rewrite <- Eb.
Qed.

(** What a client is owed for a document of a modification time and size. *)
Inductive Delivery : Type :=
| Unchanged
| HeadOnly
| Whole
| Part (range : RangeSpec)
| NoSuchPart.

Definition owed (req : HttpRequest) (meta : Metadata) (size : Z) : Delivery :=
  let mtime_secs := since_epoch (match meta_modified meta with Some t => t | None => 0 end) in
  if not_modified req (generate_etag mtime_secs size) mtime_secs then Unchanged else
  match method req, get_header req (str "Range") with
  | Get, Some header =>
      match parse_range_header (trim header) size with
      | Ok (Some range) => Part range
      | Err _ => NoSuchPart
      | Ok None => Whole
      end
  | Head, _ => HeadOnly
  | _, _ => Whole
  end.

Lemma file_response_answers req content meta mime :
  meta_len meta = len content ->
  let resp := file_response req content (Some meta) mime in
  match owed req meta (len content) with
  | Unchanged => status resp = NotModified /\ body_source resp = BodyBytes []
  | HeadOnly => method req = Head /\ status resp = StatusOk /\ body_source resp = BodyBytes [] /\ (str "Content-Length", to_string (len content)) ∈ resp_headers resp
  | Whole => method req <> Head /\ status resp = StatusOk /\ body_source resp = BodyFile content (len content) /\
      (str "Content-Length", to_string (len content)) ∈ resp_headers resp
  | Part range =>
      let n := range_end range - range_start range + 1 in
      method req <> Head /\ 0 <= range_start range /\ 0 < n /\ range_start range + n <= len content /\
      status resp = PartialContent /\ body_source resp = BodyFileRange content (range_start range) n /\
      (str "Content-Length", to_string n) ∈ resp_headers resp
  | NoSuchPart => method req <> Head /\ status resp = RangeNotSatisfiable /\ exists data, body_source resp = BodyBytes data
  end.
Proof.
  intros Hlen resp. subst resp. unfold owed, file_response. rewrite Hlen. cbv zeta.
  destruct (not_modified _ _ _); [done|].
  assert (Hin : forall r f n ct, (str "Content-Length", to_string n) ∈ resp_headers (with_file r f n ct)).
  { intros r f n ct. cbn [with_file push_header set_body resp_headers]. rewrite !elem_of_app. left. right. by left. }
  assert (Hin' : forall r f o n ct, (str "Content-Length", to_string n) ∈ resp_headers (with_file_range r f o n ct)).
  { intros r f o n ct. cbn [with_file_range push_header set_body resp_headers]. rewrite !elem_of_app. left. right. by left. }
  destruct (method req) eqn:Hmeth; [|split_and!; [done..|]| |]; try (split_and!; [done..|apply Hin]).
  - destruct (get_header req (str "Range")) as [header|]; [|split_and!; [done..|apply Hin]].
    destruct (parse_range_header (trim header) (len content)) as [[range|]|] eqn:Hr; [|split_and!; [done..|apply Hin]|].
    + apply range_header_spec in Hr; [|apply len_nonneg]. split_and!; [done|lia|lia|lia|done|done|apply Hin'].
    + split_and!; [done..|by eexists].
  - unfold with_validators, with_header. cbn [push_header resp_headers]. rewrite !elem_of_app. do 4 left. right.
    apply list_elem_of_singleton. by rewrite (strip_clean _ (no_crlf_to_string _)).
Qed.

(** What the client gets, with an announced length unless a rule takes the header
    away. *)
Definition announced (d : DirectoryConfig) (n : Z) (resp : HttpResponse) : Prop :=
  Forall (fun name => eq_ignore_ascii_case (str "Content-Length") name = false) (remove_headers d) ->
  (str "Content-Length", to_string n) ∈ resp_headers resp.

Definition received (gz_reader : Reader -> Z -> Reader) (coded : Reader -> bytes -> Prop) (server : ServerConfig) (req : HttpRequest) (d : DirectoryConfig) (content : bytes)
  (o : Delivery) (resp : HttpResponse) (body : bytes) : Prop :=
  match o with
  | Unchanged => status resp = NotModified /\ body = []
  | HeadOnly => status resp = StatusOk /\ body = [] /\ announced d (len content) resp
  | Whole => status resp = StatusOk /\
      ((body = content /\ announced d (len content) resp) \/
       (compression_enabled server = true /\ static_accepts_gzip (get_header req (str "Accept-Encoding")) = true /\
        exists r, reader_bytes r = content /\ coded (gz_reader r (compression_level server)) body))
  | Part range =>
      let n := range_end range - range_start range + 1 in
      status resp = PartialContent /\ body = take (Z.to_nat n) (drop (Z.to_nat (range_start range)) content) /\ announced d n resp
  | NoSuchPart => status resp = RangeNotSatisfiable
  end.

(** A header of the file's answer in the final one. *)
Lemma header_kept server config req d now r0 r x :
  cache_headers (apply_rules r0 d) d now = Some r ->
  eq_ignore_ascii_case (fst x) (str "Vary") = false -> is_gzip (body_source (compress_response server req r)) = false ->
  Forall (fun name => eq_ignore_ascii_case (fst x) name = false) (remove_headers d) ->
  x ∈ resp_headers r0 -> x ∈ resp_headers (apply_security_headers (strip_head_body req (compress_response server req r)) config).
Proof.
  intros Hc Hv Hg Hn Hx. apply security_keeps. unfold strip_head_body.
  assert (x ∈ resp_headers (compress_response server req r)) by (apply compress_keeps; [done..|]; eapply cache_keeps; [exact Hc|]; by apply rules_keep).
  by destruct (bool_decide _).
Qed.

Lemma final_answer gz_reader file_at server config req d now meta content mime r :
  meta_len meta = len content ->
  cache_headers (apply_rules (file_response req content (Some meta) mime) d) d now = Some r ->
  hands_out file_at content -> (forall r level, reader_clean r -> reader_clean (gz_reader r level)) ->
  let resp := apply_security_headers (strip_head_body req (compress_response server req r)) config in
  body_readable gz_reader file_at (body_source resp) /\
  forall coded w, body_written gz_reader coded (body_source resp) w ->
    received gz_reader coded server req d content (owed req meta (len content)) resp w.
Proof.
  intros Hlen Hc Hf Hgz resp. pose proof (file_response_answers req content meta mime Hlen) as Ho. cbv zeta in Ho.
  set (r0 := file_response req content (Some meta) mime) in *.
  assert (Hst : status r = status r0) by (rewrite (cache_status _ _ _ _ Hc); apply rules_status).
  assert (Hbo : body_source r = body_source r0) by (rewrite (cache_headers_body _ _ _ _ Hc); apply apply_rules_body).
  assert (Hresp : status resp = status r0) by (cbn; unfold strip_head_body; destruct (bool_decide _); cbn; by rewrite (proj1 (compress_answer server req r))).
  assert (Hb : body_source resp = if bool_decide (method req = Head) then BodyBytes [] else body_source (compress_response server req r))
    by (cbn; unfold strip_head_body; by destruct (bool_decide _)).
  destruct (compress_answer server req r) as [_ [Hsame|(file & n & Hfile & _ & Hen & Hacc & Hgzip)]].
  - rewrite Hsame, Hbo in Hb.
    assert (Hann : forall n, is_gzip (body_source r0) = false -> (str "Content-Length", to_string n) ∈ resp_headers r0 -> announced d n resp).
    { intros n Hg Hin Hn. eapply header_kept; [exact Hc|done|by rewrite Hsame, Hbo|exact Hn|exact Hin]. }
    destruct (owed req meta (len content)) as [| | |range|]; cbn [received]; rewrite Hresp.
    + destruct Ho as [E1 E2]. assert (body_source resp = BodyBytes []) as -> by (rewrite Hb, E2; by case_bool_decide). by split.
    + destruct Ho as (Hm & E1 & E2 & E3). rewrite Hb, bool_decide_true by done. split; [done|]. intros coded w Hw.
      split_and!; [done..|]. apply Hann; [by rewrite E2|done].
    + destruct Ho as (Hm & E1 & E2 & E3). rewrite Hb, bool_decide_false, E2 by done. split; [by split|]. intros coded w Hw.
      split; [done|]. left. split; [done|]. apply Hann; [by rewrite E2|done].
    + destruct Ho as (Hm & H0 & Hn & Hend & E1 & E2 & E3). rewrite Hb, bool_decide_false, E2 by done. split; [cbn; split_and!; [done|lia..]|].
      intros coded w Hw. split_and!; [done..|]. apply Hann; [by rewrite E2|done].
    + destruct Ho as (Hm & E1 & data & E2). rewrite Hb, bool_decide_false, E2 by done. done.
  - rewrite Hbo in Hfile. destruct (owed req meta (len content)) as [| | |range|]; cbn [received]; rewrite Hresp;
      [destruct Ho; congruence|destruct Ho as (_ & _ & E & _); congruence| |destruct Ho as (_ & _ & _ & _ & _ & E & _); congruence
      |destruct Ho as (_ & _ & data & E); congruence].
    destruct Ho as (Hm & E1 & E2 & _). rewrite E2 in Hfile. injection Hfile as <- <-.
    rewrite Hb, bool_decide_false, Hgzip by done. split; [cbn; split_and!; [done..|intros; by apply Hgz]|]. intros coded w (rd & Hrd & Hd).
    split; [done|]. right. split_and!; [done..|]. by exists rd.
Qed.

(** Only the whole document goes through an encoder. *)
Lemma encoded_answer server config req d now meta content mime r file n level :
  meta_len meta = len content ->
  cache_headers (apply_rules (file_response req content (Some meta) mime) d) d now = Some r ->
  body_source (apply_security_headers (strip_head_body req (compress_response server req r)) config) = BodyGzipFile file n level ->
  file = content /\ compression_enabled server = true.
Proof.
  intros Hlen Hc Hg. pose proof (file_response_answers req content meta mime Hlen) as Ho. cbv zeta in Ho.
  assert (Hbo : body_source r = body_source (file_response req content (Some meta) mime))
    by (rewrite (cache_headers_body _ _ _ _ Hc); apply apply_rules_body).
  assert (Hf : forall f m, body_source r = BodyFile f m -> f = content).
  { intros f m E. rewrite Hbo in E. destruct (owed _ _ _); naive_solver congruence. }
  cbn in Hg. unfold strip_head_body in Hg. destruct (bool_decide (method req = Head)); [done|].
  destruct (compress_answer server req r) as [_ [Hsame|(f & m & Hfile & _ & Hen & _ & Hgzip)]].
  - rewrite Hsame, Hbo in Hg. destruct (owed _ _ _); naive_solver congruence.
  - rewrite Hgzip in Hg. injection Hg as <- <- <-. split; [by eapply Hf|done].
Qed.

End Answered.

(** ** The client *)

Section Delivered.
Context `{UnicodeCase} {Fd : Type} (fs : FileSystem Fd) (walk_fuel h2_fuel : nat).
Context (GzWriter : Type) (gz_new : Z -> GzWriter) (gz_write : GzWriter -> bytes -> GzWriter * bytes)
  (gz_finish : GzWriter -> bytes) (gz_reader : Reader -> Z -> Reader).
Context (network : list bytes -> bytes -> option (list (option Io))) (error_text : IoErr -> bytes).
Context (sha1 : bytes -> bytes) (base64_encode : bytes -> bytes) (base64_decode : bytes -> option bytes).
Context (ip_text : bytes -> bytes) (file_at : bytes -> Z -> option Reader).

Abbreviation services :=
  (server fs walk_fuel h2_fuel GzWriter gz_new gz_write gz_finish gz_reader network error_text sha1 base64_encode base64_decode ip_text).

(** A request the process answers with a document. *)
Definition grants (config : ServerConfig) (peer : SocketAddr) (req : HttpRequest) (p : Process) (names : list bytes) (d : DirectoryConfig)
  (meta : Metadata) (content : bytes) : Prop :=
  let moment := at_moment (outside p O) in
  let_through config (Some (ip peer)) moment (handler p) /\
  granted fs (RequestHandler.effective_config config req) req (Some (ip peer)) (system_now moment) (RequestHandler.manager (handler p)) names d meta content.

Lemma grants_handled config peer req p names d meta content :
  grants config peer req p names d meta content ->
  hands_out file_at content -> (forall r level, reader_clean r -> reader_clean (gz_reader r level)) ->
  exists st resp, handled fs walk_fuel config req (Some peer) p = Some (called (mkProcess st (upstreams p) (relays p) (outside p) (panicked p)), resp) /\
    body_readable gz_reader file_at (body_source resp) /\
    (forall file n level, body_source resp = BodyGzipFile file n level ->
       file = content /\ compression_enabled (RequestHandler.effective_config config req) = true) /\
    forall coded body, body_written gz_reader coded (body_source resp) body ->
      received gz_reader coded (RequestHandler.effective_config config req) req d content (owed req meta (len content)) resp body.
Proof.
  intros [Hl Hg] Hf Hgz. pose proof Hg as [_ _ _ _ _ (root & _ & _ & _ & Hlen)].
  destruct (granted_handled walk_fuel fs config req (Some (ip peer)) (at_moment (outside p O)) (handler p) names d meta content Hl Hg)
    as (st & mime & r & Hc & E).
  destruct (final_answer gz_reader file_at (RequestHandler.effective_config config req) config req d _ meta content mime r Hlen Hc Hf Hgz) as [Hread Hrec].
  unfold handled. cbn [option_map]. rewrite E. eexists _, _. split; [reflexivity|]. split; [exact Hread|].
  split; [|exact Hrec]. intros file n level. by eapply encoded_answer.
Qed.

Abbreviation driver := (server_backend fs walk_fuel gz_reader network ip_text).

(** Of what is to come: operations on open files succeed. *)
Definition lasting (p : Process) : Prop := forall n, file_works (outside p n) = true.

Lemma lasting_files config : files_work (B := driver config) lasting.
Proof. intros p Hp. split; [apply Hp|]. intros n. apply Hp. Qed.

Lemma answered_round config peer secure buf rest req count client p p' resp :
  unrouted (services := services) config -> parse_request buf config = (rest, Ok (Some req)) -> faults client = [] ->
  handled fs walk_fuel config req (Some peer) p = Some (p', resp) -> body_readable gz_reader file_at (body_source resp) ->
  let last := (max_requests_per_connection config <=? count + 1) || negb (is_keep_alive req) in
  exists body,
    serve_round (services := services) gz_reader file_at error_text config peer secure buf count (mkServing Process client p) =
      (mkServing Process (mkIo (wire client ++ response_head (set_close_connection resp last) ++ body) [] (incoming client)) p',
       if last then Listener.Break else Listener.Continue rest (count + 1)) /\
    body_written gz_reader in_chunks (body_source resp) body.
Proof.
  intros Hu Hp Hfaults Hh Hread last.
  destruct (send_to_ok gz_reader file_at (set_close_connection resp last) client Hread Hfaults) as (body & Hs & Hw).
  exists body. split; [|exact Hw].
  unfold serve_round. rewrite (unrouted_streaming (services := services)) by done. rewrite Hp.
  rewrite (unrouted_request (services := services)) by done. cbn [process stream].
  change (@Listener.handle_request services config req peer p) with (handled fs walk_fuel config req (Some peer) p).
  rewrite Hh. fold last. unfold send. cbn [stream process]. change (@Shared services) with Process. rewrite Hs. cbn [negb orb]. by destruct last.
Qed.

(** A stream no route concerns is the handler's. *)
Lemma dispatched config peer st (w : World (B := driver config)) :
  unrouted (services := services) config -> validate_request_headers (request_headers st) = Ok tt ->
  validate_content_length (headers (h2_request st)) (len (request_body st)) = Ok tt ->
  dispatch_h2_request st (Some peer) w =
    let '(p, resp) := h2_handled fs walk_fuel config (env w) (h2_request st) (Some peer) in
    queue_h2_response (B := driver config) (id st) resp (mkWorld (B := driver config) (conn w) (io w) p).
Proof.
  intros Hu Hv Hl. destruct (Hu (h2_request st) (env w)) as [Hp Hs]. unfold dispatch_h2_request, st_bind at 1, st_res. rewrite Hv.
  unfold st_bind at 1. rewrite Hl. unfold st_bind at 1 2. unfold gets, call at 1. cbn [server_backend Connection.effective_config proxy_route_matches_request fastcgi_route_matches_request conn env io].
  cbn in Hp, Hs. rewrite Hp, Hs. unfold st_bind, call. cbn [Connection.handle_request env conn io].
  change (Connection.handle_request (env w) (h2_request st) (Some peer)) with (h2_handled fs walk_fuel config (env w) (h2_request st) (Some peer)).
  by destruct (h2_handled fs walk_fuel config (env w) (h2_request st) (Some peer)) as [p resp].
Qed.

End Delivered.
