(* ===== verification/Tls.v ===== *)
(** * Certificates (src/server/tls.rs)

    The certificates of the server and of its virtual hosts, and the choice among
    them by the name a client asks for.  The decoding of PEM, the key types and
    the comparison of a key with its certificate are the rustls crates'. *)

From S2P Require Import Prelude RustStd Io Config Text Fs.

Section Tls.
Context {Fd Certificate PrivateKey SigningKey : Type}.
Context (pem_certs : bytes -> option (list Certificate)) (pem_key : bytes -> option (option PrivateKey))
  (any_supported_type : PrivateKey -> option SigningKey) (keys_match : list Certificate -> SigningKey -> bool).

Definition CertifiedKey : Type := list Certificate * SigningKey.

(** The errors, in place of their texts. *)
Inductive TlsError : Type :=
| CertificateUnopened (path : bytes) | KeyUnopened (path : bytes)
| CertificateInvalid | NoCertificate | KeyInvalid | NoPrivateKey | KeyUnsupported | KeyMismatch
| VhostIncomplete (host : bytes).

(** Both files are opened before either is read. *)
Definition load_certified_key (fs : FileSystem Fd) (cert_path key_path : bytes) : result CertifiedKey TlsError :=
  let? cert_file := ok_or (file_open fs cert_path) (CertificateUnopened cert_path) in
  let? key_file := ok_or (file_open fs key_path) (KeyUnopened key_path) in
  let? certificates := ok_or (match read_all fs cert_file with Some pem => pem_certs pem | None => None end) CertificateInvalid in
  if match certificates with [] => true | _ :: _ => false end then Err NoCertificate else
  let? found := ok_or (match read_all fs key_file with Some pem => pem_key pem | None => None end) KeyInvalid in
  let? key := ok_or found NoPrivateKey in
  let? signing_key := ok_or (any_supported_type key) KeyUnsupported in
  if keys_match certificates signing_key then Ok (certificates, signing_key) else Err KeyMismatch.

Record TlsAcceptor : Type := mkTlsAcceptor {
  default_key : CertifiedKey;
  named : gmap bytes CertifiedKey;
}.

(** One virtual host: both files, or neither. *)
Definition add_vhost (fs : FileSystem Fd) (named : gmap bytes CertifiedKey) (vhost : VhostConfig)
  : result (gmap bytes CertifiedKey) TlsError :=
  match vhost_tls_certificate vhost, vhost_tls_private_key vhost with
  | Some cert, Some key =>
      let? certified := load_certified_key fs cert key in Ok (<[vhost_host vhost := certified]> named)
  | None, None => Ok named
  | _, _ => Err (VhostIncomplete (vhost_host vhost))
  end.

Definition from_pem_with_vhosts (fs : FileSystem Fd) (cert key : bytes) (vhosts : list VhostConfig) : result TlsAcceptor TlsError :=
  let? default := load_certified_key fs cert key in
  let? named := fold_result (add_vhost fs) vhosts ∅ in
  Ok (mkTlsAcceptor default named).

(** [SniResolver::resolve]. *)
Definition resolve (acceptor : TlsAcceptor) (server_name : option bytes) : option CertifiedKey :=
  match match server_name with Some name => named acceptor !! name | None => None end with
  | Some key => Some key
  | None => Some (default_key acceptor)
  end.

(** ** The handshake *)

(** [TlsAcceptor::accept]: the session and its input and output are rustls's.
    [None] when the fuel is used up. *)
Section Handshake.
Context {Session Sock IoError : Type}.
Context (server_connection : TlsAcceptor -> option Session) (is_handshaking : Session -> bool)
  (complete_io : Session -> Sock -> Session * Sock * result unit IoError).

Inductive AcceptError : Type :=
| SetupFailed
| HandshakeIo (e : IoError).

Fixpoint complete_handshake (fuel : nat) (session : Session) (sock : Sock) : option (Sock * result Session AcceptError) :=
  if negb (is_handshaking session) then Some (sock, Ok session) else
  match fuel with
  | O => None
  | S fuel =>
      match complete_io session sock with
      | (session, sock, Ok _) => complete_handshake fuel session sock
      | (_, sock, Err e) => Some (sock, Err (HandshakeIo e))
      end
  end.

Definition acceptor_accept (fuel : nat) (acceptor : TlsAcceptor) (sock : Sock) : option (Sock * result Session AcceptError) :=
  match server_connection acceptor with
  | None => Some (sock, Err SetupFailed)
  | Some session => complete_handshake fuel session sock
  end.

(** While the handshake lasts a call of rustls's [complete_io] returns without
    an error only when it is done. *)
Definition io_completes : Prop := forall session sock session' sock',
  is_handshaking session = true -> complete_io session sock = (session', sock', Ok tt) -> is_handshaking session' = false.

(** So the loop goes round once at most, and hands on a session that can carry
    requests, or an error with the connection. *)
Lemma handshake_completes fuel acceptor sock :
  io_completes -> (1 <= fuel)%nat ->
  exists sock' r, acceptor_accept fuel acceptor sock = Some (sock', r) /\
    match r with Ok session => is_handshaking session = false | Err _ => True end.
Proof.
  intros Hio Hf. unfold acceptor_accept. destruct (server_connection acceptor) as [session|]; [|by eexists _, _].
  destruct fuel as [|fuel]; [lia|]. cbn [complete_handshake]. destruct (is_handshaking session) eqn:Hh; cbn [negb]; [|by eexists _, _].
  destruct (complete_io session sock) as [[session' sock'] [[]|e]] eqn:E; [|by eexists _, _].
  pose proof (Hio _ _ _ _ Hh E) as Hd. exists sock', (Ok session'). split; [|done]. destruct fuel; cbn; by rewrite Hd.
Qed.
End Handshake.

(** ** What is presented *)

Definition presentable (key : CertifiedKey) : Prop := fst key <> [] /\ keys_match (fst key) (snd key) = true.

Lemma load_presentable fs cert key k : load_certified_key fs cert key = Ok k -> presentable k.
Proof.
  unfold load_certified_key. intros (cf & _ & E)%rbind_ok. apply rbind_ok in E as (kf & _ & E).
  apply rbind_ok in E as (certs & _ & E). destruct certs as [|c certs]; [done|].
  apply rbind_ok in E as (found & _ & E). apply rbind_ok in E as (pk & _ & E). apply rbind_ok in E as (sk & _ & E).
  destruct (keys_match _ _) eqn:Hm; [|done]. injection E as <-. by split.
Qed.

(** The certificate a name stands for: that of the last virtual host that has the
    name and a certificate. *)
Definition vhost_files (host : bytes) (vhosts : list VhostConfig) : option (bytes * bytes) :=
  last (omap (fun v => match vhost_tls_certificate v, vhost_tls_private_key v with
                       | Some cert, Some key => if bytes_eqb (vhost_host v) host then Some (cert, key) else None
                       | _, _ => None
                       end) vhosts).

Lemma add_vhosts_named fs vhosts named0 named host :
  fold_result (add_vhost fs) vhosts named0 = Ok named ->
  match vhost_files host vhosts with
  | Some (cert, key) => exists k, named !! host = Some k /\ load_certified_key fs cert key = Ok k
  | None => named !! host = named0 !! host
  end /\
  Forall (fun v => is_Some (vhost_tls_certificate v) <-> is_Some (vhost_tls_private_key v)) vhosts.
Proof.
  revert named0. induction vhosts as [|v vhosts IH]; intros named0 E; cbn [fold_result] in E; [by injection E as <-|].
  apply rbind_ok in E as (named1 & Ha & E). apply IH in E as [Hl Hf]. unfold add_vhost in Ha.
  unfold vhost_files in *. cbn [omap list_omap]. set (l := omap _ vhosts) in *.
  destruct (vhost_tls_certificate v) as [cert|] eqn:Hcert, (vhost_tls_private_key v) as [key|] eqn:Hkey; try done.
  - split; [|constructor; [by rewrite Hcert, Hkey; split; intros _; eexists|done]].
    apply rbind_ok in Ha as (k & Hk & [= <-]). destruct (bytes_eqb (vhost_host v) host) eqn:Hh.
    + apply bytes_eqb_eq in Hh. rewrite last_cons. destruct (last l) as [[c' k']|]; [done|]. exists k.
      by rewrite Hl, Hh, lookup_insert_eq.
    + apply bytes_eqb_neq in Hh. destruct (last l) as [[c' k']|]; [done|]. by rewrite Hl, lookup_insert_ne.
  - injection Ha as ->. split; [exact Hl|]. constructor; [by rewrite Hcert, Hkey; split; intros [? [=]]|done].
Qed.

(** A client always gets a certificate, and one whose key is its
    own.  A client that names a virtual host with a certificate gets the one
    loaded from the files of the last virtual host of that name that has one,
    every other client the server's; each has a chain and matches its key.  A
    virtual host with only one of the two files stops the server from starting. *)
Theorem certificate_chosen fs cert key vhosts acceptor server_name :
  from_pem_with_vhosts fs cert key vhosts = Ok acceptor ->
  Forall (fun v => is_Some (vhost_tls_certificate v) <-> is_Some (vhost_tls_private_key v)) vhosts /\
  exists k, resolve acceptor server_name = Some k /\ presentable k /\
    let '(c, p) := match server_name with
                   | Some name => match vhost_files name vhosts with Some files => files | None => (cert, key) end
                   | None => (cert, key)
                   end in
    load_certified_key fs c p = Ok k.
Proof.
  unfold from_pem_with_vhosts. intros (k & Hk & E)%rbind_ok. apply rbind_ok in E as (m & Hm & [= <-]).
  split; [by apply (add_vhosts_named _ _ _ _ [] Hm)|]. unfold resolve. cbn [named default_key].
  assert (Hdefault : exists k0, Some k = Some k0 /\ presentable k0 /\ load_certified_key fs cert key = Ok k0).
  { exists k. split_and!; [done| |done]. by eapply load_presentable. }
  destruct server_name as [name|]; [|exact Hdefault]. apply (add_vhosts_named _ _ _ _ name) in Hm as [Hl _].
  destruct (vhost_files name vhosts) as [[c p]|].
  - destruct Hl as (k' & -> & Hk'). exists k'. split_and!; [done| |done]. by eapply load_presentable.
  - rewrite Hl, lookup_empty. exact Hdefault.
Qed.
End Tls.
