(* ===== verification/Accept.v ===== *)
(** * Accepting connections (src/server/listener.rs, [Server])

    The accept loop: the two limits a new connection has to pass, the job it
    becomes, and the reload of the configuration between two connections.  The
    running connections are those whose jobs have not ended; their guards give
    the limits back. *)

From S2P Require Import Prelude RustStd Io Config ConfigSet Text Limits Fs RuleFile ConfigCache Upstreams Tls.

Section Accept.
Context `{UnicodeCase} {Fd Certificate PrivateKey SigningKey : Type}.
Context (pem_certs : bytes -> option (list Certificate)) (pem_key : bytes -> option (option PrivateKey))
  (any_supported_type : PrivateKey -> option SigningKey) (keys_match : list Certificate -> SigningKey -> bool).
Implicit Types (fs : FileSystem Fd).

(** ** The configuration in force *)

Record RuntimeState : Type := mkRuntimeState {
  runtime_config : ServerConfig;
  tls_acceptor : option (@TlsAcceptor Certificate SigningKey);
}.

Inductive ReloadError : Type :=
| ConfigurationErrors (count : Z)
| BindingChanged
| TreeErrors (count : Z)
| MissingCertificate | MissingPrivateKey
| TlsFailed (e : TlsError).

Definition build_tls_acceptor fs (config : ServerConfig) : result (option (@TlsAcceptor Certificate SigningKey)) ReloadError :=
  if negb (tls_enabled config) then Ok None else
  let? certificate := ok_or (tls_certificate config) MissingCertificate in
  let? private_key := ok_or (tls_private_key config) MissingPrivateKey in
  match from_pem_with_vhosts pem_certs pem_key any_supported_type keys_match fs certificate private_key (vhosts config) with
  | Ok acceptor => Ok (Some acceptor)
  | Err e => Err (TlsFailed e)
  end.

(** The values of the command line, where the file has its default. *)
Definition preserve_bindings (active config : ServerConfig) : ServerConfig :=
  let defaults := server_config_default in
  let config := if bytes_eqb (host config) (host defaults) then set_host (host active) config else config in
  let config := if (port config =? port defaults) && negb (port active =? port defaults)
                then set_port (port active) config else config in
  let config := if path_eqb (root_dir config) (root_dir defaults) && negb (path_eqb (root_dir active) (root_dir defaults))
                then set_root_dir (root_dir active) config else config in
  let config := if (workers config =? workers defaults) && negb (workers active =? workers defaults)
                then set_workers (workers active) config else config in
  let config := if (max_connections config =? max_connections defaults)
                   && negb (max_connections active =? max_connections defaults)
                then set_max_connections (max_connections active) config else config in
  if (max_request_size config =? max_request_size defaults)
     && negb (max_request_size active =? max_request_size defaults)
  then set_max_request_size (max_request_size active) config else config.

(** [Server::load_runtime_state]; [active] is the configuration the server was
    started with, and [None] a panic of the parser. *)
Definition load_runtime_state (walk_fuel : nat) fs (active : ServerConfig) : option (result RuntimeState ReloadError) :=
  let config_path := config_file active in
  match parse_veysrule_file config_path (read_string fs config_path) true with
  | None => None
  | Some (config, _, _ :: _ as errors) => Some (Err (ConfigurationErrors (len errors)))
  | Some (config, _, []) =>
      let config := preserve_bindings active (set_config_file config_path config) in
      if negb (bytes_eqb (host config) (host active)) || negb (port config =? port active)
      then Some (Err BindingChanged) else
      match validate_veysrule_tree walk_fuel fs (root_dir config) (Some (config_file config)) with
      | None => None
      | Some (_ :: _ as errors) => Some (Err (TreeErrors (len errors)))
      | Some [] =>
          Some (let? tls := build_tls_acceptor fs config in Ok (mkRuntimeState config tls))
      end
  end.

(** ** The loop's state *)

Record Listening : Type := mkListening {
  started_with : ServerConfig;
  runtime : RuntimeState;
  config_manager : ConfigManager;
  admission : Buckets;
  active_connections : Z;
  running : list bytes; (* the addresses of the connections being served *)
  checked_config : option ServerConfig; (* what the health checker runs with *)
  reload_log : list ReloadError;
}.

(** [start_health_checker], whose thread can always be started. *)
Definition health_checker (config : ServerConfig) : option ServerConfig :=
  if (interval (health_settings config) =? 0) || match proxy_routes config with [] => true | _ :: _ => false end
  then None else Some config.

Definition set_runtime (r : RuntimeState) (m : ConfigManager) (s : Listening) : Listening :=
  mkListening (started_with s) r m (admission s) (active_connections s) (running s) (health_checker (runtime_config r)) (reload_log s).
Definition set_guards (b : Buckets) (active : Z) (running : list bytes) (s : Listening) : Listening :=
  mkListening (started_with s) (runtime s) (config_manager s) b active running (checked_config s) (reload_log s).

(** [listen], up to its loop. *)
Definition start_listening (walk_fuel : nat) fs (config : ServerConfig) : option (result Listening ReloadError) :=
  match build_tls_acceptor fs config with
  | Err e => Some (Err e)
  | Ok tls =>
      match preload_tree walk_fuel fs (Some (config_file config)) (root_dir config) (new_with_error_log (error_log config)) with
      | None => None
      | Some m => Some (Ok (mkListening config (mkRuntimeState config tls) m ∅ 0 [] (health_checker config) []))
      end
  end.

(** A reload that was asked for. *)
Definition reload (walk_fuel : nat) fs (s : Listening) : option Listening :=
  match load_runtime_state walk_fuel fs (started_with s) with
  | None => None
  | Some (Err e) =>
      Some (mkListening (started_with s) (runtime s) (config_manager s) (admission s) (active_connections s) (running s)
              (checked_config s) (reload_log s ++ [e]))
  | Some (Ok new_state) =>
      let config := runtime_config new_state in
      let m := set_error_log_destination (error_log config) (clear_cache (config_manager s)) in
      match preload_tree walk_fuel fs (Some (config_file config)) (root_dir config) m with
      | None => None
      | Some m => Some (set_runtime new_state m s)
      end
  end.

(** What becomes of a new connection. *)
Inductive Verdict : Type :=
| TooMany          (* 429: the address has its share *)
| SocketFailed     (* it cannot be made blocking *)
| Unavailable      (* 503: the server is full *)
| Unscheduled      (* the pool takes no more jobs *)
| Scheduled (config : ServerConfig) (tls : option (@TlsAcceptor Certificate SigningKey)).

(** [blocking] and [pool_open] say whether [set_nonblocking] and [execute]
    succeed; [clock] is read by each call of the limiter. *)
Definition accept (clock : nat -> Z) (ip : bytes) (blocking pool_open : bool) (s : Listening) : Listening * Verdict :=
  let config := runtime_config (runtime s) in
  let '(b, admitted) := try_connection (admission s) (clock O) ip (max_connections_per_ip config) in
  let dropped := release_connection b (clock 1%nat) ip in
  if negb admitted then (set_guards b (active_connections s) (running s) s, TooMany) else
  if negb blocking then (set_guards dropped (active_connections s) (running s) s, SocketFailed) else
  if max_connections config <=? active_connections s
  then (set_guards dropped (active_connections s) (running s) s, Unavailable) else
  if negb pool_open then (set_guards dropped (active_connections s) (running s) s, Unscheduled) else
  (set_guards b (active_connections s + 1) (running s ++ [ip]) s, Scheduled config (tls_acceptor (runtime s))).

(** The [i]th running connection's job ends, and its guards are dropped. *)
Definition finish (now : Z) (i : nat) (s : Listening) : Listening :=
  match running s !! i with
  | None => s
  | Some ip =>
      set_guards (release_connection (admission s) now ip) (active_connections s - 1)
        (take i (running s) ++ drop (S i) (running s)) s
  end.
End Accept.
