(* ===== verification/AcceptProps.v ===== *)
(** * Accepting and reloading, proved

    The two limits count the connections being served and no others, and a
    reload either publishes a checked configuration or changes nothing. *)

From S2P Require Import Prelude RustStd Io Config ConfigSet Text Limits Fs RuleFile RuleProps ConfigCache Tls Accept.

Section Accept.
Context `{UnicodeCase} {Fd Certificate PrivateKey SigningKey : Type}.
Context (pem_certs : bytes -> option (list Certificate)) (pem_key : bytes -> option (option PrivateKey))
  (any_supported_type : PrivateKey -> option SigningKey) (keys_match : list Certificate -> SigningKey -> bool).
Context (walk_fuel : nat).
Implicit Types (fs : FileSystem Fd).

Abbreviation load_runtime_state := (load_runtime_state pem_certs pem_key any_supported_type keys_match walk_fuel).
Abbreviation start_listening := (start_listening pem_certs pem_key any_supported_type keys_match walk_fuel).
Abbreviation reload := (reload pem_certs pem_key any_supported_type keys_match walk_fuel).

(** ** Connections *)

Definition from_address (ip : bytes) (l : list bytes) : Z := len (List.filter (bytes_eqb ip) l).

Lemma from_address_app ip a b : from_address ip (a ++ b) = from_address ip a + from_address ip b.
Proof. unfold from_address. by rewrite List.filter_app, len_app. Qed.

Lemma from_address_one ip x : from_address ip [x] = if bool_decide (ip = x) then 1 else 0.
Proof.
  unfold from_address. cbn [List.filter]. destruct (bytes_eqb ip x) eqn:E.
  - apply bytes_eqb_eq in E. by rewrite bool_decide_true.
  - apply bytes_eqb_neq in E. by rewrite bool_decide_false.
Qed.

Lemma from_address_perm ip a b : a ≡ₚ b -> from_address ip a = from_address ip b.
Proof.
  unfold from_address, len. intros Hp. f_equal. apply Permutation_length.
  induction Hp as [|x a b _ IH|x y a|a b c _ IH1 _ IH2]; cbn; [done| | |by etrans].
  - destruct (bytes_eqb ip x); by rewrite IH.
  - destruct (bytes_eqb ip x), (bytes_eqb ip y); done || apply Permutation_swap.
Qed.

(** The limiter counts the addresses of a list. *)
Definition limiter_counts (per_ip : Z) (b : Buckets) (ips : list bytes) : Prop :=
  exists live, session per_ip b live /\ forall ip, live ip = from_address ip ips.

Lemma counts_try per_ip b now ip b' ok l :
  limiter_counts per_ip b l -> all_recent b (fun i => from_address i l) now -> try_connection b now ip per_ip = (b', ok) ->
  limiter_counts per_ip b' (if ok then l ++ [ip] else l).
Proof.
  intros (live & Hs & Hl) Hrec E. eexists. split.
  - eapply session_try; [exact Hs| |exact E]. intros i x Hx. rewrite Hl. by apply Hrec.
  - intros i. unfold bump. destruct ok; rewrite ?from_address_app, ?from_address_one, <- Hl; case_bool_decide; lia.
Qed.

Lemma counts_release per_ip b now ip l l' :
  l ≡ₚ ip :: l' -> limiter_counts per_ip b l -> limiter_counts per_ip (release_connection b now ip) l'.
Proof.
  intros Hp (live & Hs & Hl).
  assert (E : forall i, from_address i l = (if bool_decide (i = ip) then 1 else 0) + from_address i l').
  { intros i. rewrite (from_address_perm _ _ _ Hp). change (ip :: l') with ([ip] ++ l'). by rewrite from_address_app, from_address_one. }
  eexists. split.
  - apply session_release; [exact Hs|]. rewrite Hl, E, bool_decide_true by done. unfold from_address.
    pose proof (len_nonneg (List.filter (bytes_eqb ip) l')). lia.
  - intros i. unfold bump. rewrite Hl, E. case_bool_decide; lia.
Qed.

(** The loop's states: started, reloaded with any files, and with connections that
    come and end in any order. *)
Inductive reached : Listening -> Prop :=
| reached_start fs config s : start_listening fs config = Some (Ok s) -> reached s
| reached_reload fs s s' : reached s -> reload fs s = Some s' -> reached s'
| reached_accept clock ip blocking pool_open s s' a : reached s -> accept clock ip blocking pool_open s = (s', a) -> reached s'
| reached_finish now i s : reached s -> reached (finish now i s).

(** Those under configurations with the limit [per_ip] for an address and at most
    [most] connections, in which no address with connections is silent for 300
    seconds. *)
Definition within (per_ip most : Z) (config : ServerConfig) : Prop :=
  max_connections_per_ip config = per_ip /\ max_connections config <= most.

Inductive regular (per_ip most : Z) : Listening -> Prop :=
| regular_start fs config s :
    within per_ip most config -> start_listening fs config = Some (Ok s) -> regular per_ip most s
| regular_reload fs s s' :
    regular per_ip most s -> reload fs s = Some s' -> within per_ip most (runtime_config (runtime s')) -> regular per_ip most s'
| regular_accept clock ip blocking pool_open s s' a :
    regular per_ip most s -> all_recent (admission s) (fun i => from_address i (running s)) (clock O) ->
    accept clock ip blocking pool_open s = (s', a) -> regular per_ip most s'
| regular_finish now i s : regular per_ip most s -> regular per_ip most (finish now i s).

(** What accepting and ending touch, and what a reload does not. *)
Record served (per_ip most : Z) (s : @Listening Certificate SigningKey) : Prop := {
  served_within : within per_ip most (runtime_config (runtime s));
  served_active : active_connections s = len (running s);
  served_most : active_connections s <= most;
  served_session : limiter_counts per_ip (admission s) (running s);
}.

Lemma accept_served per_ip most clock ip blocking pool_open s s' a :
  served per_ip most s -> all_recent (admission s) (fun i => from_address i (running s)) (clock O) ->
  accept clock ip blocking pool_open s = (s', a) -> served per_ip most s'.
Proof.
  intros [Hw Ha Hm Hc] Hrec E. unfold accept in E. pose proof Hw as [Hper Hmost].
  destruct (try_connection _ _ _ _) as [b ok] eqn:Ht. rewrite Hper in Ht. pose proof (counts_try _ _ _ _ _ _ _ Hc Hrec Ht) as Hc1.
  destruct ok; cbn [negb] in E; [|by injection E as <- <-].
  assert (Hkeep : served per_ip most (set_guards (release_connection b (clock 1%nat) ip) (active_connections s) (running s) s)).
  { split; [done..|]. eapply counts_release; [|exact Hc1]. by rewrite <- Permutation_cons_append. }
  destruct (negb blocking); [by injection E as <- <-|].
  destruct (Z.leb_spec (max_connections (runtime_config (runtime s))) (active_connections s)); [by injection E as <- <-|].
  destruct (negb pool_open); [by injection E as <- <-|]. injection E as <- <-.
  split; cbn [runtime set_guards active_connections running admission]; [done|rewrite len_app; change (len [ip]) with 1; lia|lia|done].
Qed.

Lemma remove_permutation {A} (l : list A) k x : l !! k = Some x -> l ≡ₚ x :: (take k l ++ drop (S k) l).
Proof. intros Hk. rewrite <- (take_drop_middle l k x Hk) at 1. by rewrite Permutation_middle. Qed.

Lemma finish_served per_ip most now i s : served per_ip most s -> served per_ip most (finish now i s).
Proof.
  intros [Hw Ha Hm Hc]. unfold finish. destruct (running s !! i) as [ip|] eqn:Hi; [|by split].
  pose proof (remove_permutation _ _ _ Hi) as Hp. pose proof (Permutation_length Hp) as Hlen. cbn [length] in Hlen.
  split; cbn [runtime set_guards active_connections running admission]; [done|unfold len in *; lia|lia|by eapply counts_release].
Qed.

Lemma reload_kept fs s s' : reload fs s = Some s' ->
  admission s' = admission s /\ active_connections s' = active_connections s /\ running s' = running s.
Proof.
  unfold Accept.reload. destruct (load_runtime_state fs (started_with s)) as [[st|e]|]; [| |done].
  - destruct (preload_tree _ _ _ _ _) as [m|]; [|done]. by intros [= <-].
  - by intros [= <-].
Qed.

Lemma regular_served per_ip most s : 0 <= most -> regular per_ip most s -> served per_ip most s.
Proof.
  intros Hmost. induction 1 as [fs config s Hw E|fs s s' _ [Hw Ha Hm Hs] E Hw'|clock ip blocking pool_open s s' a _ IH Hrec E|now i s _ IH].
  - unfold Accept.start_listening in E. destruct (build_tls_acceptor _ _ _ _ _ _) as [tls|]; [|done].
    destruct (preload_tree _ _ _ _ _) as [m|]; [|done]. injection E as <-. split; [done..|].
    exists (fun _ => 0). split; [constructor|done].
  - apply reload_kept in E as (E1 & E2 & E3). split; [done|..]; by rewrite ?E1, ?E2, ?E3.
  - by eapply accept_served.
  - by apply finish_served.
Qed.

Lemma refused_full per_ip buckets live now ip b :
  0 < per_ip -> session per_ip buckets live -> all_recent buckets live now ->
  try_connection buckets now ip per_ip = (b, false) ->
  per_ip <= live ip \/ MAX_ENTRIES <= Z.of_nat (base.size (evict_old buckets now)).
Proof.
  intros Hpos Hs Hrec Ht. pose proof (session_accounted _ _ _ Hpos Hs) as Hacc. unfold try_connection in Ht.
  rewrite eqb_neq_false in Ht by lia. destruct (entry buckets now ip (f64_of_int 0)) as [b1 [x|]] eqn:He.
  - left. destruct (entry_accounted _ _ _ _ _ _ _ _ Hacc Hrec He) as [_ [_ Hx]]. rewrite Z.geb_leb in Ht.
    destruct (Z.leb_spec per_ip (connections x)); [lia|done].
  - right. unfold entry in He. destruct (evict_old buckets now !! ip); [done|].
    rewrite Z.geb_leb in He. destruct (Z.leb_spec MAX_ENTRIES (Z.of_nat (base.size (evict_old buckets now)))); [done|by injection He].
Qed.

(** The global counter needs no such assumptions. *)
Lemma reached_active s : reached s -> active_connections s = len (running s).
Proof.
  induction 1 as [fs config s E|fs s s' _ IH E|clock ip blocking pool_open s s' a _ IH E|now i s _ IH].
  - unfold Accept.start_listening in E. destruct (build_tls_acceptor _ _ _ _ _ _) as [tls|]; [|done].
    destruct (preload_tree _ _ _ _ _) as [m|]; [|done]. by injection E as <-.
  - apply reload_kept in E as (_ & E2 & E3). by rewrite E2, E3.
  - unfold accept in E. destruct (try_connection _ _ _ _) as [b ok]. destruct ok; cbn [negb] in E; [|by injection E as <- <-].
    destruct (negb blocking); [by injection E as <- <-|]. destruct (_ <=? _); [by injection E as <- <-|].
    destruct (negb pool_open); [by injection E as <- <-|]. injection E as <- <-. cbn. rewrite len_app, IH. by change (len [ip]) with 1.
  - unfold finish. destruct (running s !! i) as [ip|] eqn:Hi; [|done]. cbn.
    pose proof (Permutation_length (remove_permutation _ _ _ Hi)) as Hlen. cbn [length] in Hlen. unfold len in *. lia.
Qed.


(** ** Reloading *)

Lemma preserve_ok active config : server_ok active -> server_ok config -> server_ok (preserve_bindings active config).
Proof.
  intros Ha Hc. unfold preserve_bindings. cbv zeta.
  assert (Hh : server_ok (if bytes_eqb (host config) (host server_config_default) then set_host (host active) config else config)).
  { case_match; [|done]. config_field. }
  set (c1 := if bytes_eqb _ _ then _ else config) in *. clearbody c1.
  set (c2 := if (port c1 =? _) && _ then _ else c1).
  assert (H2 : server_ok c2) by (unfold c2; case_match; [|done]; destruct Ha; config_field). clearbody c2.
  set (c3 := if path_eqb _ _ && _ then _ else c2).
  assert (H3 : server_ok c3) by (unfold c3; case_match; [|done]; destruct Ha; config_field). clearbody c3.
  set (c4 := if (workers c3 =? _) && _ then _ else c3).
  assert (H4 : server_ok c4) by (unfold c4; case_match; [|done]; config_field). clearbody c4.
  pose proof (ok_sizes _ Ha) as Hs. rewrite !Forall_cons in Hs.
  set (c5 := if (max_connections c4 =? _) && _ then _ else c4).
  assert (H5 : server_ok c5) by (unfold c5; case_match; [|done]; config_field; cbn; rewrite !Forall_cons in *; tauto).
  clearbody c5. case_match; [|done]. config_field; cbn; rewrite !Forall_cons in *; tauto.
Qed.

(** The fields of the result, where the file can not set them. *)
Lemma preserve_fixed active config :
  host config = host server_config_default -> workers config = workers server_config_default ->
  let c := preserve_bindings active config in
  host c = host active /\ workers c = workers active /\ config_file c = config_file config /\ dev_mode c = dev_mode config /\
  port c = (if port config =? port server_config_default then port active else port config) /\
  max_connections c = (if max_connections config =? max_connections server_config_default then max_connections active
                       else max_connections config).
Proof.
  intros Hh Hw. cbv zeta. unfold preserve_bindings. cbv zeta. rewrite Hh.
  assert (bytes_eqb (host server_config_default) (host server_config_default) = true) as -> by by apply bytes_eqb_eq.
  repeat match goal with
  | |- context [if ?b then _ else _] =>
      match b with context [if _ then _ else _] => fail 1 | _ => destruct b eqn:? end;
      cbn [host port root_dir workers max_connections max_request_size dev_mode config_file
        set_host set_port set_root_dir set_workers set_max_connections set_max_request_size] in *
  end; zbool; split_and!; congruence || done || lia.
Qed.

Lemma build_tls fs config tls : build_tls_acceptor pem_certs pem_key any_supported_type keys_match fs config = Ok tls ->
  (is_Some tls <-> tls_enabled config = true).
Proof.
  unfold build_tls_acceptor. destruct (tls_enabled config); cbn [negb].
  - intros (cert & _ & E)%rbind_ok. apply rbind_ok in E as (key & _ & E). destruct (from_pem_with_vhosts _ _ _ _ _ _ _ _); [|done].
    injection E as <-. by split; [|eexists].
  - intros [= <-]. by split; [intros [? [=]]|].
Qed.

(** The configuration of a loaded state; [file] is what the rule file says. *)
Definition loaded fs (active : ServerConfig) (file : ServerConfig) (c : ServerConfig) : Prop :=
  server_ok c /\ host c = host active /\ port c = port active /\ workers c = workers active /\
  config_file c = config_file active /\
  max_connections c = (if max_connections file =? max_connections server_config_default then max_connections active
                       else max_connections file) /\
  validate_veysrule_tree walk_fuel fs (root_dir c) (Some (config_file c)) = Some [] /\
  dev_mode c = false.

Lemma load_checked fs active st :
  server_ok active -> load_runtime_state fs active = Some (Ok st) ->
  (exists file d, parse_veysrule_file (config_file active) (read_string fs (config_file active)) true = Some (file, d, []) /\
     loaded fs active file (runtime_config st)) /\
  (is_Some (tls_acceptor st) <-> tls_enabled (runtime_config st) = true).
Proof.
  intros Ha E. unfold Accept.load_runtime_state in E.
  destruct (parse_veysrule_file (config_file active) _ true) as [[[file d] [|e errors]]|] eqn:Hp; [|done..].
  destruct (root_file_ok _ _ _ _ _ Hp) as [Hok Hfixed]. cbv zeta in E.
  assert (Hok1 : server_ok (set_config_file (config_file active) file)) by (clear Ha; config_field).
  destruct (preserve_fixed active (set_config_file (config_file active) file)) as (Hh & Hw & Hf & Hd & Hport & Hm).
  { apply Hfixed. }
  { apply Hfixed. }
  set (c := preserve_bindings active (set_config_file (config_file active) file)) in *.
  assert (Hc : server_ok c) by by apply preserve_ok.
  destruct (negb (bytes_eqb (host c) (host active)) || negb (port c =? port active)) eqn:Hb; [done|].
  apply orb_false_iff in Hb as [_ Hb]. apply negb_false_iff, Z.eqb_eq in Hb.
  destruct (validate_veysrule_tree walk_fuel fs (root_dir c) (Some (config_file c))) as [[|x errors]|] eqn:Hv; [|done..].
  apply (inj Some), rbind_ok in E as (tls & Htls & [= <-]). cbn [runtime_config Accept.tls_acceptor].
  split; [|by eapply build_tls]. exists file, d. split; [done|]. destruct Hfixed as (_ & _ & _ & Hdev & _).
  unfold loaded. split_and!; try done. rewrite Hd. exact Hdev.
Qed.

(** C17: A reload publishes a checked configuration or changes
    nothing.  It leaves the connections and their counts alone.  When the
    configuration cannot be loaded, it logs why and all the rest stays as it
    was.  Otherwise the new configuration is well formed, its files have no
    errors, the bound address, the workers and the rule file are those the
    server was started with, there are certificates exactly when TLS is on, the
    health checker runs with it, and the cache of rules agrees with the files.
    The development mode of the command line is not kept. *)
Theorem reload_checked fs s s' :
  server_ok (started_with s) -> reload fs s = Some s' ->
  let active := started_with s in
  let c := runtime_config (runtime s') in
  (started_with s' = active /\ admission s' = admission s /\ active_connections s' = active_connections s /\ running s' = running s) /\
  ((exists e, load_runtime_state fs active = Some (Err e) /\ runtime s' = runtime s /\ config_manager s' = config_manager s /\
      checked_config s' = checked_config s /\ reload_log s' = reload_log s ++ [e]) \/
   (exists file d, parse_veysrule_file (config_file active) (read_string fs (config_file active)) true = Some (file, d, []) /\
      loaded fs active file c /\ (is_Some (tls_acceptor (runtime s')) <-> tls_enabled c = true) /\
      checked_config s' = health_checker c /\ reload_log s' = reload_log s /\
      (separate fs (Some (config_file c)) (root_dir c) -> coherent fs (Some (config_file c)) (root_dir c) (config_manager s')))).
Proof.
  intros Ha E active c. subst c. unfold Accept.reload in E.
  destruct (load_runtime_state fs (started_with s)) as [[st|e]|] eqn:Hl; [| |done].
  - destruct (preload_tree _ _ _ _ _) as [m|] eqn:Hp; [|done]. injection E as <-. split; [done|]. right.
    destruct (load_checked _ _ _ Ha Hl) as [(file & d & Hparse & Hloaded) Htls]. exists file, d.
    split_and!; [done..|]. intros Hsep. eapply preload_tree_coherent; [|done|exact Hp].
    intros key x. cbn [cm_cache set_error_log_destination clear_cache]. by rewrite lookup_empty.
  - injection E as <-. split; [done|]. left. by exists e.
Qed.
End Accept.
