(* ===== verification/Listen.v ===== *)
(** * The whole of listening (src/server/listener.rs, [Server::listen])

    The main thread's loop from its start to its return, the worker threads, the
    thread of the health checker and the two signals, as the steps of one
    system.  Between any two actions of a thread the others may go on: the main
    thread's passage through the loop is cut at every point where it touches
    something they share.  [accepted] records history: nothing reads it but the
    numbering of the jobs. *)

From S2P Require Import Prelude RustStd Io Config Text Limits Fs ConfigCache ThreadPool Upstreams HealthChecker Http Connection Listener Tls Accept.

Section Listen.
Context `{UnicodeCase} {Fd Certificate PrivateKey SigningKey : Type}.
Context (pem_certs : bytes -> option (list Certificate)) (pem_key : bytes -> option (option PrivateKey))
  (any_supported_type : PrivateKey -> option SigningKey) (keys_match : list Certificate -> SigningKey -> bool).
Context (walk_fuel : nat) (network : list bytes -> bytes -> option (list (option Io))).
Implicit Types (fs : FileSystem Fd).

(** ** The state *)

(** A connection's job with what it has captured: its guards' address, and the
    configuration in force when it was accepted. *)
Record ConnJob : Type := mkConnJob {
  conn_job : Job;
  conn_ip : bytes;
  conn_config : ServerConfig;
  conn_tls : option (@TlsAcceptor Certificate SigningKey);
}.

(** What [TcpListener::accept] returns; of a connection its address, whether it
    can be made blocking, and whether the job it becomes panics. *)
Inductive Incoming : Type :=
| WouldBlock
| AcceptFailed
| Arrived (ip : bytes) (blocking panics : bool).

(** What the main thread does next; [panicking] is whether it unwinds. *)
Inductive Stage : Type :=
| Head                                       (* read [SHUTDOWN_REQUESTED] *)
| Swapping                                   (* swap [RELOAD_REQUESTED], and reload *)
| Joining (leaving : bool)                   (* wait for the stopped checker *)
| Accepting                                  (* accept, and count the address *)
| Counted (ip : bytes) (blocking panics : bool)   (* holds the address's guard; take the other *)
| Refusing (ip : bytes)                      (* answer 503, and drop the address's guard *)
| Guarded (ip : bytes) (panics : bool)       (* holds both guards; hand over the job *)
| Clearing                                   (* [shutdown_pool] *)
| Dropping (panicking : bool)                (* drop the sender of jobs *)
| Draining (panicking : bool)                (* join the workers *)
| Returned (panicking : bool).

Record System : Type := mkSystem {
  stage : Stage;
  shutdown_requested : bool;
  reload_requested : bool;
  listening : @Listening Certificate SigningKey;
  pool : ThreadPool;
  open : list ConnJob; (* whose guards have not been dropped, as they were accepted *)
  checker : option (ServerConfig * Checker);
  shared : Upstreams;
  accepted : list ConnJob;
}.

Definition at_stage (g : Stage) (s : System) : System :=
  mkSystem g (shutdown_requested s) (reload_requested s) (listening s) (pool s) (open s) (checker s) (shared s) (accepted s).
Definition set_flags (shutdown reload : bool) (s : System) : System :=
  mkSystem (stage s) shutdown reload (listening s) (pool s) (open s) (checker s) (shared s) (accepted s).
Definition set_listening (l : @Listening Certificate SigningKey) (s : System) : System :=
  mkSystem (stage s) (shutdown_requested s) (reload_requested s) l (pool s) (open s) (checker s) (shared s) (accepted s).
Definition set_workers_pool (p : ThreadPool) (s : System) : System :=
  mkSystem (stage s) (shutdown_requested s) (reload_requested s) (listening s) p (open s) (checker s) (shared s) (accepted s).
Definition set_open (l : list ConnJob) (s : System) : System :=
  mkSystem (stage s) (shutdown_requested s) (reload_requested s) (listening s) (pool s) l (checker s) (shared s) (accepted s).
Definition set_checker (c : option (ServerConfig * Checker)) (s : System) : System :=
  mkSystem (stage s) (shutdown_requested s) (reload_requested s) (listening s) (pool s) (open s) c (shared s) (accepted s).
Definition set_shared (u : Upstreams) (s : System) : System :=
  mkSystem (stage s) (shutdown_requested s) (reload_requested s) (listening s) (pool s) (open s) (checker s) u (accepted s).
Definition set_accepted (l : list ConnJob) (s : System) : System :=
  mkSystem (stage s) (shutdown_requested s) (reload_requested s) (listening s) (pool s) (open s) (checker s) (shared s) l.

(** ** Starting *)

Inductive ListenError : Type :=
| BindFailed
| PoolFailed (text : bytes)
| StateFailed (e : ReloadError).

(** [start_health_checker] on the configuration to be checked. *)
Definition start_checker (l : @Listening Certificate SigningKey) (u : Upstreams) : option (ServerConfig * Checker) :=
  option_map (fun config => (config, checker_start u)) (checked_config l).

(** [listen], up to its loop; [bound] says whether the address could be bound. *)
Definition listen fs (config : ServerConfig) (bound : bool) (u : Upstreams) : option (result System ListenError) :=
  if negb bound then Some (Err BindFailed) else
  match pool_new (Z.to_nat (Config.workers config)) with
  | Err text => Some (Err (PoolFailed text))
  | Ok p =>
      match start_listening pem_certs pem_key any_supported_type keys_match walk_fuel fs config with
      | None => None
      | Some (Err e) => Some (Err (StateFailed e))
      | Some (Ok l) => Some (Ok (mkSystem Head false false l p [] (start_checker l u) u []))
      end
  end.

(** ** The main thread *)

(** After [HealthChecker::stop]: the end of a reload, or of the loop. *)
Definition after_stop (leaving : bool) (s : System) : System :=
  if leaving then at_stage Clearing (set_checker None s)
  else at_stage Accepting (set_checker (start_checker (listening s) (shared s)) s).

(** [HealthChecker::stop] on the checker, if there is one. *)
Definition stop_checker (leaving : bool) (s : System) : System :=
  match checker s with
  | None => after_stop leaving s
  | Some (config, c) => at_stage (Joining leaving) (set_checker (Some (config, checker_event network config c StopSignal)) s)
  end.

(** The two counts, and the drop of the guard of an address. *)
Definition counts (b : Buckets) (active : Z) (ips : list bytes) (s : System) : System :=
  set_listening (set_guards b active ips (listening s)) s.
Definition drop_ip (now : Z) (ip : bytes) (s : System) : System :=
  let l := listening s in counts (release_connection (admission l) now ip) (active_connections l) (Accept.running l) s.

(** [pool.execute] on the job of a connection. *)
Definition hand_over (now : Z) (ip : bytes) (panics : bool) (s : System) : System :=
  let l := listening s in
  let job := mkJob (len (accepted s)) panics in
  let c := mkConnJob job ip (runtime_config (runtime l)) (tls_acceptor (runtime l)) in
  match execute (pool s) job with
  | (p, Ok _) =>
      set_workers_pool p (set_open (open s ++ [c]) (set_accepted (accepted s ++ [c])
        (counts (admission l) (active_connections l) (Accept.running l ++ [ip]) s)))
  | (_, Err _) => drop_ip now ip (counts (admission l) (active_connections l - 1) (Accept.running l) s)
  end.

(** The reload the flag asks for; the checker is only replaced by a new
    configuration's. *)
Definition reload_asked fs (s : System) : System :=
  let s := set_flags (shutdown_requested s) false s in
  match Accept.reload pem_certs pem_key any_supported_type keys_match walk_fuel fs (listening s) with
  | None => at_stage (Dropping true) s
  | Some l =>
      let published := match load_runtime_state pem_certs pem_key any_supported_type keys_match walk_fuel fs (started_with (listening s)) with
                       | Some (Ok _) => true
                       | _ => false
                       end in
      let s := set_listening l s in
      if published then stop_checker false s else at_stage Accepting s
  end.

(** An action of the main thread, which finds [fs], the time [now] and the
    connection [answer] if it looks for them.  [None]: it has to wait. *)
Definition main_step fs (now : Z) (answer : Incoming) (s : System) : option System :=
  let l := listening s in
  let config := runtime_config (runtime l) in
  match stage s with
  | Head => Some (if shutdown_requested s then stop_checker true s else at_stage Swapping s)
  | Swapping => Some (if reload_requested s then reload_asked fs s else at_stage Accepting s)
  | Joining leaving =>
      match checker s with
      | Some (_, c) => match phase c with Gone => Some (after_stop leaving s) | _ => None end
      | None => Some (after_stop leaving s)
      end
  | Accepting =>
      match answer with
      | WouldBlock | AcceptFailed => Some (at_stage Head s)
      | Arrived ip blocking panics =>
          let '(b, admitted) := try_connection (admission l) now ip (max_connections_per_ip config) in
          Some (at_stage (if admitted then Counted ip blocking panics else Head) (counts b (active_connections l) (Accept.running l) s))
      end
  | Counted ip blocking panics =>
      if negb blocking then Some (at_stage Head (drop_ip now ip s))
      else if max_connections config <=? active_connections l then Some (at_stage (Refusing ip) s)
      else Some (at_stage (Guarded ip panics) (counts (admission l) (active_connections l + 1) (Accept.running l) s))
  | Refusing ip => Some (at_stage Head (drop_ip now ip s))
  | Guarded ip panics => Some (at_stage Head (hand_over now ip panics s))
  | Clearing => Some (at_stage (Dropping false) (set_shared (shutdown_pool (shared s)) s))
  | Dropping panicking => Some (at_stage (Draining panicking) (set_workers_pool (drop_sender (pool s)) s))
  | Draining panicking => if joined (pool s) then Some (at_stage (Returned panicking) s) else None
  | Returned _ => None
  end.

(** ** The other threads *)

(** The job of the [i]th worker, and where its guards are. *)
Definition job_of (i : nat) (s : System) : option Job :=
  match ThreadPool.workers (pool s) !! i with Some (Running job) => Some job | _ => None end.
Definition guards_of (job : Job) (s : System) : option (nat * ConnJob) := list_find (fun c => conn_job c = job) (open s).

(** The job's end, normal or by a panic: its guards are dropped, then the worker
    goes on. *)
Definition drop_guards (i : nat) (now : Z) (s : System) : option System :=
  match job_of i s with
  | Some job =>
      match guards_of job s with
      | Some (k, _) => Some (set_open (take k (open s) ++ drop (S k) (open s)) (set_listening (finish now k (listening s)) s))
      | None => None
      end
  | None => None
  end.

Definition job_returns (i : nat) (s : System) : option System :=
  match job_of i s with
  | Some job =>
      match guards_of job s with
      | Some _ => None
      | None => option_map (fun p => set_workers_pool p s) (run_job (pool s) i)
      end
  | None => None
  end.

(** The checker's thread, which shares the upstreams with the workers. *)
Definition check (s : System) : option System :=
  match checker s with
  | Some (config, c) =>
      match phase c with
      | Gone => None
      | _ => let c := checker_step network config (mkChecker (signal c) (phase c) (shared s) (probed c) (naps c)) in
             Some (set_checker (Some (config, c)) (set_shared (seen c) s))
      end
  | None => None
  end.

(** ** The system *)

Inductive Event : Type :=
| Main fs (now : Z) (answer : Incoming)
| Locks (i : nat)
| Receives (i : nat)
| DropsGuards (i : nat) (now : Z)
| JobReturns (i : nat)
| Checks
| Terminate                (* SIGINT or SIGTERM *)
| Hangup                   (* SIGHUP *)
| Uses (u : Upstreams).    (* a job changes what is known of the upstreams *)

(** [None]: the thread has to wait. *)
Definition event (s : System) (e : Event) : option System :=
  match e with
  | Main fs now answer => main_step fs now answer s
  | Locks i => option_map (fun p => set_workers_pool p s) (acquire (pool s) i)
  | Receives i => option_map (fun p => set_workers_pool p s) (receive (pool s) i)
  | DropsGuards i now => drop_guards i now s
  | JobReturns i => job_returns i s
  | Checks => check s
  | Terminate => Some (set_flags true (reload_requested s) s)
  | Hangup => Some (set_flags (shutdown_requested s) true s)
  | Uses u => Some (set_shared u s)
  end.

Fixpoint run (s : System) (es : list Event) : option System :=
  match es with
  | [] => Some s
  | e :: es => match event s e with Some s => run s es | None => None end
  end.
End Listen.

(** ** What a job does *)

Section Job.
Context `{UnicodeCase} {services : Services} {Certificate SigningKey Session IoError : Type}.
Context (gz_reader : Reader -> Z -> Reader) (file_at : bytes -> Z -> option Reader) (error_text : IoErr -> bytes).
(** rustls's sessions; [plain] is the stream of a session over a socket, and
    [close_notify] what is sent at its end. *)
Context (server_connection : @TlsAcceptor Certificate SigningKey -> option Session) (is_handshaking : Session -> bool)
  (complete_io : Session -> Io -> Session * Io * result unit IoError) (plain : Session -> Io -> Io) (close_notify : Io -> Io).

Inductive JobEnd : Type :=
| JobServed (r : Served)
| HandshakeFailed (e : @AcceptError IoError).

(** The closure given to [execute]; the time-outs of the socket are part of what
    its reads return.  A panic is [JobServed Panicked]. *)
Definition connection_job (fuel : nat) (config : ServerConfig) (tls : option TlsAcceptor) (peer : SocketAddr) (clock : nat -> Z)
  (w : Serving Shared) : option (Serving Shared * JobEnd) :=
  match tls with
  | None =>
      let '(w, r) := serve_stream gz_reader file_at error_text config peer false clock w in Some (w, JobServed r)
  | Some acceptor =>
      match acceptor_accept server_connection is_handshaking complete_io fuel acceptor (stream w) with
      | None => None
      | Some (io, Err e) => Some (mkServing _ io (process w), HandshakeFailed e)
      | Some (io, Ok session) =>
          let '(w, r) := serve_stream gz_reader file_at error_text config peer true clock (mkServing _ (plain session io) (process w)) in
          Some (mkServing _ (match r with Finished => close_notify (stream w) | _ => stream w end) (process w), JobServed r)
      end
  end.

Definition job_end_panics (e : JobEnd) : bool := match e with JobServed Panicked => true | _ => false end.

(** With certificates a client is served over a session whose handshake is done,
    as a secure one, or not at all. *)
Lemma job_secured fuel config acceptor peer clock w :
  io_completes is_handshaking complete_io -> (1 <= fuel)%nat ->
  exists w' e, connection_job fuel config (Some acceptor) peer clock w = Some (w', e) /\
    match e with
    | HandshakeFailed _ => process w' = process w
    | JobServed r => exists session io, is_handshaking session = false /\
        let served := serve_stream gz_reader file_at error_text config peer true clock (mkServing _ (plain session io) (process w)) in
        process w' = process (fst served) /\ r = snd served
    end.
Proof.
  intros Hio Hf. destruct (handshake_completes server_connection is_handshaking complete_io fuel acceptor (stream w) Hio Hf) as (io & r & E & Hr).
  unfold connection_job. rewrite E. destruct r as [session|e]; [|by eexists _, _].
  destruct (serve_stream _ _ _ _ _ _ _ _) as [w1 r1] eqn:Es. eexists _, _. split; [done|]. exists session, io. split; [exact Hr|].
  by rewrite Es.
Qed.
End Job.
