(* ===== verification/ListenProps.v ===== *)
(** * Listening, proved

    However the main thread, the workers, the checker and the signals interleave:
    the two limits count the connections whose guards are alive, every accepted
    connection is served once with the configuration it was accepted under, and a
    signal to stop ends the server without losing one. *)

From S2P Require Import Prelude RustStd Io Config Text Limits Fs ConfigCache ThreadPool Upstreams HealthChecker Tls Accept AcceptProps Listen.

Section Listen.
Context `{UnicodeCase} {Fd Certificate PrivateKey SigningKey : Type}.
Context (pem_certs : bytes -> option (list Certificate)) (pem_key : bytes -> option (option PrivateKey))
  (any_supported_type : PrivateKey -> option SigningKey) (keys_match : list Certificate -> SigningKey -> bool).
Context (walk_fuel : nat) (network : list bytes -> bytes -> option (list (option Io))).
Implicit Types (fs : FileSystem Fd) (s : @System Certificate SigningKey) (e : @Event Fd) (es : list (@Event Fd)).

Abbreviation listen := (listen pem_certs pem_key any_supported_type keys_match walk_fuel).
Abbreviation main_step := (main_step pem_certs pem_key any_supported_type keys_match walk_fuel network).
Abbreviation reload_asked := (reload_asked pem_certs pem_key any_supported_type keys_match walk_fuel network).
Abbreviation stop_checker := (stop_checker network).
Abbreviation event := (event pem_certs pem_key any_supported_type keys_match walk_fuel network).
Abbreviation run := (run pem_certs pem_key any_supported_type keys_match walk_fuel network).

Inductive reached : System -> Prop :=
| reached_listen fs config u s : listen fs config true u = Some (Ok s) -> reached s
| reached_event s e s' : reached s -> event s e = Some s' -> reached s'.

Lemma reached_run s es s' : reached s -> run s es = Some s' -> reached s'.
Proof.
  revert s. induction es as [|e es IH]; intros s Hs E; cbn [Listen.run] in E; [by injection E as <-|].
  destruct (event s e) as [s1|] eqn:He; [|done]. eapply IH; [by eapply reached_event|exact E].
Qed.

(** ** The books *)

(** The guards in the main thread's hands. *)
Definition held (g : Stage) : Z := match g with Guarded _ _ => 1 | _ => 0 end.
Definition hand (g : Stage) : list bytes :=
  match g with Counted ip _ _ | Refusing ip | Guarded ip _ => [ip] | _ => [] end.

(** What is true of a stage besides the books. *)
Definition stage_ok s : Prop :=
  match stage s with
  | Joining _ => sender (pool s) = true /\ exists config c, checker s = Some (config, c) /\ signal c = true
  | Clearing | Dropping false => sender (pool s) = true /\ checker s = None
  | Draining panicking => sender (pool s) = false /\ (panicking = false -> checker s = None)
  | Returned panicking => sender (pool s) = false /\ joined (pool s) = true /\ (panicking = false -> checker s = None)
  | _ => sender (pool s) = true
  end.

Record sound s : Prop := {
  sound_pool : pool_ok (pool s);
  sound_running : Accept.running (listening s) = map conn_ip (open s);
  sound_active : active_connections (listening s) = len (open s) + held (stage s);
  sound_submitted : submitted (pool s) = map conn_job (accepted s);
  sound_ids : forall k c, accepted s !! k = Some c -> job_id (conn_job c) = Z.of_nat k;
  sound_open : open s `sublist_of` accepted s;
  sound_waiting : forall j, j ∈ channel (pool s) -> j ∈ map conn_job (open s);
  sound_live : forall j, j ∈ map conn_job (open s) -> j ∈ channel (pool s) ++ ThreadPool.running (pool s);
  sound_stage : stage_ok s;
}.

(** Two states with the same books. *)
Record same_books s s' : Prop := {
  same_pool : pool s' = pool s;
  same_open : open s' = open s;
  same_accepted : accepted s' = accepted s;
  same_running : Accept.running (listening s') = Accept.running (listening s);
  same_active : active_connections (listening s') = active_connections (listening s);
}.

Lemma sound_same s s' : sound s -> same_books s s' -> held (stage s') = held (stage s) -> stage_ok s' -> sound s'.
Proof.
  intros [] [Hp Ho Ha Hr Hc] Hh Hst. split; rewrite ?Hp, ?Ho, ?Ha, ?Hr, ?Hc, ?Hh; done.
Qed.

Lemma accepted_nodup s : sound s -> NoDup (map conn_job (accepted s)).
Proof.
  intros Hs. apply NoDup_alt. intros i k j Hi Hk. rewrite !list_lookup_fmap in *.
  destruct (accepted s !! i) as [a|] eqn:Ea; [|done]. destruct (accepted s !! k) as [b|] eqn:Eb; [|done].
  apply (sound_ids _ Hs) in Ea, Eb. cbn in *. assert (conn_job a = conn_job b) by congruence. assert (Z.of_nat i = Z.of_nat k) by congruence. lia.
Qed.

(** Every job is in one place. *)
Lemma jobs_nodup s : sound s -> NoDup (finished (pool s) ++ ThreadPool.running (pool s) ++ channel (pool s)).
Proof.
  intros Hs. pose proof (accepted_nodup _ Hs) as Hn. rewrite <- (sound_submitted _ Hs) in Hn.
  destruct (sound_pool _ Hs) as [Hf Ho _ _ _]. rewrite Hf, Ho, <- app_assoc in Hn. exact Hn.
Qed.

Lemma open_nodup s : sound s -> NoDup (map conn_job (open s)).
Proof.
  intros Hs. eapply sublist_NoDup; [by apply accepted_nodup|]. by apply fmap_sublist, (sound_open _ Hs).
Qed.

(** The guards that are alive are those of the jobs that wait or are run, less
    those that have just been dropped. *)
Lemma open_jobs s : sound s ->
  exists ended, channel (pool s) ++ ThreadPool.running (pool s) ≡ₚ map conn_job (open s) ++ ended /\
    forall j, j ∈ ended -> j ∈ ThreadPool.running (pool s).
Proof.
  intros Hs. pose proof (jobs_nodup _ Hs) as Hn. rewrite NoDup_app in Hn. destruct Hn as (_ & _ & Hn).
  rewrite Permutation_app_comm in Hn.
  destruct (submseteq_Permutation (map conn_job (open s)) (channel (pool s) ++ ThreadPool.running (pool s))) as [ended E].
  { apply NoDup_submseteq; [by apply open_nodup|]. apply (sound_live _ Hs). }
  exists ended. split; [exact E|]. intros j Hj. assert (Hin : j ∈ channel (pool s) ++ ThreadPool.running (pool s)) by (rewrite E; apply elem_of_app; by right).
  apply elem_of_app in Hin as [Hin|]; [|done]. exfalso. apply (sound_waiting _ Hs) in Hin. rewrite E in Hn.
  apply NoDup_app in Hn as (_ & Hd & _). by eapply Hd.
Qed.

(** ** The main thread *)

Lemma stop_books leaving s : same_books s (stop_checker leaving s).
Proof. unfold Listen.stop_checker, after_stop. destruct (checker s) as [[config c]|], leaving; done. Qed.

Lemma stop_sound leaving s : sound s -> held (stage s) = 0 -> sender (pool s) = true -> sound (stop_checker leaving s).
Proof.
  intros Hs Hh Hsd. eapply sound_same; [exact Hs|apply stop_books|..]; unfold Listen.stop_checker, after_stop, stage_ok;
    destruct (checker s) as [[config c]|], leaving; cbn; rewrite ?Hh; split_and?; eauto.
Qed.

(** A stage that needs nothing. *)
Definition simple (g : Stage) : Prop :=
  match g with Head | Swapping | Accepting | Counted _ _ _ | Refusing _ | Dropping true => True | _ => False end.

Lemma simple_sound g s s' :
  sound s -> same_books s s' -> held (stage s) = 0 -> sender (pool s) = true -> simple g -> sound (at_stage g s').
Proof.
  intros Hs Hb Hh Hsd Hg. eapply sound_same; [exact Hs|by destruct Hb|..]; rewrite ?Hh; cbn [stage at_stage];
    [by destruct g|]. unfold stage_ok. cbn [stage at_stage pool]. rewrite (same_pool _ _ Hb). destruct g as [| | | | | | | |[]| |]; done.
Qed.

Lemma reload_asked_sound fs s : sound s -> stage s = Swapping -> sound (reload_asked fs s).
Proof.
  intros Hs Hst. pose proof (sound_stage _ Hs) as Hok. unfold stage_ok in Hok. rewrite Hst in Hok.
  unfold Listen.reload_asked. destruct (Accept.reload _ _ _ _ _ _ _) as [l|] eqn:E.
  - apply reload_kept in E as (E1 & E2 & E3). cbn [listening set_flags] in E1, E2, E3.
    assert (Hb : same_books s (set_listening l (set_flags (shutdown_requested s) false s))) by (split; cbn; congruence).
    destruct (match load_runtime_state _ _ _ _ _ _ _ with Some (Ok _) => true | _ => false end).
    + apply stop_sound; [|cbn; by rewrite Hst|done].
      eapply sound_same; [exact Hs|exact Hb|done|]. unfold stage_ok. cbn. by rewrite Hst.
    + eapply simple_sound; [exact Hs|exact Hb|by rewrite Hst|done..].
  - eapply simple_sound; [exact Hs|done|by rewrite Hst|done..].
Qed.

Lemma execute_open p job : pool_ok p -> sender p = true ->
  execute p job = (mkPool (ThreadPool.workers p) true (channel p ++ [job]) (lock p) (panics p) (submitted p ++ [job]) (started p) (finished p), Ok tt).
Proof.
  intros [_ _ _ He Hn] Hsd. unfold execute. rewrite Hsd. assert (receiver_alive p = true) as ->; [|done].
  unfold receiver_alive. destruct (ThreadPool.workers p) as [|w ws]; [done|]. cbn [existsb].
  rewrite bool_decide_false; [done|]. intros ->. destruct (He O eq_refl). congruence.
Qed.

(** What is handed over, and that it always can be. *)
Definition new_conn (ip : bytes) (panics : bool) s : ConnJob :=
  mkConnJob (mkJob (len (accepted s)) panics) ip (runtime_config (runtime (listening s))) (tls_acceptor (runtime (listening s))).

Lemma hand_over_open now ip panicking s : sound s -> sender (pool s) = true ->
  hand_over now ip panicking s =
  set_workers_pool (fst (execute (pool s) (mkJob (len (accepted s)) panicking)))
    (set_open (open s ++ [new_conn ip panicking s]) (set_accepted (accepted s ++ [new_conn ip panicking s])
      (counts (admission (listening s)) (active_connections (listening s)) (Accept.running (listening s) ++ [ip]) s))).
Proof. intros Hs Hsd. unfold hand_over. by rewrite (execute_open _ _ (sound_pool _ Hs) Hsd). Qed.

Lemma hand_over_sound now ip panicking s :
  sound s -> stage s = Guarded ip panicking -> sound (at_stage Head (hand_over now ip panicking s)).
Proof.
  intros Hs Hst. pose proof (sound_stage _ Hs) as Hok. unfold stage_ok in Hok. rewrite Hst in Hok.
  rewrite (hand_over_open _ _ _ _ Hs Hok). pose proof (sound_active _ Hs) as Hact. rewrite Hst in Hact. cbn [held] in Hact.
  assert (Hp : pool_ok (fst (execute (pool s) (mkJob (len (accepted s)) panicking)))).
  { eapply pool_step_ok; [apply (sound_pool _ Hs)|]. by eapply step_execute. }
  rewrite (execute_open _ _ (sound_pool _ Hs) Hok) in *. cbn [fst] in *. split; [exact Hp|..];
    cbn [pool open listening accepted stage at_stage set_workers_pool set_open set_accepted set_listening counts Accept.running set_guards
      active_connections submitted channel held].
  - by rewrite map_app, (sound_running _ Hs).
  - rewrite len_app. change (len [new_conn ip panicking s]) with 1. lia.
  - by rewrite map_app, (sound_submitted _ Hs).
  - intros k c. rewrite lookup_app_Some, list_lookup_singleton_Some. intros [Hk|(Hk & Hz & <-)]; [by apply (sound_ids _ Hs)|].
    cbn [new_conn conn_job job_id]. unfold len. lia.
  - apply sublist_app; [apply (sound_open _ Hs)|done].
  - intros j. rewrite map_app, !elem_of_app. intros [Hj|Hj]; [left; by apply (sound_waiting _ Hs)|by right].
  - intros j. rewrite map_app, !elem_of_app. intros [Hj|Hj]; [|left; by right].
    apply (sound_live _ Hs), elem_of_app in Hj as [|]; [left; by left|by right].
  - done.
Qed.

Lemma main_sound fs now answer s s' : sound s -> main_step fs now answer s = Some s' -> sound s'.
Proof.
  intros Hs E. pose proof (sound_stage _ Hs) as Hok. unfold stage_ok in Hok. unfold Listen.main_step in E.
  destruct (stage s) as [| |leaving| |ip blocking panicking|ip|ip panicking| |panicking|panicking|panicking] eqn:Hst.
  - injection E as <-. destruct (shutdown_requested s); [by apply stop_sound; rewrite ?Hst|].
    eapply simple_sound; [exact Hs|done|by rewrite Hst|done..].
  - injection E as <-. destruct (reload_requested s); [by apply reload_asked_sound|].
    eapply simple_sound; [exact Hs|done|by rewrite Hst|done..].
  - assert (sound (after_stop leaving s)) as Hafter.
    { destruct Hok as [Hsd _]. eapply sound_same; [exact Hs|by destruct leaving|rewrite Hst; by destruct leaving|]. unfold stage_ok, after_stop.
      destruct leaving; cbn; auto. }
    destruct (checker s) as [[config c]|]; [destruct (phase c); [done..|]|]; by injection E as <-.
  - destruct answer as [| |ip blocking panicking]; [injection E as <-; (eapply simple_sound; [exact Hs|done|by rewrite Hst|done..])..|].
    destruct (try_connection _ _ _ _) as [b ok]. injection E as <-. eapply simple_sound; [exact Hs|done|by rewrite Hst|done|by destruct ok].
  - destruct (negb blocking); [injection E as <-; eapply simple_sound; [exact Hs|done|by rewrite Hst|done..]|].
    destruct (_ <=? _); injection E as <-; [eapply simple_sound; [exact Hs|done|by rewrite Hst|done..]|].
    destruct Hs as [? Hr Ha ? ? ? ? ? _]. rewrite Hst in Ha. cbn [held] in Ha. split; try done. cbn. lia.
  - injection E as <-. eapply simple_sound; [exact Hs|done|by rewrite Hst|done..].
  - injection E as <-. by apply hand_over_sound.
  - injection E as <-. destruct Hok. eapply sound_same; [exact Hs|done|by rewrite Hst|by unfold stage_ok].
  - injection E as <-. assert (Hp : pool_ok (drop_sender (pool s))) by (eapply pool_step_ok; [apply (sound_pool _ Hs)|by eapply step_shutdown]).
    destruct Hs as [_ ? Ha ? ? ? ? ? _]. rewrite Hst in Ha. split; try done. unfold stage_ok. cbn. split; [done|].
    intros ->. by destruct Hok.
  - destruct (joined (pool s)) eqn:Hj; [|done]. injection E as <-. destruct Hok.
    eapply sound_same; [exact Hs|done|by rewrite Hst|by unfold stage_ok; cbn].
  - done.
Qed.

(** ** The other threads *)

Lemma job_of_running i s job : job_of i s = Some job -> ThreadPool.workers (pool s) !! i = Some (Running job).
Proof. unfold job_of. destruct (ThreadPool.workers (pool s) !! i) as [[| |j|]|]; by intros [= ->]. Qed.

Lemma running_of_worker p i job : ThreadPool.workers p !! i = Some (Running job) -> job ∈ ThreadPool.running p.
Proof.
  intros Hi. unfold ThreadPool.running. apply list_elem_of_In, in_concat. exists [job]. split; [|by left].
  apply list_elem_of_lookup_2 in Hi. apply in_map_iff. exists (Running job). split; [done|by apply list_elem_of_In].
Qed.

(** What a worker's action does to the jobs. *)
Lemma acquire_jobs p i p' : acquire p i = Some p' ->
  submitted p' = submitted p /\ channel p' = channel p /\ sender p' = sender p /\ ThreadPool.running p' ≡ₚ ThreadPool.running p.
Proof.
  unfold acquire. destruct (ThreadPool.workers p !! i) as [[]|] eqn:Hw; try done. destruct (lock p); [done|]. intros [= <-].
  split_and!; [done..|]. pose proof (running_insert _ _ _ Receiving Hw) as Hp. rewrite !app_nil_r in Hp. exact Hp.
Qed.

Lemma receive_jobs p i p' : receive p i = Some p' ->
  submitted p' = submitted p /\ sender p' = sender p /\
  ((exists job, channel p = job :: channel p' /\ ThreadPool.running p' ≡ₚ ThreadPool.running p ++ [job]) \/
   (channel p' = channel p /\ ThreadPool.running p' ≡ₚ ThreadPool.running p)).
Proof.
  unfold receive. destruct (ThreadPool.workers p !! i) as [[]|] eqn:Hw; try done. destruct (channel p) as [|job rest] eqn:Hc.
  - destruct (sender p) eqn:Hs; [done|]. intros [= <-]. split_and!; [done..|]. right. split; [done|].
    pose proof (running_insert _ _ _ Exited Hw) as Hp. rewrite !app_nil_r in Hp. exact Hp.
  - intros [= <-]. split_and!; [done..|]. left. exists job. split; [done|].
    pose proof (running_insert _ _ _ (Running job) Hw) as Hp. rewrite app_nil_r in Hp. exact Hp.
Qed.

Lemma run_job_jobs p i p' job : ThreadPool.workers p !! i = Some (Running job) -> run_job p i = Some p' ->
  submitted p' = submitted p /\ channel p' = channel p /\ sender p' = sender p /\
  ThreadPool.running p' ++ [job] ≡ₚ ThreadPool.running p.
Proof.
  intros Hw. unfold run_job. rewrite Hw. intros [= <-]. split_and!; [done..|].
  pose proof (running_insert _ _ _ Waiting Hw) as Hp. rewrite app_nil_r in Hp. exact Hp.
Qed.

(** A worker that has exited stays so, and the others' joins with it. *)
Lemma joined_stuck p p' : joined p = true -> worker_step p p' -> False.
Proof.
  intros Hj Hw. unfold joined in Hj. rewrite forallb_forall in Hj.
  assert (Hall : forall i w, ThreadPool.workers p !! i = Some w -> w = Exited).
  { intros i w Hi%list_elem_of_lookup_2%list_elem_of_In. apply Hj in Hi. by zbool. }
  destruct Hw as [i Hi|i Hi|i Hi]; unfold acquire, receive, run_job in Hi;
    (destruct (ThreadPool.workers p !! i) as [w|] eqn:Hw; [|done]); apply Hall in Hw; by subst w.
Qed.

(** A step of the pool that submits nothing and keeps guards where they are. *)
Lemma pool_sound s p :
  sound s -> worker_step (pool s) p -> submitted p = submitted (pool s) -> sender p = sender (pool s) ->
  (forall j, j ∈ channel p -> j ∈ channel (pool s)) ->
  (forall j, j ∈ map conn_job (open s) -> j ∈ channel (pool s) ++ ThreadPool.running (pool s) -> j ∈ channel p ++ ThreadPool.running p) ->
  sound (set_workers_pool p s).
Proof.
  intros [Hp Hr Ha Hsub Hids Hop Hw Hl Hst] Hstep E1 E2 Hch Hlive. split; try done; cbn [pool open set_workers_pool accepted].
  - by eapply worker_step_ok.
  - by rewrite E1.
  - intros j Hj. by apply Hw, Hch.
  - intros j Hj. apply Hlive; [done|by apply Hl].
  - unfold stage_ok in *. cbn [stage pool checker set_workers_pool] in *. rewrite E2.
    destruct (stage s) as [| | | | | | | | | |panicking]; try done. destruct Hst as (_ & Hj & _). exfalso. by eapply joined_stuck.
Qed.

Lemma guards_found job s k c : guards_of job s = Some (k, c) -> open s !! k = Some c /\ conn_job c = job.
Proof. unfold guards_of. intros (H1 & H2 & _)%list_find_Some. done. Qed.

Lemma guards_none job s : guards_of job s = None -> job ∉ map conn_job (open s).
Proof.
  unfold guards_of. intros Hn%list_find_None Hin. apply (list_elem_of_fmap_1 conn_job) in Hin as (c & -> & Hc).
  rewrite Forall_forall in Hn. by eapply (Hn c).
Qed.

Lemma drop_guards_sound i now s s' : sound s -> drop_guards i now s = Some s' -> sound s'.
Proof.
  intros Hs E. unfold drop_guards in E. destruct (job_of i s) as [job|] eqn:Hj; [|done].
  destruct (guards_of job s) as [[k c]|] eqn:Hg; [|done]. injection E as <-. apply guards_found in Hg as [Hk Hc].
  apply job_of_running, running_of_worker in Hj. pose proof (jobs_nodup _ Hs) as Hn.
  pose proof (remove_permutation _ _ _ Hk) as Hrem. destruct Hs as [Hp Hr Ha Hsub Hids Hop Hw Hl Hst].
  assert (Hf : finish now k (listening s) = set_guards (release_connection (admission (listening s)) now (conn_ip c))
    (active_connections (listening s) - 1) (take k (Accept.running (listening s)) ++ drop (S k) (Accept.running (listening s))) (listening s)).
  { unfold finish. rewrite Hr, list_lookup_fmap, Hk. done. }
  rewrite Hf. split; try done; cbn [pool open listening stage accepted set_open set_listening set_guards Accept.running active_connections].
  - by rewrite Hr, map_app, firstn_map, skipn_map.
  - rewrite Ha. pose proof (Permutation_length Hrem) as Hlen. unfold len. rewrite Hlen. cbn [length]. lia.
  - etrans; [|exact Hop]. rewrite <- (take_drop_middle _ _ _ Hk) at 3. apply sublist_app; [done|]. by apply sublist_cons.
  - intros j Hin. assert (Hne : j <> job).
    { intros ->. apply NoDup_app in Hn as (_ & _ & Hn). apply NoDup_app in Hn as (_ & Hd & _). by eapply Hd. }
    apply Hw in Hin. rewrite Hrem in Hin. cbn [map] in Hin. apply elem_of_cons in Hin as [->|]; [|done]. congruence.
  - intros j Hin. apply Hl. rewrite Hrem. cbn [map]. by right.
Qed.

Lemma step_signal config c : signal (checker_step network config c) = signal c.
Proof.
  unfold checker_step. destruct (phase c) as [|cycle [|[route candidate] todo]|cycle route candidate todo|remaining|nap remaining|]; try done.
  - by destruct (signal c) eqn:Hs; cbn; rewrite ?Hs.
  - by destruct (signal c) eqn:Hs, (bytes_eqb candidate []); cbn; rewrite ?Hs.
  - by destruct (active_health_probe _ _ _ _ _).
  - by destruct (_ || _).
Qed.

Lemma check_works s s' : check network s = Some s' ->
  exists config c c' u, checker s = Some (config, c) /\ s' = set_checker (Some (config, c')) (set_shared u s) /\
    signal c' = signal c /\ (signal c = true -> (steps_left (phase c') < steps_left (phase c))%nat).
Proof.
  unfold check. destruct (checker s) as [[config c]|] eqn:Hc; [|done]. intros E.
  set (c0 := mkChecker (signal c) (phase c) (shared s) (probed c) (naps c)) in E.
  assert (phase c <> Gone /\ s' = set_checker (Some (config, checker_step network config c0)) (set_shared (seen (checker_step network config c0)) s))
    as [Hne ->] by (destruct (phase c); [..|done]; by injection E as <-).
  exists config, c, (checker_step network config c0), (seen (checker_step network config c0)). split_and!; [done..|apply (step_signal config c0)|].
  intros Hs. destruct (step_stopping network config c0 Hs) as [_ Hleft].
  rewrite Hleft. change (phase c0) with (phase c). destruct (phase c) as [|? []|? ? ? []| | |]; cbn; try lia. done.
Qed.

Lemma event_sound s e s' : sound s -> event s e = Some s' -> sound s'.
Proof.
  intros Hs E. destruct e as [fs now answer|i|i|i now|i| | | |u]; cbn [Listen.event] in E.
  - by eapply main_sound.
  - destruct (acquire (pool s) i) as [p|] eqn:Ha; [|done]. injection E as <-. destruct (acquire_jobs _ _ _ Ha) as (E1 & E2 & E3 & E4).
    apply pool_sound; [done|by eapply step_acquire|done|done|by rewrite E2|]. intros j _. by rewrite E2, E4.
  - destruct (receive (pool s) i) as [p|] eqn:Ha; [|done]. injection E as <-. destruct (receive_jobs _ _ _ Ha) as (E1 & E3 & Hch).
    apply pool_sound; [done|by eapply step_receive|done|done|..].
    + intros j. destruct Hch as [(job & -> & _)|[-> _]]; [by right|done].
    + intros j _. destruct Hch as [(job & -> & E4)|[-> E4]]; rewrite E4; [|done]. set_solver.
  - by eapply drop_guards_sound.
  - unfold job_returns in E. destruct (job_of i s) as [job|] eqn:Hj; [|done]. destruct (guards_of job s) eqn:Hg; [done|].
    apply job_of_running in Hj. destruct (run_job (pool s) i) as [p|] eqn:Ha; [|done]. injection E as <-.
    destruct (run_job_jobs _ _ _ _ Hj Ha) as (E1 & E2 & E3 & E4). apply guards_none in Hg.
    apply pool_sound; [done|by eapply step_run|done|done|by rewrite E2|]. intros j Hin. rewrite E2, <- E4, !elem_of_app.
    intros [|[|Hjob]]; [by left|by right|]. apply list_elem_of_singleton in Hjob as ->. done.
  - apply check_works in E as (config & c & c' & u & Hc & -> & Hsig & _). eapply sound_same; [exact Hs|done..|].
    pose proof (sound_stage _ Hs) as Hok. unfold stage_ok in *. cbn [stage pool checker set_checker set_shared].
    rewrite Hc in Hok. destruct (stage s) as [| |leaving| | | | | |[]|panicking|panicking]; try done.
    + destruct Hok as (Hsd & cfg & c1 & [= <- <-] & Hs'). split; [done|]. eexists _, _. split; [done|congruence].
    + by destruct Hok.
    + by destruct Hok.
    + destruct Hok as [? Hcn]. split; [done|]. intros Hpa. by apply Hcn in Hpa.
    + destruct Hok as (? & ? & Hcn). split_and!; [done..|]. intros Hpa. by apply Hcn in Hpa.
  - injection E as <-. eapply sound_same; [exact Hs|done..|apply (sound_stage _ Hs)].
  - injection E as <-. eapply sound_same; [exact Hs|done..|apply (sound_stage _ Hs)].
  - injection E as <-. eapply sound_same; [exact Hs|done..|apply (sound_stage _ Hs)].
Qed.

Lemma listen_sound fs config u s : listen fs config true u = Some (Ok s) -> sound s.
Proof.
  unfold Listen.listen. cbn [negb]. destruct (pool_new _) as [p|] eqn:Hp; [|done].
  destruct (start_listening _ _ _ _ _ _ _) as [[l|]|] eqn:El; [|done..]. intros [= <-].
  assert (Hr : pool_ok p) by by eapply pool_reachable_ok, pool_start.
  unfold start_listening in El. destruct (build_tls_acceptor _ _ _ _ _ _) as [tls|]; [|done].
  destruct (preload_tree _ _ _ _ _) as [m|]; [|done]. injection El as <-.
  destruct (Z.to_nat (Config.workers config)) as [|n]; [done|]. injection Hp as <-. split; try done; cbn; by intros j Hj%elem_of_nil.
Qed.

Lemma reached_sound s : reached s -> sound s.
Proof. induction 1 as [fs config u s E|s e s' _ IH E]; [by eapply listen_sound|by eapply event_sound]. Qed.

(** ** The limits *)

(** The addresses whose guards are alive. *)
Definition held_ips s : list bytes := map conn_ip (open s) ++ hand (stage s).

Definition recent s e : Prop :=
  match e with
  | Main _ now (Arrived _ _ _) =>
      stage s = Accepting -> all_recent (admission (listening s)) (fun ip => from_address ip (held_ips s)) now
  | _ => True
  end.

(** The system's states under configurations with the limit [per_ip] for an
    address and at most [most] connections, no address with connections being
    silent for 300 seconds. *)
Inductive watched (per_ip most : Z) : System -> Prop :=
| watched_listen fs config u s : within per_ip most config -> listen fs config true u = Some (Ok s) -> watched per_ip most s
| watched_event s e s' :
    watched per_ip most s -> event s e = Some s' -> recent s e -> within per_ip most (runtime_config (runtime (listening s'))) ->
    watched per_ip most s'.

Lemma watched_reached per_ip most s : watched per_ip most s -> reached s.
Proof. induction 1; [by eapply reached_listen|by eapply reached_event]. Qed.

Lemma watched_config per_ip most s : watched per_ip most s -> within per_ip most (runtime_config (runtime (listening s))).
Proof.
  destruct 1 as [fs config u s Hw E|]; [|done]. unfold Listen.listen, start_listening in E. cbn [negb] in E.
  destruct (pool_new _); [|done]. destruct (build_tls_acceptor _ _ _ _ _ _); [|done].
  destruct (preload_tree _ _ _ _ _); [|done]. by injection E as <-.
Qed.

Definition limited (per_ip most : Z) s : Prop :=
  active_connections (listening s) <= most /\ limiter_counts per_ip (admission (listening s)) (held_ips s).

(** What does not touch the counts. *)
Lemma limited_same per_ip most s s' :
  limited per_ip most s -> admission (listening s') = admission (listening s) ->
  active_connections (listening s') = active_connections (listening s) -> held_ips s' = held_ips s -> limited per_ip most s'.
Proof. unfold limited. by intros [Ha Hc] -> -> ->. Qed.

Lemma stop_limited per_ip most leaving s : limited per_ip most s -> hand (stage s) = [] -> limited per_ip most (stop_checker leaving s).
Proof.
  intros Hl Hh. eapply limited_same; [exact Hl|..]; unfold held_ips, Listen.stop_checker, after_stop;
    destruct (checker s) as [[config c]|], leaving; cbn; by rewrite ?Hh.
Qed.

Lemma reload_limited per_ip most fs s : limited per_ip most s -> hand (stage s) = [] -> limited per_ip most (reload_asked fs s).
Proof.
  intros Hl Hh. unfold Listen.reload_asked. destruct (Accept.reload _ _ _ _ _ _ _) as [l|] eqn:E.
  - apply reload_kept in E as (E1 & E2 & _). cbn [listening set_flags] in E1, E2.
    destruct (match load_runtime_state _ _ _ _ _ _ _ with Some (Ok _) => true | _ => false end).
    + apply stop_limited; [|done]. by eapply limited_same.
    + eapply limited_same; [exact Hl|done..|]. unfold held_ips. cbn. by rewrite Hh.
  - eapply limited_same; [exact Hl|done..|]. unfold held_ips. cbn. by rewrite Hh.
Qed.

Lemma drop_ip_limited per_ip most now ip s :
  limited per_ip most s -> hand (stage s) = [ip] -> limited per_ip most (at_stage Head (drop_ip now ip s)).
Proof.
  intros [Ha Hc] Hh. split; [done|]. eapply counts_release; [|exact Hc]. unfold held_ips. rewrite Hh. cbn.
  by rewrite app_nil_r, <- Permutation_cons_append.
Qed.

Lemma main_limited per_ip most fs now answer s s' :
  sound s -> within per_ip most (runtime_config (runtime (listening s))) -> limited per_ip most s -> recent s (Main fs now answer) ->
  main_step fs now answer s = Some s' -> limited per_ip most s'.
Proof.
  intros Hs [Hper Hmost] Hl Hrec E. unfold Listen.main_step in E. cbn [recent] in Hrec.
  destruct (stage s) as [| |leaving| |ip blocking panicking|ip|ip panicking| |panicking|panicking|panicking] eqn:Hst.
  - injection E as <-. destruct (shutdown_requested s); [apply stop_limited; by rewrite ?Hst|].
    eapply limited_same; [exact Hl|done..|]. unfold held_ips. by rewrite Hst.
  - injection E as <-. destruct (reload_requested s); [apply reload_limited; by rewrite ?Hst|].
    eapply limited_same; [exact Hl|done..|]. unfold held_ips. by rewrite Hst.
  - assert (limited per_ip most (after_stop leaving s)) as Hafter.
    { eapply limited_same; [exact Hl|by destruct leaving..|]. unfold held_ips. rewrite Hst. by destruct leaving. }
    destruct (checker s) as [[config c]|]; [destruct (phase c); [done..|]|]; by injection E as <-.
  - destruct answer as [| |ip blocking panicking];
      [injection E as <-; (eapply limited_same; [exact Hl|done..|]; unfold held_ips; by rewrite Hst)..|].
    destruct (try_connection _ _ _ _) as [b ok] eqn:Ht. injection E as <-. destruct Hl as [Ha Hc]. split; [done|].
    rewrite Hper in Ht. pose proof (counts_try _ _ _ _ _ _ _ Hc (Hrec eq_refl) Ht) as Hc'. unfold held_ips in *. rewrite Hst in Hc'.
    cbn [hand] in Hc'. rewrite app_nil_r in Hc'. destruct ok; cbn in *; [exact Hc'|by rewrite app_nil_r].
  - destruct (negb blocking); [injection E as <-; apply drop_ip_limited; by rewrite ?Hst|].
    destruct (Z.leb_spec (max_connections (runtime_config (runtime (listening s)))) (active_connections (listening s))); injection E as <-;
      [eapply limited_same; [exact Hl|done..|]; unfold held_ips; by rewrite Hst|].
    destruct Hl as [Ha Hc]. unfold limited, held_ips in *. rewrite Hst in Hc. cbn in *. split; [lia|exact Hc].
  - injection E as <-. apply drop_ip_limited; by rewrite ?Hst.
  - injection E as <-. pose proof (sound_stage _ Hs) as Hok. unfold stage_ok in Hok. rewrite Hst in Hok.
    rewrite (hand_over_open _ _ _ _ Hs Hok). destruct Hl as [Ha Hc]. split; [done|]. unfold held_ips in *. rewrite Hst in Hc.
    cbn [open stage at_stage set_workers_pool set_open]. rewrite map_app, app_nil_r. exact Hc.
  - injection E as <-. eapply limited_same; [exact Hl|done..|]. unfold held_ips. by rewrite Hst.
  - injection E as <-. eapply limited_same; [exact Hl|done..|]. unfold held_ips. by rewrite Hst.
  - destruct (joined (pool s)); [|done]. injection E as <-. eapply limited_same; [exact Hl|done..|]. unfold held_ips. by rewrite Hst.
  - done.
Qed.

Lemma drop_guards_limited per_ip most i now s s' :
  sound s -> limited per_ip most s -> drop_guards i now s = Some s' -> limited per_ip most s'.
Proof.
  intros Hs [Ha Hc] E. unfold drop_guards in E. destruct (job_of i s) as [job|]; [|done].
  destruct (guards_of job s) as [[k c]|] eqn:Hg; [|done]. injection E as <-. apply guards_found in Hg as [Hk _].
  unfold finish. rewrite (sound_running _ Hs), list_lookup_fmap, Hk. cbn [fmap option_fmap option_map].
  split; cbn [listening set_open set_listening set_guards active_connections admission]; [lia|].
  eapply counts_release; [|exact Hc]. unfold held_ips. cbn [open stage set_open set_listening].
  by rewrite (remove_permutation _ _ _ Hk) at 1.
Qed.

Lemma event_limited per_ip most s e s' :
  sound s -> within per_ip most (runtime_config (runtime (listening s))) -> limited per_ip most s -> recent s e ->
  event s e = Some s' -> limited per_ip most s'.
Proof.
  intros Hs Hw Hl Hrec E. destruct e as [fs now answer|i|i|i now|i| | | |u]; cbn [Listen.event] in E.
  - by eapply main_limited.
  - destruct (acquire _ _); [|done]. injection E as <-. by eapply limited_same.
  - destruct (receive _ _); [|done]. injection E as <-. by eapply limited_same.
  - by eapply drop_guards_limited.
  - unfold job_returns in E. destruct (job_of i s); [|done]. destruct (guards_of _ _); [done|].
    destruct (run_job _ _); [|done]. injection E as <-. by eapply limited_same.
  - apply check_works in E as (config & c & c' & u & _ & -> & _). by eapply limited_same.
  - injection E as <-. by eapply limited_same.
  - injection E as <-. by eapply limited_same.
  - injection E as <-. by eapply limited_same.
Qed.

Lemma watched_limited per_ip most s : 0 <= most -> watched per_ip most s -> limited per_ip most s.
Proof.
  intros Hm. induction 1 as [fs config u s Hw E|s e s' Hwatched IH E Hrec Hw].
  - unfold Listen.listen, start_listening in E. cbn [negb] in E. destruct (pool_new _); [|done].
    destruct (build_tls_acceptor _ _ _ _ _ _); [|done]. destruct (preload_tree _ _ _ _ _); [|done]. injection E as <-.
    split; [done|]. exists (fun _ => 0). split; [constructor|done].
  - eapply event_limited; [by eapply reached_sound, watched_reached|by apply watched_config|exact IH|exact Hrec|exact E].
Qed.

(** ** Every connection is served once *)

Lemma stop_accepted leaving s : accepted (stop_checker leaving s) = accepted s.
Proof. apply (same_accepted _ _ (stop_books leaving s)). Qed.

Lemma reload_accepted fs s : accepted (reload_asked fs s) = accepted s.
Proof.
  unfold Listen.reload_asked. destruct (Accept.reload _ _ _ _ _ _ _) as [l|]; [|done].
  destruct (match load_runtime_state _ _ _ _ _ _ _ with Some (Ok _) => true | _ => false end); [|done]. by rewrite stop_accepted.
Qed.

(** The other threads leave the main thread where it is, and accept nothing. *)
Lemma side_event s e s' : event s e = Some s' ->
  match e with Main _ _ _ => True | _ => stage s' = stage s /\ accepted s' = accepted s end.
Proof.
  destruct e as [fs now answer|i|i|i now|i| | | |u]; cbn [Listen.event]; intros E; [done|..].
  - destruct (acquire _ _); [|done]. by injection E as <-.
  - destruct (receive _ _); [|done]. by injection E as <-.
  - unfold drop_guards in E. destruct (job_of i s); [|done]. destruct (guards_of _ _) as [[]|]; [|done]. by injection E as <-.
  - unfold job_returns in E. destruct (job_of i s); [|done]. destruct (guards_of _ _); [done|].
    destruct (run_job _ _); [|done]. by injection E as <-.
  - by apply check_works in E as (config & c & c' & u & _ & -> & _).
  - by injection E as <-.
  - by injection E as <-.
  - by injection E as <-.
Qed.

Lemma after_stop_accepted leaving s : accepted (after_stop leaving s) = accepted s.
Proof. by destruct leaving. Qed.

(** What an event accepts: the connection in the main thread's hands. *)
Lemma event_accepted s e s' : sound s -> event s e = Some s' ->
  accepted s' = accepted s \/
  exists ip panicking, stage s = Guarded ip panicking /\ stage s' = Head /\ accepted s' = accepted s ++ [new_conn ip panicking s].
Proof.
  intros Hs E. pose proof (side_event _ _ _ E) as Hside. destruct e as [fs now answer|i|i|i now|i| | | |u]; [clear Hside|left; apply Hside..].
  cbn [Listen.event] in E. unfold Listen.main_step in E.
  destruct (stage s) as [| |leaving| |ip blocking panicking|ip|ip panicking| |panicking|panicking|panicking] eqn:Hst;
    [left|left|left|left|left|left|right|left..].
  - injection E as <-. destruct (shutdown_requested s); [apply stop_accepted|done].
  - injection E as <-. destruct (reload_requested s); [apply reload_accepted|done].
  - destruct (checker s) as [[config c]|]; [destruct (phase c); [done..|]|]; injection E as <-; apply after_stop_accepted.
  - destruct answer as [| |ip blocking panicking]; [by injection E as <-..|]. destruct (try_connection _ _ _ _). by injection E as <-.
  - destruct (negb blocking); [by injection E as <-|]. destruct (_ <=? _); by injection E as <-.
  - by injection E as <-.
  - injection E as <-. exists ip, panicking. split_and!; [done..|]. pose proof (sound_stage _ Hs) as Hok. unfold stage_ok in Hok. rewrite Hst in Hok.
    by rewrite (hand_over_open _ _ _ _ Hs Hok).
  - by injection E as <-.
  - by injection E as <-.
  - destruct (joined _); [|done]. by injection E as <-.
  - done.
Qed.

(** What a step does to the global counter. *)
Definition counted_within s s' : Prop :=
  active_connections (listening s') <= active_connections (listening s) \/
  active_connections (listening s') = active_connections (listening s) + 1 /\
    active_connections (listening s) < max_connections (runtime_config (runtime (listening s))).

Lemma same_counted s s' : same_books s s' -> counted_within s s'.
Proof. intros Hb. left. rewrite (same_active _ _ Hb). lia. Qed.

Lemma event_counted s e s' : sound s -> event s e = Some s' -> counted_within s s'.
Proof.
  intros Hs E. destruct e as [fs now answer|i|i|i now|i| | | |u]; cbn [Listen.event] in E.
  - unfold Listen.main_step in E.
    destruct (stage s) as [| |leaving| |ip blocking panicking|ip|ip panicking| |panicking|panicking|panicking] eqn:Hst.
    + injection E as <-. destruct (shutdown_requested s); [apply same_counted, stop_books|by left].
    + injection E as <-. destruct (reload_requested s); [|by left]. unfold Listen.reload_asked.
      destruct (Accept.reload _ _ _ _ _ _ _) as [l|] eqn:E; [|by left]. apply reload_kept in E as (_ & E & _). left.
      destruct (match load_runtime_state _ _ _ _ _ _ _ with Some (Ok _) => true | _ => false end); [rewrite (same_active _ _ (stop_books _ _))|];
        cbn in *; lia.
    + destruct (checker s) as [[config c]|]; [destruct (phase c); [done..|]|]; injection E as <-; left; by destruct leaving.
    + destruct answer as [| |ip blocking panicking]; [injection E as <-; by left..|]. destruct (try_connection _ _ _ _). injection E as <-. by left.
    + destruct (negb blocking); [injection E as <-; by left|].
      destruct (Z.leb_spec (max_connections (runtime_config (runtime (listening s)))) (active_connections (listening s))); injection E as <-;
        [by left|by right].
    + injection E as <-. by left.
    + injection E as <-. left. pose proof (sound_stage _ Hs) as Hok. unfold stage_ok in Hok. rewrite Hst in Hok.
      by rewrite (hand_over_open _ _ _ _ Hs Hok).
    + injection E as <-. by left.
    + injection E as <-. by left.
    + destruct (joined (pool s)); [|done]. injection E as <-. by left.
    + done.
  - destruct (acquire _ _); [|done]. injection E as <-. by left.
  - destruct (receive _ _); [|done]. injection E as <-. by left.
  - unfold drop_guards in E. destruct (job_of i s); [|done]. destruct (guards_of _ _) as [[k c]|]; [|done]. injection E as <-. left.
    cbn [listening set_open set_listening]. unfold finish. case_match; cbn; lia.
  - unfold job_returns in E. destruct (job_of i s); [|done]. destruct (guards_of _ _); [done|].
    destruct (run_job _ _); [|done]. injection E as <-. by left.
  - apply check_works in E as (config & c & c' & u & _ & -> & _). by left.
  - injection E as <-. by left.
  - injection E as <-. by left.
  - injection E as <-. by left.
Qed.

(** C19 (invariant): However the threads of the server interleave, its counters
    follow the connections, and every accepted connection is served once.  In
    every state the global counter is the number of guards that jobs and the main
    thread hold, and it grows only by one and while below the limit then in force.
    The guards the jobs hold are those of the jobs that wait for a worker
    or are run, less those a job at its end has dropped.  Jobs are started in the
    order in which their connections were accepted, each once, and each captures
    the configuration in force when its connection was accepted.  As long as
    reloads leave the limit for an address as it is, it is positive, and no
    address is silent for 300 seconds ([watched]), the limiter's count of each
    address is the number of its guards and within its limit. *)
Theorem connections_served_once s :
  reached s ->
  let l := listening s in
  let p := pool s in
  active_connections l = len (open s) + held (stage s) /\
  (exists ended, channel p ++ ThreadPool.running p ≡ₚ map conn_job (open s) ++ ended /\
     forall j, j ∈ ended -> j ∈ ThreadPool.running p) /\
  (map conn_job (accepted s) = started p ++ channel p /\ NoDup (map conn_job (accepted s)) /\
   started p ≡ₚ finished p ++ ThreadPool.running p /\ open s `sublist_of` accepted s) /\
  (forall e s', event s e = Some s' ->
    counted_within s s' /\
    (accepted s' = accepted s \/
     exists ip panicking, stage s = Guarded ip panicking /\
       accepted s' = accepted s ++ [mkConnJob (mkJob (len (accepted s)) panicking) ip (runtime_config (runtime l)) (tls_acceptor (runtime l))])) /\
  (forall per_ip most, 0 < per_ip -> 0 <= most -> watched per_ip most s ->
    active_connections l <= most /\
    forall ip, count (admission l) ip = from_address ip (held_ips s) /\ from_address ip (held_ips s) <= per_ip).
Proof.
  intros Hr l p. pose proof (reached_sound _ Hr) as Hs. split_and!.
  - apply (sound_active _ Hs).
  - by apply open_jobs.
  - rewrite <- (sound_submitted _ Hs). apply (sound_pool _ Hs).
  - by apply accepted_nodup.
  - apply (sound_pool _ Hs).
  - apply (sound_open _ Hs).
  - intros e s' E. split; [by eapply event_counted|].
    apply event_accepted in E as [|(ip & panicking & Hst & _ & E)]; [by left| |done]. right. by exists ip, panicking.
  - intros per_ip most Hpos Hm Hw. destruct (watched_limited _ _ _ Hm Hw) as [Ha (live & Hsess & Hl)]. split; [exact Ha|].
    intros ip. destruct (session_accounted _ _ _ Hpos Hsess) as [Hcount Hrange _]. rewrite Hcount, <- Hl. split; [done|apply Hrange].
Qed.

(** ** Stopping *)

(** The main thread's actions until it returns, once it is told to stop. *)
Definition main_left (g : Stage) : nat :=
  match g with
  | Returned _ => 0 | Draining _ => 1 | Dropping _ => 2 | Clearing => 3 | Joining true => 4 | Head => 5
  | Refusing _ | Guarded _ _ => 6 | Counted _ _ _ => 7 | Accepting => 8 | Joining false => 9 | Swapping => 10
  end.
Definition checker_left s : nat :=
  match checker s with Some (_, c) => if signal c then steps_left (phase c) else 0%nat | None => 0%nat end.

(** What the threads still do once the server is told to stop: handing over a
    connection adds four actions, and stopping a checker as many. *)
Definition left_over s : nat := (5 * main_left (stage s) + work_left (pool s) + length (open s) + checker_left s)%nat.

(** The actions of the server's own threads, but for a checker not yet told to
    stop. *)
Definition own s e : bool :=
  match e with
  | Terminate | Hangup | Uses _ => false
  | Checks => match checker s with Some (_, c) => signal c | None => false end
  | _ => true
  end.

Fixpoint toil s es : nat :=
  match es with
  | [] => 0
  | e :: es => (if own s e then 1 else 0) + match event s e with Some s' => toil s' es | None => 0 end
  end%nat.

(** A thread that need not wait: the main thread, whatever it finds, or another. *)
Definition goes_on s : Prop :=
  (forall fs now answer, is_Some (event s (Main fs now answer))) \/
  exists e, own s e = true /\ match e with Main _ _ _ => False | _ => True end /\ is_Some (event s e).

Lemma steps_most p : (steps_left p <= 4)%nat.
Proof. destruct p as [|? []|? ? ? []| | |]; cbn; lia. Qed.

(** Stopping the checker ends the stage. *)
Lemma stop_left leaving s : shutdown_requested (stop_checker leaving s) = shutdown_requested s /\
  (left_over (stop_checker leaving s) <= 5 * (if leaving then 4 else 9) + work_left (pool s) + length (open s) + 4)%nat.
Proof.
  unfold left_over, Listen.stop_checker, after_stop. destruct (checker s) as [[config c]|]; destruct leaving; cbn [stage at_stage pool open set_checker main_left shutdown_requested];
    (split; [done|]); unfold checker_left; cbn [checker at_stage set_checker checker_event signal phase]; try (pose proof (steps_most (phase c)); lia); try lia.
  unfold start_checker. destruct (checked_config _); cbn; lia.
Qed.

Lemma reload_left fs s : stage s = Swapping -> shutdown_requested (reload_asked fs s) = shutdown_requested s /\
  (left_over (reload_asked fs s) < left_over s)%nat.
Proof.
  intros Hst. unfold Listen.reload_asked. destruct (Accept.reload _ _ _ _ _ _ _) as [l|].
  - destruct (match load_runtime_state _ _ _ _ _ _ _ with Some (Ok _) => true | _ => false end).
    + destruct (stop_left false (set_listening l (set_flags (shutdown_requested s) false s))) as [E1 E2]. split; [exact E1|].
      cbn [pool open set_listening set_flags] in E2. unfold left_over at 2. rewrite Hst. cbn [main_left]. lia.
    + split; [done|]. unfold left_over, checker_left. rewrite Hst. cbn. lia.
  - split; [done|]. unfold left_over, checker_left. rewrite Hst. cbn. lia.
Qed.

Lemma drop_sender_work p : work_left (drop_sender p) = work_left p.
Proof. done. Qed.

Lemma main_left_less fs now answer s s' :
  sound s -> shutdown_requested s = true -> main_step fs now answer s = Some s' ->
  shutdown_requested s' = true /\ (left_over s' < left_over s)%nat.
Proof.
  intros Hs Hsd E. pose proof (sound_stage _ Hs) as Hok. unfold stage_ok in Hok. unfold Listen.main_step in E.
  assert (Hstage : forall g, (main_left g < main_left (stage s) -> left_over (at_stage g s) < left_over s)%nat).
  { intros g Hg. unfold left_over, checker_left. cbn [stage pool open checker at_stage]. lia. }
  destruct (stage s) as [| |leaving| |ip blocking panicking|ip|ip panicking| |panicking|panicking|panicking] eqn:Hst.
  - rewrite Hsd in E. injection E as <-. destruct (stop_left true s) as [E1 E2]. rewrite E1. split; [done|].
    unfold left_over at 2. rewrite Hst. cbn [main_left]. lia.
  - injection E as <-. destruct (reload_requested s); [|split; [done|]; apply Hstage; cbn; lia].
    destruct (reload_left fs s Hst) as [E1 E2]. by rewrite E1.
  - assert (shutdown_requested (after_stop leaving s) = true /\ (left_over (after_stop leaving s) < left_over s)%nat) as Hafter.
    { unfold left_over, checker_left, after_stop. rewrite Hst. destruct leaving; cbn; (split; [done|]); [lia|].
      unfold start_checker. destruct (checked_config _); cbn; lia. }
    destruct (checker s) as [[config c]|]; [destruct (phase c); [done..|]|]; by injection E as <-.
  - destruct answer as [| |ip blocking panicking]; [injection E as <-; (split; [done|]; apply Hstage; cbn; lia)..|].
    destruct (try_connection _ _ _ _) as [b ok]. injection E as <-. split; [done|].
    unfold left_over, checker_left. rewrite Hst. destruct ok; cbn; lia.
  - destruct (negb blocking); [injection E as <-; split; [done|]; unfold left_over, checker_left; rewrite Hst; cbn; lia|].
    destruct (_ <=? _); injection E as <-; (split; [done|]); unfold left_over, checker_left; rewrite Hst; cbn; lia.
  - injection E as <-. split; [done|]. unfold left_over, checker_left; rewrite Hst; cbn; lia.
  - injection E as <-. rewrite (hand_over_open _ _ _ _ Hs Hok), (execute_open _ _ (sound_pool _ Hs) Hok). split; [done|].
    unfold left_over, checker_left, work_left. rewrite Hst. cbn [stage pool open checker at_stage set_workers_pool set_open fst channel
      ThreadPool.workers set_accepted counts set_listening main_left]. rewrite !length_app. cbn [length]. lia.
  - injection E as <-. split; [done|]. unfold left_over, checker_left; rewrite Hst; cbn; lia.
  - injection E as <-. split; [done|]. unfold left_over, checker_left; rewrite Hst.
    cbn [stage pool open checker at_stage set_workers_pool main_left]. rewrite drop_sender_work. lia.
  - destruct (joined (pool s)); [|done]. injection E as <-. split; [done|]. apply Hstage. cbn. lia.
  - done.
Qed.

Lemma pool_left s p : worker_step (pool s) p -> (left_over (set_workers_pool p s) < left_over s)%nat.
Proof. intros Hw%worker_step_work. unfold left_over, checker_left. cbn [stage pool open checker set_workers_pool]. lia. Qed.

Lemma event_left s e s' : sound s -> shutdown_requested s = true -> event s e = Some s' ->
  shutdown_requested s' = true /\ ((if own s e then 1 else 0) + left_over s' <= left_over s)%nat.
Proof.
  intros Hs Hsd E. destruct e as [fs now answer|i|i|i now|i| | | |u]; cbn [Listen.event own] in *.
  - apply main_left_less in E as [? ?]; [|done..]. split; [done|lia].
  - destruct (acquire (pool s) i) as [p|] eqn:Ha; [|done]. injection E as <-. split; [done|].
    pose proof (pool_left s p (step_acquire _ _ _ Ha)). lia.
  - destruct (receive (pool s) i) as [p|] eqn:Ha; [|done]. injection E as <-. split; [done|].
    pose proof (pool_left s p (step_receive _ _ _ Ha)). lia.
  - unfold drop_guards in E. destruct (job_of i s) as [job|]; [|done]. destruct (guards_of job s) as [[k c]|] eqn:Hg; [|done].
    injection E as <-. apply guards_found in Hg as [Hk _]. split; [done|]. pose proof (Permutation_length (remove_permutation _ _ _ Hk)) as Hlen.
    unfold left_over, checker_left. cbn [stage pool open checker set_open set_listening]. cbn [length] in Hlen. lia.
  - unfold job_returns in E. destruct (job_of i s) as [job|]; [|done]. destruct (guards_of job s); [done|].
    destruct (run_job (pool s) i) as [p|] eqn:Ha; [|done]. injection E as <-. split; [done|].
    pose proof (pool_left s p (step_run _ _ _ Ha)). lia.
  - apply check_works in E as (config & c & c' & u & Hc & -> & Hsig & Hless). split; [done|]. rewrite Hc.
    unfold left_over, checker_left. cbn [stage pool open checker set_checker set_shared]. rewrite Hc.
    rewrite Hsig. destruct (signal c); [specialize (Hless eq_refl); lia|lia].
  - injection E as <-. done.
  - injection E as <-. done.
  - injection E as <-. done.
Qed.

(** The connections the main thread may still accept in its passage. *)
Definition may_accept (g : Stage) : nat :=
  match g with Swapping | Joining false | Accepting | Counted _ _ _ | Guarded _ _ => 1 | _ => 0 end.

Lemma stop_may leaving s : (may_accept (stage (stop_checker leaving s)) <= if leaving then 0 else 1)%nat.
Proof. unfold Listen.stop_checker, after_stop. destruct (checker s) as [[config c]|], leaving; cbn; lia. Qed.

Lemma reload_may fs s : (may_accept (stage (reload_asked fs s)) <= 1)%nat.
Proof. destruct (stage (reload_asked fs s)) as [| |[]| | | | | | | |]; cbn; lia. Qed.

Lemma main_may fs now answer s s' : shutdown_requested s = true -> main_step fs now answer s = Some s' ->
  (may_accept (stage s') <= may_accept (stage s))%nat.
Proof.
  intros Hsd E. unfold Listen.main_step in E. rewrite Hsd in E.
  destruct (stage s) as [| |leaving| |ip blocking panicking|ip|ip panicking| |panicking|panicking|panicking].
  - injection E as <-. apply stop_may.
  - injection E as <-. destruct (reload_requested s); [apply reload_may|cbn; lia].
  - destruct (checker s) as [[config c]|]; [destruct (phase c); [done..|]|]; injection E as <-; destruct leaving; cbn; lia.
  - destruct answer as [| |ip blocking panicking]; [injection E as <-; cbn; lia..|].
    destruct (try_connection _ _ _ _) as [b []]; injection E as <-; cbn; lia.
  - destruct (negb blocking); [injection E as <-; cbn; lia|]. destruct (_ <=? _); injection E as <-; cbn; lia.
  - injection E as <-. cbn. lia.
  - injection E as <-. cbn. lia.
  - injection E as <-. cbn. lia.
  - injection E as <-. cbn. lia.
  - destruct (joined _); [|done]. injection E as <-. cbn. lia.
  - done.
Qed.

Lemma event_may s e s' : sound s -> shutdown_requested s = true -> event s e = Some s' ->
  exists late, accepted s' = accepted s ++ late /\ (length late + may_accept (stage s') <= may_accept (stage s))%nat.
Proof.
  intros Hs Hsd E. destruct (event_accepted _ _ _ Hs E) as [Ha|(ip & panicking & Hg & Hh & Ha)].
  - exists []. rewrite app_nil_r. split; [exact Ha|]. cbn [length]. pose proof (side_event _ _ _ E) as Hside.
    destruct e as [fs now answer|i|i|i now|i| | | |u]; [by eapply main_may|destruct Hside as [-> _]; lia..].
  - exists [new_conn ip panicking s]. split; [exact Ha|]. rewrite Hg, Hh. cbn. lia.
Qed.

Lemma run_keeps s es s' : sound s -> shutdown_requested s = true -> run s es = Some s' ->
  sound s' /\ shutdown_requested s' = true /\ (toil s es + left_over s' <= left_over s)%nat /\
  exists late, accepted s' = accepted s ++ late /\ (length late + may_accept (stage s') <= may_accept (stage s))%nat.
Proof.
  revert s. induction es as [|e es IH]; intros s Hs Hsd E; cbn [Listen.run toil] in *.
  - injection E as <-. split_and!; [done..|lia|]. exists []. by rewrite app_nil_r.
  - destruct (event s e) as [s1|] eqn:He; [|done]. destruct (event_left _ _ _ Hs Hsd He) as [Hsd1 Hl1].
    destruct (event_may _ _ _ Hs Hsd He) as (late1 & E1 & Hm1). pose proof (event_sound _ _ _ Hs He) as Hs1.
    destruct (IH s1 Hs1 Hsd1 E) as (Hs' & Hsd' & Hl & late & E2 & Hm). split_and!; [done..|lia|].
    exists (late1 ++ late). rewrite E2, E1, app_assoc, length_app. split; [done|lia].
Qed.

Lemma workers_go_on s : sound s -> sender (pool s) = false -> joined (pool s) = false -> goes_on s.
Proof.
  intros Hs Hsd Hj. right. destruct (worker_enabled _ (sound_pool _ Hs) Hsd Hj) as [p [i Hi|i Hi|i Hi]].
  - exists (Locks i). split_and!; [done..|]. cbn. rewrite Hi. by eexists.
  - exists (Receives i). split_and!; [done..|]. cbn. rewrite Hi. by eexists.
  - assert (Hjob : is_Some (job_of i s)).
    { unfold job_of, run_job in *. destruct (ThreadPool.workers (pool s) !! i) as [[| |job|]|]; done. }
    destruct Hjob as [job Hjob]. destruct (guards_of job s) as [[k c]|] eqn:Hg.
    + exists (DropsGuards i 0). split_and!; [done..|]. cbn [Listen.event]. unfold drop_guards. rewrite Hjob, Hg. eexists. reflexivity.
    + exists (JobReturns i). split_and!; [done..|]. cbn. unfold job_returns. rewrite Hjob, Hg, Hi. by eexists.
Qed.

Lemma sound_goes_on s : sound s -> match stage s with Returned _ => True | _ => goes_on s end.
Proof.
  intros Hs. pose proof (sound_stage _ Hs) as Hok. unfold stage_ok in Hok.
  destruct (stage s) as [| |leaving| |ip blocking panicking|ip|ip panicking| |panicking|panicking|panicking] eqn:Hst; [..|done];
    try (left; intros fs now answer; cbn [Listen.event]; unfold Listen.main_step; rewrite Hst; by eexists).
  - destruct Hok as (_ & config & c & Hc & Hsig). assert (Hp : phase c = Gone \/ is_Some (check network s)).
    { unfold check. rewrite Hc. destruct (phase c); eauto. }
    destruct Hp as [Hp|Hp].
    + left. intros fs now answer. cbn [Listen.event]. unfold Listen.main_step. rewrite Hst, Hc, Hp. by eexists.
    + right. exists Checks. cbn [own Listen.event]. by rewrite Hc.
  - left. intros fs now answer. cbn [Listen.event]. unfold Listen.main_step. rewrite Hst.
    destruct answer as [| |ip blocking panicking]; [by eexists..|]. destruct (try_connection _ _ _ _). by eexists.
  - left. intros fs now answer. cbn [Listen.event]. unfold Listen.main_step. rewrite Hst.
    destruct (negb blocking); [by eexists|]. destruct (_ <=? _); by eexists.
  - destruct Hok as [Hsd _]. destruct (joined (pool s)) eqn:Hj; [|by apply workers_go_on].
    left. intros fs now answer. cbn [Listen.event]. unfold Listen.main_step. rewrite Hst, Hj. by eexists.
Qed.

Lemma returned_empty s panicking : sound s -> stage s = Returned panicking ->
  finished (pool s) ≡ₚ map conn_job (accepted s) /\ open s = [] /\ active_connections (listening s) = 0 /\
  joined (pool s) = true /\ (panicking = false -> checker s = None).
Proof.
  intros Hs Hst. pose proof (sound_stage _ Hs) as Hok. unfold stage_ok in Hok. rewrite Hst in Hok. destruct Hok as (_ & Hj & Hc).
  destruct (pool_drained _ (sound_pool _ Hs) Hj) as (_ & Hch & Hrun & Hfin). rewrite (sound_submitted _ Hs) in Hfin.
  assert (Ho : open s = []).
  { pose proof (sound_live _ Hs) as Hl. rewrite Hch, Hrun in Hl. destruct (open s) as [|c l]; [done|].
    exfalso. apply (not_elem_of_nil (conn_job c)), Hl. by left. }
  pose proof (sound_active _ Hs) as Ha. rewrite Hst, Ho in Ha. split_and!; done.
Qed.

(** C18 (liveness): A signal to stop ends the server, and gracefully, however
    its threads interleave, whatever else is signalled and whatever connections
    come.  From then on its threads take at most [left_over] actions, a checker
    not yet told to stop apart, and before the main thread has returned there is
    always one that need not wait.  No connection is accepted but the one the
    main thread may be about to, and none once it is back at the head of its
    loop.  When it returns every connection ever accepted has been served and
    its guards dropped, the workers have ended and, unless a reload has
    panicked, so has the checker. *)
Theorem shutdown_graceful s es s' :
  reached s -> shutdown_requested s = true -> run s es = Some s' ->
  (toil s es <= left_over s)%nat /\
  (exists late, accepted s' = accepted s ++ late /\ (length late <= may_accept (stage s))%nat) /\
  match stage s' with
  | Returned panicking =>
      finished (pool s') ≡ₚ map conn_job (accepted s') /\ open s' = [] /\ active_connections (listening s') = 0 /\
      joined (pool s') = true /\ (panicking = false -> checker s' = None)
  | _ => goes_on s'
  end.
Proof.
  intros Hs%reached_sound Hsd E. destruct (run_keeps _ _ _ Hs Hsd E) as (Hs' & _ & Hl & late & E1 & E2). split_and!.
  - lia.
  - exists late. split; [exact E1|lia].
  - pose proof (sound_goes_on _ Hs') as Hgo. destruct (stage s') as [| | | | | | | | | |panicking] eqn:Hst; try exact Hgo.
    by apply returned_empty.
Qed.

(** ** A passage through the loop *)

(** What the main thread does with a connection, left alone, is [accept]. *)
Lemma passage_is_accept fs clock ip blocking panicking s :
  sound s -> stage s = Accepting ->
  exists n s', run s (Main fs (clock O) (Arrived ip blocking panicking) :: repeat (Main fs (clock 1%nat) WouldBlock) n) = Some s' /\
    stage s' = Head /\ listening s' = fst (accept clock ip blocking true (listening s)).
Proof.
  intros Hs Hst. pose proof (sound_stage _ Hs) as Hok. unfold stage_ok in Hok. rewrite Hst in Hok.
  set (first := Main fs (clock O) (Arrived ip blocking panicking)).
  assert (E1 : exists s1, event s first = Some s1) by (cbn [first Listen.event]; unfold Listen.main_step; rewrite Hst; destruct (try_connection _ _ _ _); eauto).
  destruct E1 as [s1 E1]. pose proof (event_sound _ _ _ Hs E1) as Hs1. unfold accept.
  assert (Hstep : forall t t' n, event t (Main fs (clock 1%nat) WouldBlock) = Some t' ->
    run t (repeat (Main fs (clock 1%nat) WouldBlock) (S n)) = run t' (repeat (Main fs (clock 1%nat) WouldBlock) n)).
  { intros t t' n Et. cbn [repeat Listen.run]. by rewrite Et. }
  assert (Hfirst : forall n, run s (first :: repeat (Main fs (clock 1%nat) WouldBlock) n) = run s1 (repeat (Main fs (clock 1%nat) WouldBlock) n))
    by (intros n; cbn [Listen.run]; by rewrite E1).
  cbn [first Listen.event] in E1. unfold Listen.main_step in E1. rewrite Hst in E1.
  destruct (try_connection _ _ _ _) as [b ok]. injection E1 as <-. destruct ok; cbn [negb];
    [|exists O; eexists; rewrite Hfirst; done].
  destruct (negb blocking) eqn:Hb; [exists 1%nat; eexists; rewrite Hfirst; cbn; by rewrite Hb|].
  destruct (max_connections _ <=? _) eqn:Hm.
  - exists 2%nat. eexists. rewrite Hfirst. erewrite Hstep by (cbn; by rewrite Hb, Hm). by erewrite Hstep by done.
  - exists 2%nat. eexists. rewrite Hfirst. erewrite Hstep by (cbn; by rewrite Hb, Hm). erewrite Hstep by done.
    split; [done|]. cbn [stage at_stage listening]. rewrite hand_over_open; [done| |done].
    eapply (event_sound _ (Main fs (clock 1%nat) WouldBlock)); [exact Hs1|]. cbn. by rewrite Hb, Hm.
Qed.
End Listen.
