(* ===== verification/CommandLine.v ===== *)
(** * The command line (src/main.rs)

    The commands, the options of each, and the configuration a server starts
    with: the defaults, what the rule file says, and what the command line says
    over it.  Arguments are a list without the program's name. *)

From S2P Require Import Prelude RustStd Config ConfigSet Text Paths Fs Rules RuleFile ConfigCache.

Definition set_dev_mode (v : bool) (c : ServerConfig) : ServerConfig :=
  mkServerConfig (host c) (port c) (root_dir c) (config_file c) (workers c) v
    (max_request_size c) (max_header_size c) (max_headers c) (max_header_line c)
    (max_uri_length c) (read_timeout c) (write_timeout c) (keep_alive_timeout c)
    (max_connections c) (max_requests_per_connection c) (deny_hidden_files c) (http2_enabled c)
    (http2_max_concurrent_streams c) (http2_max_frame_size c) (http2_max_header_block_size c)
    (http2_initial_window_size c) (tls_enabled c) (tls_certificate c) (tls_private_key c)
    (vhosts c) (proxy_routes c) (fastcgi_routes c) (front_controller c) (log_format c)
    (access_log c) (error_log c) (rate_limit_per_second c) (rate_limit_burst c)
    (max_connections_per_ip c) (security_x_content_type_options c) (security_referrer_policy c)
    (security_x_frame_options c) (security_content_security_policy c) (compression_enabled c)
    (compression_level c) (compression_min_size c) (compression_mime_types c)
    (upstream_health_interval c) (upstream_health_timeout c) (upstream_health_failures c)
    (upstream_health_recovery c).

(** ** Commands *)

Inductive Command : Type :=
| Version
| ConfigTest (args : list bytes)
| ConfigShow (args : list bytes)
| ConfigPath (args : list bytes)
| ConfigReload (args : list bytes)
| ConfigUsage
| Doctor (args : list bytes)
| RulesShow (directory : option bytes)
| Serve (args : list bytes)
| Unknown (command : bytes).

Definition arg_is (text : bytes) (arg : option bytes) : bool :=
  match arg with Some a => bytes_eqb a text | None => false end.

Definition command_of (args : list bytes) : Command :=
  let first := args !! O in
  let second := args !! 1%nat in
  if arg_is (str "version") first then Version
  else if arg_is (str "config") first then
    if arg_is (str "test") second then ConfigTest (drop 2 args)
    else if arg_is (str "show") second then ConfigShow (drop 2 args)
    else if arg_is (str "path") second then ConfigPath (drop 2 args)
    else if arg_is (str "reload") second then ConfigReload (drop 2 args)
    else ConfigUsage
  else if arg_is (str "doctor") first || arg_is (str "health") first then Doctor (drop 1 args)
  else if arg_is (str "rules") first && arg_is (str "show") second then RulesShow (args !! 2%nat)
  else if arg_is (str "serve") first then Serve (drop 1 args)
  else match first with
       | Some command => if starts_with command (str "-") then Serve args else Unknown command
       | None => Serve args
       end.

(** ** The options of the server *)

Record Cli : Type := mkCli {
  cli_host : option bytes;
  cli_port : option Z;
  cli_root : option bytes;
  cli_config : option bytes;
  cli_workers : option Z;
  cli_max_connections : option Z;
  cli_max_request_size : option Z;
  cli_dev : bool;
  cli_pid_file : bytes;
}.

Definition cli_default : Cli := mkCli None None None None None None None false (str "/run/veysrs/veysrs.pid").

(** A number that does not parse leaves what was given before. *)
Definition or_before {A} (parsed before : option A) : option A := match parsed with Some a => Some a | None => before end.

(** An option with its value; [None] for a word that takes none. *)
Definition valued_option (c : Cli) (name value : bytes) : option Cli :=
  let '(mkCli h p r f w mc sz d pid) := c in
  if bytes_eqb name (str "--host") then Some (mkCli (Some value) p r f w mc sz d pid)
  else if bytes_eqb name (str "--port") then Some (mkCli h (or_before (parse_u16 value) p) r f w mc sz d pid)
  else if bytes_eqb name (str "--root") then Some (mkCli h p (Some value) f w mc sz d pid)
  else if bytes_eqb name (str "--config") then Some (mkCli h p r (Some value) w mc sz d pid)
  else if bytes_eqb name (str "--workers") then Some (mkCli h p r f (or_before (parse_usize value) w) mc sz d pid)
  else if bytes_eqb name (str "--max-connections") then Some (mkCli h p r f w (or_before (parse_usize value) mc) sz d pid)
  else if bytes_eqb name (str "--max-request-size") then Some (mkCli h p r f w mc (or_before (parse_usize value) sz) d pid)
  else if bytes_eqb name (str "--pid-file") then Some (mkCli h p r f w mc sz d value)
  else None.

Definition single_option (c : Cli) (name : bytes) : Cli :=
  if bytes_eqb name (str "--dev")
  then mkCli (cli_host c) (cli_port c) (cli_root c) (cli_config c) (cli_workers c) (cli_max_connections c)
         (cli_max_request_size c) true (cli_pid_file c)
  else c.

(** The words in turn; one that is no option is passed over. *)
Fixpoint parse_cli (args : list bytes) (c : Cli) : Cli :=
  match args with
  | [] => c
  | name :: rest =>
      match rest with
      | value :: more =>
          match valued_option c name value with
          | Some c => parse_cli more c
          | None => parse_cli rest (single_option c name)
          end
      | [] => single_option c name
      end
  end.

Section Files.
Context `{UnicodeCase} {Fd : Type}.
Implicit Types (fs : FileSystem Fd).

Definition path_exists fs (path : bytes) : bool := match path_metadata fs path with Some _ => true | None => false end.
Definition path_is_dir fs (path : bytes) : bool := match path_metadata fs path with Some m => meta_is_dir m | None => false end.
Definition path_is_file fs (path : bytes) : bool := match path_metadata fs path with Some m => negb (meta_is_dir m) | None => false end.

(** The configuration of a file; [None] is a panic, an error the number of the
    file's errors. *)
Definition file_config fs (config : ServerConfig) : option (result ServerConfig Z) :=
  let config_path := config_file config in
  if negb (path_exists fs config_path) then Some (Ok config) else
  match parse_veysrule_file config_path (read_string fs config_path) true with
  | None => None
  | Some (_, _, _ :: _ as errors) => Some (Err (len errors))
  | Some (parsed, _, []) => Some (Ok (set_config_file config_path parsed))
  end.

(** The command line over the file. *)
Definition put_option {A} (set : A -> ServerConfig -> ServerConfig) (value : option A) (config : ServerConfig) : ServerConfig :=
  match value with Some v => set v config | None => config end.

Definition apply_cli (c : Cli) (config : ServerConfig) : ServerConfig :=
  let config := put_option set_host (cli_host c) config in
  let config := put_option set_port (cli_port c) config in
  let config := put_option set_root_dir (cli_root c) config in
  let config := put_option set_workers (cli_workers c) config in
  let config := put_option set_max_connections (cli_max_connections c) config in
  let config := put_option set_max_request_size (cli_max_request_size c) config in
  set_dev_mode (cli_dev c) config.

Definition start_config fs (c : Cli) : option (result ServerConfig Z) :=
  match file_config fs (put_option set_config_file (cli_config c) server_config_default) with
  | None => None
  | Some (Err n) => Some (Err n)
  | Some (Ok config) => Some (Ok (apply_cli c config))
  end.

(** [run_server], up to [listen]: the configuration, whether the root is created
    and the file for the process's number. *)
Inductive ServerRun : Type :=
| HelpPrinted
| VersionPrinted
| ConfigErrors (count : Z)
| Started (config : ServerConfig) (create_root : bool) (pid_file : bytes).

Definition run_server fs (args : list bytes) : option ServerRun :=
  if existsb (fun a => bytes_eqb a (str "--help")) args || existsb (fun a => bytes_eqb a (str "-h")) args then Some HelpPrinted
  else if existsb (fun a => bytes_eqb a (str "--version")) args || existsb (fun a => bytes_eqb a (str "-v")) args then Some VersionPrinted
  else
    let c := parse_cli args cli_default in
    match start_config fs c with
    | None => None
    | Some (Err n) => Some (ConfigErrors n)
    | Some (Ok config) => Some (Started config (negb (path_exists fs (root_dir config))) (cli_pid_file c))
    end.

(** ** Diagnostics *)

Inductive OptionError : Type :=
| UnknownOption (name : bytes)
| BadNumber.

Record Diagnostic : Type := mkDiagnostic {
  diag_root : bytes;
  diag_config : bytes;
  diag_port : Z;
}.
Definition diagnostic_default : Diagnostic := mkDiagnostic (str "./public") (str "./.veysrule") 8080.

Fixpoint diagnostic_options (args : list bytes) (d : Diagnostic) : result Diagnostic OptionError :=
  match args with
  | [] => Ok d
  | name :: rest =>
      match rest with
      | value :: more =>
          if bytes_eqb name (str "--root") then diagnostic_options more (mkDiagnostic value (diag_config d) (diag_port d))
          else if bytes_eqb name (str "--config") then diagnostic_options more (mkDiagnostic (diag_root d) value (diag_port d))
          else if bytes_eqb name (str "--port") then
            let? port := ok_or (parse_u16 value) BadNumber in
            diagnostic_options more (mkDiagnostic (diag_root d) (diag_config d) port)
          else Err (UnknownOption name)
      | [] => Err (UnknownOption name)
      end
  end.

(** [run_config_test]'s options: [--pid-file] is read over. *)
Fixpoint config_test_options (args : list bytes) (root config : bytes) : result (bytes * bytes) OptionError :=
  match args with
  | [] => Ok (root, config)
  | name :: rest =>
      match rest with
      | value :: more =>
          if bytes_eqb name (str "--root") then config_test_options more value config
          else if bytes_eqb name (str "--config") then config_test_options more root value
          else if bytes_eqb name (str "--pid-file") then config_test_options more root config
          else Err (UnknownOption name)
      | [] => Err (UnknownOption name)
      end
  end.

Inductive CommandError : Type :=
| BadOption (e : OptionError)
| RuleErrors (count : Z)
| PidUnreadable | PidInvalid | SignalFailed
| DoctorFailed.

Definition option_error {A} (r : result A OptionError) : result A CommandError :=
  match r with Ok a => Ok a | Err e => Err (BadOption e) end.

Definition run_config_test (walk_fuel : nat) fs (args : list bytes) : option (result unit CommandError) :=
  match option_error (config_test_options args (str "./public") (str "./.veysrule")) with
  | Err e => Some (Err e)
  | Ok (root, config) =>
      match validate_veysrule_tree walk_fuel fs root (Some config) with
      | None => None
      | Some [] => Some (Ok tt)
      | Some (_ :: _ as errors) => Some (Err (RuleErrors (len errors)))
      end
  end.

Definition load_diagnostic_config fs (args : list bytes) : option (result ServerConfig CommandError) :=
  match option_error (diagnostic_options args diagnostic_default) with
  | Err e => Some (Err e)
  | Ok d =>
      match file_config fs (set_config_file (diag_config d) (set_root_dir (diag_root d) server_config_default)) with
      | None => None
      | Some (Ok config) => Some (Ok config)
      | Some (Err n) => Some (Err (RuleErrors n))
      end
  end.

Fixpoint config_path_option (args : list bytes) (config : bytes) : result bytes OptionError :=
  match args with
  | [] => Ok config
  | name :: rest =>
      match rest with
      | value :: more => if bytes_eqb name (str "--config") then config_path_option more value else Err (UnknownOption name)
      | [] => Err (UnknownOption name)
      end
  end.

(** ** Reloading a running server *)

Fixpoint pid_file_of (args : list bytes) (pid_file : bytes) : bytes :=
  match args with
  | [] => pid_file
  | name :: rest =>
      match rest with
      | value :: more => if bytes_eqb name (str "--pid-file") then pid_file_of more value else pid_file_of rest pid_file
      | [] => pid_file
      end
  end.

(** [str::parse::<i32>]. *)
Definition parse_i32 (text : bytes) : option Z :=
  match text with
  | 45 :: (_ :: _ as digits) =>
      match (if starts_with digits (str "+") then None else parse_usize digits) with
      | Some n => if n <=? 2147483648 then Some (- n) else None
      | None => None
      end
  | _ => match parse_usize text with
         | Some n => if n <=? 2147483647 then Some n else None
         | None => None
         end
  end.

(** [kill] says whether the signal could be sent. *)
Definition run_config_reload (walk_fuel : nat) fs (kill : Z -> bool) (args : list bytes) : option (result Z CommandError) :=
  match run_config_test walk_fuel fs args with
  | None => None
  | Some (Err e) => Some (Err e)
  | Some (Ok _) =>
      Some (let? text := ok_or (read_string fs (pid_file_of args (str "/run/veysrs/veysrs.pid"))) PidUnreadable in
            let? pid := ok_or (parse_i32 (trim text)) PidInvalid in
            if kill pid then Ok pid else Err SignalFailed)
  end.

(** ** The doctor *)

Definition tls_files_present fs (config : ServerConfig) : bool :=
  let present path := match path with Some p => path_is_file fs p | None => false end in
  negb (tls_enabled config) || (present (tls_certificate config) && present (tls_private_key config)).

Definition upstreams_named (config : ServerConfig) : bool :=
  forallb (fun route => negb (bytes_eqb (proxy_upstream route) [])) (proxy_routes config)
  && forallb (fun route => negb (bytes_eqb (fcgi_endpoint route) [])) (fastcgi_routes config).

(** The checks in their order, with their outcomes; a configuration that cannot
    be loaded passes the last two. *)
Definition doctor_checks (walk_fuel : nat) fs (port_available : Z -> bool) (args : list bytes)
  : option (result (list (bytes * bool)) CommandError) :=
  match option_error (diagnostic_options args diagnostic_default) with
  | Err e => Some (Err e)
  | Ok d =>
      match validate_veysrule_tree walk_fuel fs (diag_root d) (Some (diag_config d)), load_diagnostic_config fs args with
      | Some errors, Some loaded =>
          let config := match loaded with Ok config => Some config | Err _ => None end in
          let with_config f := match config with Some c => f c | None => true end in
          Some (Ok
            [(str "Configuration and VeyRule", match errors with [] => true | _ :: _ => false end);
             (str "Document root", path_is_dir fs (diag_root d));
             (str "Document root readable", match read_dir fs (diag_root d) with Some _ => true | None => false end);
             (str "Worker pool", match config with Some c => workers c >? 0 | None => false end);
             (str "Port availability", port_available (diag_port d));
             (str "systemd unit source", path_is_file fs (str "packaging/systemd/veysrs.service"));
             (str "TLS certificate and key", with_config (tls_files_present fs));
             (str "Configured upstreams", with_config upstreams_named)])
      | _, _ => None
      end
  end.

Definition run_doctor (walk_fuel : nat) fs (port_available : Z -> bool) (args : list bytes) : option (result unit CommandError) :=
  match doctor_checks walk_fuel fs port_available args with
  | None => None
  | Some (Err e) => Some (Err e)
  | Some (Ok checks) => Some (if forallb snd checks then Ok tt else Err DoctorFailed)
  end.

(** [run_rules_show]: the rules of a directory, or [None] within when there is no
    such directory. *)
Definition run_rules_show fs (directory : option bytes) : option (option DirectoryConfig) :=
  match directory with
  | None => Some None
  | Some directory =>
      match canonicalize fs directory with
      | None => Some None
      | Some directory =>
          match get_config_for_dir fs (Some (path_push directory (str ".veysrule"))) directory [] true
                  (new_with_error_log (str "stderr")) with
          | None => None
          | Some (_, effective) => Some (Some effective)
          end
      end
  end.
End Files.
