(* ===== verification/CommandProps.v ===== *)
(** * The command line and the reload, proved

    A reload of unchanged files gives the server the configuration it was
    started with, as far as the command line and the file do not contradict each
    other. *)

From S2P Require Import Prelude RustStd Config ConfigSet Text Paths Fs Rules RuleFile RuleProps ConfigCache Tls Accept AcceptProps CommandLine.

(** ** Overrides *)

(** Setting a field to what it is changes nothing, as does an put_option that is
    not given. *)
Lemma put_option_set {A} (set : A -> ServerConfig -> ServerConfig) (get : ServerConfig -> A) value config :
  set (get config) config = config -> put_option set value config = set (default (get config) value) config.
Proof. by destruct value. Qed.

(** A step of [preserve_bindings] whose value survives: the file leaves it alone
    or says the same. *)
Lemma preserve_step {A} (set : A -> ServerConfig -> ServerConfig) (get : ServerConfig -> A) (b : bool) v config :
  set (get config) config = config -> (b = false -> v = get config) -> (if b then set v config else config) = set v config.
Proof. intros Hs Hb. destruct b; [done|]. by rewrite Hb. Qed.

Section Reload.
Context `{UnicodeCase} {Fd Certificate PrivateKey SigningKey : Type}.
Context (pem_certs : bytes -> option (list Certificate)) (pem_key : bytes -> option (option PrivateKey))
  (any_supported_type : PrivateKey -> option SigningKey) (keys_match : list Certificate -> SigningKey -> bool).
Context (walk_fuel : nat) (fs : FileSystem Fd).

Abbreviation load_runtime_state := (load_runtime_state pem_certs pem_key any_supported_type keys_match walk_fuel).

(** An option that a reload does not lose: the file says the same or nothing
    (its default). *)
Definition survives {A} (given : option A) (file standard : A) : Prop := forall v, given = Some v -> v = file \/ file = standard.

Record survivable (c : Cli) (file : ServerConfig) : Prop := {
  sur_max_connections : survives (cli_max_connections c) (max_connections file) (max_connections server_config_default);
  sur_max_request_size : survives (cli_max_request_size c) (max_request_size file) (max_request_size server_config_default);
  sur_root : forall r, cli_root c = Some r ->
    r = root_dir file \/
    path_eqb (root_dir file) (root_dir server_config_default) = true /\ path_eqb r (root_dir server_config_default) = false;
}.

Lemma apply_cli_fields c file :
  let config := apply_cli c file in
  host config = default (host file) (cli_host c) /\ port config = default (port file) (cli_port c) /\
  root_dir config = default (root_dir file) (cli_root c) /\ workers config = default (workers file) (cli_workers c) /\
  max_connections config = default (max_connections file) (cli_max_connections c) /\
  max_request_size config = default (max_request_size file) (cli_max_request_size c) /\
  config_file config = config_file file.
Proof. destruct c as [[] [] [] ? [] [] [] ? ?]; by split_and!. Qed.

Lemma survives_number given file standard (config : Z) :
  survives given file standard -> config = default file given ->
  (file =? standard) && negb (config =? standard) = false -> config = file.
Proof.
  intros Hs ->. destruct given as [v|]; cbn [default]; [|done]. destruct (Hs v eq_refl) as [|Hf]; [done|].
  rewrite Hf, Z.eqb_refl. cbn [andb]. intros Hv%negb_false_iff%Z.eqb_eq. by rewrite Hv.
Qed.

Lemma preserve_apply c file :
  host file = host server_config_default -> workers file = workers server_config_default -> dev_mode file = false ->
  survives (cli_port c) (port file) (port server_config_default) ->
  survivable c file -> preserve_bindings (apply_cli c file) file = set_dev_mode false (apply_cli c file).
Proof.
  intros Hh Hw Hd Hp [Hm Hs Hr].
  destruct (apply_cli_fields c file) as (Eh & Ep & Er & Ew & Em & Es & _).
  unfold preserve_bindings. cbv zeta.
  rewrite Hh. assert (bytes_eqb (host server_config_default) (host server_config_default) = true) as -> by by apply bytes_eqb_eq.
  remember (apply_cli c file) as config eqn:Hconfig.
  rewrite (preserve_step set_port port); [|by destruct file|].
  2:{ cbn [port set_host]. by apply (survives_number _ _ _ _ Hp). }
  rewrite (preserve_step set_root_dir root_dir); [|by destruct file|].
  2:{ cbn [root_dir set_host set_port]. rewrite Er. destruct (cli_root c) as [r|]; [|done]. change (default (root_dir file) (Some r)) with r.
      destruct (Hr r eq_refl) as [|[-> ->]]; done. }
  rewrite (preserve_step set_workers workers); [|by destruct file|].
  2:{ cbn [workers set_host set_port set_root_dir]. rewrite Hw, Z.eqb_refl. cbn [andb].
      by intros Hx%negb_false_iff%Z.eqb_eq. }
  rewrite (preserve_step set_max_connections max_connections); [|by destruct file|].
  2:{ cbn [max_connections set_host set_port set_root_dir set_workers]. by apply (survives_number _ _ _ _ Hm). }
  rewrite (preserve_step set_max_request_size max_request_size); [|by destruct file|].
  2:{ cbn [max_request_size set_host set_port set_root_dir set_workers set_max_connections]. by apply (survives_number _ _ _ _ Hs). }
  rewrite Eh, Ep, Er, Ew, Em, Es, Hconfig. clear -Hd. unfold apply_cli. destruct file. cbn in Hd. subst.
  destruct c as [[] [] [] ? [] [] [] ? ?]; vm_compute; reflexivity.
Qed.

(** The file's part of a starting configuration. *)
Lemma start_config_ok c config :
  (forall path, path_exists fs path = false -> read_string fs path = None) ->
  start_config fs c = Some (Ok config) ->
  exists file d parsed, config = apply_cli c file /\
    file_config fs (put_option set_config_file (cli_config c) server_config_default) = Some (Ok file) /\
    file = set_config_file (config_file config) parsed /\
    parse_veysrule_file (config_file config) (read_string fs (config_file config)) true = Some (parsed, d, []).
Proof.
  intros Hfs. unfold start_config. destruct (file_config fs _) as [[file|n]|] eqn:Hf; [|done..]. intros [= <-].
  destruct (apply_cli_fields c file) as (_ & _ & _ & _ & _ & _ & ->). unfold file_config in Hf.
  set (base := put_option set_config_file (cli_config c) server_config_default) in *.
  destruct (path_exists fs (config_file base)) eqn:He; cbn [negb] in Hf.
  - destruct (parse_veysrule_file _ _ _) as [[[parsed d] [|e errors]]|] eqn:Hp; [|done..]. injection Hf as <-.
    exists (set_config_file (config_file base) parsed), d, parsed. split_and!; [done|done|done|exact Hp].
  - injection Hf as <-. exists base, directory_config_default, server_config_default. split_and!; [done|done| |].
    + unfold base. by destruct (cli_config c).
    + by rewrite (Hfs _ He).
Qed.

(** A reload of unchanged files gives back the configuration the
    server was started with: everything but the development mode, which is
    switched off, when the file leaves alone, or says itself, what the command
    line says of the root, the connections and the size of requests.  The bound
    port must be the one the file names, if it names one: else no reload
    succeeds. *)
Theorem reload_returns_start c config st :
  (forall path, path_exists fs path = false -> read_string fs path = None) ->
  start_config fs c = Some (Ok config) -> load_runtime_state fs config = Some (Ok st) ->
  exists file, file_config fs (put_option set_config_file (cli_config c) server_config_default) = Some (Ok file) /\
    config = apply_cli c file /\
    survives (cli_port c) (port file) (port server_config_default) /\
    (survivable c file -> runtime_config st = set_dev_mode false config).
Proof.
  intros Hfs Hstart Hload. destruct (start_config_ok _ _ Hfs Hstart) as (file & d & parsed & Hc & Hf & Hfile & Hparse).
  exists file. split; [done|]. split; [done|]. unfold Accept.load_runtime_state in Hload. rewrite Hparse in Hload. cbv zeta in Hload.
  rewrite <- Hfile in Hload. destruct (root_file_ok _ _ _ _ _ Hparse) as [_ (Hh & Hw & _ & Hd & _)].
  assert (Hhost : host file = host server_config_default) by by rewrite Hfile.
  assert (Hworkers : workers file = workers server_config_default) by by rewrite Hfile.
  assert (Hdev : dev_mode file = false) by by rewrite Hfile.
  destruct (preserve_fixed config file Hhost Hworkers) as (_ & _ & _ & _ & Hport & _).
  destruct (negb _ || negb (port _ =? port config)) eqn:Hb; [done|]. apply orb_false_iff in Hb as [_ Hb].
  apply negb_false_iff, Z.eqb_eq in Hb. rewrite Hport in Hb.
  assert (Hsur : survives (cli_port c) (port file) (port server_config_default)).
  { intros v Hv. destruct (Z.eqb_spec (port file) (port server_config_default)) as [|Hne]; [by right|left].
    destruct (apply_cli_fields c file) as (_ & Hp & _). rewrite <- Hc, Hv in Hp. cbn in Hp. congruence. }
  split; [exact Hsur|]. intros Hs. pose proof (preserve_apply c file Hhost Hworkers Hdev Hsur Hs) as Hpre. rewrite <- Hc in Hpre.
  rewrite Hpre in Hload. destruct (validate_veysrule_tree _ _ _ _) as [[|e errors]|]; [|done..].
  apply (inj Some), rbind_ok in Hload as (tls & _ & [= <-]). done.
Qed.
End Reload.
