(* ===== verification/CommandText.v ===== *)
(** * What the commands print (src/main.rs)

    The program as its user sees it: for a command line, the text on standard
    output and how the program ends.  Serving is a parameter, as is the [Debug]
    text of the rules of a directory, whose maps have no fixed order.  The
    messages on standard error are the errors. *)

From S2P Require Import Prelude RustStd Config ConfigSet Text Paths Fs Conditional Http Rules RuleFile ConfigCache CommandLine.

(** ** Texts *)

(** [println!]. *)
Definition line (text : string) : bytes := str text ++ [10].
Definition println (text : bytes) : bytes := text ++ [10].

Definition VERSION : bytes := str "0.6.1".
Definition version_text : bytes := println (str "veysrs version " ++ VERSION).

Definition help_text : bytes :=
   line "" ++
   line "veysrs - Lightweight HTTP/1.1 & HTTP/2 Web Server in Rust (v0.6.1)" ++
   line "" ++
   line "USAGE:" ++
   line "    veysrs serve [OPTIONS]" ++
   line "    veysrs version" ++
   line "    veysrs doctor [--root <DIR>] [--config <FILE>] [--port <PORT>]" ++
   line "    veysrs health [--root <DIR>] [--config <FILE>] [--port <PORT>]" ++
   line "    veysrs config test [--root <DIR>] [--config <FILE>]" ++
   line "    veysrs config show [--root <DIR>] [--config <FILE>]" ++
   line "    veysrs config path [--config <FILE>]" ++
   line "    veysrs config reload [--root <DIR>] [--config <FILE>]" ++
   line "    veysrs rules show <DIRECTORY>" ++
   line "    veysrs [OPTIONS]                (compatibility alias for 'serve')" ++
   line "" ++
   line "OPTIONS:" ++
   line "    --host <HOST>                  Host IP address to bind (default: 127.0.0.1)" ++
   line "    --port <PORT>                  Port to listen on (default: 8080)" ++
   line "    --root <DIR>                   Root directory for static files (default: ./public)" ++
   line "    --config <FILE>                Path to root .veysrule file (default: ./.veysrule)" ++
   line "    --workers <COUNT>              Number of worker threads (default: 4)" ++
   line "    --max-connections <COUNT>      Maximum concurrent TCP connections (default: 1024)" ++
   line "    --max-request-size <BYTES>     Maximum HTTP request size in bytes (default: 65536)" ++
   line "    --dev                          Enable development mode (hot reload config)" ++
   line "    --pid-file <FILE>              Runtime PID file for config reload (default: /run/veysrs/veysrs.pid)" ++
   line "    --help, -h                     Print help information" ++
   line "    --version, -v                  Print version information" ++
   line "".

Definition bool_text (b : bool) : bytes := if b then str "true" else str "false".

Definition config_show_text (config : ServerConfig) : bytes :=
  line "VeySRS configuration" ++ line "====================" ++
  println (str "Host: " ++ host config) ++
  println (str "Port: " ++ to_string (port config)) ++
  println (str "Root: " ++ root_dir config) ++
  println (str "Workers: " ++ to_string (workers config)) ++
  println (str "Max connections: " ++ to_string (max_connections config)) ++
  println (str "HTTP/2: " ++ bool_text (http2_enabled config)) ++
  println (str "Config: " ++ config_file config) ++
  concat (map (fun vhost => println (str "VHost: " ++ vhost_host vhost ++ str " -> " ++ vhost_root_dir vhost)) (vhosts config)).

Definition check_text (check : bytes * bool) : bytes :=
  println ((if snd check then str "[OK] " else str "[FAIL] ") ++ fst check).

Definition checks_passed (checks : list (bytes * bool)) : list (bytes * bool) := List.filter snd checks.

Definition doctor_text (checks : list (bytes * bool)) : bytes :=
  concat (map check_text checks) ++
  println (str "Result: " ++ to_string (len (checks_passed checks)) ++ str "/" ++ to_string (len checks) ++ str " checks passed").

(** [Display] of an [i32]. *)
Definition signed_text (n : Z) : bytes := if n <? 0 then str "-" ++ to_string (- n) else to_string n.

(** ** The program *)

(** The errors [main] ends with. *)
Inductive MainError : Type :=
| CommandFailed (e : CommandError)
| ConfigUsageError
| UnknownCommand (command : bytes)
| NoDirectory
| ServeFailed (text : bytes).

(** What a server does to its files, in order. *)
Inductive Deed : Type :=
| CreateDirs (path : bytes)
| WriteFile (path contents : bytes)
| RemoveFile (path : bytes)
| Listens (config : ServerConfig)
| LogsError (text : bytes).

Section Program.
Context `{UnicodeCase} {Fd : Type} (walk_fuel : nat) (fs : FileSystem Fd).
Context (kill : Z -> bool) (port_available : Z -> bool) (rules_text : DirectoryConfig -> bytes).
(** [Server::listen] on a configuration, the process's number and
    [Path::parent]. *)
Context (serve : ServerConfig -> result unit bytes) (process_id : Z) (path_parent : bytes -> option bytes).

(** [run_server] from the configuration on: the number of the process is in its
    file while the server listens. *)
Definition serve_deeds (config : ServerConfig) (create_root : bool) (pid_file : bytes) : list Deed * result unit MainError :=
  let before :=
    (if create_root then [CreateDirs (root_dir config)] else []) ++
    (match path_parent pid_file with Some parent => [CreateDirs parent] | None => [] end) ++
    [WriteFile pid_file (to_string process_id); Listens config; RemoveFile pid_file] in
  match serve config with
  | Ok _ => (before, Ok tt)
  | Err text => (before ++ [LogsError text], Err (ServeFailed text))
  end.

Definition serve_command (args : list bytes) : option (bytes * list Deed * result unit MainError) :=
  match run_server fs args with
  | None => None
  | Some HelpPrinted => Some (help_text, [], Ok tt)
  | Some VersionPrinted => Some (version_text, [], Ok tt)
  | Some (ConfigErrors n) => Some ([], [], Err (CommandFailed (RuleErrors n)))
  | Some (Started config create_root pid_file) =>
      let '(deeds, r) := serve_deeds config create_root pid_file in Some ([], deeds, r)
  end.

(** A command that prints, and does nothing else. *)
Definition prints {A} (r : option (result A CommandError)) (text : A -> bytes) : option (bytes * list Deed * result unit MainError) :=
  match r with
  | None => None
  | Some (Ok a) => Some (text a, [], Ok tt)
  | Some (Err e) => Some ([], [], Err (CommandFailed e))
  end.

Definition doctor_command (args : list bytes) : option (bytes * list Deed * result unit MainError) :=
  match doctor_checks walk_fuel fs port_available args with
  | None => None
  | Some (Err e) => Some ([], [], Err (CommandFailed e))
  | Some (Ok checks) =>
      Some (doctor_text checks, [], if len (checks_passed checks) =? len checks then Ok tt else Err (CommandFailed DoctorFailed))
  end.

Definition rules_show_command (directory : option bytes) : option (bytes * list Deed * result unit MainError) :=
  match directory with
  | None => Some ([], [], Err NoDirectory)
  | Some path =>
      match canonicalize fs path, run_rules_show fs directory with
      | Some found, Some (Some effective) =>
          Some (line "VeyRule" ++ line "=======" ++ println (str "Directory: " ++ found) ++ rules_text effective, [], Ok tt)
      | _, None => None
      | _, _ => Some ([], [], Err NoDirectory)
      end
  end.

(** [main]: the text, what is done to files, and the end; [None] is a panic. *)
Definition main_program (args : list bytes) : option (bytes * list Deed * result unit MainError) :=
  match command_of args with
  | Version => Some (version_text, [], Ok tt)
  | ConfigTest args => prints (run_config_test walk_fuel fs args) (fun _ => line "VeyRule configuration is valid")
  | ConfigShow args => prints (load_diagnostic_config fs args) config_show_text
  | ConfigPath args => prints (Some (option_error (config_path_option args (str "./.veysrule")))) println
  | ConfigReload args =>
      match run_config_test walk_fuel fs args with
      | Some (Ok _) =>
          match run_config_reload walk_fuel fs kill args with
          | Some (Ok pid) =>
              Some (line "VeyRule configuration is valid" ++ println (str "configuration reload requested for pid " ++ signed_text pid), [], Ok tt)
          | Some (Err e) => Some (line "VeyRule configuration is valid", [], Err (CommandFailed e))
          | None => None
          end
      | r => prints r (fun _ => [])
      end
  | ConfigUsage => Some ([], [], Err ConfigUsageError)
  | Doctor args => doctor_command args
  | RulesShow directory => rules_show_command directory
  | Serve args => serve_command args
  | Unknown command => Some ([], [], Err (UnknownCommand command))
  end.

(** ** The process's number *)

Lemma parse_i32_unsigned c l : c <> 45 ->
  parse_i32 (c :: l) = match parse_usize (c :: l) with Some n => if n <=? 2147483647 then Some n else None | None => None end.
Proof.
  intros Hc. unfold parse_i32. generalize (match parse_usize (c :: l) with Some n => if n <=? 2147483647 then Some n else None | None => None end).
  intros o. destruct c as [|c|c]; [done| |done]. do 6 (destruct c as [c|c|]; try done).
Qed.

Lemma parse_i32_to_string n : 0 <= n <= 2147483647 -> parse_i32 (trim (to_string n)) = Some n.
Proof.
  intros Hn. destruct (to_string_digits n) as [Hd Hne]. rewrite digits_trim_ws by done.
  assert (Hp : parse_usize (to_string n) = Some n) by (apply parse_usize_to_string; unfold USIZE_MAX, U64_MAX; lia).
  destruct (to_string n) as [|c l]; [done|]. apply Forall_inv in Hd. unfold is_ascii_digit in Hd. zbool.
  rewrite parse_i32_unsigned by lia. rewrite Hp. by replace (n <=? 2147483647) with true by lia.
Qed.

(** [config reload] signals the server that is running: while it listens its
    number is in the file, and read back from there. *)
Lemma reload_signals_server config create_root pid_file args :
  0 <= process_id <= 2147483647 ->
  (exists before after, fst (serve_deeds config create_root pid_file) =
     before ++ [WriteFile pid_file (to_string process_id); Listens config; RemoveFile pid_file] ++ after) /\
  (run_config_test walk_fuel fs args = Some (Ok tt) ->
   read_string fs (pid_file_of args (str "/run/veysrs/veysrs.pid")) = Some (to_string process_id) ->
   run_config_reload walk_fuel fs kill args = Some (if kill process_id then Ok process_id else Err SignalFailed)).
Proof.
  intros Hid. split.
  - unfold serve_deeds. set (first := if create_root then _ else _). set (second := match path_parent pid_file with Some _ => _ | None => _ end).
    exists (first ++ second). destruct (serve config) as [|text]; [exists []|exists [LogsError text]]; cbn [fst]; by rewrite <- !app_assoc.
  - intros Ht Hr. unfold run_config_reload. rewrite Ht, Hr. cbn [ok_or rbind]. by rewrite parse_i32_to_string.
Qed.

(** ** What the texts say *)

Lemma filter_all {A} (f : A -> bool) l : (length (List.filter f l) =? length l)%nat = forallb f l.
Proof.
  induction l as [|x l IH]; [done|]. cbn [List.filter forallb]. destruct (f x); cbn [length andb]; [exact IH|].
  pose proof (List.filter_length_le f l). apply Nat.eqb_neq. lia.
Qed.

(** The doctor ends well exactly when all its lines are [OK]. *)
Lemma doctor_command_ends args : match doctor_command args with
  | Some (text, deeds, r) => deeds = [] /\
      exists r', run_doctor walk_fuel fs port_available args = Some r' /\
        r = match r' with Ok _ => Ok tt | Err e => Err (CommandFailed e) end /\
        (r = Ok tt -> exists checks, text = doctor_text checks /\ Forall (fun c => snd c = true) checks)
  | None => run_doctor walk_fuel fs port_available args = None
  end.
Proof.
  unfold doctor_command, run_doctor. destruct (doctor_checks _ _ _ _) as [[checks|e]|]; [|split; [done|]; by eexists|done].
  split; [done|]. assert (E : (len (checks_passed checks) =? len checks) = forallb snd checks).
  { rewrite <- filter_all. unfold len, checks_passed. destruct (Nat.eqb_spec (length (List.filter snd checks)) (length checks)); lia. }
  rewrite E. eexists. split; [done|]. destruct (forallb snd checks) eqn:Hall; (split; [done|]); [|done].
  intros _. exists checks. split; [done|]. apply Forall_forall. intros c Hc. rewrite forallb_forall in Hall.
  by apply Hall, list_elem_of_In.
Qed.
End Program.
