(* ===== verification/ServerEffects.v ===== *)
(** * The server at work

    A server over a small document tree, on which the theorems about
    connections, reloads and the command line are run, and where it departs from
    what it means to do. *)

From S2P Require Import Prelude RustStd Io Config ConfigSet Http Frame Hpack Flow Stream H2Headers Scheduler Text Limits Fs Rules RuleFile RuleProps ConfigCache Metrics Handler HandlerProps HandlerEffects Connection ConnReach FastCgi FastCgiRelay Upstreams Proxy ProxyRelay WebSocket Listener ListenerProps ProxyEntries Server ServerProps ServerSafety ServerEnds Documents Tls Accept AcceptProps CommandLine CommandProps.

Section Examples.
#[local] Existing Instance ascii_case.

(** A document and no rule files. *)
Definition shop_fs : FileSystem bytes := list_fs [(str "r/a.txt", str "hello")].
Definition shop_config : ServerConfig := set_root_dir (str "r") server_config_default.
Definition visitor : SocketAddr := mkSocketAddr [10; 0; 0; 1] 4000.

Definition shop : Services :=
  server shop_fs 10 100 unit (fun _ => tt) pair (fun _ => []) (fun r _ => r) (fun _ _ => None) (fun _ => []) (fun l => l) (fun l => l) Some
    (fun _ => str "10.0.0.1").

Definition nothing_outside (_ : nat) : Outside := mkOutside noon None (mkTunnelEnv [] [] (fun _ => 0)) (fun _ => 0) 0%nat true.
Definition shop_process : Process  :=
  mkProcess  (RequestHandler.mkState ∅ (new_with_error_log (str "stderr")) metrics_zero [])
    (mkUpstreams ∅ None ∅ 0 (fun _ => 0) []) [] nothing_outside false.
Definition visit (r : Reader) : Serving (@Shared shop) := mkServing _ (mkIo [] [] r) shop_process.

Definition shop_serves (config : ServerConfig) (r : Reader) : Serving (@Shared shop) * Served :=
  serve_stream (services := shop) (fun r _ => r) (fun b o => Some [RData (drop (Z.to_nat o) b)]) (fun _ => []) config visitor false
    (fun _ => 0) (visit r).

Definition get_a : bytes := str "GET /a.txt HTTP/1.1" ++ CRLF ++ str "Host: x" ++ CRLF2.
Definition bye_a : bytes := str "HEAD /a.txt HTTP/1.1" ++ CRLF ++ str "Host: x" ++ CRLF ++ str "Connection: close" ++ CRLF2.

(** Two requests in two pieces that meet in the middle of the second. *)
Definition two_requests : Reader := [RData (get_a ++ take 9 bye_a); RData (drop 9 bye_a)].

Lemma no_vhost config req : vhosts config = [] -> RequestHandler.effective_config config req = config.
Proof.
  intros Hv. unfold RequestHandler.effective_config, select_vhost. rewrite Hv. destruct (get_header req _) as [h|]; [|done].
  by destruct (normalize_host h).
Qed.

Lemma shop_unrouted : unrouted (services := shop) shop_config.
Proof.
  intros req p. cbn -[RequestHandler.effective_config select_route]. rewrite no_vhost by done. split; [done|].
  unfold FastCgi.route_matches_request, select_route. by destruct (negb _).
Qed.

(** ** Witnesses *)


Example two_requests_answered :
  reader_bytes two_requests = get_a ++ bye_a /\ snd (shop_serves shop_config two_requests) = Finished /\
  starts_with (wire (stream (fst (shop_serves shop_config two_requests)))) (str "HTTP/1.1 200 OK") = true.
Proof. split; [|split]; vm_compute; reflexivity. Qed.

Lemma serving_ends_witness : snd (shop_serves shop_config [RData get_a; RWouldBlock; RFail]) <> OutOfFuel.
Proof.
  destruct (serving_ends (services := shop) (fun r _ => r) (fun b o => Some [RData (drop (Z.to_nat o) b)]) (fun _ => []) shop_config
    visitor false (fun _ => 0) (visit [RData get_a; RWouldBlock; RFail])) as [H _]; [vm_compute; discriminate|exact H].
Defined.

(** A route for everything below /api, to an upstream that says a line. *)
Definition api_shop (upstream : bytes) : Services :=
  server shop_fs 10 100 unit (fun _ => tt) pair (fun _ => []) (fun r _ => r)
    (fun _ _ => Some [Some (mkIo [] [] [RData upstream])]) (fun _ => []) (fun l => l) (fun l => l) Some (fun _ => str "10.0.0.1").
Definition api_config : ServerConfig := set_proxy_routes [mkProxyRoute (str "*") (str "/api") (str "http://one")] shop_config.
Definition api_serves (upstream : bytes) (r : Reader) : Serving (@Shared shop) * Served :=
  serve_stream (services := api_shop upstream) (fun r _ => r) (fun b o => Some [RData (drop (Z.to_nat o) b)]) (fun _ => []) api_config visitor
    false (fun _ => 0) (visit r).

Lemma streamed_request_taken_witness :
  serve_streaming (services := api_shop []) (fun r _ => r) (fun _ _ => None) api_config visitor false get_a (visit []) = (visit [], Some get_a).
Proof.
  destruct (serve_streaming (services := api_shop []) (fun r _ => r) (fun _ _ => None) api_config visitor false get_a (visit [])) as [w [buf|]] eqn:E.
  - apply (streamed_request_taken ) in E as [-> ->]. reflexivity.
  - exfalso. apply (f_equal snd) in E. revert E. vm_compute. discriminate.
Defined.

(** ** A document *)

Definition opens (b : bytes) (o : Z) : option Reader := Some (match drop (Z.to_nat o) b with [] => [] | d => [RData d] end).

Lemma opens_hands_out content : hands_out opens content.
Proof.
  intros offset _. unfold opens. destruct (drop (Z.to_nat offset) content) as [|b l] eqn:E; [exists []; split_and!; done || constructor|].
  exists [RData (b :: l)]. split_and!; [done|repeat constructor; by eexists _, _|cbn; by rewrite app_nil_r].
Qed.

Definition asked_a : HttpRequest :=
  match parse_request get_a shop_config with (_, Ok (Some req)) => req | _ => mkHttpRequest Get [] [] [] [] end.
Definition found_a : option (ConfigManager * DirectoryConfig) :=
  get_config_for_dir shop_fs (Some (config_file shop_config)) (root_dir shop_config) (str "a.txt") (dev_mode shop_config)
    (RequestHandler.manager (handler shop_process)).
Definition rules_a : DirectoryConfig := match found_a with Some (_, d) => d | None => directory_config_default end.

Lemma rules_found : exists m, found_a = Some (m, rules_a).
Proof. unfold rules_a. destruct found_a as [[m d]|] eqn:E; [by exists m|]. exfalso. revert E. vm_compute. discriminate. Qed.

Definition meta_a : Metadata := match path_metadata shop_fs (str "r/a.txt") with Some m => m | None => mkMetadata false 0 None end.

(** The same, on a stream of an HTTP/2 connection. *)
Definition stream_a : Stream :=
  mkStream 1 HalfClosedRemote (window_new 65535) (window_new 65535)
    [(str ":method", str "GET"); (str ":scheme", str "https"); (str ":path", str "/a.txt"); (str ":authority", str "x")] [] true true.
Definition h2_a : World (B := server_backend shop_fs 10 (fun r _ => r) (fun _ _ => None) (fun _ => str "10.0.0.1") shop_config) :=
  mkWorld (B := server_backend shop_fs 10 (fun r _ => r) (fun _ _ => None) (fun _ => str "10.0.0.1") shop_config)
    (conn_new shop_config) (mkIo [] [] []) shop_process.

Lemma shop_grants req : req = asked_a \/ req = h2_request stream_a ->
  grants shop_fs shop_config visitor req shop_process [str "a.txt"] rules_a meta_a (str "hello").
Proof.
  intros Hreq. split.
  - intros ip [= <-]. vm_compute. reflexivity.
  - rewrite no_vhost by reflexivity. split.
    + destruct Hreq as [-> | ->]; vm_compute; reflexivity.
    + left. destruct Hreq as [-> | ->]; vm_compute; reflexivity.
    + destruct rules_found as [m Hm]. exists (str "/a.txt"), m. split; [destruct Hreq as [-> | ->]; vm_compute; reflexivity|].
      split; [apply (bool_decide_unpack _); vm_compute; exact I|]. split; [exact Hm|vm_compute; exact I].
    + split; [intros ms Hm; exfalso; revert Hm; vm_compute; discriminate|intros _; repeat constructor|].
      intros octets _. assert (deny_ips rules_a = []) as -> by (vm_compute; reflexivity).
      assert (deny_networks rules_a = []) as -> by (vm_compute; reflexivity). assert (allow_networks rules_a = []) as -> by (vm_compute; reflexivity).
      split; [by intros ?%elem_of_nil|split; [constructor|by left]].
    + intros s Hs. exfalso. revert Hs. vm_compute. discriminate.
    + eexists. split; [vm_compute; reflexivity|]. split; [|split; vm_compute; reflexivity].
      eexists _, _. split; [|split; [|split; [|split]]]; vm_compute; reflexivity.
Qed.

(** Either way the client is owed the whole file, and not in an encoder's form. *)
Lemma owed_a gz coded req resp body : req = asked_a \/ req = h2_request stream_a ->
  received gz coded shop_config req rules_a (str "hello") (owed req meta_a (len (str "hello"))) resp body -> body = str "hello".
Proof.
  intros Hreq. assert (owed req meta_a (len (str "hello")) = Whole) as -> by (destruct Hreq as [-> | ->]; vm_compute; reflexivity).
  intros [_ [[-> _]|(_ & Hz & _)]]; [done|]. exfalso. destruct Hreq as [-> | ->]; revert Hz; vm_compute; discriminate.
Qed.


(** ** HTTP/2 *)

(** A client that asks for one path after its settings. *)
Definition h2_asks (settings : list (SettingId * Z)) (path : bytes) : bytes :=
  CLIENT_PREFACE ++ frame_encode (mkFrame (mkFrameHeader (6 * len settings) FT_Settings 0 0) (Settings settings false))
  ++ frame_encode (headers_frame 1 (encode_headers
       [(str ":method", str "GET"); (str ":scheme", str "https"); (str ":path", path); (str ":authority", str "x")]) true true).

(** The last bytes the client gets. *)
Definition gets_last (served : Serving (@Shared shop) * Served) (n : nat) : bytes :=
  let w := wire (stream (fst served)) in drop (length w - n) w.

(** A file, and an upstream's response, with the frame their bytes come in. *)
Example file_over_h2 :
  let x := shop_serves shop_config [RData (take 10 (h2_asks [] (str "/a.txt"))); RData (drop 10 (h2_asks [] (str "/a.txt")))] in
  snd x = Finished /\ gets_last x 14 = frame_encode (data_frame 1 (str "hello") true).
Proof. split; vm_compute; reflexivity. Qed.

Definition upstream_says : bytes :=
  str "HTTP/1.1 200 OK" ++ CRLF ++ str "Content-Length: 4" ++ CRLF2 ++ str "data".

Example upstream_over_h2 :
  let x := api_serves upstream_says [RData (h2_asks [] (str "/api/b"))] in
  snd x = Finished /\ gets_last x 13 = frame_encode (data_frame 1 (str "data") true) /\
  dialled (upstreams (process (fst x))) = [str "one"].
Proof. split_and!; vm_compute; reflexivity. Qed.

Lemma connection_behaved_witness :
  exists l, dialled (upstreams (process (fst (api_serves upstream_says [RData (h2_asks [] (str "/api/b"))])))) = l /\
    l <> [] /\ Forall (configured api_config) l.
Proof.
  destruct (connection_behaved shop_fs 10 100 unit (fun _ => tt) pair (fun _ => []) (fun r _ => r)
    (fun _ _ => Some [Some (mkIo [] [] [RData upstream_says])]) (fun _ => []) (fun l => l) (fun l => l) Some (fun _ => str "10.0.0.1")
    (fun b o => Some [RData (drop (Z.to_nat o) b)]) api_config visitor false (fun _ => 0) (visit [RData (h2_asks [] (str "/api/b"))]))
    as [Hd _].
  destruct Hd as (l & El & Hl); [cbn; lia|]. exists l. change (dialled (upstreams (process (visit _)))) with (@nil bytes) in El.
  split; [exact El|]. split; [|exact Hl]. intros ->. apply (f_equal (@length bytes)) in El. revert El.
  vm_compute. discriminate.
Defined.

(** A client that takes two bytes: the rest of the file waits. *)
Lemma served_files_admitted_witness :
  exists st (p : Process) content, Stream.id st = 1 /\
    file_admitted shop_fs (RequestHandler.effective_config shop_config (h2_request st)) (h2_request st) (Some (ip visitor))
      (RequestHandler.manager (handler p)) content /\
    str "llo" `suffix_of` content.
Proof.
  destruct (served_files_admitted shop_fs 10 100 unit (fun _ => tt) pair (fun _ => []) (fun r _ => r) (fun _ _ => None) (fun _ => [])
    (fun l => l) (fun l => l) Some (fun _ => str "10.0.0.1") shop_config visitor) as (_ & _ & Hh).
  set (B := server_backend shop_fs 10 (fun r _ => r) (fun _ _ => None) (fun _ => str "10.0.0.1") shop_config) in Hh.
  set (w := mkWorld (B := B) (with_secure (conn_new shop_config) false) (mkIo [] [] []) shop_process).
  set (buf := h2_asks [(InitialWindowSize, 2)] (str "/a.txt")).
  destruct (Hh 100%nat buf false (mkIo [] [] []) shop_process (fst (handle_connection 100 buf (Some visitor) w))
    (snd (handle_connection 100 buf (Some visitor) w)) (mkPendingResponse 1 (PB_File [RData (str "llo")] 3)))
    as (resp & content & (st & Hid & p & _ & [_ Hf _]) & Hb & [[=]|(rest & [= <-] & Hs)]).
  - apply manager_new_ok.
  - apply surjective_pairing.
  - assert (E : pending_responses (conn (fst (handle_connection 100 buf (Some visitor) w))) =
      [mkPendingResponse 1 (PB_File [RData (str "llo")] 3)]) by (vm_compute; reflexivity). rewrite E. by left.
  - exists st, p, content. split; [exact Hid|]. split; [by apply Hf|exact Hs].
Defined.

Lemma every_connection_ends_witness :
  exists fuel (w' : Serving Process) r, r <> OutOfFuel /\ forall f, (fuel <= f)%nat ->
    serve_stream (services := fuelled shop_fs 10 unit (fun _ => tt) pair (fun _ => []) (fun r _ => r) (fun _ _ => None) (fun _ => [])
      (fun l => l) (fun l => l) Some (fun _ => str "10.0.0.1") f) (fun r _ => r) (fun _ _ => None) (fun _ => []) shop_config visitor false
      (fun _ => 0) (visit [RData (h2_asks [] (str "/a.txt"))]) = (w', r).
Proof.
  apply every_connection_ends; [vm_compute; discriminate..|]. constructor; [|constructor].
  apply (bool_decide_unpack _). vm_compute. exact I.
Defined.

(** Certificates that are their files' bytes. *)
Definition tls_fs : FileSystem bytes :=
  list_fs [(str "c", str "one"); (str "k", str "one"); (str "d", str "two"); (str "l", str "two")].
Definition pem (b : bytes) : option (list bytes) := Some [b].
Definition chooses (host : option bytes) : option (list bytes * bytes) :=
  match from_pem_with_vhosts pem (fun b => Some (Some b)) Some (fun c k => bool_decide (c = [k])) tls_fs (str "c") (str "k")
          [mkVhostConfig (str "b.example") (str "r") None (Some (str "d")) (Some (str "l"))] with
  | Ok acceptor => resolve acceptor host
  | Err _ => None
  end.

Lemma certificate_chosen_witness :
  exists k, chooses (Some (str "b.example")) = Some k /\ fst k <> [] /\ chooses None <> Some k.
Proof.
  unfold chooses.
  destruct (from_pem_with_vhosts pem (fun b => Some (Some b)) Some (fun c k => bool_decide (c = [k])) tls_fs (str "c") (str "k")
    [mkVhostConfig (str "b.example") (str "r") None (Some (str "d")) (Some (str "l"))]) as [acceptor|e] eqn:E.
  - destruct (certificate_chosen _ _ _ _ _ _ _ _ _ (Some (str "b.example")) E) as (_ & k & Hk & [Hne _] & _).
    exists k. split; [exact Hk|]. split; [exact Hne|]. vm_compute in E. injection E as <-. vm_compute in Hk |- *. congruence.
  - exfalso. revert E. vm_compute. discriminate.
Defined.

(** ** Starting, accepting and reloading *)

Definition listens := @start_listening ascii_case bytes bytes bytes bytes pem (fun b => Some (Some b)) Some (fun c k => bool_decide (c = [k])) 10.
Definition reloads := @reload ascii_case bytes bytes bytes bytes pem (fun b => Some (Some b)) Some (fun c k => bool_decide (c = [k])) 10.
Definition loads := @load_runtime_state ascii_case bytes bytes bytes bytes pem (fun b => Some (Some b)) Some (fun c k => bool_decide (c = [k])) 10.

(** A server over the tree whose rule file is [rules]. *)
Definition ruled_fs (rules : bytes) : FileSystem bytes := list_fs [(str "conf", rules); (str "r/a.txt", str "hello")].
Definition started (rules : bytes) (args : list bytes) : option (result ServerConfig Z) :=
  start_config (ruled_fs rules) (parse_cli (str "--config" :: str "conf" :: str "--root" :: str "r" :: args) cli_default).
Definition listening_with (rules : bytes) (args : list bytes) : option (@Listening bytes bytes) :=
  match started rules args with
  | Some (Ok config) => match listens (ruled_fs rules) config with Some (Ok s) => Some s | _ => None end
  | _ => None
  end.

Definition one_each : ServerConfig := set_max_connections_per_ip 1 shop_config.
Definition arrives (ip : bytes) (s : @Listening bytes bytes) : @Listening bytes bytes := fst (accept (fun _ => 0) ip true true s).

Example one_each_admitted :
  match listens shop_fs one_each with Some (Ok s) => running (arrives [1] (arrives [1] s)) = [[1]] | _ => False end.
Proof. vm_compute. reflexivity. Qed.


Definition seven_dev : list bytes := [str "--workers"; str "7"; str "--dev"].

Lemma seven_ok : server_ok (set_dev_mode true (set_workers 7 (set_root_dir (str "r") (set_config_file (str "conf") server_config_default)))).
Proof.
  pose proof server_default_ok as H0.
  assert (H1 : server_ok (set_config_file (str "conf") server_config_default)) by config_field. clear H0.
  assert (H2 : server_ok (set_root_dir (str "r") (set_config_file (str "conf") server_config_default))) by config_field. clear H1.
  assert (H3 : server_ok (set_workers 7 (set_root_dir (str "r") (set_config_file (str "conf") server_config_default)))) by config_field.
  clear H2. config_field.
Qed.

Lemma reload_checked_witness :
  exists s s', listening_with [] seven_dev = Some s /\ reloads (ruled_fs (str "MAX_HEADERS = 5")) s = Some s' /\
    workers (runtime_config (runtime s')) = workers (started_with s) /\ dev_mode (runtime_config (runtime s')) = false.
Proof.
  destruct (listening_with [] seven_dev) as [s|] eqn:E; [|exfalso; revert E; vm_compute; discriminate].
  destruct (reloads (ruled_fs (str "MAX_HEADERS = 5")) s) as [s'|] eqn:Er;
    [|exfalso; revert Er; vm_compute in E; injection E as <-; vm_compute; discriminate].
  exists s, s'. split; [reflexivity|]. split; [exact Er|].
  assert (Hs : started_with s = set_dev_mode true (set_workers 7 (set_root_dir (str "r") (set_config_file (str "conf") server_config_default)))).
  { clear Er. vm_compute in E. injection E as <-. vm_compute. reflexivity. }
  assert (Hok : server_ok (started_with s)) by (rewrite Hs; exact seven_ok).
  destruct (reload_checked _ _ _ _ _ _ _ _ Hok Er) as [_ [(e & He & _)|(file & d & Hp & Hl & _)]].
  - exfalso. revert He. rewrite Hs. clear. vm_compute. discriminate.
  - destruct Hl as (_ & _ & _ & Hworkers & _ & _ & _ & Hdev). split; [exact Hworkers|exact Hdev].
Defined.

Lemma list_fs_missing files path : path_exists (list_fs files) path = false -> read_string (list_fs files) path = None.
Proof.
  unfold path_exists, read_string, list_fs. cbn [path_metadata read_file]. unfold meta_of.
  destruct (is_directory files path); [done|]. by destruct (lookup_file files path).
Qed.

Lemma reload_returns_start_witness :
  exists config st, started (str "MAX_HEADERS = 5") seven_dev = Some (Ok config) /\
    loads (ruled_fs (str "MAX_HEADERS = 5")) config = Some (Ok st) /\ runtime_config st = set_dev_mode false config.
Proof.
  destruct (started (str "MAX_HEADERS = 5") seven_dev) as [[config|]|] eqn:E; [|exfalso; revert E; vm_compute; discriminate..].
  destruct (loads (ruled_fs (str "MAX_HEADERS = 5")) config) as [[st|]|] eqn:El;
    [|exfalso; revert El; vm_compute in E; injection E as <-; vm_compute; discriminate..].
  exists config, st. split; [reflexivity|]. split; [exact El|].
  destruct (reload_returns_start _ _ _ _ _ _ _ _ _ (list_fs_missing _) E El) as (file & Hf & _ & _ & H).
  apply H. clear -Hf. vm_compute in Hf. injection Hf as <-. split.
  - intros v [=].
  - intros v [=].
  - intros r [= <-]. right. split; reflexivity.
Defined.

(** ** Where the server departs from what it means to do *)

(** A port on the command line and another in the file: the server starts on the
    first, and no reload succeeds. *)
Example contradicted_port_never_reloads :
  match started (str "PORT = 8000") [str "--port"; str "9000"] with
  | Some (Ok config) => port config = 9000 /\ loads (ruled_fs (str "PORT = 8000")) config = Some (Err BindingChanged)
  | _ => False
  end.
Proof. vm_compute. auto. Qed.

(** A value of the file that is the default cannot take back one of the command
    line. *)
Example default_is_no_value :
  match started [] [str "--max-connections"; str "10"] with
  | Some (Ok config) =>
      match loads (ruled_fs (str "MAX_CONNECTIONS = 1024")) config with
      | Some (Ok st) => max_connections (runtime_config st) = 10
      | _ => False
      end
  | _ => False
  end.
Proof. vm_compute. reflexivity. Qed.

(** Connections accepted while an address has no limit are not counted, and are
    taken off the count when they end: after a reload that sets the limit to
    two, an address has three. *)
Example uncounted_connection_released :
  match listening_with [] [] with
  | Some s =>
      match reloads (ruled_fs (str "MAX_CONNECTIONS_PER_IP = 2")) (arrives [1] s) with
      | Some s => running (arrives [1] (arrives [1] (finish 0 0 (arrives [1] (arrives [1] s))))) = [[1]; [1]; [1]]
      | None => False
      end
  | None => False
  end.
Proof. vm_compute. reflexivity. Qed.

(** A word that is no option is passed over, as is a number that is none. *)
Example misspelt_option_ignored :
  parse_cli [str "--prot"; str "9000"; str "--workers"; str "four"] cli_default = cli_default.
Proof. vm_compute. reflexivity. Qed.

(** [config show] names the default root when the file does not set one, whatever
    root it is asked for. *)
Example shown_root_is_the_files :
  match load_diagnostic_config (ruled_fs []) [str "--root"; str "r"; str "--config"; str "conf"] with
  | Some (Ok config) => root_dir config = str "./public"
  | _ => False
  end.
Proof. vm_compute. reflexivity. Qed.

(** The time-out of a socket while a body is streamed is an error of the gateway
    and not of the client. *)
Example slow_body_is_bad_gateway :
  let post := str "POST /api/x HTTP/1.1" ++ CRLF ++ str "Host: x" ++ CRLF ++ str "Content-Length: 5" ++ CRLF2 in
  starts_with (wire (stream (fst (api_serves [] [RData post; RWouldBlock])))) (str "HTTP/1.1 502 ") = true.
Proof. vm_compute. reflexivity. Qed.

(** The answer of an upstream to HEAD is followed by an error of the server's
    own. *)
Example head_answered_twice_by_proxy :
  let answer := str "HTTP/1.1 200 OK" ++ CRLF ++ str "Content-Length: 5" ++ CRLF2 in
  let asked := str "HEAD /api/x HTTP/1.1" ++ CRLF ++ str "Host: x" ++ CRLF2 in
  starts_with (wire (stream (fst (api_serves answer [RData asked]))))
    (str "HTTP/1.1 200 OK" ++ CRLF ++ str "Content-Length: 5" ++ CRLF ++ str "Connection: close" ++ CRLF2 ++ str "HTTP/1.1 408 ") = true.
Proof. vm_compute. reflexivity. Qed.
End Examples.
