(* ===== verification/ListenEffects.v ===== *)
(** * Listening at work

    A server with four workers that accepts two connections, is reloaded while
    they are served, and stops. *)

From S2P Require Import Prelude RustStd Io Config ConfigSet Text Limits Fs ThreadPool Upstreams HealthChecker Http Connection Listener Server Tls Accept AcceptProps Listen ListenProps ServerEffects.

Section Examples.
#[local] Existing Instance ascii_case.

Definition pem_key_of (b : bytes) : option (option bytes) := Some (Some b).
Definition keys_agree (c : list bytes) (k : bytes) : bool := bool_decide (c = [k]).
Definition no_network (_ : list bytes) (_ : bytes) : option (list (option Io)) := None.

Abbreviation listens := (listen pem pem_key_of Some keys_agree 10).
Abbreviation event := (event pem pem_key_of Some keys_agree 10 no_network).
Abbreviation run := (run pem pem_key_of Some keys_agree 10 no_network).
Abbreviation reached := (reached (Fd := bytes) pem pem_key_of Some keys_agree 10 no_network).
Abbreviation watched := (watched (Fd := bytes) pem pem_key_of Some keys_agree 10 no_network).

Definition listening_to (config : ServerConfig) : @System bytes bytes :=
  match listens shop_fs config true (upstreams shop_process) with
  | Some (Ok s) => s
  | _ => mkSystem (Returned true) true true (mkListening config (mkRuntimeState config None) (ConfigCache.new_with_error_log []) ∅ 0 [] None [])
           (mkPool [] false [] None [] [] [] []) [] None (upstreams shop_process) []
  end.

Definition main (answer : Incoming) : @Event bytes := Main shop_fs 0 answer.
Definition turns (n : nat) : list (@Event bytes) := repeat (main WouldBlock) n.

(** A passage with a connection from an address, and a worker's life with it. *)
Definition accepts (ip : bytes) (panicking : bool) : list (@Event bytes) :=
  turns 2 ++ [main (Arrived ip true panicking)] ++ turns 2.
Definition serves (i : nat) : list (@Event bytes) := [Locks i; Receives i; DropsGuards i 0; JobReturns i].
Definition leaves (i : nat) : list (@Event bytes) := [Locks i; Receives i].

Definition after (es : list (@Event bytes)) (config : ServerConfig) : @System bytes bytes :=
  match run (listening_to config) es with Some s => s | None => listening_to config end.

(** One connection for an address: the second is refused, until the first ends. *)
Example one_at_a_time :
  let s := after (accepts [1] true ++ turns 2 ++ [main (Arrived [1] true false)]) one_each in
  stage s = Head /\ map conn_ip (open s) = [[1]] /\
  map conn_ip (open (after (accepts [1] true ++ serves 2 ++ accepts [1] false) one_each)) = [[1]] /\
  panics (pool (after (accepts [1] true ++ serves 2) one_each)) = [2%nat].
Proof. split_and!; vm_compute; reflexivity. Qed.

Lemma listening_reached config :
  match listens shop_fs config true (upstreams shop_process) with Some (Ok _) => true | _ => false end = true ->
  listens shop_fs config true (upstreams shop_process) = Some (Ok (listening_to config)).
Proof. unfold listening_to. by destruct (listens _ _ _ _) as [[]|]. Qed.

Definition told_to_stop : @System bytes bytes := after (accepts [1] true ++ accepts [2] false ++ leaves 1 ++ [Terminate]) shop_config.
(** The connection being served, then the one that waits, and the end. *)
Definition ending : list (@Event bytes) :=
  turns 1 ++ [Hangup; DropsGuards 1 0; JobReturns 1] ++ serves 0 ++ turns 2 ++ leaves 3 ++ leaves 1 ++ leaves 0 ++ leaves 2 ++ turns 1.

Lemma told_run : run (listening_to shop_config) (accepts [1] true ++ accepts [2] false ++ leaves 1 ++ [Terminate]) = Some told_to_stop.
Proof. vm_compute. reflexivity. Qed.

Lemma told_ends : match run told_to_stop ending with Some s => stage s = Returned false /\ length (accepted s) = 2%nat | None => False end.
Proof. vm_compute. split; reflexivity. Qed.

Lemma told_listens : match listens shop_fs shop_config true (upstreams shop_process) with Some (Ok _) => true | _ => false end = true.
Proof. vm_compute. reflexivity. Qed.

Lemma told_flag : shutdown_requested told_to_stop = true.
Proof. vm_compute. reflexivity. Qed.

Lemma shutdown_graceful_witness :
  exists s, run told_to_stop ending = Some s /\ stage s = Returned false /\ length (finished (pool s)) = 2%nat /\ active_connections (listening s) = 0.
Proof.
  pose proof told_ends as Hs. destruct (run told_to_stop ending) as [s|] eqn:E; [|destruct Hs]. destruct Hs as [Hst Ha].
  exists s. split; [reflexivity|]. split; [exact Hst|].
  destruct (shutdown_graceful pem pem_key_of Some keys_agree 10 no_network told_to_stop ending s) as (_ & _ & H).
  - eapply reached_run; [|exact told_run]. eapply reached_listen, listening_reached, told_listens.
  - exact told_flag.
  - exact E.
  - rewrite Hst in H. destruct H as (Hf & _ & Hc & _). split; [|exact Hc].
    apply Permutation_length in Hf. rewrite Hf, length_map. exact Ha.
Defined.

Lemma main_turn_recent (s : @System bytes bytes) : recent s (main WouldBlock).
Proof. exact I. Qed.

Definition in_hand : list (@Event bytes) := turns 2 ++ [main (Arrived [1] true false)].

Lemma in_hand_watched : watched 1 1024 (after in_hand one_each).
Proof.
  assert (H0 : watched 1 1024 (listening_to one_each)).
  { apply (watched_listen _ _ _ _ _ _ _ _ shop_fs one_each (upstreams shop_process)).
    - split; vm_compute; [reflexivity|discriminate].
    - apply listening_reached. vm_compute. reflexivity. }
  assert (H1 : watched 1 1024 (after (turns 1) one_each)).
  { apply (watched_event _ _ _ _ _ _ _ _ (listening_to one_each) (main WouldBlock)); [exact H0|vm_compute; reflexivity|apply main_turn_recent|split; vm_compute; [reflexivity|discriminate]]. }
  assert (H2 : watched 1 1024 (after (turns 2) one_each)).
  { apply (watched_event _ _ _ _ _ _ _ _ (after (turns 1) one_each) (main WouldBlock)); [exact H1|vm_compute; reflexivity|apply main_turn_recent|split; vm_compute; [reflexivity|discriminate]]. }
  apply (watched_event _ _ _ _ _ _ _ _ (after (turns 2) one_each) (main (Arrived [1] true false))).
  - exact H2.
  - vm_compute. reflexivity.
  - intros _ ip b Hb. exfalso. assert (Ha : admission (listening (after (turns 2) one_each)) = ∅) by (vm_compute; reflexivity).
    rewrite Ha in Hb. by rewrite lookup_empty in Hb.
  - split; vm_compute; [reflexivity|discriminate].
Qed.

Lemma connections_served_once_witness : count (admission (listening (after in_hand one_each))) [1] = 1.
Proof.
  destruct (connections_served_once pem pem_key_of Some keys_agree 10 no_network (after in_hand one_each) (watched_reached _ _ _ _ _ _ _ _ _ in_hand_watched))
    as (_ & _ & _ & _ & H).
  destruct (H 1 1024 eq_refl ltac:(discriminate) in_hand_watched) as [_ Hc]. rewrite (proj1 (Hc [1])). vm_compute. reflexivity.
Defined.

(** A rule file whose duration ends in a letter outside ASCII: the reload panics,
    and the server stops serving. *)
Example bad_reload_ends_server :
  match listens (ruled_fs []) (set_root_dir (str "r") (set_config_file (str "conf") server_config_default)) true (upstreams shop_process) with
  | Some (Ok s) =>
      match run s ([Hangup; main WouldBlock; Main (ruled_fs (str "expires 5" ++ [195; 169])) 0 WouldBlock] ++ turns 1 ++
                   leaves 0 ++ leaves 1 ++ leaves 2 ++ leaves 3 ++ turns 1) with
      | Some s => stage s = Returned true /\ shutdown_requested s = false
      | None => False
      end
  | _ => False
  end.
Proof. vm_compute. split; reflexivity. Qed.

(** A handshake that fails, and one that is done at once. *)
Example handshake_outcomes :
  acceptor_accept (Session := bool) (Certificate := bytes) (SigningKey := bytes) (fun _ => Some true) (fun x => x) (fun x io => (x, io, Err 7)) 1
    (mkTlsAcceptor ([], []) ∅) (mkIo [] [] []) = Some (mkIo [] [] [], Err (HandshakeIo 7)) /\
  acceptor_accept (Session := bool) (Certificate := bytes) (SigningKey := bytes) (IoError := Z) (fun _ => Some true) (fun x => x)
    (fun _ io => (false, io, Ok tt)) 1 (mkTlsAcceptor ([], []) ∅) (mkIo [] [] []) = Some (mkIo [] [] [], Ok false).
Proof. split; reflexivity. Qed.
End Examples.
